(** * woocommerce_fusion: item synchronisation (tasks/sync_items.py)

    A shallow embedding of the item reconciliation code of
    [woocommerce_fusion/tasks/sync_items.py] and the properties of its
    specification.

    Conventions of the embedding:
    - Python [str] values are [string]s (the ASCII fragment);
    - Python [int]s are [Z];
    - the Float columns that hold a quantity are rationals; the rounding
      of an addition of floats is a parameter of the environment;
    - a Python exception is the [Raise] constructor of [result];
    - the Frappe database and the WooCommerce REST API are explicit
      arguments: tables are lists of records, a remote server is a
      function from the requests seen so far to the next response. *)

From Stdlib Require Import String Ascii List ZArith Bool Arith Lia.
From Stdlib Require Import Permutation Sorted.
From Stdlib Require QArith.
Import ListNotations.

Local Open Scope string_scope.
Local Open Scope list_scope.

(* ===================================================================== *)
(** * Exceptions *)
(* ===================================================================== *)

(** The exception classes the code raises or catches. *)
Inductive exn : Type :=
| ValueError
| TypeError
| KeyError
| IndexError
| AttributeError
| UnboundLocalError
| JSONDecodeError
| JsonPathError
| DoesNotExistError
| ValidationError
| StopIteration
| SyncDisabledError
| TransportError.

Inductive result (A : Type) : Type :=
| Ok (a : A)
| Raise (e : exn).

Arguments Ok {A} a.
Arguments Raise {A} e.

Definition rbind {A B} (r : result A) (k : A -> result B) : result B :=
  match r with
  | Ok a => k a
  | Raise e => Raise e
  end.

Definition is_ok {A} (r : result A) : bool :=
  match r with Ok _ => true | Raise _ => false end.

Declare Scope result_scope.
Delimit Scope result_scope with result.
Notation "'let?' x ':=' r 'in' k" :=
  (rbind r (fun x => k))
  (at level 10, x pattern, r at level 100, k at level 200) : result_scope.

(* ===================================================================== *)
(** * Python string primitives *)
(* ===================================================================== *)

Module PyStr.

(** [str.isspace] on one ASCII character: TAB, LF, VT, FF, CR, the four
    separators FS GS RS US and the space.  The [\s] class of [re] on a
    [str] pattern agrees with it on ASCII. *)
Definition is_space (c : ascii) : bool :=
  let n := nat_of_ascii c in
  (((9 <=? n) && (n <=? 13)) || ((28 <=? n) && (n <=? 32)))%nat.

Definition is_digit (c : ascii) : bool :=
  let n := nat_of_ascii c in ((48 <=? n) && (n <=? 57))%nat.

Definition is_empty (s : string) : bool :=
  match s with EmptyString => true | _ => false end.

(** Truthiness of a [str]: non-empty. *)
Definition truthy (s : string) : bool := negb (is_empty s).

Fixpoint lstrip (s : string) : string :=
  match s with
  | String c s' => if is_space c then lstrip s' else s
  | EmptyString => EmptyString
  end.

Fixpoint rstrip (s : string) : string :=
  match s with
  | String c s' =>
      let r := rstrip s' in
      if is_space c && is_empty r then EmptyString else String c r
  | EmptyString => EmptyString
  end.

(** [s.strip()] *)
Definition strip (s : string) : string := rstrip (lstrip s).

(** [c in s] for a one-character needle. *)
Fixpoint contains (c : ascii) (s : string) : bool :=
  match s with
  | String d s' => Ascii.eqb c d || contains c s'
  | EmptyString => false
  end.

(** [s.split(c)] for a one-character separator: never the empty list. *)
Fixpoint split_on (c : ascii) (s : string) : list string :=
  match s with
  | EmptyString => [EmptyString]
  | String d s' =>
      if Ascii.eqb c d then EmptyString :: split_on c s'
      else match split_on c s' with
           | p :: ps => String d p :: ps
           | [] => [String d EmptyString]
           end
  end.

(** [sep.join(l)] *)
Fixpoint join (sep : string) (l : list string) : string :=
  match l with
  | [] => EmptyString
  | [x] => x
  | x :: (_ :: _) as l' => x ++ sep ++ join sep l'
  end.

(** [s[:n]] *)
Fixpoint take (n : nat) (s : string) : string :=
  match n, s with
  | S n', String c s' => String c (take n' s')
  | _, _ => EmptyString
  end.

Definition lower_char (c : ascii) : ascii :=
  let n := nat_of_ascii c in
  if ((65 <=? n) && (n <=? 90))%nat then ascii_of_nat (n + 32) else c.

(** [s.lower()] *)
Fixpoint lower (s : string) : string :=
  match s with
  | String c s' => String (lower_char c) (lower s')
  | EmptyString => EmptyString
  end.

(** [re.split(r"[,\s]+", s)]: [s] cut at every maximal run of commas and
    white space; a run at either end leaves an empty string there. *)
Definition is_sep (c : ascii) : bool := Ascii.eqb c "," || is_space c.

Fixpoint re_split_aux (cur : string) (insep : bool) (s : string)
  : list string :=
  match s with
  | EmptyString => [cur]
  | String c s' =>
      if is_sep c then
        if insep then re_split_aux cur true s'
        else cur :: re_split_aux EmptyString true s'
      else re_split_aux (cur ++ String c EmptyString) false s'
  end.

Definition re_split (s : string) : list string :=
  re_split_aux EmptyString false s.

(** ** [int(s)] and [str(n)] *)

Definition digit_val (c : ascii) : Z := Z.of_nat (nat_of_ascii c - 48)%nat.

(** The digits of a literal, after the sign: decimal digits, where a
    single underscore may stand between two digits.  [prev] tells whether
    the previous character was a digit. *)
Fixpoint int_digits (acc : Z) (prev : bool) (s : string) : option Z :=
  match s with
  | EmptyString => if prev then Some acc else None
  | String c s' =>
      if is_digit c then int_digits (10 * acc + digit_val c)%Z true s'
      else if Ascii.eqb c "_" && prev then
        match s' with
        | String d _ => if is_digit d then int_digits acc false s' else None
        | EmptyString => None
        end
      else None
  end.

(** [int(s)] in base ten; [None] is [ValueError].  (The limit of 4300
    digits of recent interpreters is not modelled.) *)
Definition py_int (s : string) : option Z :=
  match strip s with
  | String "+" s' => int_digits 0%Z false s'
  | String "-" s' => option_map Z.opp (int_digits 0%Z false s')
  | s' => int_digits 0%Z false s'
  end.

Definition digit_char (d : Z) : ascii := ascii_of_nat (48 + Z.to_nat d)%nat.

(** Decimal digits of a positive number, most significant first; the
    fuel is the number of binary digits, which bounds the decimal ones. *)
Fixpoint pos_digits (fuel : nat) (n : Z) (acc : string) : string :=
  match fuel with
  | O => acc
  | S f =>
      if (n <? 10)%Z then String (digit_char n) acc
      else pos_digits f (n / 10)%Z (String (digit_char (n mod 10)%Z) acc)
  end.

(** [str(n)] *)
Definition py_str (n : Z) : string :=
  match n with
  | Z0 => "0"
  | Zpos p => pos_digits (Pos.size_nat p) n EmptyString
  | Zneg p => String "-" (pos_digits (Pos.size_nat p) (Zpos p) EmptyString)
  end.

(** [range(a, b)] as a list. *)
Definition py_range (a b : Z) : list Z :=
  map (fun i => (a + Z.of_nat i)%Z) (seq 0 (Z.to_nat (b - a))).

End PyStr.

Import PyStr.

(* ===================================================================== *)
(** * Temporal range expander: [expand_years] *)
(* ===================================================================== *)

Module ExpandYears.

(** [sorted(l, key=...)] on decorated elements.  The sort of Python is
    stable: elements with equal keys keep their order. *)
Fixpoint insert_by_key (x : Z * string) (l : list (Z * string))
  : list (Z * string) :=
  match l with
  | [] => [x]
  | y :: l' =>
      if (fst x <=? fst y)%Z then x :: y :: l'
      else y :: insert_by_key x l'
  end.

Fixpoint sort_by_key (l : list (Z * string)) : list (Z * string) :=
  match l with
  | [] => []
  | x :: l' => insert_by_key x (sort_by_key l')
  end.

(** The keys [int(x)] of all elements; one element that is no integer
    literal raises [ValueError]. *)
Fixpoint int_keys (l : list string) : result (list (Z * string)) :=
  match l with
  | [] => Ok []
  | x :: l' =>
      match py_int x with
      | None => Raise ValueError
      | Some k =>
          match int_keys l' with
          | Ok ks => Ok ((k, x) :: ks)
          | Raise e => Raise e
          end
      end
  end.

(** The inner helper [normalize(year, base=None)]. *)
Definition normalize (year : string) (base : option string) : string :=
  let year := strip year in
  if (String.length year =? 2)%nat then
    let century :=
      match base with
      | Some b =>
          if truthy b && (String.length b =? 4)%nat then take 2 b else "20"
      | None => "20"
      end in
    century ++ year
  else year.

(** One iteration of the loop over [parts], for a non-empty [part]: the
    strings it appends to [results]. *)
Definition expand_part (part : string) : result (list string) :=
  if contains "-"%char part then
    match split_on "-"%char part with
    | [start; end_] =>
        let start := normalize start None in
        let end_ := normalize end_ (Some start) in
        match py_int start with
        | None => Raise ValueError
        | Some a =>
            match py_int end_ with
            | None => Raise ValueError
            | Some b => Ok (map py_str (py_range a (b + 1)))
            end
        end
    | _ => Raise ValueError
    end
  else Ok [normalize part None].

Fixpoint expand_parts (parts : list string) (results : list string)
  : result (list string) :=
  match parts with
  | [] => Ok results
  | part :: rest =>
      if is_empty part then expand_parts rest results
      else
        match expand_part part with
        | Ok ys => expand_parts rest (results ++ ys)
        | Raise e => Raise e
        end
  end.

Section SetOrder.

(** [set(results)] is iterated in an order that depends on the hashes of
    the strings, which change from one interpreter run to the next: the
    order is a parameter, constrained by [set_order_ok] only. *)
Variable set_iter : list string -> list string.

Definition sorted_set_by_int (results : list string) : result (list string) :=
  match int_keys (set_iter results) with
  | Ok ks => Ok (map snd (sort_by_key ks))
  | Raise e => Raise e
  end.

Definition expand_years (text : string) : result (list string) :=
  match expand_parts (re_split (strip text)) [] with
  | Ok results => sorted_set_by_int results
  | Raise e => Raise e
  end.

End SetOrder.

(** What every iteration order of a set satisfies: each element of the
    list once. *)
Definition set_order_ok (set_iter : list string -> list string) : Prop :=
  forall l, NoDup (set_iter l) /\ (forall x, In x (set_iter l) <-> In x l).

(** One such order: first occurrences, in the order of the list. *)
Fixpoint first_occurrences (seen l : list string) : list string :=
  match l with
  | [] => []
  | x :: l' =>
      if existsb (String.eqb x) seen then first_occurrences seen l'
      else x :: first_occurrences (x :: seen) l'
  end.

Definition set_in_list_order (l : list string) : list string :=
  first_occurrences [] l.

End ExpandYears.

(* ===================================================================== *)
(** * Python values: JSON trees *)
(* ===================================================================== *)

(** The values that travel between the two stores: [None], booleans,
    integers, strings, lists and dicts (a dict keeps insertion order). *)
#[warnings="-register-all"]
Inductive JValue : Type :=
| JNull
| JBool (b : bool)
| JNum (n : Z)
| JStr (s : string)
| JList (l : list JValue)
| JDict (kv : list (string * JValue)).

Module Json.

Fixpoint assoc {A} (k : string) (kv : list (string * A)) : option A :=
  match kv with
  | [] => None
  | (k', v) :: kv' => if String.eqb k k' then Some v else assoc k kv'
  end.

(** [d[k] = v] on a dict kept as an association list: an existing key
    keeps its place. *)
Fixpoint set_key {A} (k : string) (v : A) (kv : list (string * A))
  : list (string * A) :=
  match kv with
  | [] => [(k, v)]
  | (k', v') :: kv' =>
      if String.eqb k k' then (k, v) :: kv' else (k', v') :: set_key k v kv'
  end.

(** Truth value of a Python object. *)
Definition truthy (v : JValue) : bool :=
  match v with
  | JNull => false
  | JBool b => b
  | JNum n => negb (n =? 0)%Z
  | JStr s => PyStr.truthy s
  | JList l => match l with [] => false | _ => true end
  | JDict kv => match kv with [] => false | _ => true end
  end.

(** [a == b]: structural, with [True == 1], [False == 0], and dicts
    compared without regard to the order of their keys. *)
Fixpoint py_eq (a b : JValue) : bool :=
  match a, b with
  | JNull, JNull => true
  | JBool x, JBool y => Bool.eqb x y
  | JNum x, JNum y => (x =? y)%Z
  | JBool x, JNum y => (y =? (if x then 1 else 0))%Z
  | JNum x, JBool y => (x =? (if y then 1 else 0))%Z
  | JStr x, JStr y => String.eqb x y
  | JList xs, JList ys =>
      (fix go (xs ys : list JValue) : bool :=
         match xs, ys with
         | [], [] => true
         | x :: xs', y :: ys' => py_eq x y && go xs' ys'
         | _, _ => false
         end) xs ys
  | JDict xs, JDict ys =>
      (List.length xs =? List.length ys)%nat &&
      (fix go (xs : list (string * JValue)) : bool :=
         match xs with
         | [] => true
         | (k, v) :: xs' =>
             match assoc k ys with
             | Some v' => py_eq v v'
             | None => false
             end && go xs'
         end) xs
  | _, _ => false
  end.

(** [a != b] *)
Definition py_ne (a b : JValue) : bool := negb (py_eq a b).

Definition of_opt_str (o : option string) : JValue :=
  match o with Some s => JStr s | None => JNull end.

End Json.

(* ===================================================================== *)
(** * Python floats that hold a quantity *)
(* ===================================================================== *)

(** The value of a Float column: a rational number.  (The columns hold
    no infinity and no NaN.) *)
Module PyFloat.

Definition float : Type := QArith_base.Q.

(** The float [n / d]. *)
Definition ratio (n : Z) (d : positive) : float := QArith_base.Qmake n d.

(** [float(n)] *)
Definition of_int (n : Z) : float := ratio n 1.

(** [x > 0] *)
Definition is_positive (x : float) : bool :=
  (0 <? QArith_base.Qnum x)%Z.

(** Truth value of a float: not zero. *)
Definition truthy (x : float) : bool :=
  negb (QArith_base.Qnum x =? 0)%Z.

(** [int(x)]: the digits after the point are dropped, towards zero. *)
Definition to_int (x : float) : Z :=
  Z.quot (QArith_base.Qnum x) (Zpos (QArith_base.Qden x)).

(** The sum of two floats where no rounding takes place. *)
Definition exact_add (x y : float) : float :=
  Qreduction.Qred (QArith_base.Qplus x y).

End PyFloat.

(* ===================================================================== *)
(** * Data model: the Local store *)
(* ===================================================================== *)

(** A date and time, as seconds since an epoch ([get_datetime] of the
    stored text). *)
Definition datetime := Z.

Bind Scope Z_scope with datetime.

(** Row of the child table [custom_compatibility] of an Item. *)
Record CompatRow : Type := mkCompatRow {
  years : option string;
  brand : option string;
  model : option string;
  fuel : option string;
  engine_size : option string
}.

(** Row of the child table [custom_woo_attribuetes] of an Item. *)
Record WooAttribute : Type := mkWooAttribute {
  name1 : option string;
  attr_values : option string;
  visible : Z
}.

(** Row of "Item WooCommerce Server", child table of Item: the sync link
    of one item to one server. *)
Record ItemWooCommerceServer : Type := mkIWS {
  iws_name : string;
  idx : nat;
  iws_woocommerce_server : string;
  iws_woocommerce_id : option string;
  enabled : Z;
  woocommerce_last_sync_hash : option datetime;
  iws_modified : datetime
}.

(** An ERPNext Item with the fields the synchronisation reads.  Prices
    are in hundredths; [fields] holds every other field by name, for the
    configured field map. *)
Record Item : Type := mkItem {
  item_code : string;
  item_name : string;
  modified : datetime;
  custom_disable_sync : Z;
  custom_disable_sync_if_not_in_stock : Z;
  category : option string;
  sub_category : option string;
  custom_woo_image_url : option string;
  custom_shipping_class : option string;
  custom_woo_attribuetes : list WooAttribute;
  custom_compatibility : list CompatRow;
  custom_offer_categories : list string;
  woocommerce_servers : list ItemWooCommerceServer;
  has_variants : Z;
  attributes : list string;
  standard_rate : Z;
  created_by_sync : bool;
  fields : list (string * JValue)
}.

Record ProductBundleItem : Type := mkBundleItem {
  pbi_item_code : string;
  qty : PyFloat.float;
  pbi_description : option string
}.

Record ProductBundle : Type := mkBundle {
  pb_name : string;
  new_item_code : string;
  pb_description : option string;
  pb_items : list ProductBundleItem
}.

Record Bin : Type := mkBin {
  bin_item_code : string;
  warehouse : string;
  actual_qty : PyFloat.float
}.

Record ItemPrice : Type := mkItemPrice {
  ip_item_code : string;
  price_list : string;
  price_list_rate : option Z;
  valid_upto : option datetime
}.

Record SalesInvoiceItem : Type := mkSII {
  parent : string;
  parenttype : string;
  sii_item_code : string;
  sii_modified : datetime
}.

Record Translation : Type := mkTranslation {
  source_text : string;
  translated_text : string
}.

(** One row of the field map of a server: [erpnext_field_name] and the
    JSONPath [woocommerce_field_name]. *)
Record FieldMap : Type := mkFieldMap {
  erpnext_field_name : string;
  woocommerce_field_name : string
}.

Record WooCommerceServer : Type := mkServer {
  server_name : string;
  woocommerce_server_url : string;
  api_consumer_key : string;
  api_consumer_secret : string;
  enable_sync : Z;
  enable_image_sync : Z;
  enable_price_list_sync : Z;
  server_price_list : string;
  item_field_map : list FieldMap
}.

(** The Frappe database: one list of rows per table, in storage order. *)
Record DB : Type := mkDB {
  items : list Item;
  bundles : list ProductBundle;
  bins : list Bin;
  item_prices : list ItemPrice;
  sales_invoice_items : list SalesInvoiceItem;
  translations : list Translation;
  servers : list WooCommerceServer;
  item_attributes : list (string * list string);
  now : datetime
}.

(* ===================================================================== *)
(** * Data model: the Remote store *)
(* ===================================================================== *)

(** A "WooCommerce Product" document.  [wc_name] is the document name,
    absent until the product exists remotely; [id] is the attribute the
    create paths set after the insert; [tree] is the document as a dict,
    its list and dict fields serialised as JSON text. *)
Record WooCommerceProduct : Type := mkProduct {
  wc_name : option string;
  woocommerce_server : string;
  woocommerce_id : option string;
  woocommerce_name : option string;
  woocommerce_date_modified : option datetime;
  wc_type : string;
  wc_status : string;
  regular_price : JValue;
  id : JValue;
  tree : list (string * JValue)
}.

(** The HTTP and document calls that reach the remote server, one
    constructor per call site. *)
Inductive Request : Type :=
| PushProduct (url : string) (product_id : JValue)
    (payload : list (string * JValue))
    (* requests.put in push_wc_product, on f"{url}/{product_id}" *)
| SaveProduct (p : WooCommerceProduct)       (* wc_product.save() *)
| InsertProduct (p : WooCommerceProduct)     (* wc_product.insert() *)
| LoadProduct (name : string)                (* load_from_db() *)
| GetProductById (wc_id : string)
    (* frappe.get_doc("WooCommerce Product", {"woocommerce_id": ...}) *)
| ListProducts (server : string) (wc_id : option string) (start : nat)
    (* WooCommerceProduct.get_list *)
| GetCategories (search : string)
    (* wcapi.get("products/categories") *)
| PostCategory (name : string) (parent_id : JValue)
    (* wcapi.post("products/categories") *)
| GetOfferCategories (url : string).
    (* requests.get on wp/v2/offer_category *)

(** What comes back: a status code with a JSON body, a status code with
    a body that is no JSON, product documents, or an exception of the
    transport. *)
Inductive Response : Type :=
| HttpJson (status_code : Z) (body : JValue)
| HttpText (status_code : Z) (text : string)
| Products (l : list WooCommerceProduct)
| Failure (e : exn).

(** A remote server answers a request knowing the requests it has served
    so far (oldest first). *)
Definition Remote : Type := list Request -> Request -> Response.

(* ===================================================================== *)
(** * The world and the monad of the synchronisation *)
(* ===================================================================== *)

(** What surrounds the code and is not state: the remote server, the
    JSONPath library, the iteration order of sets, the row order of a
    query with [ORDER BY RAND()], the addition of floats and the JSON
    decoder. *)
Record Env : Type := mkEnv {
  remote : Remote;
  (* jsonpath_ng: parse(path).find(tree), the matched values *)
  jsonpath_find : string -> JValue -> result (list JValue);
  (* jsonpath_ng: parse(path).update(tree, value) *)
  jsonpath_update : string -> JValue -> JValue -> JValue;
  (* WooCommerceProduct.deserialize_attributes_of_type_dict_or_list *)
  deserialize : WooCommerceProduct -> JValue;
  (* WooCommerceProduct.serialize_attributes_of_type_dict_or_list *)
  serialize : WooCommerceProduct -> JValue -> WooCommerceProduct;
  set_iter : list string -> list string;
  set_iter_json : list JValue -> list JValue;
  rand_order : list ItemWooCommerceServer -> list ItemWooCommerceServer;
  (* x + y on two floats, rounded as the interpreter rounds it *)
  float_add : PyFloat.float -> PyFloat.float -> PyFloat.float;
  (* json.loads(items) in bulk_run_item_sync, for a text that encodes a
     list of item codes; the error of a text that encodes none *)
  json_loads : string -> result (list string)
}.

(** A job handed to [frappe.enqueue]: a [SynchroniseItem.run] that
    starts from a product or from an item and the index of a link. *)
Inductive Job : Type :=
| RunFromProduct (p : WooCommerceProduct)
| RunFromItem (i : Item) (item_woocommerce_server_idx : nat).

Record World : Type := mkWorld {
  db : DB;
  log : list string;        (* frappe.log_error, first argument *)
  sent : list Request;      (* remote calls issued, oldest first *)
  queue : list Job          (* frappe.enqueue *)
}.

Definition M (A : Type) : Type := World -> result A * World.

Definition ret {A} (a : A) : M A := fun w => (Ok a, w).

Definition raise {A} (e : exn) : M A := fun w => (Raise e, w).

Definition bind {A B} (m : M A) (k : A -> M B) : M B :=
  fun w =>
    match m w with
    | (Ok a, w') => k a w'
    | (Raise e, w') => (Raise e, w')
    end.

(** [try: m except Exception as e: h e] *)
Definition try_except {A} (m : M A) (h : exn -> M A) : M A :=
  fun w =>
    match m w with
    | (Ok a, w') => (Ok a, w')
    | (Raise e, w') => h e w'
    end.

Declare Scope sync_scope.
Delimit Scope sync_scope with sync.
Notation "x <- m ;; k" := (bind m (fun x => k))
  (at level 61, m at next level, right associativity) : sync_scope.
Notation "m ;; k" := (bind m (fun _ => k))
  (at level 61, right associativity) : sync_scope.
Notation "' p <- m ;; k" := (bind m (fun x => match x with p => k end))
  (at level 61, p pattern, m at next level, right associativity) : sync_scope.

Local Open Scope sync_scope.

Definition get_db : M DB := fun w => (Ok (db w), w).

Definition put_db (d : DB) : M unit :=
  fun w => (Ok tt, mkWorld d (log w) (sent w) (queue w)).

(** [frappe.log_error(title, ...)] *)
Definition log_error (title : string) : M unit :=
  fun w => (Ok tt, mkWorld (db w) (log w ++ [title]) (sent w) (queue w)).

(** [frappe.enqueue(sync.run)] *)
Definition enqueue_job (j : Job) : M unit :=
  fun w => (Ok tt, mkWorld (db w) (log w) (sent w) (queue w ++ [j])).

Definition lift {A} (r : result A) : M A := fun w => (r, w).

(** [for x in l: body x] *)
Fixpoint for_each {A} (l : list A) (body : A -> M unit) : M unit :=
  match l with
  | [] => ret tt
  | x :: l' => body x ;; for_each l' body
  end.

(** A loop that builds a list by [append]. *)
Fixpoint map_m {A B} (f : A -> M B) (l : list A) : M (list B) :=
  match l with
  | [] => ret []
  | x :: l' => y <- f x ;; ys <- map_m f l' ;; ret (y :: ys)
  end.

(* ===================================================================== *)
(** * Database access *)
(* ===================================================================== *)

Module Frappe.

Definition find_item (d : DB) (code : string) : option Item :=
  find (fun i => String.eqb (item_code i) code) (items d).

(** [frappe.get_doc("Item", code)] *)
Definition get_item (code : string) : M Item :=
  d <- get_db ;;
  match find_item d code with
  | Some i => ret i
  | None => raise DoesNotExistError
  end.

(** [frappe.get_cached_doc("WooCommerce Server", name)] *)
Definition get_server (name : string) : M WooCommerceServer :=
  d <- get_db ;;
  match find (fun s => String.eqb (server_name s) name) (servers d) with
  | Some s => ret s
  | None => raise DoesNotExistError
  end.

(** The first "Product Bundle" whose [new_item_code] is [code]. *)
Definition find_bundle (d : DB) (code : string) : option ProductBundle :=
  find (fun b => String.eqb (new_item_code b) code) (bundles d).

(** [frappe.get_all("WooCommerce Server", filters={"enable_sync": 1},
    limit=1)] *)
Definition enabled_servers (d : DB) : list WooCommerceServer :=
  firstn 1 (filter (fun s => (enable_sync s =? 1)%Z) (servers d)).

(** The link with its [modified] set to [t]. *)
Definition with_modified (t : datetime) (l : ItemWooCommerceServer)
  : ItemWooCommerceServer :=
  mkIWS (iws_name l) (idx l) (iws_woocommerce_server l)
        (iws_woocommerce_id l) (enabled l) (woocommerce_last_sync_hash l) t.

(** The document as [save] writes it at time [t]: [modified] of the
    item and of every row of its child table is [t]. *)
Definition saved_at (t : datetime) (i : Item) : Item :=
  mkItem (item_code i) (item_name i) t
    (custom_disable_sync i) (custom_disable_sync_if_not_in_stock i)
    (category i) (sub_category i) (custom_woo_image_url i)
    (custom_shipping_class i) (custom_woo_attribuetes i)
    (custom_compatibility i) (custom_offer_categories i)
    (map (with_modified t) (woocommerce_servers i))
    (has_variants i) (attributes i) (standard_rate i) (created_by_sync i)
    (fields i).

(** [item.save()]: the document takes the current time as [modified],
    its rows too, and the stored row of the item becomes the document.
    The document is changed in place: the result is the document after
    the call. *)
Definition save_item (i : Item) : M Item :=
  d <- get_db ;;
  let i := saved_at (now d) i in
  put_db (mkDB
    (map (fun j => if String.eqb (item_code j) (item_code i) then i else j)
         (items d))
    (bundles d) (bins d) (item_prices d) (sales_invoice_items d)
    (translations d) (servers d) (item_attributes d) (now d)) ;;
  ret i.

(** All rows of "Item WooCommerce Server", each with its parent. *)
Definition all_links (d : DB) : list (string * ItemWooCommerceServer) :=
  flat_map (fun i => map (fun l => (item_code i, l)) (woocommerce_servers i))
           (items d).

(** The filter [["is", "set"]] on a text column. *)
Definition is_set (o : option string) : bool :=
  match o with Some s => PyStr.truthy s | None => false end.

(** [frappe.db.set_value("Item WooCommerce Server", name, field, value,
    update_modified=False)]: [upd] changes the one field of the rows
    called [name]; [iws_modified] is left as it is. *)
Definition set_link_value (name : string)
  (upd : ItemWooCommerceServer -> ItemWooCommerceServer) : M unit :=
  d <- get_db ;;
  put_db (mkDB
    (map (fun i =>
       mkItem (item_code i) (item_name i) (modified i)
         (custom_disable_sync i) (custom_disable_sync_if_not_in_stock i)
         (category i) (sub_category i) (custom_woo_image_url i)
         (custom_shipping_class i) (custom_woo_attribuetes i)
         (custom_compatibility i) (custom_offer_categories i)
         (map (fun l => if String.eqb (iws_name l) name then upd l else l)
              (woocommerce_servers i))
         (has_variants i) (attributes i) (standard_rate i) (created_by_sync i)
         (fields i))
       (items d))
    (bundles d) (bins d) (item_prices d) (sales_invoice_items d)
    (translations d) (servers d) (item_attributes d) (now d)).

Definition with_last_sync_hash (h : option datetime)
  (l : ItemWooCommerceServer) : ItemWooCommerceServer :=
  mkIWS (iws_name l) (idx l) (iws_woocommerce_server l)
        (iws_woocommerce_id l) (enabled l) h (iws_modified l).

Definition with_enabled (e : Z) (l : ItemWooCommerceServer)
  : ItemWooCommerceServer :=
  mkIWS (iws_name l) (idx l) (iws_woocommerce_server l)
        (iws_woocommerce_id l) e (woocommerce_last_sync_hash l)
        (iws_modified l).

Definition with_woocommerce_id (i : option string)
  (l : ItemWooCommerceServer) : ItemWooCommerceServer :=
  mkIWS (iws_name l) (idx l) (iws_woocommerce_server l)
        i (enabled l) (woocommerce_last_sync_hash l) (iws_modified l).

(** ["Standard Selling"] price rows of an item, [limit=1]. *)
Definition standard_selling_price (d : DB) (code : string)
  : list ItemPrice :=
  firstn 1
    (filter (fun p => String.eqb (ip_item_code p) code &&
                      String.eqb (price_list p) "Standard Selling")
            (item_prices d)).

End Frappe.

(* ===================================================================== *)
(** * More string helpers used by the builders *)
(* ===================================================================== *)

Module Text.

Fixpoint prefix_of (p s : string) : bool :=
  match p, s with
  | EmptyString, _ => true
  | String a p', String b s' => Ascii.eqb a b && prefix_of p' s'
  | _, _ => false
  end.

(** [s.replace(old, new)] for a non-empty [old]: occurrences are taken
    from the left and do not overlap.  [skip] counts the characters of
    an occurrence still to be dropped. *)
Fixpoint replace_aux (old new : string) (skip : nat) (s : string) : string :=
  match s with
  | EmptyString => EmptyString
  | String c s' =>
      match skip with
      | S k => replace_aux old new k s'
      | O =>
          if prefix_of old s
          then new ++ replace_aux old new (String.length old - 1) s'
          else String c (replace_aux old new 0 s')
      end
  end.

Definition replace (old new s : string) : string := replace_aux old new 0 s.

(** [s.split(sep)[0]]: the text before the first occurrence of [sep]. *)
Fixpoint before (sep s : string) : string :=
  match s with
  | EmptyString => EmptyString
  | String c s' => if prefix_of sep s then EmptyString else String c (before sep s')
  end.

Fixpoint lstrip_char (c : ascii) (s : string) : string :=
  match s with
  | String d s' => if Ascii.eqb c d then lstrip_char c s' else s
  | EmptyString => EmptyString
  end.

(** [s.rstrip(c)] *)
Fixpoint rstrip_char (c : ascii) (s : string) : string :=
  match s with
  | String d s' =>
      let r := rstrip_char c s' in
      if Ascii.eqb c d && is_empty r then EmptyString else String d r
  | EmptyString => EmptyString
  end.

(** [s.strip(c)] *)
Definition strip_char (c : ascii) (s : string) : string :=
  rstrip_char c (lstrip_char c s).

Definition is_alnum (c : ascii) : bool :=
  let n := nat_of_ascii c in
  (((48 <=? n) && (n <=? 57)) || ((65 <=? n) && (n <=? 90))
   || ((97 <=? n) && (n <=? 122)))%nat.

(** The character class of [extract_english]: letters, digits, white
    space, and the characters - / ( ) [ ] . , & + with both quotes. *)
Definition is_english (c : ascii) : bool :=
  is_alnum c || is_space c ||
  existsb (Ascii.eqb c)
    (ascii_of_nat 34 ::
     ["-"; "/"; "("; ")"; "["; "]"; "'"; "."; ","; "&"; "+"]%char).

(** [re.findall(cls+, s)]: the maximal runs of characters of the class. *)
Fixpoint runs_aux (cls : ascii -> bool) (cur : string) (s : string)
  : list string :=
  match s with
  | EmptyString => if is_empty cur then [] else [cur]
  | String c s' =>
      if cls c then runs_aux cls (cur ++ String c EmptyString) s'
      else if is_empty cur then runs_aux cls EmptyString s'
      else cur :: runs_aux cls EmptyString s'
  end.

Definition findall (cls : ascii -> bool) (s : string) : list string :=
  runs_aux cls EmptyString s.

(** [extract_english] *)
Definition extract_english (text : string) : string :=
  strip (join " " (findall is_english text)).

(** [clean_product_name]: both branches on [has_arabic] return the
    English part when there is one. *)
Definition clean_product_name (name : string) : string :=
  let name := strip name in
  let english_part := extract_english name in
  if PyStr.truthy english_part then english_part else name.

(** [re.sub(r'[^a-zA-Z0-9]+', '-', value)] *)
Fixpoint sub_non_alnum (insep : bool) (s : string) : string :=
  match s with
  | EmptyString => EmptyString
  | String c s' =>
      if is_alnum c then String c (sub_non_alnum false s')
      else if insep then sub_non_alnum true s'
      else String "-" (sub_non_alnum true s')
  end.

(** The inner [slugify] of [get_or_create_wc_offer_category], on ASCII
    text, where the normalisation to NFKD changes nothing. *)
Definition slugify (value : string) : string :=
  lower (strip_char "-" (sub_non_alnum false value)).

(** [str(x)] of a price kept in hundredths: the shortest decimal text of
    the float, with one digit after the point at least. *)
Definition float_str (h : Z) : string :=
  let a := Z.abs h in
  let frac := (a mod 100)%Z in
  let frac_text :=
    if (frac mod 10 =? 0)%Z then py_str (frac / 10)
    else if (frac <? 10)%Z then ("0" ++ py_str frac)%string
    else py_str frac in
  ((if (h <? 0)%Z then "-" else "") ++ py_str (a / 100) ++ "."
   ++ frac_text)%string.

End Text.

(* ===================================================================== *)
(** * The synchronisation of one item: [SynchroniseItem] *)
(* ===================================================================== *)

(** [ERPNextItemToSync]: an Item and the index of the server link to
    synchronise. *)
Record ERPNextItemToSync : Type := mkToSync {
  item : Item;
  item_woocommerce_server_idx : nat
}.

(** [i.item_code], where a parameter is called [item_code] too. *)
Definition code_of (i : Item) : string := item_code i.

(** A value of a [meta] dict passed to [push_wc_product]: every call
    site passes text or an integer. *)
Inductive MetaValue : Type :=
| MStr (s : string)
| MInt (n : Z).

Definition meta_str (v : MetaValue) : string :=
  match v with MStr s => s | MInt n => py_str n end.

(** The object [self]: the two sides of the reconciliation and the API
    client, absent when no server has sync enabled. *)
Record SynchroniseItem : Type := mkSync {
  self_item : option ERPNextItemToSync;
  self_woocommerce_product : option WooCommerceProduct;
  wcapi : option WooCommerceServer
}.

Module Sync.

Import Frappe Text.

(** The property [item_woocommerce_server]:
    [self.item.woocommerce_servers[self.item_woocommerce_server_idx - 1]];
    index [-1] is the last row. *)
Definition item_woocommerce_server (it : ERPNextItemToSync)
  : result ItemWooCommerceServer :=
  let rows := woocommerce_servers (item it) in
  match
    match item_woocommerce_server_idx it with
    | O => nth_error (rev rows) 0
    | S n => nth_error rows n
    end
  with
  | Some l => Ok l
  | None => Raise IndexError
  end.

Definition or_empty (o : option string) : string :=
  match o with Some s => s | None => EmptyString end.

Section WithEnv.

Variable env : Env.

(** A call to the remote server: the answer depends on the calls made
    before, and the call is recorded. *)
Definition request (r : Request) : M Response :=
  fun w => (Ok (remote env (sent w) r),
            mkWorld (db w) (log w) (sent w ++ [r]) (queue w)).

(** ** [translate_text] *)
Definition translate_text (arabic_text : string) : M string :=
  if negb (PyStr.truthy arabic_text) then ret EmptyString
  else
    d <- get_db ;;
    match find (fun t => String.eqb (source_text t) arabic_text)
               (translations d) with
    | Some t =>
        ret (if PyStr.truthy (translated_text t) then translated_text t
             else arabic_text)
    | None => ret arabic_text
    end.

(** ** [build_compatibility_data] *)

(** The rows the data is built from: the item's own, or for a bundle
    without rows those of its children. *)
Definition compatibility_entries (item_code : string) : M (list CompatRow) :=
  main_item <- get_item item_code ;;
  let main_compat := custom_compatibility main_item in
  d <- get_db ;;
  match find_bundle d item_code with
  | Some bundle =>
      match main_compat with
      | [] =>
          log_error "Bundle without comp" ;;
          rows <- map_m (fun child =>
                    child_item <- get_item (pbi_item_code child) ;;
                    ret (custom_compatibility child_item))
                  (pb_items bundle) ;;
          ret (concat rows)
      | _ => ret main_compat
      end
  | None => ret main_compat
  end.

(** The years of one row: the expansion joined with commas, or the
    empty text when the row has no years or [expand_years] raises. *)
Definition expanded_years_of (row : CompatRow) : M string :=
  match years row with
  | Some y =>
      if PyStr.truthy y then
        try_except
          (ys <- lift (ExpandYears.expand_years (set_iter env) y) ;;
           ret (join "," ys))
          (fun _ => log_error "Error expanding years" ;; ret EmptyString)
      else ret EmptyString
  | None => ret EmptyString
  end.

Definition compat_key (index : nat) (field : string) : string :=
  ("add_compactable_details_" ++ py_str (Z.of_nat index) ++ "_" ++ field)%string.

(** The body of the loop over [enumerate(compatibility_entries)]. *)
Definition compat_row (meta_data : list (string * MetaValue))
  (index : nat) (row : CompatRow) : M (list (string * MetaValue)) :=
  expanded_years <- expanded_years_of row ;;
  brand <- translate_text (or_empty (brand row)) ;;
  model <- translate_text (or_empty (model row)) ;;
  let m := Json.set_key (compat_key index "brand") (MStr brand) meta_data in
  let m := Json.set_key (compat_key index "model") (MStr model) m in
  let m := Json.set_key (compat_key index "years") (MStr expanded_years) m in
  let m := Json.set_key (compat_key index "variant")
             (MStr (or_empty (fuel row))) m in
  let m := Json.set_key (compat_key index "engine_size")
             (MStr (or_empty (engine_size row))) m in
  ret m.

Fixpoint compat_rows (meta_data : list (string * MetaValue))
  (index : nat) (rows : list CompatRow) : M (list (string * MetaValue)) :=
  match rows with
  | [] => ret meta_data
  | row :: rest =>
      m <- compat_row meta_data index row ;;
      compat_rows m (S index) rest
  end.

Definition build_compatibility_data (item_code : string)
  : M (list (string * MetaValue) * nat) :=
  entries <- compatibility_entries item_code ;;
  match entries with
  | [] => ret ([], O)
  | _ =>
      meta_data <- compat_rows [] 0 entries ;;
      ret (meta_data, List.length entries)
  end.

(** ** [build_item_description] *)

Definition meta_get (meta_data : list (string * MetaValue)) (k : string)
  : string :=
  match Json.assoc k meta_data with
  | Some v => meta_str v
  | None => EmptyString
  end.

Definition nbsp (n : nat) : string :=
  String.concat EmptyString (repeat "&nbsp;" n).

Definition part_line (meta_data : list (string * MetaValue)) (i : nat)
  : string :=
  ("Brand - " ++ meta_get meta_data (compat_key i "brand") ++ nbsp 6
   ++ "Model - " ++ meta_get meta_data (compat_key i "model") ++ nbsp 3
   ++ "- " ++ meta_get meta_data (compat_key i "years"))%string.

Definition newline : string := String (ascii_of_nat 10) EmptyString.

Definition build_item_description (item_code : string) : M string :=
  it <- get_item item_code ;;
  let title := if PyStr.truthy (item_name it) then item_name it
               else code_of it in
  '(meta_data, count) <- build_compatibility_data item_code ;;
  ret (join newline (title :: map (part_line meta_data) (seq 0 count))).

(** ** [push_wc_product] *)

Definition is_none (v : JValue) : bool :=
  match v with JNull => true | _ => false end.

Definition status_ok (code : Z) : bool := (code =? 200)%Z || (code =? 201)%Z.

Definition meta_entry (kv : string * MetaValue) : JValue :=
  JDict [("key", JStr (fst kv)); ("value", JStr (meta_str (snd kv)))].

(** The JSON body of the request: the keyword arguments that are not
    [None], then ["meta_data"] when [meta] is given. *)
Definition push_payload (meta : option (list (string * MetaValue)))
  (fields : list (string * JValue)) : list (string * JValue) :=
  let payload := filter (fun kv => negb (is_none (snd kv))) fields in
  match meta with
  | Some m => Json.set_key "meta_data" (JList (map meta_entry m)) payload
  | None => payload
  end.

(** What [push_wc_product] makes of the answer to its [requests.put]:
    the decoded body of a 200 or 201, and the empty dict with a line in
    the error log for every other status and for every exception. *)
Definition push_outcome (resp : Response) : M JValue :=
  match resp with
  | HttpJson code body =>
      if status_ok code then ret body
      else log_error "Woo API error " ;; ret (JDict [])
  | HttpText code _ =>
      if status_ok code
      then log_error "Woo API exception" ;; ret (JDict [])
      else log_error "Woo API error " ;; ret (JDict [])
  | Products _ => log_error "Woo API exception" ;; ret (JDict [])
  | Failure _ => log_error "Woo API exception" ;; ret (JDict [])
  end.

Definition push_wc_product (product_id : JValue)
  (meta : option (list (string * MetaValue)))
  (fields : list (string * JValue)) : M JValue :=
  d <- get_db ;;
  match enabled_servers d with
  | [] =>
      (* WC_API_URL was never assigned *)
      raise UnboundLocalError
  | server :: _ =>
      let WC_API_URL :=
        (rstrip_char "/" (woocommerce_server_url server)
         ++ "/wp-json/wc/v3/products")%string in
      match push_payload meta fields with
      | [] =>
          log_error "push_wc_product called with no fields or meta" ;;
          ret (JDict [])
      | payload =>
          resp <- request (PushProduct WC_API_URL product_id payload) ;;
          push_outcome resp
      end
  end.

(** ** [set_product_fields] *)

(** [getattr(item.item, name)] *)
Definition getattr_item (i : Item) (name : string) : result JValue :=
  if String.eqb name "item_code" then Ok (JStr (item_code i))
  else if String.eqb name "item_name" then Ok (JStr (item_name i))
  else match Json.assoc name (fields i) with
       | Some v => Ok v
       | None => Raise AttributeError
       end.

(** One turn of the loop over [wc_server.item_field_map]: the tree and
    the dirty flag after it. *)
Definition set_product_field (woocommerce_product : WooCommerceProduct)
  (it : ERPNextItemToSync) (state : JValue * bool) (map : FieldMap)
  : result (JValue * bool) :=
  let '(wc_product_with_deserialised_fields, wc_product_dirty) := state in
  let erpnext_item_field_name := before " | " (erpnext_field_name map) in
  match getattr_item (item it) erpnext_item_field_name with
  | Raise e => Raise e
  | Ok erpnext_item_field_value =>
      match jsonpath_find env (woocommerce_field_name map)
              wc_product_with_deserialised_fields with
      | Raise e => Raise e
      | Ok [] =>
          match wc_name woocommerce_product with
          | Some n => if PyStr.truthy n then Raise ValueError else Ok state
          | None => Ok state
          end
      | Ok (woocommerce_product_field_value :: _) =>
          if Json.py_ne erpnext_item_field_value woocommerce_product_field_value
          then Ok (jsonpath_update env (woocommerce_field_name map)
                     wc_product_with_deserialised_fields
                     erpnext_item_field_value, true)
          else Ok state
      end
  end.

Fixpoint set_product_fields_loop (woocommerce_product : WooCommerceProduct)
  (it : ERPNextItemToSync) (state : JValue * bool) (maps : list FieldMap)
  : result (JValue * bool) :=
  match maps with
  | [] => Ok state
  | map :: rest =>
      match set_product_field woocommerce_product it state map with
      | Ok state' => set_product_fields_loop woocommerce_product it state' rest
      | Raise e => Raise e
      end
  end.

Definition set_product_fields (woocommerce_product : WooCommerceProduct)
  (it : ERPNextItemToSync) : M (bool * WooCommerceProduct) :=
  wc_server <- get_server (woocommerce_server woocommerce_product) ;;
  match item_field_map wc_server with
  | [] => ret (false, woocommerce_product)
  | maps =>
      '(t, wc_product_dirty) <-
        lift (set_product_fields_loop woocommerce_product it
                (deserialize env woocommerce_product, false) maps) ;;
      if wc_product_dirty
      then ret (true, serialize env woocommerce_product t)
      else ret (false, woocommerce_product)
  end.

(** ** [get_or_create_wc_category] *)

(** [for x in v]: the elements of a list, the keys of a dict, the
    characters of a text. *)
Fixpoint chars (s : string) : list JValue :=
  match s with
  | EmptyString => []
  | String c s' => JStr (String c EmptyString) :: chars s'
  end.

Definition py_iter (v : JValue) : result (list JValue) :=
  match v with
  | JList l => Ok l
  | JDict kv => Ok (map (fun p => JStr (fst p)) kv)
  | JStr s => Ok (chars s)
  | _ => Raise TypeError
  end.

(** [v[k]] for a text key [k] *)
Definition py_getitem (v : JValue) (k : string) : result JValue :=
  match v with
  | JDict kv =>
      match Json.assoc k kv with
      | Some x => Ok x
      | None => Raise KeyError
      end
  | _ => Raise TypeError
  end.

(** [v.lower()] *)
Definition py_lower (v : JValue) : result string :=
  match v with
  | JStr s => Ok (lower s)
  | _ => Raise AttributeError
  end.

(** [response.json()] *)
Definition response_json (resp : Response) : M JValue :=
  match resp with
  | HttpJson _ body => ret body
  | HttpText _ _ => raise JSONDecodeError
  | Products _ => raise TypeError
  | Failure e => raise e
  end.

(** The loop over the categories found: the [id] of the first one whose
    name is [name] up to case. *)
Fixpoint first_category_named (name : string) (existing : list JValue)
  : result (option JValue) :=
  match existing with
  | [] => Ok None
  | cat :: rest =>
      match py_getitem cat "name" with
      | Raise e => Raise e
      | Ok n =>
          match py_lower n with
          | Raise e => Raise e
          | Ok ln =>
              if String.eqb ln (lower name) then
                match py_getitem cat "id" with
                | Ok i => Ok (Some i)
                | Raise e => Raise e
                end
              else first_category_named name rest
          end
      end
  end.

(** [parent_id or 0] *)
Definition or_zero (v : JValue) : JValue :=
  if Json.truthy v then v else JNum 0.

(** [res.get("id")] *)
Definition py_get_id (res : JValue) : result JValue :=
  match res with
  | JDict kv =>
      match Json.assoc "id" kv with
      | Some x => Ok x
      | None => Ok JNull
      end
  | _ => Raise AttributeError
  end.

Definition get_or_create_wc_category (self : SynchroniseItem)
  (name : string) (parent_id : JValue) : M JValue :=
  try_except
    (match wcapi self with
     | None => raise AttributeError
     | Some _ =>
         resp <- request (GetCategories name) ;;
         existing <- response_json resp ;;
         cats <- lift (py_iter existing) ;;
         found <- lift (first_category_named name cats) ;;
         match found with
         | Some i => ret i
         | None =>
             resp <- request (PostCategory name (or_zero parent_id)) ;;
             res <- response_json resp ;;
             lift (py_get_id res)
         end
     end)
    (fun _ => log_error "Error creating/fetching category" ;; ret JNull).

(** ** [get_or_create_wc_offer_category] *)

(** [cat.get(k, "").strip().lower()] *)
Definition py_get_text (cat : JValue) (k : string) : result string :=
  match cat with
  | JDict kv =>
      match Json.assoc k kv with
      | Some (JStr s) => Ok (lower (strip s))
      | Some _ => Raise AttributeError
      | None => Ok EmptyString
      end
  | _ => Raise AttributeError
  end.

Fixpoint first_offer_named (name search_slug : string)
  (existing : list JValue) : result (option JValue) :=
  match existing with
  | [] => Ok None
  | cat :: rest =>
      match py_get_text cat "name" with
      | Raise e => Raise e
      | Ok cat_name =>
          match py_get_text cat "slug" with
          | Raise e => Raise e
          | Ok cat_slug =>
              if String.eqb cat_name (lower name)
                 || String.eqb cat_slug search_slug
              then match py_getitem cat "id" with
                   | Ok i => Ok (Some i)
                   | Raise e => Raise e
                   end
              else first_offer_named name search_slug rest
          end
      end
  end.

Definition get_or_create_wc_offer_category (self : SynchroniseItem)
  (name : string) : M JValue :=
  try_except
    (let search_slug := slugify name in
     d <- get_db ;;
     match enabled_servers d with
     | [] => raise UnboundLocalError
     | server :: _ =>
         let wc_base_url := rstrip_char "/" (woocommerce_server_url server) in
         let url := (wc_base_url ++ "/wp-json/wp/v2/offer_category?search="
                     ++ search_slug)%string in
         match wcapi self with
         | None => raise AttributeError   (* self.consumer_key is not set *)
         | Some _ =>
             resp <- request (GetOfferCategories url) ;;
             existing <- response_json resp ;;
             cats <- lift (py_iter existing) ;;
             found <- lift (first_offer_named name search_slug cats) ;;
             match found with
             | Some i => ret i
             | None =>
                 log_error "Offer category not found. Manual creation needed." ;;
                 ret JNull
             end
         end
     end)
    (fun _ => log_error "Error fetching offer categories" ;; ret JNull).

(** ** The "Bought Together" block of [update_woocommerce_product] *)

(** Stable sort of rows by [modified], latest first. *)
Fixpoint insert_row_desc (x : SalesInvoiceItem) (l : list SalesInvoiceItem)
  : list SalesInvoiceItem :=
  match l with
  | [] => [x]
  | y :: l' =>
      if (sii_modified y <=? sii_modified x)%Z then x :: y :: l'
      else y :: insert_row_desc x l'
  end.

Definition order_by_modified_desc (l : list SalesInvoiceItem)
  : list SalesInvoiceItem :=
  fold_right insert_row_desc [] l.

(** The first query: the distinct [parent]s of the invoice lines of the
    item, latest first, a thousand at most. *)
Definition invoices_of (d : DB) (current_item_code : string) : list string :=
  firstn 1000
    (ExpandYears.set_in_list_order
       (map parent
          (order_by_modified_desc
             (filter (fun r => String.eqb (sii_item_code r) current_item_code
                               && String.eqb (parenttype r) "Sales Invoice")
                     (sales_invoice_items d))))).

(** The second query: the codes of the other lines of those invoices,
    in the order the table yields them. *)
Definition co_occurring (d : DB) (invoice_names : list string)
  (current_item_code : string) : list string :=
  map sii_item_code
    (filter (fun r => existsb (String.eqb (parent r)) invoice_names
                      && negb (String.eqb (sii_item_code r) current_item_code))
            (sales_invoice_items d)).

(** [Counter(l)]: each element with its number of occurrences, in the
    order of first occurrence. *)
Fixpoint count_up (x : string) (c : list (string * nat))
  : list (string * nat) :=
  match c with
  | [] => [(x, 1)]
  | (y, n) :: c' =>
      if String.eqb x y then (y, S n) :: c' else (y, n) :: count_up x c'
  end.

Definition Counter (l : list string) : list (string * nat) :=
  fold_left (fun c x => count_up x c) l [].

(** [sorted(c, key=count, reverse=True)]: stable, so codes with equal
    counts keep the order of the counter. *)
Fixpoint insert_by_count (x : string * nat) (l : list (string * nat))
  : list (string * nat) :=
  match l with
  | [] => [x]
  | y :: l' =>
      if (snd y <=? snd x)%nat then x :: y :: l'
      else y :: insert_by_count x l'
  end.

Definition sort_by_count (c : list (string * nat)) : list (string * nat) :=
  fold_right insert_by_count [] c.

(** [c.most_common(n)] *)
Definition most_common (n : nat) (c : list (string * nat))
  : list (string * nat) :=
  firstn n (sort_by_count c).

(** [frappe.db.get_value("Item WooCommerce Server", {"parent": code,
    "woocommerce_id": ["is", "set"]}, "woocommerce_id")] *)
Definition wc_id_of (d : DB) (code : string) : option string :=
  match find (fun pl => String.eqb (fst pl) code
                        && is_set (iws_woocommerce_id (snd pl)))
             (all_links d) with
  | Some pl => iws_woocommerce_id (snd pl)
  | None => None
  end.

(** The loop over [top_items]: the ids of the codes that have one. *)
Definition resolve_wc_ids (d : DB) (top_items : list string) : list string :=
  flat_map (fun code => match wc_id_of d code with
                        | Some i => if PyStr.truthy i then [i] else []
                        | None => []
                        end) top_items.

Definition top_items_of (d : DB) (invoice_names : list string)
  (current_item_code : string) : list string :=
  map fst (most_common 3 (Counter (co_occurring d invoice_names
                                      current_item_code))).

(** The fallback query: three links that have a remote id, in random
    order. *)
Definition random_items (d : DB) : list ItemWooCommerceServer :=
  firstn 3 (rand_order env
              (filter (fun l => is_set (iws_woocommerce_id l))
                      (map snd (all_links d)))).

Definition ids_json (wc_ids : list string) : JValue :=
  JList (map JStr wc_ids).

Definition push_bought_together (product_id : JValue)
  (current_item_code : string) : M unit :=
  try_except
    (d <- get_db ;;
     let invoices := invoices_of d current_item_code in
     wc_ids <-
       match invoices with
       | [] => ret []
       | _ =>
           match top_items_of d invoices current_item_code with
           | [] => ret []
           | top_items =>
               match resolve_wc_ids d top_items with
               | [] => ret []
               | wc_ids =>
                   push_wc_product product_id None
                     [("bundle_product_items", ids_json wc_ids)] ;;
                   log_error "Bought Together Synced" ;;
                   ret wc_ids
               end
           end
       end ;;
     match invoices, wc_ids with
     | _ :: _, _ :: _ => ret tt
     | _, _ =>
         match random_items d with
         | [] =>
             log_error "No random items available for Bought Together fallback"
         | rows =>
             let wc_ids :=
               flat_map (fun l => match iws_woocommerce_id l with
                                  | Some i => if PyStr.truthy i then [i] else []
                                  | None => []
                                  end) rows in
             push_wc_product product_id None
               [("bundle_product_items", ids_json wc_ids)] ;;
             log_error "No invoices found - pushed random Bought Together items"
         end
     end)
    (fun _ => log_error "Bought Together Sync Failed").

(** ** [update_woocommerce_product] *)

Definition with_woocommerce_name (n : string) (p : WooCommerceProduct)
  : WooCommerceProduct :=
  mkProduct (wc_name p) (woocommerce_server p) (woocommerce_id p) (Some n)
            (woocommerce_date_modified p) (wc_type p) (wc_status p)
            (regular_price p) (id p) (tree p).

(** [wc_product.save()]: the document is written to the remote server;
    a failure of the call is raised. *)
Definition save_product (p : WooCommerceProduct) : M unit :=
  resp <- request (SaveProduct p) ;;
  match resp with
  | Failure e => raise e
  | _ => ret tt
  end.

(** [getattr(wc_product, "id", None) or wc_product.get("id") or
    wc_product.get("product_id")] *)
Definition product_id_of (p : WooCommerceProduct) : JValue :=
  let get k := match Json.assoc k (tree p) with
               | Some v => v
               | None => JNull
               end in
  if Json.truthy (id p) then id p
  else if Json.truthy (get "id") then get "id"
  else get "product_id".

(** The name of the product and the mapped fields, then the save when
    either changed. *)
Definition update_name_and_fields (wc_product : WooCommerceProduct)
  (it : ERPNextItemToSync) : M WooCommerceProduct :=
  d <- get_db ;;
  let is_bundle := find_bundle d (item_code (item it)) in
  let clean_name := clean_product_name (item_name (item it)) in
  let renamed :=
    match is_bundle with
    | None =>
        negb (Json.py_eq (Json.of_opt_str (woocommerce_name wc_product))
                         (JStr clean_name))
    | Some _ => false
    end in
  let wc_product :=
    if renamed then with_woocommerce_name clean_name wc_product
    else wc_product in
  let '(wc_product, wc_product_dirty) :=
    match is_bundle with
    | Some bundle_doc =>
        if PyStr.truthy (pb_name bundle_doc) then
          let description := strip (or_empty (pb_description bundle_doc)) in
          (with_woocommerce_name
             (if PyStr.truthy description then description else clean_name)
             wc_product, true)
        else (wc_product, renamed)
    | None => (wc_product, renamed)
    end in
  '(product_fields_changed, wc_product) <- set_product_fields wc_product it ;;
  (if wc_product_dirty || product_fields_changed
   then save_product wc_product else ret tt) ;;
  ret wc_product.

Definition push_images (product_id : JValue) (it : ERPNextItemToSync)
  : M unit :=
  let image_urls := strip (or_empty (custom_woo_image_url (item it))) in
  if PyStr.truthy image_urls then
    let image_list :=
      filter PyStr.truthy (map strip (split_on "," image_urls)) in
    match image_list with
    | [] => ret tt
    | _ =>
        push_wc_product product_id None
          [("images",
            JList (map (fun u => JDict [("src", JStr u)]) image_list))] ;;
        ret tt
    end
  else ret tt.

Definition push_description (product_id : JValue) (it : ERPNextItemToSync)
  : M unit :=
  description_text <- build_item_description (item_code (item it)) ;;
  push_wc_product product_id None [("description", JStr description_text)] ;;
  ret tt.

Definition push_shipping_class (product_id : JValue)
  (it : ERPNextItemToSync) : M unit :=
  let shipping_class := or_empty (custom_shipping_class (item it)) in
  if PyStr.truthy shipping_class then
    try_except
      (push_wc_product product_id None
         [("shipping_class", JStr shipping_class)] ;;
       log_error "Shipping class synced")
      (fun _ => log_error "Failed to push shipping class")
  else ret tt.

(** The options of one attribute row. *)
Definition attribute_options (translated_name : string) (attr : WooAttribute)
  : M (list string) :=
  if String.eqb translated_name "Compatible" then
    let raw_options := or_empty (attr_values attr) in
    log_error "raw_options" ;;
    if PyStr.truthy raw_options then
      translated_opt <- translate_text raw_options ;;
      log_error "translated_opt" ;;
      ret [translated_opt]
    else ret []
  else
    map_m translate_text
      (filter PyStr.truthy
         (map strip (split_on "," (or_empty (attr_values attr))))).

Definition wc_attribute (attr : WooAttribute) : M JValue :=
  translated_name <- translate_text (or_empty (name1 attr)) ;;
  options <- attribute_options translated_name attr ;;
  ret (JDict [("id", JNum 0);
              ("name", JStr translated_name);
              ("visible", JBool (negb (visible attr =? 0)%Z));
              ("variation", JBool false);
              ("options", JList (map JStr options))]).

Definition push_attributes (product_id : JValue) (it : ERPNextItemToSync)
  : M unit :=
  wc_attributes <- map_m wc_attribute (custom_woo_attribuetes (item it)) ;;
  match wc_attributes with
  | [] => ret tt
  | _ =>
      push_wc_product product_id None [("attributes", JList wc_attributes)] ;;
      ret tt
  end.

Definition bins_of (d : DB) (code : string) : list Bin :=
  filter (fun b => String.eqb (bin_item_code b) code) (bins d).

Definition branch_name (warehouse : string) : string :=
  (replace " " "-"
     (strip (replace " - ame" "" (replace "warehouse" "" (lower warehouse))))
   ++ "-branch")%string.

Fixpoint branch_meta (meta_data : list (string * MetaValue)) (index : nat)
  (branch_entries : list Bin) : list (string * MetaValue) :=
  match branch_entries with
  | [] => meta_data
  | b :: rest =>
      let k := ("branch_stock_" ++ py_str (Z.of_nat index))%string in
      let m := Json.set_key (k ++ "_branch")%string
                 (MStr (branch_name (warehouse b))) meta_data in
      let m := Json.set_key (k ++ "_stock_qty")%string
                 (MInt (PyFloat.to_int (actual_qty b))) m in
      branch_meta m (S index) rest
  end.

Definition push_branch_stock (product_id : JValue) (it : ERPNextItemToSync)
  : M unit :=
  try_except
    (d <- get_db ;;
     let bins := bins_of d (item_code (item it)) in
     let branch_entries :=
       filter (fun b => PyFloat.is_positive (actual_qty b)) bins in
     let meta_data := branch_meta [] 0 branch_entries in
     let meta_data :=
       Json.set_key "branch_stock"
         (MInt (Z.of_nat (List.length branch_entries))) meta_data in
     push_wc_product product_id (Some meta_data) [] ;;
     log_error "Branch Stock Synced")
    (fun _ => log_error "Branch Stock Sync Failed").

(** [sum(l)] for a list of floats: the additions from the left, from 0. *)
Definition py_sum (l : list PyFloat.float) : PyFloat.float :=
  fold_left (float_add env) l (PyFloat.of_int 0).

Definition push_stock (product_id : JValue) (it : ERPNextItemToSync)
  : M unit :=
  try_except
    (d <- get_db ;;
     let bins := bins_of d (item_code (item it)) in
     let total_qty := py_sum (map actual_qty bins) in
     let '(stock_status, backorders) :=
       if PyFloat.is_positive total_qty then ("instock", "no")
       else ("onbackorder", "notify") in
     push_wc_product product_id None
       [("manage_stock", JBool true);
        ("stock_quantity", JNum (PyFloat.to_int total_qty));
        ("stock_status", JStr stock_status);
        ("backorders", JStr backorders)] ;;
     log_error "Stock synced")
    (fun _ => log_error "Stock sync failed").

(** [str(price)] for [price_doc[0].price_list_rate if price_doc else 0.0] *)
Definition price_text (price_doc : list ItemPrice) : string :=
  match price_doc with
  | p :: _ =>
      match price_list_rate p with
      | Some r => float_str r
      | None => "None"
      end
  | [] => "0.0"
  end.

Definition push_price (product_id : JValue) (it : ERPNextItemToSync)
  : M unit :=
  try_except
    (d <- get_db ;;
     let price := price_text (standard_selling_price d (item_code (item it))) in
     push_wc_product product_id None
       [("regular_price", JStr price); ("_price", JStr price)] ;;
     log_error "Price synced")
    (fun _ => log_error "Price sync failed").

Definition push_spare_part (product_id : JValue) (it : ERPNextItemToSync)
  : M unit :=
  let is_spare_part :=
    match custom_compatibility (item it) with [] => false | _ => true end in
  push_wc_product product_id
    (Some [("mark_spare_part", MStr (if is_spare_part then "1" else "0"))])
    [] ;;
  ret tt.

Definition push_compatibility (product_id : JValue) (it : ERPNextItemToSync)
  : M unit :=
  '(meta_data, count) <- build_compatibility_data (item_code (item it)) ;;
  match count with
  | O => log_error "No Compatibility Found"
  | S _ =>
      let m := Json.set_key "add_compactable_details"
                 (MStr (py_str (Z.of_nat count))) meta_data in
      let m := Json.set_key "_add_compactable_details"
                 (MStr "field_68e38a56a4d82") m in
      push_wc_product product_id (Some m) [] ;;
      log_error "Compatibility Synced"
  end.

Definition category_entry (i : JValue) : JValue := JDict [("id", i)].

Definition hashable (entry : JValue) : bool :=
  match entry with
  | JDict [(_, JList _)] | JDict [(_, JDict _)] => false
  | _ => true
  end.

Definition push_categories (self : SynchroniseItem) (product_id : JValue)
  (it : ERPNextItemToSync) : M unit :=
  let main_cat := strip (or_empty (category (item it))) in
  let sub_cat := strip (or_empty (sub_category (item it))) in
  categories <-
    (if PyStr.truthy main_cat then
       parent_id <- get_or_create_wc_category self main_cat (JNum 0) ;;
       if PyStr.truthy sub_cat then
         child_id <- get_or_create_wc_category self sub_cat parent_id ;;
         ret [category_entry parent_id; category_entry child_id]
       else ret [category_entry parent_id]
     else ret []) ;;
  (* the list rebuilt from the set of its entries; an entry whose id is
     a list or a dict cannot be put in a set *)
  (if forallb hashable categories then ret tt else raise TypeError) ;;
  let categories := set_iter_json env categories in
  match categories with
  | [] => ret tt
  | _ =>
      try_except
        (push_wc_product product_id None [("categories", JList categories)] ;;
         log_error "Categories Synced (EN)")
        (fun _ => log_error "Failed to sync categories (EN)")
  end.

Definition push_offer_categories (self : SynchroniseItem)
  (product_id : JValue) (it : ERPNextItemToSync) : M unit :=
  offer_categories <-
    map_m (get_or_create_wc_offer_category self)
          (custom_offer_categories (item it)) ;;
  pushed <- push_wc_product product_id None
              [("offer_category", JList offer_categories)] ;;
  if Json.truthy pushed then log_error "offer category pushed" else ret tt.

(** The pushes of [update_woocommerce_product], one field group after
    the other, from the SKU to the "Bought Together" items. *)
Definition push_field_groups (self : SynchroniseItem) (product_id : JValue)
  (it : ERPNextItemToSync) : M unit :=
  push_wc_product product_id None [("sku", JStr (item_code (item it)))] ;;
  push_images product_id it ;;
  push_description product_id it ;;
  push_shipping_class product_id it ;;
  push_attributes product_id it ;;
  push_branch_stock product_id it ;;
  push_stock product_id it ;;
  push_price product_id it ;;
  push_spare_part product_id it ;;
  push_compatibility product_id it ;;
  push_categories self product_id it ;;
  push_offer_categories self product_id it ;;
  push_bought_together product_id (item_code (item it)).

(** The body of [update_woocommerce_product].  The name of [wc_product]
    is changed in place, so the document after the call is returned. *)
Definition update_woocommerce_product (self : SynchroniseItem)
  (wc_product : WooCommerceProduct) (it : ERPNextItemToSync)
  : M WooCommerceProduct :=
  d <- get_db ;;
  match firstn 1 (servers d) with
  | [] => raise IndexError
  | server :: _ =>
      if (enable_sync server =? 0)%Z then ret wc_product
      else
        log_error "351" ;;
        wc_product <- update_name_and_fields wc_product it ;;
        push_field_groups self (product_id_of wc_product) it ;;
        ret wc_product
  end.

(** ** [set_sync_hash] *)

(** The arguments of the first [set_value] are evaluated in order: the
    name of the link, then the date of the product. *)
Definition set_sync_hash (self : SynchroniseItem) : M unit :=
  match self_item self with
  | None => raise AttributeError
  | Some it =>
      l <- lift (item_woocommerce_server it) ;;
      match self_woocommerce_product self with
      | None => raise AttributeError
      | Some wc_product =>
          set_link_value (iws_name l)
            (with_last_sync_hash (woocommerce_date_modified wc_product)) ;;
          (* If item was synchronised but the item is set not to sync,
             turn on the enabled flag *)
          set_link_value (iws_name l) (with_enabled 1)
      end
  end.

(** ** [get_item_price_rate] *)

(** [next((price.price_list_rate for price in item_prices if not
    price.valid_upto or price.valid_upto > now()), None)].  [now()] is
    a text and [valid_upto] a date: the comparison raises [TypeError]
    at the first row it is evaluated for, a row that has a
    [valid_upto]. *)
Definition first_rate (item_prices : list ItemPrice) : result (option Z) :=
  match item_prices with
  | [] => Ok None
  | price :: rest =>
      match valid_upto price with
      | None => Ok (price_list_rate price)
      | Some _ => Raise TypeError
      end
  end.

(** [frappe.get_all("Item Price", filters={"item_code":
    item.item.item_name, "price_list": wc_server.price_list})] *)
Definition item_prices_of (d : DB) (it : ERPNextItemToSync)
  (wc_server : WooCommerceServer) : list ItemPrice :=
  filter (fun p => String.eqb (ip_item_code p) (item_name (item it))
                   && String.eqb (price_list p) (server_price_list wc_server))
         (item_prices d).

Definition get_item_price_rate (it : ERPNextItemToSync) : M (option Z) :=
  l <- lift (item_woocommerce_server it) ;;
  wc_server <- get_server (iws_woocommerce_server l) ;;
  if (enable_price_list_sync wc_server =? 0)%Z then ret None
  else
    d <- get_db ;;
    lift (first_rate (item_prices_of d it wc_server)).

(** ** Documents of the remote store *)

(** [frappe.get_doc({"doctype": "WooCommerce Product"})] *)
Definition new_product : WooCommerceProduct :=
  mkProduct None EmptyString None None None EmptyString EmptyString
            JNull JNull [].

(** [wc_product.insert()]: the remote server creates the product and
    the document takes the identity it was given. *)
Definition insert_product (p : WooCommerceProduct) : M WooCommerceProduct :=
  resp <- request (InsertProduct p) ;;
  match resp with
  | Products (created :: _) => ret created
  | Failure e => raise e
  | _ => raise TypeError
  end.

Definition with_id (p : WooCommerceProduct) : WooCommerceProduct :=
  mkProduct (wc_name p) (woocommerce_server p) (woocommerce_id p)
            (woocommerce_name p) (woocommerce_date_modified p) (wc_type p)
            (wc_status p) (regular_price p)
            (Json.of_opt_str (woocommerce_id p)) (tree p).

(** The item document with the remote id written on the link
    [item_woocommerce_server]. *)
Definition set_item_link_id (it : ERPNextItemToSync) (i : option string)
  (flag : bool) : result ERPNextItemToSync :=
  match item_woocommerce_server it with
  | Raise e => Raise e
  | Ok l =>
      let d := item it in
      Ok (mkToSync
        (mkItem (item_code d) (item_name d) (modified d)
           (custom_disable_sync d) (custom_disable_sync_if_not_in_stock d)
           (category d) (sub_category d) (custom_woo_image_url d)
           (custom_shipping_class d) (custom_woo_attribuetes d)
           (custom_compatibility d) (custom_offer_categories d)
           (map (fun l' => if String.eqb (iws_name l') (iws_name l)
                           then with_woocommerce_id i l' else l')
                (woocommerce_servers d))
           (has_variants d) (attributes d) (standard_rate d)
           (flag || created_by_sync d) (fields d))
        (item_woocommerce_server_idx it))
  end.

(** [update_woocommerce_product] inside [try: ... except Exception],
    as both create paths call it. *)
Definition try_update (self : SynchroniseItem) (p : WooCommerceProduct)
  (it : ERPNextItemToSync) : M WooCommerceProduct :=
  try_except (update_woocommerce_product self p it)
    (fun _ =>
       log_error "Failed to update WooCommerce product after creation" ;;
       ret p).

(** ** [create_bundle_product] *)

(** [frappe.db.get_value("Item WooCommerce Server", {"parent": code},
    "woocommerce_id")] *)
Definition first_link_id (d : DB) (code : string) : option string :=
  match find (fun pl => String.eqb (fst pl) code) (all_links d) with
  | Some pl => iws_woocommerce_id (snd pl)
  | None => None
  end.

Fixpoint woosb_ids (d : DB) (index : nat) (rows : list ProductBundleItem)
  : list (string * JValue) :=
  match rows with
  | [] => []
  | bi :: rest =>
      match first_link_id d (pbi_item_code bi) with
      | Some wc_id =>
          if PyStr.truthy wc_id then
            (("k" ++ py_str (Z.of_nat index))%string,
             JDict [("id", JStr wc_id);
                    ("sku", JStr (pbi_item_code bi));
                    ("qty", JStr (py_str (if PyFloat.truthy (qty bi)
                                          then PyFloat.to_int (qty bi)
                                          else 1)));
                    ("min", JStr EmptyString);
                    ("max", JStr EmptyString)])
            :: woosb_ids d (S index) rest
          else woosb_ids d (S index) rest
      | None => woosb_ids d (S index) rest
      end
  end.

Definition create_bundle_product (self : SynchroniseItem)
  (it : ERPNextItemToSync) : M SynchroniseItem :=
  let failed (s : SynchroniseItem) :=
    log_error "Woo Bundle Creation Failed" ;; ret s in
  d <- get_db ;;
  match find_bundle d (item_code (item it)) with
  | None => log_error "No Product Bundle found for item" ;; ret self
  | Some bundle_doc =>
      if negb (PyStr.truthy (pb_name bundle_doc))
      then log_error "No Product Bundle found for item" ;; ret self
      else
        match pb_items bundle_doc with
        | [] => log_error "No Product Bundle Items found" ;; ret self
        | bundle_items =>
            match woosb_ids d 0 bundle_items with
            | [] =>
                log_error "No WooCommerce IDs found for bundle items" ;;
                ret self
            | ids =>
                let clean_name := clean_product_name (item_name (item it)) in
                log_error "clean_name" ;;
                match item_woocommerce_server it with
                | Raise _ => failed self
                | Ok l =>
                    let description :=
                      strip (or_empty (pb_description bundle_doc)) in
                    let doc :=
                      mkProduct None (iws_woocommerce_server l) None
                        (Some (if PyStr.truthy description then description
                               else clean_name))
                        None "woosb" "publish"
                        (JNum (standard_rate (item it))) JNull
                        [("meta_data",
                          JList [JDict [("key", JStr "adv_badge");
                                        ("value", JStr "combo")];
                                 JDict [("key", JStr "woosb_ids");
                                        ("value", JDict ids)]])] in
                    try_except
                      (wc_product <- insert_product doc ;;
                       let wc_product := with_id wc_product in
                       let self := mkSync (self_item self) (Some wc_product)
                                          (wcapi self) in
                       try_except
                         (it' <- lift (set_item_link_id it
                                         (woocommerce_id wc_product) false) ;;
                          saved <- save_item (item it') ;;
                          let it' :=
                            mkToSync saved (item_woocommerce_server_idx it) in
                          let self := mkSync (Some it') (Some wc_product)
                                             (wcapi self) in
                          wc_product <- try_update self wc_product it' ;;
                          log_error " Woo Bundle Synced Successfully" ;;
                          ret (mkSync (Some it') (Some wc_product)
                                      (wcapi self)))
                         (fun _ => failed self))
                      (fun _ => failed self)
                end
            end
        end
  end.

(** ** [create_woocommerce_product] *)

(** The attribute rows of a product with variants. *)
Definition variant_attribute (row : string) : M (list JValue) :=
  d <- get_db ;;
  match Json.assoc row (item_attributes d) with
  | Some options =>
      ret [JDict [("name", JStr row);
                  ("slug", JStr (replace " " "_" (lower row)));
                  ("visible", JBool true);
                  ("variation", JBool true);
                  ("options", JList (map JStr options))]]
  | None => log_error "Error loading attribute" ;; ret []
  end.

Definition with_tree_key (k : string) (v : JValue) (p : WooCommerceProduct)
  : WooCommerceProduct :=
  mkProduct (wc_name p) (woocommerce_server p) (woocommerce_id p)
            (woocommerce_name p) (woocommerce_date_modified p) (wc_type p)
            (wc_status p) (regular_price p) (id p)
            (Json.set_key k v (tree p)).

(** The document the product is created from, when the link names no
    product that could be fetched. *)
Definition fresh_product (it : ERPNextItemToSync) : M WooCommerceProduct :=
  let base ty :=
    mkProduct None EmptyString None None None ty "publish" JNull JNull [] in
  if (has_variants (item it) =? 0)%Z then ret (base "simple")
  else
    rows <- map_m variant_attribute (attributes (item it)) ;;
    ret (with_tree_key "attributes" (JList (concat rows)) (base "variable")).

(** The lookup of the product the link names; every failure is logged
    and leaves [wc_product] at [None]. *)
Definition existing_product (l : ItemWooCommerceServer)
  : M (option WooCommerceProduct) :=
  match iws_woocommerce_id l with
  | Some i =>
      if PyStr.truthy i then
        resp <- request (GetProductById i) ;;
        match resp with
        | Products (p :: _) => ret (Some p)
        | _ =>
            log_error "Failed to get existing WooCommerce Product" ;;
            ret None
        end
      else ret None
  | None => ret None
  end.

Definition with_core_fields (clean_name server : string)
  (price : option Z) (p : WooCommerceProduct) : WooCommerceProduct :=
  mkProduct (wc_name p) server (woocommerce_id p)
    (if Json.py_ne (Json.of_opt_str (woocommerce_name p)) (JStr clean_name)
     then Some clean_name else woocommerce_name p)
    (woocommerce_date_modified p) (wc_type p) (wc_status p)
    (match price with
     | Some r => if (r =? 0)%Z then JStr "0" else JNum r
     | None => JStr "0"
     end)
    (id p) (tree p).

(** [item] is [self.item] at every call: it is one object, so the item
    after the call is the item of the returned [self]. *)
Definition create_woocommerce_product (self : SynchroniseItem)
  (it : ERPNextItemToSync) : M SynchroniseItem :=
  log_error "creating " ;;
  d <- get_db ;;
  match find_bundle d (item_code (item it)) with
  | Some _ =>
      log_error "its a bundle" ;;
      l <- lift (item_woocommerce_server it) ;;
      create_bundle_product self it
  | None =>
      found <- match item_woocommerce_server it with
               | Ok l => existing_product l
               | Raise _ =>
                   log_error "Failed to get existing WooCommerce Product" ;;
                   ret None
               end ;;
      wc_product <- match found with
                    | Some p => ret p
                    | None => fresh_product it
                    end ;;
      let clean_name := clean_product_name (item_name (item it)) in
      log_error "clean_name" ;;
      l <- lift (item_woocommerce_server it) ;;
      price <- get_item_price_rate it ;;
      let wc_product :=
        with_core_fields clean_name (iws_woocommerce_server l) price
                         wc_product in
      (* the result of set_product_fields is dropped *)
      try_except (set_product_fields wc_product it ;; ret tt)
        (fun _ => log_error "Failed to set product fields") ;;
      wc_product <-
        match wc_name wc_product with
        | Some n => if PyStr.truthy n then ret wc_product
                    else insert_product wc_product
        | None => insert_product wc_product
        end ;;
      let wc_product := with_id wc_product in
      it <- try_except
              (reloaded <- get_item (item_code (item it)) ;;
               let it := mkToSync reloaded (item_woocommerce_server_idx it) in
               try_except
                 (it' <- lift (set_item_link_id it
                                 (woocommerce_id wc_product) true) ;;
                  saved <- save_item (item it') ;;
                  ret (mkToSync saved (item_woocommerce_server_idx it)))
                 (fun _ =>
                    log_error "Failed to update ERPNext item with WC ID" ;;
                    ret it))
              (fun _ =>
                 log_error "Failed to update ERPNext item with WC ID" ;;
                 ret it) ;;
      let self := mkSync (Some it) (Some wc_product) (wcapi self) in
      wc_product <- try_update self wc_product it ;;
      let self := mkSync (Some it) (Some wc_product) (wcapi self) in
      set_sync_hash self ;;
      ret self
  end.

(** ** [update_item] and [create_item] *)

(** [update_item] returns after its first statement: "Woo to ERP not
    requred. only one side".  The statements after the [return] are
    never executed. *)
Definition update_item (self : SynchroniseItem)
  (woocommerce_product : WooCommerceProduct) (it : ERPNextItemToSync)
  : M SynchroniseItem :=
  log_error "new" ;;
  ret self.

(** [create_item] returns at once: "no need to sync from woo-to-erp". *)
Definition create_item (self : SynchroniseItem)
  (wc_product : WooCommerceProduct) : M SynchroniseItem :=
  ret self.

(** ** [get_list_of_wc_products] *)

(** The [while new_results] loop for a call with [item]: pages of a
    hundred until a page comes back shorter.  [fuel] bounds the number
    of pages; the loop of the source has no bound. *)
Fixpoint get_list_pages (fuel : nat) (server : string)
  (wc_id : option string) (start : nat) : M (option (list WooCommerceProduct)) :=
  match fuel with
  | O => ret None
  | S fuel' =>
      resp <- request (ListProducts server wc_id start) ;;
      match resp with
      | Products new_results =>
          if (List.length new_results <? 100)%nat
          then ret (Some new_results)
          else
            more <- get_list_pages fuel' server wc_id (start + 100) ;;
            ret (option_map (app new_results) more)
      | Failure e => raise e
      | _ => raise TypeError
      end
  end.

Definition get_list_of_wc_products (fuel : nat) (it : ERPNextItemToSync)
  : M (option (list WooCommerceProduct)) :=
  l <- lift (item_woocommerce_server it) ;;
  get_list_pages fuel (iws_woocommerce_server l) (iws_woocommerce_id l) 0.

(** ** [get_erpnext_item] *)
Definition get_erpnext_item (self : SynchroniseItem)
  (wc_product : WooCommerceProduct) : M SynchroniseItem :=
  if negb (PyStr.truthy (woocommerce_server wc_product)
           && is_set (woocommerce_id wc_product))
  then raise ValueError
  else
    d <- get_db ;;
    match find (fun pl =>
                  String.eqb (iws_woocommerce_server (snd pl))
                             (woocommerce_server wc_product)
                  && Json.py_eq (Json.of_opt_str (iws_woocommerce_id (snd pl)))
                                (Json.of_opt_str (woocommerce_id wc_product)))
               (all_links d) with
    | None => ret self
    | Some (parent, row) =>
        found_item <- get_item parent ;;
        match find (fun server => String.eqb (iws_name server) (iws_name row))
                   (woocommerce_servers found_item) with
        | Some server =>
            ret (mkSync (Some (mkToSync found_item (idx server)))
                        (self_woocommerce_product self) (wcapi self))
        | None => raise StopIteration
        end
    end.

(** ** [get_corresponding_item_or_product] *)
Definition get_corresponding_item_or_product (fuel : nat)
  (self : SynchroniseItem) : M (option SynchroniseItem) :=
  self' <-
    match self_item self, self_woocommerce_product self with
    | Some it, None =>
        l <- lift (item_woocommerce_server it) ;;
        if is_set (iws_woocommerce_id l) then
          wc_server <- get_server (iws_woocommerce_server l) ;;
          if (enable_sync wc_server =? 0)%Z then raise SyncDisabledError
          else
            found <- get_list_of_wc_products fuel it ;;
            match found with
            | None => ret None
            | Some [] =>
                log_error "WooCommerce Product Not Found" ;;
                s <- create_woocommerce_product self it ;;
                ret (Some s)
            | Some (p :: _) =>
                ret (Some (mkSync (self_item self) (Some p) (wcapi self)))
            end
        else ret (Some self)
    | _, _ => ret (Some self)
    end ;;
  match self' with
  | None => ret None
  | Some s =>
      match self_woocommerce_product s, self_item s with
      | Some p, None => s' <- get_erpnext_item s p ;; ret (Some s')
      | _, _ => ret (Some s)
      end
  end.

(** ** [sync_wc_product_with_erpnext_item] *)

(** [get_datetime(x)]: the current time for [None]. *)
Definition get_datetime (d : DB) (x : option datetime) : datetime :=
  match x with Some t => t | None => now d end.

Definition sync_wc_product_with_erpnext_item (self : SynchroniseItem)
  : M SynchroniseItem :=
  log_error "255" ;;
  match self_item self, self_woocommerce_product self with
  | Some it, None =>
      log_error "no woo product" ;;
      (* create missing product in WooCommerce *)
      create_woocommerce_product self it
  | None, Some p =>
      (* create missing item in ERPNext *)
      create_item self p
  | Some it, Some p =>
      (* both exist, check sync hash *)
      log_error "264" ;;
      p <- update_woocommerce_product self p it ;;
      let self := mkSync (Some it) (Some p) (wcapi self) in
      d <- get_db ;;
      (* the condition is the constant 10==10 *)
      if (get_datetime d (woocommerce_date_modified p)
          <? get_datetime d (Some (modified (item it))))%Z
      then
        log_error "276" ;;
        p <- update_woocommerce_product self p it ;;
        ret (mkSync (Some it) (Some p) (wcapi self))
      else ret self
  | None, None => ret self
  end.

(** ** [run] *)

(** [None] is a run whose page loop did not end within [fuel] pages.
    The [except] clause of [run] builds a message and raises the error
    again. *)
Definition run (fuel : nat) (self : SynchroniseItem)
  : M (option SynchroniseItem) :=
  s <- get_corresponding_item_or_product fuel self ;;
  match s with
  | None => ret None
  | Some s => s' <- sync_wc_product_with_erpnext_item s ;; ret (Some s')
  end.

(** [SynchroniseItem(item=..., woocommerce_product=...)] *)
Definition init (it : option ERPNextItemToSync)
  (p : option WooCommerceProduct) : M SynchroniseItem :=
  d <- get_db ;;
  ret (mkSync it p (nth_error (enabled_servers d) 0)).

End WithEnv.

End Sync.

(* ===================================================================== *)
(** * Entry point: [run_item_sync] *)
(* ===================================================================== *)

Module Tasks.

Import Frappe Sync.

Definition is_some {A} (o : option A) : bool :=
  match o with Some _ => true | None => false end.

(** The pair [run_item_sync] returns from the last [sync] it made. *)
Definition sync_result (sync : SynchroniseItem)
  : option Item * option WooCommerceProduct :=
  (option_map item (self_item sync), self_woocommerce_product sync).

Section WithEnv.

Variable env : Env.

(** [frappe.get_doc({"doctype": "WooCommerce Product", "name": name})]
    followed by [load_from_db()]. *)
Definition load_product (name : string) : M WooCommerceProduct :=
  resp <- request env (LoadProduct name) ;;
  match resp with
  | Products (p :: _) => ret p
  | Failure e => raise e
  | _ => raise DoesNotExistError
  end.

(** The loop [for wc_server in item.woocommerce_servers].  The item is
    one document shared by all the runs: a run that reloads it is seen
    by the next.  [last] is the [sync] of the previous turn. *)
Fixpoint sync_servers (fuel : nat) (enqueue : bool) (it : Item)
  (links : list ItemWooCommerceServer) (last : option SynchroniseItem)
  : M (option (option SynchroniseItem)) :=
  match links with
  | [] => ret (Some last)
  | wc_server :: rest =>
      let to_sync := mkToSync it (idx wc_server) in
      sync <- init (Some to_sync) None ;;
      if enqueue then
        enqueue_job (RunFromItem it (idx wc_server)) ;;
        sync_servers fuel enqueue it rest (Some sync)
      else
        done <- run env fuel sync ;;
        match done with
        | None => ret None
        | Some sync' =>
            let it' := match self_item sync' with
                       | Some t => item t
                       | None => it
                       end in
            sync_servers fuel enqueue it' rest (Some sync')
        end
  end.

(** [price_doc[0].price_list_rate if price_doc else 0.0] *)
Definition price_of (price_doc : list ItemPrice) : option Z :=
  match price_doc with
  | p :: _ => price_list_rate p
  | [] => Some 0%Z
  end.

(** [not price or price <= 0] *)
Definition no_price (price : option Z) : bool :=
  match price with
  | Some r => (r <=? 0)%Z
  | None => true
  end.

(** [run_item_sync].  The result is [None] when a page loop of a run
    did not end within [fuel] pages. *)
Definition run_item_sync (fuel : nat)
  (item_code : option string) (it : option Item)
  (woocommerce_product_name : option string)
  (woocommerce_product : option WooCommerceProduct)
  (enqueue : bool)
  : M (option (option Item * option WooCommerceProduct)) :=
  log_error "run_item_sync Debug" ;;
  if negb (is_set item_code || is_some it
           || is_set woocommerce_product_name || is_some woocommerce_product)
  then raise ValueError
  else if is_some woocommerce_product || is_set woocommerce_product_name then
    log_error "64" ;;
    wc_product <-
      match woocommerce_product with
      | Some p => ret p
      | None =>
          log_error "66" ;;
          load_product (or_empty woocommerce_product_name)
      end ;;
    log_error "73" ;;
    sync <- init (None : option ERPNextItemToSync) (Some wc_product) ;;
    if enqueue then
      enqueue_job (RunFromProduct wc_product) ;;
      ret (Some (sync_result sync))
    else
      done <- run env fuel sync ;;
      ret (option_map sync_result done)
  else
    log_error "92" ;;
    it <- match it with
          | Some i => ret i
          | None => get_item (or_empty item_code)
          end ;;
    d <- get_db ;;
    let price := price_of (standard_selling_price d (code_of it)) in
    if (custom_disable_sync it =? 1)%Z
       || (custom_disable_sync_if_not_in_stock it =? 1)%Z
    then
      log_error "Skipped Item Sync" ;;
      ret (Some (None, None))
    else if no_price price then
      log_error "Skipped Item Sync" ;;
      ret (Some (None, None))
    else
      match woocommerce_servers it with
      | [] => raise ValidationError
      | links =>
          done <- sync_servers fuel enqueue it links None ;;
          match done with
          | None => ret None
          | Some (Some sync) => ret (Some (sync_result sync))
          | Some None => ret (Some (None, None))
          end
      end.

End WithEnv.

End Tasks.

(* ===================================================================== *)
(** * Batch entry points *)
(* ===================================================================== *)

Module Batch.

Import Frappe Sync Tasks.

(** What [bulk_run_item_sync] tells about the batch, before the two
    lists are joined into the text of the message: the codes that were
    synchronised, and the codes that failed, each with its exception
    (the text has [str(e)] there). *)
Record BulkReport : Type := mkReport {
  success : list string;
  failed : list (string * exn)
}.

(** The argument of [bulk_run_item_sync]: a list of item codes, or the
    text of one. *)
Inductive BulkItems : Type :=
| Codes (l : list string)
| Encoded (text : string).

Section WithEnv.

Variable env : Env.

(** The query of [clear_sync_hash_and_run_item_sync]: the names of the
    links of the item that have [enabled] at 1. *)
Definition enabled_link_names (d : DB) (item_code : string) : list string :=
  map (fun pl => iws_name (snd pl))
      (filter (fun pl => (enabled (snd pl) =? 1)%Z
                         && String.eqb (fst pl) item_code)
              (all_links d)).

(** [clear_sync_hash_and_run_item_sync].  [None] is a run that did not
    end within [fuel] pages. *)
Definition clear_sync_hash_and_run_item_sync (fuel : nat)
  (item_code : string) : M (option unit) :=
  d <- get_db ;;
  let iwss := enabled_link_names d item_code in
  for_each iwss
    (fun name => set_link_value name (with_last_sync_hash None)) ;;
  match iwss with
  | [] => ret (Some tt)
  | _ =>
      done <- run_item_sync env fuel (Some item_code) None None None true ;;
      ret (option_map (fun _ => tt) done)
  end.

(** One turn of the loop of [bulk_run_item_sync]: [Some None] for an
    item that was synchronised, [Some (Some e)] for one that raised
    [e], [None] for a run that did not end. *)
Definition bulk_turn (fuel : nat) (idx total : nat) (item_code : string)
  : M (option (option exn)) :=
  try_except
    (log_error ("Syncing item " ++ py_str (Z.of_nat idx) ++ " of "
                ++ py_str (Z.of_nat total) ++ ": " ++ item_code) ;;
     done <- run_item_sync env fuel (Some item_code) None None None false ;;
     ret (option_map (fun _ => None) done))
    (fun e =>
       log_error ("Bulk sync failed for " ++ item_code) ;;
       ret (Some (Some e))).

(** The loop over [enumerate(items, start=1)]. *)
Fixpoint bulk_loop (fuel : nat) (idx total : nat) (items : list string)
  (report : BulkReport) : M (option BulkReport) :=
  match items with
  | [] => ret (Some report)
  | item_code :: rest =>
      turn <- bulk_turn fuel idx total item_code ;;
      match turn with
      | None => ret None
      | Some None =>
          bulk_loop fuel (S idx) total rest
            (mkReport (success report ++ [item_code]) (failed report))
      | Some (Some e) =>
          bulk_loop fuel (S idx) total rest
            (mkReport (success report) (failed report ++ [(item_code, e)]))
      end
  end.

(** [bulk_run_item_sync]: a text is decoded first, outside every
    [try]. *)
Definition bulk_run_item_sync (fuel : nat) (items : BulkItems)
  : M (option BulkReport) :=
  items <- match items with
           | Codes l => ret l
           | Encoded text => lift (json_loads env text)
           end ;;
  log_error "trotal no of items in sync" ;;
  bulk_loop fuel 1 (List.length items) items (mkReport [] []).

End WithEnv.

End Batch.

(* ===================================================================== *)
(** * Properties of [expand_years] *)
(* ===================================================================== *)

Module ExpandYearsFacts.

Import ExpandYears.

(** The elements parse as integers that do not decrease. *)
Definition numerically_sorted (ys : list string) : Prop :=
  exists ks, map py_int ys = map Some ks /\ StronglySorted Z.le ks.

Definition key_le (a b : Z * string) : Prop := (fst a <= fst b)%Z.

Lemma insert_by_key_perm x l : Permutation (insert_by_key x l) (x :: l).
Proof.
  induction l as [|y l IH]; simpl; [reflexivity|].
  destruct (fst x <=? fst y)%Z; [reflexivity|].
  rewrite IH. apply perm_swap.
Qed.

Lemma sort_by_key_perm l : Permutation (sort_by_key l) l.
Proof.
  induction l as [|x l IH]; simpl; [reflexivity|].
  rewrite insert_by_key_perm. now constructor.
Qed.

Lemma insert_by_key_sorted x l :
  StronglySorted key_le l -> StronglySorted key_le (insert_by_key x l).
Proof.
  induction 1 as [|y l Hs IH Hall]; simpl.
  - repeat constructor.
  - destruct (fst x <=? fst y)%Z eqn:E.
    + apply Z.leb_le in E. constructor.
      * now constructor.
      * constructor; [exact E|].
        eapply Forall_impl; [|exact Hall].
        intros z Hz. unfold key_le in *. lia.
    + apply Z.leb_gt in E. constructor; [exact IH|].
      eapply Permutation_Forall.
      * symmetry. apply insert_by_key_perm.
      * constructor; [unfold key_le; lia | exact Hall].
Qed.

Lemma sort_by_key_sorted l : StronglySorted key_le (sort_by_key l).
Proof.
  induction l as [|x l IH]; simpl; [constructor|].
  now apply insert_by_key_sorted.
Qed.

(** [int_keys] decorates each element with its value. *)
Lemma int_keys_ok l ks :
  int_keys l = Ok ks ->
  map snd ks = l /\ Forall (fun p => py_int (snd p) = Some (fst p)) ks.
Proof.
  revert ks. induction l as [|x l IH]; simpl; intros ks H.
  - inversion H. split; constructor.
  - destruct (py_int x) as [k|] eqn:E; [|discriminate].
    destruct (int_keys l) as [ks'|] eqn:E'; [|discriminate].
    inversion H; subst. destruct (IH _ eq_refl) as [Hm Hf].
    split; simpl; [now rewrite Hm|]. now constructor.
Qed.

Lemma int_keys_raises l x :
  In x l -> py_int x = None -> int_keys l = Raise ValueError.
Proof.
  induction l as [|y l IH]; simpl; [tauto|].
  intros [<-|Hin] Hx.
  - now rewrite Hx.
  - destruct (py_int y); [|reflexivity]. now rewrite (IH Hin Hx).
Qed.

Lemma int_keys_exn l e : int_keys l = Raise e -> e = ValueError.
Proof.
  induction l as [|y l IH]; simpl; [discriminate|].
  destruct (py_int y); [|congruence].
  destruct (int_keys l); [discriminate|].
  intros H. inversion H; subst. now apply IH.
Qed.

Lemma sorted_map_fst l :
  StronglySorted key_le l -> StronglySorted Z.le (map fst l).
Proof.
  induction 1 as [|x l Hs IH Hall]; simpl; constructor; [exact IH|].
  rewrite Forall_map. exact Hall.
Qed.

Lemma parsed_map ks :
  Forall (fun p : Z * string => py_int (snd p) = Some (fst p)) ks ->
  map py_int (map snd ks) = map Some (map fst ks).
Proof.
  induction 1 as [|p ks Hp _ IH]; simpl; [reflexivity|].
  now rewrite Hp, IH.
Qed.

(** The result of the final [sorted(set(results), key=int)]. *)
Lemma sorted_set_by_int_spec set_iter results ys :
  set_order_ok set_iter ->
  sorted_set_by_int set_iter results = Ok ys ->
  NoDup ys /\ numerically_sorted ys /\
  (forall y, In y ys <-> In y results).
Proof.
  intros Hset H. unfold sorted_set_by_int in H.
  destruct (int_keys (set_iter results)) as [ks|] eqn:E; [|discriminate].
  inversion H; subst; clear H.
  destruct (int_keys_ok _ _ E) as [Hm Hf].
  destruct (Hset results) as [Hnd Hin].
  assert (Hp : Permutation (map snd (sort_by_key ks)) (set_iter results)).
  { rewrite <- Hm. apply Permutation_map, sort_by_key_perm. }
  split; [|split].
  - eapply Permutation_NoDup; [symmetry; exact Hp | exact Hnd].
  - exists (map fst (sort_by_key ks)). split.
    + apply parsed_map.
      eapply Permutation_Forall; [symmetry; apply sort_by_key_perm | exact Hf].
    + apply sorted_map_fst, sort_by_key_sorted.
  - intros y. rewrite <- Hin. split; intros Hy.
    + eapply Permutation_in; [exact Hp | exact Hy].
    + eapply Permutation_in; [symmetry; exact Hp | exact Hy].
Qed.

(** Strictly increasing keys leave one sorted arrangement only. *)
Definition key_lt (a b : Z * string) : Prop := (fst a < fst b)%Z.

Lemma strictly_sorted_unique l1 :
  forall l2, StronglySorted key_le l1 -> StronglySorted key_lt l2 ->
  Permutation l1 l2 -> l1 = l2.
Proof.
  induction l1 as [|a l1 IH]; intros l2 H1 H2 Hp.
  - apply Permutation_nil in Hp. now subst.
  - destruct l2 as [|b l2].
    { symmetry in Hp. apply Permutation_nil in Hp. discriminate. }
    inversion H1 as [|? ? Hs1 Ha]; subst.
    inversion H2 as [|? ? Hs2 Hb]; subst.
    assert (Hab : a = b).
    { assert (Ia : In a (b :: l2))
        by (eapply Permutation_in; [exact Hp | now left]).
      assert (Ib : In b (a :: l1))
        by (eapply Permutation_in; [symmetry; exact Hp | now left]).
      destruct Ia as [->|Ia]; [reflexivity|].
      destruct Ib as [->|Ib]; [reflexivity|].
      rewrite Forall_forall in Ha, Hb.
      specialize (Ha _ Ib). specialize (Hb _ Ia).
      unfold key_le, key_lt in *. lia. }
    subst b. f_equal. apply IH; auto.
    eapply Permutation_cons_inv; exact Hp.
Qed.

Lemma int_keys_perm l :
  forall l', Permutation l l' -> forall ks, int_keys l = Ok ks ->
  exists ks', int_keys l' = Ok ks' /\ Permutation ks ks'.
Proof.
  induction 1 as [|x l l' Hp IH|x y l|l l' l'' Hp1 IH1 Hp2 IH2];
    simpl; intros ks H.
  - inversion H. exists []. split; [reflexivity|constructor].
  - destruct (py_int x) as [k|]; [|discriminate].
    destruct (int_keys l) as [ks0|] eqn:E; [|discriminate].
    inversion H; subst. destruct (IH _ eq_refl) as [ks' [E' P']].
    rewrite E'. eexists; split; [reflexivity|]. now constructor.
  - destruct (py_int y) as [ky|]; [|discriminate].
    destruct (py_int x) as [kx|]; [|discriminate].
    destruct (int_keys l) as [ks0|]; [|discriminate].
    inversion H; subst. eexists; split; [reflexivity|]. apply perm_swap.
  - destruct (IH1 _ H) as [ks1 [E1 P1]].
    destruct (IH2 _ E1) as [ks2 [E2 P2]].
    exists ks2. split; [exact E2|]. now transitivity ks1.
Qed.

Lemma strictly_sorted_texts_nodup ks :
  StronglySorted key_lt ks ->
  Forall (fun p : Z * string => py_int (snd p) = Some (fst p)) ks ->
  NoDup (map snd ks).
Proof.
  induction 1 as [|p ks Hs IH Hall]; simpl; intros Hf; [constructor|].
  inversion Hf as [|? ? Hp Hf']; subst.
  constructor; [|now apply IH].
  intros Hi. apply in_map_iff in Hi. destruct Hi as [q [Hq Hi]].
  rewrite Forall_forall in Hall, Hf'.
  specialize (Hall _ Hi). specialize (Hf' _ Hi).
  rewrite Hq, Hp in Hf'. inversion Hf'. unfold key_lt in Hall. lia.
Qed.

(** When the values of [results] increase strictly, the sorted set is
    [results] itself, whatever the order of iteration of the set. *)
Lemma sorted_set_of_increasing set_iter results ks :
  set_order_ok set_iter ->
  int_keys results = Ok ks -> StronglySorted key_lt ks ->
  sorted_set_by_int set_iter results = Ok results.
Proof.
  intros Hset Hk Hs.
  destruct (Hset results) as [Hnd Hin].
  destruct (int_keys_ok _ _ Hk) as [Hm Hf].
  assert (Hnd' : NoDup results).
  { rewrite <- Hm. now apply strictly_sorted_texts_nodup. }
  assert (Hp : Permutation results (set_iter results)).
  { apply NoDup_Permutation; auto. intros x. symmetry. apply Hin. }
  destruct (int_keys_perm _ _ Hp _ Hk) as [ks' [Hk' Hp']].
  unfold sorted_set_by_int. rewrite Hk'. f_equal.
  rewrite <- Hm. f_equal.
  apply strictly_sorted_unique.
  - apply sort_by_key_sorted.
  - exact Hs.
  - rewrite sort_by_key_perm. now symmetry.
Qed.

(** ** Tokens *)

Lemma split_on_absent c e : contains c e = false -> split_on c e = [e].
Proof.
  induction e as [|d e IH]; simpl; [reflexivity|].
  destruct (Ascii.eqb c d); simpl; [discriminate|].
  intros H. now rewrite (IH H).
Qed.

Lemma split_on_first c s e :
  contains c s = false ->
  split_on c (s ++ String c e) = s :: split_on c e.
Proof.
  induction s as [|d s IH]; simpl.
  - now rewrite Ascii.eqb_refl.
  - destruct (Ascii.eqb c d); simpl; [discriminate|].
    intros H. now rewrite (IH H).
Qed.

Lemma contains_app_sep c s e : contains c (s ++ String c e) = true.
Proof.
  induction s as [|d s IH]; simpl.
  - now rewrite Ascii.eqb_refl.
  - rewrite IH. apply orb_true_r.
Qed.

Lemma length_app (s t : string) :
  String.length (s ++ t) = (String.length s + String.length t)%nat.
Proof. induction s as [|c s IH]; simpl; [reflexivity|now rewrite IH]. Qed.

(** A token of two characters outside a range takes the century "20". *)
Lemma normalize_two_chars y :
  String.length (strip y) = 2%nat ->
  normalize y None = ("20" ++ strip y)%string.
Proof. intros H. unfold normalize. now rewrite H. Qed.

(** The end of a range takes the first two characters of a start of
    four characters, and "20" after any other start. *)
Lemma normalize_end_of_range s e :
  String.length (strip e) = 2%nat ->
  normalize e (Some (normalize s None))
  = ((if (String.length (strip s) =? 4)%nat then take 2 (strip s) else "20")
     ++ strip e)%string.
Proof.
  intros He. unfold normalize at 1. rewrite He.
  cbv beta iota zeta. rewrite Nat.eqb_refl. f_equal.
  unfold normalize.
  destruct (String.length (strip s) =? 2)%nat eqn:E2.
  - apply Nat.eqb_eq in E2. rewrite length_app, E2. reflexivity.
  - destruct (String.length (strip s) =? 4)%nat eqn:E4.
    + destruct (strip s); [discriminate|reflexivity].
    + now rewrite andb_false_r.
Qed.

Lemma expand_part_single t :
  contains "-"%char t = false -> expand_part t = Ok [normalize t None].
Proof. intros H. unfold expand_part. now rewrite H. Qed.

Lemma expand_part_range s e :
  contains "-"%char s = false -> contains "-"%char e = false ->
  expand_part (s ++ String "-"%char e)
  = match py_int (normalize s None) with
    | None => Raise ValueError
    | Some a =>
        match py_int (normalize e (Some (normalize s None))) with
        | None => Raise ValueError
        | Some b => Ok (map py_str (py_range a (b + 1)))
        end
    end.
Proof.
  intros Hs He. unfold expand_part.
  rewrite contains_app_sep, (split_on_first _ _ _ Hs), (split_on_absent _ _ He).
  reflexivity.
Qed.

Lemma expand_part_exn t e : expand_part t = Raise e -> e = ValueError.
Proof.
  unfold expand_part.
  destruct (contains "-"%char t); [|discriminate].
  destruct (split_on "-"%char t) as [|a [|b [|c l]]]; try congruence.
  destruct (py_int _); [|congruence].
  destruct (py_int _); [discriminate|congruence].
Qed.

Lemma expand_parts_exn parts : forall acc e,
  expand_parts parts acc = Raise e -> e = ValueError.
Proof.
  induction parts as [|p parts IH]; simpl; intros acc e H; [discriminate|].
  destruct (is_empty p); [now apply IH in H|].
  destruct (expand_part p) as [ys|e'] eqn:E.
  - now apply IH in H.
  - inversion H; subst. now apply expand_part_exn in E.
Qed.

(** [expand_years] raises nothing but [ValueError]. *)
Lemma expand_years_exn set_iter text e :
  expand_years set_iter text = Raise e -> e = ValueError.
Proof.
  unfold expand_years, sorted_set_by_int.
  destruct (expand_parts _ _) as [r|e'] eqn:E.
  - destruct (int_keys _) as [ks|e'] eqn:E'; [discriminate|].
    intros H. inversion H; subst. now apply int_keys_exn in E'.
  - intros H. inversion H; subst. now apply expand_parts_exn in E.
Qed.

(** A run of the loop that ends has taken every token. *)
Lemma expand_parts_ok parts : forall acc r,
  expand_parts parts acc = Ok r ->
  incl acc r /\
  forall tok, In tok parts -> is_empty tok = false ->
    exists ys, expand_part tok = Ok ys /\ incl ys r.
Proof.
  induction parts as [|p parts IH]; simpl; intros acc r H.
  - inversion H; subst. split; [apply incl_refl|]. intros tok [].
  - destruct (is_empty p) eqn:Ep.
    + destruct (IH _ _ H) as [Hi Ht]. split; [exact Hi|].
      intros tok [<-|Hin] Hne; [congruence|]. now apply Ht.
    + destruct (expand_part p) as [ys|] eqn:E; [|discriminate].
      destruct (IH _ _ H) as [Hi Ht]. split.
      * intros x Hx. apply Hi, in_or_app. now left.
      * intros tok [<-|Hin] Hne; [|now apply Ht].
        exists ys. split; [exact E|].
        intros x Hx. apply Hi, in_or_app. now right.
Qed.

(** A token can be taken: its part of the loop raises nothing and
    yields integer literals only. *)
Definition token_ok (tok : string) : bool :=
  match expand_part tok with
  | Ok ys => forallb (fun y => match py_int y with
                               | Some _ => true
                               | None => false
                               end) ys
  | Raise _ => false
  end.

(** One token that cannot be taken makes the whole call raise. *)
Lemma unparsable_token_raises set_iter text tok :
  set_order_ok set_iter ->
  In tok (re_split (strip text)) -> is_empty tok = false ->
  token_ok tok = false ->
  expand_years set_iter text = Raise ValueError.
Proof.
  intros Hset Hin Hne Hbad.
  destruct (expand_years set_iter text) as [ys|e] eqn:E.
  - exfalso. unfold expand_years in E.
    destruct (expand_parts _ _) as [r|] eqn:Er; [|discriminate].
    destruct (expand_parts_ok _ _ _ Er) as [_ Ht].
    destruct (Ht _ Hin Hne) as [ys' [Ep Hincl]].
    unfold token_ok in Hbad. rewrite Ep in Hbad.
    assert (Hex : exists y, In y ys' /\ py_int y = None).
    { clear - Hbad. induction ys' as [|y ys' IH]; simpl in Hbad; [discriminate|].
      destruct (py_int y) eqn:Ey.
      - destruct (IH Hbad) as [y0 [Hz1 Hz2]]. exists y0. split; [now right|auto].
      - exists y. split; [now left|auto]. }
    destruct Hex as [y [Hy1 Hy2]].
    unfold sorted_set_by_int in E.
    assert (Hr : In y (set_iter r)) by (apply (Hset r), Hincl, Hy1).
    now rewrite (int_keys_raises _ _ Hr Hy2) in E.
  - now rewrite (expand_years_exn _ _ _ E).
Qed.

(** The order of first occurrences is an order of iteration. *)
Lemma first_occurrences_spec l : forall seen,
  NoDup (first_occurrences seen l) /\
  (forall x, In x (first_occurrences seen l)
             <-> In x l /\ existsb (String.eqb x) seen = false).
Proof.
  induction l as [|a l IH]; simpl; intros seen.
  - split; [constructor|]. intros x. tauto.
  - destruct (existsb (String.eqb a) seen) eqn:E.
    + destruct (IH seen) as [Hn Hi]. split; [exact Hn|].
      intros x. rewrite Hi. split; [tauto|].
      intros [[<-|Hx] Hs]; [congruence|tauto].
    + destruct (IH (a :: seen)) as [Hn Hi]. split.
      * constructor; [|exact Hn].
        rewrite Hi. simpl. rewrite String.eqb_refl. simpl.
        intros [_ H]. discriminate.
      * intros x. simpl. rewrite Hi. simpl.
        destruct (String.eqb x a) eqn:Exa.
        -- apply String.eqb_eq in Exa. subst x. simpl.
           split; [intros _; split; [now left|exact E]|intros _; now left].
        -- simpl. split.
           ++ intros [<-|[Hx Hs]]; [now rewrite String.eqb_refl in Exa|tauto].
           ++ intros [[<-|Hx] Hs]; [now rewrite String.eqb_refl in Exa|tauto].
Qed.

Lemma set_in_list_order_ok : set_order_ok set_in_list_order.
Proof.
  intros l. unfold set_in_list_order.
  destruct (first_occurrences_spec l []) as [Hn Hi].
  split; [exact Hn|]. intros x. rewrite Hi. simpl. tauto.
Qed.

End ExpandYearsFacts.

(* ===================================================================== *)
(** * A concrete environment *)
(* ===================================================================== *)

(** An environment to run the code in: JSONPath restricted to dotted
    field names, documents whose tree is deserialised as it is, sets
    iterated in the order of first occurrence, a random order that is
    the order of the table, floats added without rounding, and a JSON
    decoder for lists of plain strings. *)
Module Fixture.

Fixpoint dot_find_keys (keys : list string) (t : JValue) : list JValue :=
  match keys with
  | [] => [t]
  | k :: ks =>
      match t with
      | JDict kv =>
          match Json.assoc k kv with
          | Some v => dot_find_keys ks v
          | None => []
          end
      | _ => []
      end
  end.

Definition dot_find (path : string) (t : JValue) : result (list JValue) :=
  Ok (dot_find_keys (split_on "." path) t).

Fixpoint dot_update_keys (keys : list string) (t v : JValue) : JValue :=
  match keys with
  | [] => v
  | k :: ks =>
      match t with
      | JDict kv =>
          match Json.assoc k kv with
          | Some x => JDict (Json.set_key k (dot_update_keys ks x v) kv)
          | None => t
          end
      | _ => t
      end
  end.

Definition dot_update (path : string) (t v : JValue) : JValue :=
  dot_update_keys (split_on "." path) t v.

Definition with_tree (p : WooCommerceProduct) (t : JValue)
  : WooCommerceProduct :=
  mkProduct (wc_name p) (woocommerce_server p) (woocommerce_id p)
            (woocommerce_name p) (woocommerce_date_modified p) (wc_type p)
            (wc_status p) (regular_price p) (id p)
            (match t with JDict kv => kv | _ => tree p end).

Fixpoint json_first_occurrences (seen l : list JValue) : list JValue :=
  match l with
  | [] => []
  | x :: l' =>
      if existsb (Json.py_eq x) seen then json_first_occurrences seen l'
      else x :: json_first_occurrences (x :: seen) l'
  end.

(** [json.loads] for the fixture: it reads the texts that hold a list
    of strings without escapes, as the list view sends them, and
    refuses every other text. *)
Inductive LoadsState : Type :=
| AtStart | AtOpen | InText (cur : string) | AfterText | AfterComma | AtEnd.

Definition dquote : ascii := ascii_of_nat 34.

Definition is_json_space (c : ascii) : bool :=
  existsb (Ascii.eqb c)
    [" "%char; ascii_of_nat 9; ascii_of_nat 10; ascii_of_nat 13].

Fixpoint loads_from (state : LoadsState) (acc : list string) (s : string)
  : result (list string) :=
  match s with
  | EmptyString =>
      match state with AtEnd => Ok acc | _ => Raise JSONDecodeError end
  | String c s' =>
      match state with
      | InText cur =>
          if Ascii.eqb c dquote then loads_from AfterText (acc ++ [cur]) s'
          else if Ascii.eqb c "\" || (nat_of_ascii c <? 32)%nat
          then Raise JSONDecodeError
          else loads_from (InText (cur ++ String c EmptyString)) acc s'
      | _ =>
          if is_json_space c then loads_from state acc s'
          else
            match state with
            | AtStart =>
                if Ascii.eqb c "[" then loads_from AtOpen acc s'
                else Raise JSONDecodeError
            | AtOpen =>
                if Ascii.eqb c "]" then loads_from AtEnd acc s'
                else if Ascii.eqb c dquote
                then loads_from (InText EmptyString) acc s'
                else Raise JSONDecodeError
            | AfterText =>
                if Ascii.eqb c "," then loads_from AfterComma acc s'
                else if Ascii.eqb c "]" then loads_from AtEnd acc s'
                else Raise JSONDecodeError
            | AfterComma =>
                if Ascii.eqb c dquote
                then loads_from (InText EmptyString) acc s'
                else Raise JSONDecodeError
            | _ => Raise JSONDecodeError
            end
      end
  end.

Definition loads_codes (s : string) : result (list string) :=
  loads_from AtStart [] s.

Definition env_of (r : Remote) : Env :=
  mkEnv r dot_find dot_update (fun p => JDict (tree p)) with_tree
        ExpandYears.set_in_list_order (json_first_occurrences [])
        (fun l => l) PyFloat.exact_add loads_codes.

(** A remote server that accepts every call and returns an empty JSON
    object, or no product. *)
Definition accepting : Remote :=
  fun _ r =>
    match r with
    | ListProducts _ _ _ | LoadProduct _ | GetProductById _
    | InsertProduct _ => Products []
    | GetCategories _ | GetOfferCategories _ => HttpJson 200 (JList [])
    | _ => HttpJson 200 (JDict [])
    end.

Definition server : WooCommerceServer :=
  mkServer "shop" "https://shop.example/" "ck" "cs" 1 0 0
           "Standard Selling" [].

Definition empty_db : DB := mkDB [] [] [] [] [] [] [server] [] 1000.

Definition world_of (d : DB) : World := mkWorld d [] [] [].

Definition plain_item (code : string) (links : list ItemWooCommerceServer)
  : Item :=
  mkItem code code 100 0 0 None None None None [] [] [] links 0 [] 0 false [].

End Fixture.

(* ===================================================================== *)
(** * Reasoning about the monad *)
(* ===================================================================== *)

Module Monad.

(** The world after one more line in the error log. *)
Definition logged (title : string) (w : World) : World :=
  mkWorld (db w) (log w ++ [title]) (sent w) (queue w).

Lemma bind_ok {A B} (m : M A) (k : A -> M B) w a w' :
  m w = (Ok a, w') -> bind m k w = k a w'.
Proof. intros H. unfold bind. now rewrite H. Qed.

Lemma bind_raise {A B} (m : M A) (k : A -> M B) w e w' :
  m w = (Raise e, w') -> bind m k w = (Raise e, w').
Proof. intros H. unfold bind. now rewrite H. Qed.

(** An exception of [m ;; k] comes from [m] or from [k]. *)
Lemma bind_raise_inv {A B} (m : M A) (k : A -> M B) w e :
  fst (bind m k w) = Raise e ->
  fst (m w) = Raise e \/
  exists a w', m w = (Ok a, w') /\ fst (k a w') = Raise e.
Proof.
  unfold bind. destruct (m w) as [[a|e'] w'] eqn:E; simpl.
  - intros H. right. exists a, w'. split; [reflexivity|exact H].
  - intros H. left. inversion H. reflexivity.
Qed.

Lemma map_m_raise_inv {A B} (f : A -> M B) (P : exn -> Prop) :
  (forall x w e, fst (f x w) = Raise e -> P e) ->
  forall l w e, fst (map_m f l w) = Raise e -> P e.
Proof.
  intros Hf. induction l as [|x l IH]; simpl; intros w e H.
  - discriminate.
  - apply bind_raise_inv in H. destruct H as [H|[y [w1 [_ H]]]].
    + eapply Hf, H.
    + apply bind_raise_inv in H. destruct H as [H|[ys [w2 [_ H]]]].
      * eapply IH, H.
      * discriminate.
Qed.

End Monad.

(* ===================================================================== *)
(** * Properties of the compatibility builder *)
(* ===================================================================== *)

Module CompatibilityFacts.

Import ExpandYears ExpandYearsFacts Frappe Sync Monad.

Lemma translate_text_total s w :
  exists t, translate_text s w = (Ok t, w).
Proof.
  unfold translate_text. destruct (negb (PyStr.truthy s)).
  - now eexists.
  - unfold bind, get_db.
    destruct (find _ _); now eexists.
Qed.

(** The years of a row whose text [expand_years] rejects are empty, and
    the failure is in the error log. *)
Lemma expanded_years_of_raise env row text e w :
  years row = Some text -> PyStr.truthy text = true ->
  expand_years (set_iter env) text = Raise e ->
  expanded_years_of env row w = (Ok EmptyString, logged "Error expanding years" w).
Proof.
  intros Hy Ht He. unfold expanded_years_of. rewrite Hy, Ht.
  unfold try_except, bind, lift. rewrite He. reflexivity.
Qed.

Lemma expanded_years_of_ok env row text ys w :
  years row = Some text -> PyStr.truthy text = true ->
  expand_years (set_iter env) text = Ok ys ->
  expanded_years_of env row w = (Ok (join "," ys), w).
Proof.
  intros Hy Ht He. unfold expanded_years_of. rewrite Hy, Ht.
  unfold try_except, bind, lift. rewrite He. reflexivity.
Qed.

Lemma expanded_years_of_total env row w :
  exists y w', expanded_years_of env row w = (Ok y, w').
Proof.
  unfold expanded_years_of.
  destruct (years row) as [y|]; [|now eexists; eexists].
  destruct (PyStr.truthy y); [|now eexists; eexists].
  unfold try_except, bind, lift.
  destruct (expand_years _ _); now eexists; eexists.
Qed.

Lemma compat_row_total env meta index row w :
  exists m w', compat_row env meta index row w = (Ok m, w').
Proof.
  unfold compat_row.
  destruct (expanded_years_of_total env row w) as [y [w1 E1]].
  rewrite (bind_ok _ _ _ _ _ E1).
  destruct (translate_text_total (or_empty (brand row)) w1) as [b E2].
  rewrite (bind_ok _ _ _ _ _ E2).
  destruct (translate_text_total (or_empty (model row)) w1) as [m E3].
  rewrite (bind_ok _ _ _ _ _ E3).
  now eexists; eexists.
Qed.

Lemma compat_rows_total env rows : forall meta index w,
  exists m w', compat_rows env meta index rows w = (Ok m, w').
Proof.
  induction rows as [|row rows IH]; simpl; intros meta index w.
  - now eexists; eexists.
  - destruct (compat_row_total env meta index row w) as [m [w1 E]].
    rewrite (bind_ok _ _ _ _ _ E). apply IH.
Qed.

Lemma get_item_exn code w e :
  fst (get_item code w) = Raise e -> e = DoesNotExistError.
Proof.
  unfold get_item, bind, get_db. destruct (find_item _ _); simpl.
  - discriminate.
  - intros H. now inversion H.
Qed.

Lemma compatibility_entries_exn code w e :
  fst (compatibility_entries code w) = Raise e -> e = DoesNotExistError.
Proof.
  unfold compatibility_entries. intros H.
  apply bind_raise_inv in H. destruct H as [H|[it [w1 [_ H]]]].
  { now apply get_item_exn in H. }
  unfold bind at 1, get_db in H.
  destruct (find_bundle _ _) as [b|]; [|discriminate].
  destruct (custom_compatibility it); [|discriminate].
  apply bind_raise_inv in H. destruct H as [H|[? [w2 [_ H]]]]; [discriminate|].
  apply bind_raise_inv in H. destruct H as [H|[? [w3 [_ H]]]]; [|discriminate].
  eapply (map_m_raise_inv _ (fun e => e = DoesNotExistError)); [|exact H].
  clear. intros x w e H.
  apply bind_raise_inv in H. destruct H as [H|[? [? [_ H]]]]; [|discriminate].
  now apply get_item_exn in H.
Qed.

End CompatibilityFacts.

(* ===================================================================== *)
(** * Properties of the entry point *)
(* ===================================================================== *)

Module EntryFacts.

Import Frappe Sync Tasks Monad.

(** The product and the world of the examples: a remote product "77" of
    the server "shop" that no item is linked to. *)
Definition orphan_product : WooCommerceProduct :=
  mkProduct (Some "shop~77") "shop" (Some "77") (Some "Brake Pad")
            (Some 50%Z) "simple" "publish" JNull (JStr "77") [].

Definition entry_env : Env := Fixture.env_of Fixture.accepting.

Definition entry_world : World := Fixture.world_of Fixture.empty_db.

(** C6 as stated fails: a call with a Local identity and a Remote
    identity raises nothing; it runs the reconciliation from the Remote
    product. *)
Lemma both_identities_are_accepted :
  ~ (forall env fuel item_code it woocommerce_product_name
            woocommerce_product enqueue w,
       is_set item_code || is_some it = true ->
       is_set woocommerce_product_name || is_some woocommerce_product = true ->
       fst (run_item_sync env fuel item_code it woocommerce_product_name
              woocommerce_product enqueue w) = Raise ValueError).
Proof.
  intros H.
  specialize (H entry_env 3%nat (Some "BRK-1") None None (Some orphan_product)
                false entry_world eq_refl eq_refl).
  vm_compute in H. discriminate.
Qed.

(** C6 (amended).  [run_item_sync] raises [ValueError] when none of its
    four identity arguments is given.  When a Remote identity is given
    (a product or a product name), a Local identity given with it is
    ignored: the call is the call without it.  That call can fail in
    its turn, with a [ValueError] of another origin too: a product that
    has no remote id is refused by [get_erpnext_item] when the run is
    not queued. *)
Theorem run_item_sync_needs_one_identity env fuel enqueue w :
  (forall item_code it woocommerce_product_name woocommerce_product,
     is_set item_code = false -> it = None ->
     is_set woocommerce_product_name = false -> woocommerce_product = None ->
     run_item_sync env fuel item_code it woocommerce_product_name
       woocommerce_product enqueue w
     = (Raise ValueError, logged "run_item_sync Debug" w))
  /\ (forall item_code it woocommerce_product_name woocommerce_product,
        is_some woocommerce_product || is_set woocommerce_product_name = true ->
        run_item_sync env fuel item_code it woocommerce_product_name
          woocommerce_product enqueue w
        = run_item_sync env fuel None None woocommerce_product_name
            woocommerce_product enqueue w)
  /\ (forall item_code it woocommerce_product_name p,
        is_set (woocommerce_id p) = false ->
        fst (run_item_sync env fuel item_code it woocommerce_product_name
               (Some p) false w)
        = Raise ValueError).
Proof.
  split; [|split].
  - intros item_code it wpn wp Hc -> Hn ->.
    unfold run_item_sync. rewrite Hc, Hn. reflexivity.
  - intros item_code it wpn wp H.
    unfold run_item_sync.
    assert (G : forall a b, negb (a || b || is_set wpn || is_some wp) = false).
    { intros a b. apply orb_prop in H.
      destruct H as [H|H]; rewrite H; now rewrite ?orb_true_r. }
    rewrite (G (is_set item_code) (is_some it)).
    change (is_set None) with false; change (@is_some Item None) with false.
    rewrite (G false false), H. reflexivity.
  - intros item_code it wpn p Hid.
    unfold run_item_sync. cbn [is_some]. rewrite !orb_true_r.
    cbn [negb orb].
    cbv beta iota zeta delta [bind log_error ret init get_db run
      get_corresponding_item_or_product get_erpnext_item self_item
      self_woocommerce_product].
    rewrite Hid, andb_false_r. reflexivity.
Qed.

Definition unnumbered_product : WooCommerceProduct :=
  mkProduct None "shop" None (Some "Brake Pad") None "simple" "publish"
            JNull JNull [].

Lemma run_item_sync_needs_one_identity_witness :
  run_item_sync entry_env 3 None None (Some EmptyString) None false entry_world
  = (Raise ValueError, logged "run_item_sync Debug" entry_world)
  /\ run_item_sync entry_env 3 (Some "BRK-1") None None (Some orphan_product)
       false entry_world
     = run_item_sync entry_env 3 None None None (Some orphan_product)
         false entry_world
  /\ fst (run_item_sync entry_env 3 (Some "BRK-1") None None
            (Some unnumbered_product) false entry_world)
     = Raise ValueError.
Proof.
  pose proof (run_item_sync_needs_one_identity entry_env 3 false entry_world)
    as [H1 [H2 H3]].
  split; [|split].
  - apply H1; reflexivity.
  - apply H2. reflexivity.
  - apply H3. reflexivity.
Defined.

(** [not price or price <= 0] for the price of the item. *)
Definition unpriced (d : DB) (i : Item) : Prop :=
  standard_selling_price d (item_code i) = []
  \/ exists p rest,
       standard_selling_price d (item_code i) = p :: rest /\
       forall r, price_list_rate p = Some r -> (r <= 0)%Z.

Lemma unpriced_no_price d i :
  unpriced d i ->
  no_price (price_of (standard_selling_price d (item_code i))) = true.
Proof.
  intros [H|[p [rest [H Hr]]]]; rewrite H; simpl; [reflexivity|].
  destruct (price_list_rate p) as [r|]; simpl; [|reflexivity].
  apply Z.leb_le. now apply Hr.
Qed.

(** C9.  A call that starts from a Local item whose
    [custom_disable_sync] or [custom_disable_sync_if_not_in_stock] flag
    is 1, or that has no "Standard Selling" price above zero, returns
    [(None, None)]: it writes to the error log and does nothing else -
    no remote call, no job, no change of the database - whatever the
    server links of the item are, none included. *)
Theorem gated_item_is_not_synchronised env fuel item_code it
  woocommerce_product_name enqueue w i :
  is_set woocommerce_product_name = false ->
  it = Some i \/
  (it = None /\ is_set item_code = true /\
   find_item (db w) (or_empty item_code) = Some i) ->
  custom_disable_sync i = 1%Z \/
  custom_disable_sync_if_not_in_stock i = 1%Z \/
  unpriced (db w) i ->
  run_item_sync env fuel item_code it woocommerce_product_name None enqueue w
  = (Ok (Some (None, None)),
     logged "Skipped Item Sync"
       (logged "92" (logged "run_item_sync Debug" w))).
Proof.
  intros Hn Hit Hgate. unfold run_item_sync.
  assert (G : negb (is_set item_code || is_some it
                    || is_set woocommerce_product_name
                    || @is_some WooCommerceProduct None) = false).
  { destruct Hit as [->|[-> [Hc _]]]; rewrite Hn; simpl.
    - now rewrite orb_true_r.
    - now rewrite Hc. }
  unfold bind at 1, log_error at 1. rewrite G. cbv iota.
  change (@is_some WooCommerceProduct None) with false.
  rewrite Hn. change (false || false) with false. cbv iota.
  unfold bind at 1, log_error at 1.
  assert (E : forall w',
            db w' = db w ->
            match it with Some i0 => ret i0
            | None => get_item (or_empty item_code) end w' = (Ok i, w')).
  { intros w' Hw. destruct Hit as [->|[-> [_ Hf]]]; [reflexivity|].
    unfold get_item, bind, get_db. now rewrite Hw, Hf. }
  cbn [db log sent queue].
  erewrite bind_ok; [|apply E; reflexivity].
  unfold bind at 1, get_db. cbn [db].
  fold (code_of i). unfold code_of.
  destruct Hgate as [H|[H|H]].
  - rewrite H. reflexivity.
  - rewrite H, orb_true_r. reflexivity.
  - rewrite (unpriced_no_price _ _ H).
    destruct ((custom_disable_sync i =? 1)%Z || _); reflexivity.
Qed.

Definition gated_item : Item :=
  mkItem "BRK-1" "Brake Pad" 100 1 0 None None None None [] [] [] [] 0 []
         0 false [].

Lemma gated_item_is_not_synchronised_witness :
  run_item_sync entry_env 3 None (Some gated_item) None None false entry_world
  = (Ok (Some (None, None)),
     logged "Skipped Item Sync"
       (logged "92" (logged "run_item_sync Debug" entry_world))).
Proof.
  apply (gated_item_is_not_synchronised entry_env 3 None (Some gated_item)
           None false entry_world gated_item eq_refl).
  - now left.
  - now left.
Defined.

End EntryFacts.

(* ===================================================================== *)
(** * Properties of the field mapper *)
(* ===================================================================== *)

Module FieldMapperFacts.

Import Frappe Sync Text Monad.

(** The Local value of a mapped field is the value found at the mapped
    path of the deserialised product. *)
Definition field_in_sync (env : Env) (p : WooCommerceProduct)
  (it : ERPNextItemToSync) (m : FieldMap) : Prop :=
  exists v value rest,
    getattr_item (item it) (before " | " (erpnext_field_name m)) = Ok v /\
    jsonpath_find env (woocommerce_field_name m) (deserialize env p)
    = Ok (value :: rest) /\
    Json.py_ne v value = false.

Lemma set_product_fields_loop_in_sync env p it maps :
  (forall m, In m maps -> field_in_sync env p it m) ->
  set_product_fields_loop env p it (deserialize env p, false) maps
  = Ok (deserialize env p, false).
Proof.
  induction maps as [|m maps IH]; intros H; simpl; [reflexivity|].
  destruct (H m (or_introl eq_refl)) as [v [value [rest [Hv [Hf Hn]]]]].
  rewrite Hv, Hf, Hn. apply IH. intros m' Hm'. apply H. now right.
Qed.

(** C7.  When every pair of the field map of the server has a Local
    value equal to the value at its path in the deserialised product,
    [set_product_fields] returns [False] with the product it was given
    and leaves the world as it is; and when the name of the product is
    up to date as well (and the item is no bundle), the first part of
    [update_woocommerce_product] saves nothing: no call reaches the
    remote server. *)
Theorem fields_in_sync_are_not_written env p it w wc_server :
  find (fun s => String.eqb (server_name s) (woocommerce_server p))
       (servers (db w)) = Some wc_server ->
  (forall m, In m (item_field_map wc_server) -> field_in_sync env p it m) ->
  set_product_fields env p it w = (Ok (false, p), w)
  /\ (find_bundle (db w) (item_code (item it)) = None ->
      woocommerce_name p = Some (clean_product_name (item_name (item it))) ->
      update_name_and_fields env p it w = (Ok p, w)).
Proof.
  intros Hs Hmaps.
  assert (E : set_product_fields env p it w = (Ok (false, p), w)).
  { assert (G : get_server (woocommerce_server p) w = (Ok wc_server, w)).
    { unfold get_server, bind, get_db. now rewrite Hs. }
    unfold set_product_fields. rewrite (bind_ok _ _ _ _ _ G).
    destruct (item_field_map wc_server) as [|m maps] eqn:Em; [reflexivity|].
    unfold bind, lift.
    rewrite (set_product_fields_loop_in_sync env p it (m :: maps) Hmaps).
    reflexivity. }
  split; [exact E|].
  intros Hb Hname. unfold update_name_and_fields, bind at 1, get_db.
  rewrite Hb, Hname. simpl Json.of_opt_str. simpl Json.py_eq.
  rewrite String.eqb_refl. simpl negb. cbv iota.
  rewrite (bind_ok _ _ _ _ _ E). reflexivity.
Qed.

(** A server that maps the field [description] of the item to the path
    [short_description], and an item and a product that agree on it. *)
Definition mapped_server : WooCommerceServer :=
  mkServer "shop" "https://shop.example/" "ck" "cs" 1 0 0 "Standard Selling"
           [mkFieldMap "description | Description" "short_description"].

Definition mapped_item : ERPNextItemToSync :=
  mkToSync
    (mkItem "BRK-1" "Brake Pad" 100 0 0 None None None None [] [] [] [] 0 []
            0 false [("description", JStr "Front axle")])
    1.

Definition mapped_product : WooCommerceProduct :=
  mkProduct (Some "shop~77") "shop" (Some "77") (Some "Brake Pad")
            (Some 50%Z) "simple" "publish" JNull (JStr "77")
            [("short_description", JStr "Front axle")].

Definition mapped_world : World :=
  Fixture.world_of (mkDB [] [] [] [] [] [] [mapped_server] [] 1000).

Lemma fields_in_sync_are_not_written_witness :
  set_product_fields (Fixture.env_of Fixture.accepting)
    mapped_product mapped_item mapped_world
  = (Ok (false, mapped_product), mapped_world).
Proof.
  refine (proj1 (fields_in_sync_are_not_written
                   (Fixture.env_of Fixture.accepting)
                   mapped_product mapped_item mapped_world mapped_server
                   eq_refl _)).
  intros m [<-|[]].
  exists (JStr "Front axle"), (JStr "Front axle"), [].
  repeat split.
Defined.

End FieldMapperFacts.

(* ===================================================================== *)
(** * Effects of the update on the world *)
(* ===================================================================== *)

(** The update of a product reads the Local store and talks to the
    remote server: it writes nothing into the database and queues no
    job; the error log and the list of remote calls only grow. *)
Module Effects.

Import Frappe Sync Text Monad.

Definition extends (w w' : World) : Prop :=
  db w' = db w /\ queue w' = queue w /\
  (exists l, log w' = log w ++ l) /\ (exists s, sent w' = sent w ++ s).

Definition read_only {A} (m : M A) : Prop :=
  forall w, extends w (snd (m w)).

Lemma extends_refl w : extends w w.
Proof.
  repeat split; exists []; now rewrite app_nil_r.
Qed.

Lemma extends_trans w1 w2 w3 :
  extends w1 w2 -> extends w2 w3 -> extends w1 w3.
Proof.
  intros [Hd [Hq [[l Hl] [s Hs]]]] [Hd' [Hq' [[l' Hl'] [s' Hs']]]].
  repeat split; try congruence.
  - exists (l ++ l'). now rewrite Hl', Hl, app_assoc.
  - exists (s ++ s'). now rewrite Hs', Hs, app_assoc.
Qed.

Lemma read_only_ret {A} (a : A) : read_only (ret a).
Proof. intros w. apply extends_refl. Qed.

Lemma read_only_raise {A} e : read_only (@raise A e).
Proof. intros w. apply extends_refl. Qed.

Lemma read_only_lift {A} (r : result A) : read_only (lift r).
Proof. intros w. apply extends_refl. Qed.

Lemma read_only_get_db : read_only get_db.
Proof. intros w. apply extends_refl. Qed.

Lemma read_only_log_error t : read_only (log_error t).
Proof.
  intros w. repeat split; simpl; [now exists [t]|].
  exists []. now rewrite app_nil_r.
Qed.

Lemma read_only_request env r : read_only (request env r).
Proof.
  intros w. repeat split; simpl; [|now exists [r]].
  exists []. now rewrite app_nil_r.
Qed.

Lemma read_only_bind {A B} (m : M A) (k : A -> M B) :
  read_only m -> (forall a, read_only (k a)) -> read_only (bind m k).
Proof.
  intros Hm Hk w. unfold bind. specialize (Hm w).
  destruct (m w) as [[a|e] w1]; simpl in *; [|exact Hm].
  eapply extends_trans; [exact Hm|apply Hk].
Qed.

Lemma read_only_try_except {A} (m : M A) (h : exn -> M A) :
  read_only m -> (forall e, read_only (h e)) -> read_only (try_except m h).
Proof.
  intros Hm Hh w. unfold try_except. specialize (Hm w).
  destruct (m w) as [[a|e] w1]; simpl in *; [exact Hm|].
  eapply extends_trans; [exact Hm|apply Hh].
Qed.

Lemma read_only_map_m {A B} (f : A -> M B) l :
  (forall x, read_only (f x)) -> read_only (map_m f l).
Proof.
  intros Hf. induction l as [|x l IH]; simpl.
  - apply read_only_ret.
  - apply read_only_bind; [apply Hf|]. intros y.
    apply read_only_bind; [exact IH|]. intros ys. apply read_only_ret.
Qed.

Create HintDb read_only.

#[local] Hint Resolve read_only_ret read_only_raise read_only_lift
  read_only_get_db read_only_log_error read_only_request : read_only.

(** One step through a computation: the monad operations by their
    lemmas, a case distinction by cases, a known function by its
    lemma. *)
Ltac read_only_step :=
  match goal with
  | |- read_only (bind _ _) => apply read_only_bind; [|intros]
  | |- read_only (try_except _ _) => apply read_only_try_except; [|intros]
  | |- read_only (map_m _ _) => apply read_only_map_m; intros
  | |- read_only (match ?x with _ => _ end) => destruct x
  | |- read_only _ => solve [auto with read_only]
  end.

Ltac read_only_tac := repeat read_only_step.

Lemma read_only_translate_text s : read_only (translate_text s).
Proof. unfold translate_text. read_only_tac. Qed.

Lemma read_only_get_item code : read_only (get_item code).
Proof. unfold get_item. read_only_tac. Qed.

Lemma read_only_get_server n : read_only (get_server n).
Proof. unfold get_server. read_only_tac. Qed.

#[local] Hint Resolve read_only_translate_text read_only_get_item
  read_only_get_server : read_only.

Lemma read_only_compatibility_entries code :
  read_only (compatibility_entries code).
Proof. unfold compatibility_entries. read_only_tac. Qed.

Lemma read_only_expanded_years_of env row :
  read_only (expanded_years_of env row).
Proof. unfold expanded_years_of. read_only_tac. Qed.

#[local] Hint Resolve read_only_compatibility_entries
  read_only_expanded_years_of : read_only.

Lemma read_only_compat_rows env rows : forall meta index,
  read_only (compat_rows env meta index rows).
Proof.
  induction rows as [|row rows IH]; simpl; intros meta index.
  - apply read_only_ret.
  - apply read_only_bind; [|intros; apply IH].
    unfold compat_row. read_only_tac.
Qed.

#[local] Hint Resolve read_only_compat_rows : read_only.

Lemma read_only_build_compatibility_data env code :
  read_only (build_compatibility_data env code).
Proof. unfold build_compatibility_data. read_only_tac. Qed.

#[local] Hint Resolve read_only_build_compatibility_data : read_only.

Lemma read_only_build_item_description env code :
  read_only (build_item_description env code).
Proof. unfold build_item_description. read_only_tac. Qed.

Lemma read_only_push_outcome resp : read_only (push_outcome resp).
Proof. unfold push_outcome. read_only_tac. Qed.

#[local] Hint Resolve read_only_build_item_description
  read_only_push_outcome : read_only.

Lemma read_only_push_wc_product env product_id meta fields :
  read_only (push_wc_product env product_id meta fields).
Proof. unfold push_wc_product. read_only_tac. Qed.

Lemma read_only_set_product_fields env p it :
  read_only (set_product_fields env p it).
Proof. unfold set_product_fields. read_only_tac. Qed.

Lemma read_only_response_json resp : read_only (response_json resp).
Proof. unfold response_json. read_only_tac. Qed.

#[local] Hint Resolve read_only_push_wc_product read_only_set_product_fields
  read_only_response_json : read_only.

Lemma read_only_get_or_create_wc_category env self name parent_id :
  read_only (get_or_create_wc_category env self name parent_id).
Proof. unfold get_or_create_wc_category. read_only_tac. Qed.

Lemma read_only_get_or_create_wc_offer_category env self name :
  read_only (get_or_create_wc_offer_category env self name).
Proof. unfold get_or_create_wc_offer_category. read_only_tac. Qed.

Lemma read_only_save_product env p : read_only (save_product env p).
Proof. unfold save_product. read_only_tac. Qed.

#[local] Hint Resolve read_only_get_or_create_wc_category
  read_only_get_or_create_wc_offer_category read_only_save_product
  : read_only.

Lemma read_only_push_bought_together env product_id code :
  read_only (push_bought_together env product_id code).
Proof. unfold push_bought_together. read_only_tac. Qed.

Lemma read_only_update_name_and_fields env p it :
  read_only (update_name_and_fields env p it).
Proof. unfold update_name_and_fields. read_only_tac. Qed.

Lemma read_only_push_images env product_id it :
  read_only (push_images env product_id it).
Proof. unfold push_images. read_only_tac. Qed.

Lemma read_only_push_description env product_id it :
  read_only (push_description env product_id it).
Proof. unfold push_description. read_only_tac. Qed.

Lemma read_only_push_shipping_class env product_id it :
  read_only (push_shipping_class env product_id it).
Proof. unfold push_shipping_class. read_only_tac. Qed.

Lemma read_only_push_attributes env product_id it :
  read_only (push_attributes env product_id it).
Proof.
  unfold push_attributes, wc_attribute, attribute_options. read_only_tac.
Qed.

Lemma read_only_push_branch_stock env product_id it :
  read_only (push_branch_stock env product_id it).
Proof. unfold push_branch_stock. read_only_tac. Qed.

Lemma read_only_push_stock env product_id it :
  read_only (push_stock env product_id it).
Proof. unfold push_stock. read_only_tac. Qed.

Lemma read_only_push_price env product_id it :
  read_only (push_price env product_id it).
Proof. unfold push_price. read_only_tac. Qed.

Lemma read_only_push_spare_part env product_id it :
  read_only (push_spare_part env product_id it).
Proof. unfold push_spare_part. read_only_tac. Qed.

Lemma read_only_push_compatibility env product_id it :
  read_only (push_compatibility env product_id it).
Proof. unfold push_compatibility. read_only_tac. Qed.

Lemma read_only_push_categories env self product_id it :
  read_only (push_categories env self product_id it).
Proof. unfold push_categories. read_only_tac. Qed.

Lemma read_only_push_offer_categories env self product_id it :
  read_only (push_offer_categories env self product_id it).
Proof. unfold push_offer_categories. read_only_tac. Qed.

#[local] Hint Resolve read_only_push_bought_together
  read_only_update_name_and_fields read_only_push_images
  read_only_push_description read_only_push_shipping_class
  read_only_push_attributes read_only_push_branch_stock read_only_push_stock
  read_only_push_price read_only_push_spare_part read_only_push_compatibility
  read_only_push_categories read_only_push_offer_categories : read_only.

Lemma read_only_push_field_groups env self product_id it :
  read_only (push_field_groups env self product_id it).
Proof. unfold push_field_groups. read_only_tac. Qed.

#[local] Hint Resolve read_only_push_field_groups : read_only.

(** [update_woocommerce_product] writes nothing to the Local store. *)
Lemma read_only_update_woocommerce_product env self p it :
  read_only (update_woocommerce_product env self p it).
Proof. unfold update_woocommerce_product. read_only_tac. Qed.

(** ** What a push sends *)

Definition products_url (server : WooCommerceServer) : string :=
  (rstrip_char "/" (woocommerce_server_url server)
   ++ "/wp-json/wc/v3/products")%string.

(** [push_wc_product], step by step. *)
Lemma push_wc_product_eq env product_id meta fields w :
  push_wc_product env product_id meta fields w
  = match enabled_servers (db w) with
    | [] => (Raise UnboundLocalError, w)
    | server :: _ =>
        match push_payload meta fields with
        | [] =>
            (Ok (JDict []),
             logged "push_wc_product called with no fields or meta" w)
        | payload =>
            let q := PushProduct (products_url server) product_id payload in
            push_outcome (remote env (sent w) q)
              (mkWorld (db w) (log w) (sent w ++ [q]) (queue w))
        end
    end.
Proof.
  unfold push_wc_product, bind at 1, get_db.
  destruct (enabled_servers (db w)) as [|server l]; [reflexivity|].
  destruct (push_payload meta fields); reflexivity.
Qed.

(** Every answer to a push is turned into a result: nothing is raised,
    and only the error log may change. *)
Lemma push_outcome_ok resp w :
  exists v w', push_outcome resp w = (Ok v, w') /\
               db w' = db w /\ sent w' = sent w /\ queue w' = queue w.
Proof.
  unfold push_outcome.
  destruct resp as [c b|c t|ps|e];
    try destruct (status_ok c); eexists; eexists; repeat split.
Qed.

(** With a server that has sync enabled and something to send,
    [push_wc_product] sends one request and raises nothing, whatever
    the answer is. *)
Lemma push_wc_product_sent env product_id meta fields w server l x xs :
  enabled_servers (db w) = server :: l ->
  push_payload meta fields = x :: xs ->
  exists v w',
    push_wc_product env product_id meta fields w = (Ok v, w') /\
    sent w' = sent w ++ [PushProduct (products_url server) product_id (x :: xs)]
    /\ db w' = db w.
Proof.
  intros Hs Hp. unfold push_wc_product, bind at 1, get_db.
  rewrite Hs, Hp. unfold bind, request.
  destruct (remote env (sent w) _) as [c b|c t|ps|e]; simpl.
  - destruct (status_ok c); simpl; eexists; eexists; repeat split.
  - destruct (status_ok c); simpl; eexists; eexists; repeat split.
  - eexists; eexists; repeat split.
  - eexists; eexists; repeat split.
Qed.

Lemma enabled_servers_first d server rest :
  servers d = server :: rest -> enable_sync server = 1%Z ->
  enabled_servers d = [server].
Proof.
  intros Hs He. unfold enabled_servers. rewrite Hs. cbn [filter].
  rewrite He. reflexivity.
Qed.

(** After the name and the mapped fields, [update_woocommerce_product]
    sends the SKU of the item to the product. *)
Lemma update_pushes_sku env self p it w server rest p' w1 :
  servers (db w) = server :: rest -> enable_sync server = 1%Z ->
  update_name_and_fields env p it (logged "351" w) = (Ok p', w1) ->
  exists tail,
    sent (snd (update_woocommerce_product env self p it w))
    = sent w1
      ++ PushProduct (products_url server) (product_id_of p')
           [("sku", JStr (item_code (item it)))] :: tail.
Proof.
  intros Hs He Hu.
  assert (Hd : db w1 = db w).
  { pose proof (read_only_update_name_and_fields env p it (logged "351" w))
      as [Hd _]. rewrite Hu in Hd. exact Hd. }
  unfold update_woocommerce_product, bind at 1, get_db.
  rewrite Hs. cbn [firstn]. rewrite He. change (1 =? 0)%Z with false. cbv iota.
  unfold bind at 1, log_error at 1. fold (logged "351" w).
  rewrite (bind_ok _ _ _ _ _ Hu).
  unfold push_field_groups.
  destruct (push_wc_product_sent env (product_id_of p') None
              [("sku", JStr (item_code (item it)))] w1 server [] _ _
              ltac:(rewrite Hd; eapply enabled_servers_first; eauto) eq_refl)
    as [v [w2 [Hpush [Hsent _]]]].
  unfold bind at 1. unfold bind at 1. rewrite Hpush.
  match goal with
  | |- context [sent (snd (let (r, w') := ?m w2 in _))] =>
      assert (Hr : read_only m) by read_only_tac;
      specialize (Hr w2); destruct (m w2) as [[u|e] w3]
  end; simpl in *; destruct Hr as [_ [_ [_ [s Hs3]]]];
    exists s; rewrite Hs3, Hsent, <- app_assoc; reflexivity.
Qed.

End Effects.

(* ===================================================================== *)
(** * Properties of the reconciliation *)
(* ===================================================================== *)

Module ReconciliationFacts.

Import Frappe Sync Text Monad Effects.

(** The reconciliation of two existing sides, from the call of
    [update_woocommerce_product] on. *)
Lemma sync_both_unfold env api it p w :
  sync_wc_product_with_erpnext_item env (mkSync (Some it) (Some p) api) w
  = bind (update_woocommerce_product env (mkSync (Some it) (Some p) api) p it)
      (fun p' =>
         let self := mkSync (Some it) (Some p') api in
         d <- get_db ;;
         if (get_datetime d (woocommerce_date_modified p')
             <? get_datetime d (Some (modified (item it))))%Z
         then
           log_error "276" ;;
           p'' <- update_woocommerce_product env self p' it ;;
           ret (mkSync (Some it) (Some p'') api)
         else ret self)
      (logged "264" (logged "255" w)).
Proof. reflexivity. Qed.

Lemma read_only_sync_both_rest env api it p' :
  read_only
    (let self := mkSync (Some it) (Some p') api in
     d <- get_db ;;
     if (get_datetime d (woocommerce_date_modified p')
         <? get_datetime d (Some (modified (item it))))%Z
     then
       log_error "276" ;;
       p'' <- update_woocommerce_product env self p' it ;;
       ret (mkSync (Some it) (Some p'') api)
     else ret self).
Proof.
  cbv zeta. apply read_only_bind; [apply read_only_get_db|]. intros d.
  destruct (_ <? _)%Z; [|apply read_only_ret].
  apply read_only_bind; [apply read_only_log_error|]. intros _.
  apply read_only_bind; [apply read_only_update_woocommerce_product|].
  intros. apply read_only_ret.
Qed.

(** The database after a reconciliation of two existing sides is the
    database before it. *)
Lemma sync_both_keeps_db env api it p w :
  db (snd (sync_wc_product_with_erpnext_item env
             (mkSync (Some it) (Some p) api) w)) = db w.
Proof.
  rewrite sync_both_unfold.
  assert (H : read_only
            (bind (update_woocommerce_product env
                     (mkSync (Some it) (Some p) api) p it)
               (fun p' =>
                  let self := mkSync (Some it) (Some p') api in
                  d <- get_db ;;
                  if (get_datetime d (woocommerce_date_modified p')
                      <? get_datetime d (Some (modified (item it))))%Z
                  then
                    log_error "276" ;;
                    p'' <- update_woocommerce_product env self p' it ;;
                    ret (mkSync (Some it) (Some p'') api)
                  else ret self))).
  { apply read_only_bind; [apply read_only_update_woocommerce_product|].
    intros p'. apply read_only_sync_both_rest. }
  destruct (H (logged "264" (logged "255" w))) as [Hd _].
  exact Hd.
Qed.

(** C1.  When the Local item and the Remote product both exist, the
    reconciliation calls [update_woocommerce_product] first: what that
    call logs and sends opens what the reconciliation logs and sends,
    and an exception of the call is the outcome of the reconciliation;
    with sync enabled on the server and the name and the mapped fields
    settled, the SKU of the item is sent to the product.  The
    reconciliation leaves the database as it is and returns the
    item it was given, for every pair of time stamps.  [update_item]
    logs a line and changes nothing, [create_item] does nothing, and a
    reconciliation with a Remote product only creates no Local item. *)
Theorem both_sides_push_local_to_remote env api it p w :
  let self := mkSync (Some it) (Some p) api in
  let first :=
    update_woocommerce_product env self p it
      (logged "264" (logged "255" w)) in
  let final := sync_wc_product_with_erpnext_item env self w in
  extends (snd first) (snd final)
  /\ (forall e, fst first = Raise e -> final = (Raise e, snd first))
  /\ (forall server rest p' w1,
        servers (db w) = server :: rest -> enable_sync server = 1%Z ->
        update_name_and_fields env p it
          (logged "351" (logged "264" (logged "255" w))) = (Ok p', w1) ->
        exists tail,
          sent (snd final)
          = sent w1
            ++ PushProduct (products_url server) (product_id_of p')
                 [("sku", JStr (item_code (item it)))] :: tail)
  /\ db (snd final) = db w
  /\ (forall s, fst final = Ok s -> self_item s = Some it)
  /\ (forall s q t v, update_item s q t v = (Ok s, logged "new" v))
  /\ (forall s q v, create_item s q v = (Ok s, v))
  /\ sync_wc_product_with_erpnext_item env (mkSync None (Some p) api) w
     = (Ok (mkSync None (Some p) api), logged "255" w).
Proof.
  cbv zeta.
  assert (Hext : extends
            (snd (update_woocommerce_product env
                    (mkSync (Some it) (Some p) api) p it
                    (logged "264" (logged "255" w))))
            (snd (sync_wc_product_with_erpnext_item env
                    (mkSync (Some it) (Some p) api) w))).
  { rewrite sync_both_unfold. unfold bind at 1.
    destruct (update_woocommerce_product _ _ _ _ _) as [[p'|e] w1];
      [|apply extends_refl].
    apply (read_only_sync_both_rest env api it p' w1). }
  split; [exact Hext|].
  split; [|split; [|split; [|split; [|split; [|split]]]]].
  - intros e He. rewrite sync_both_unfold. unfold bind at 1.
    destruct (update_woocommerce_product _ _ _ _ _) as [[p'|e'] w1];
      simpl in *; [discriminate|congruence].
  - intros server rest p' w1 Hs He Hu.
    destruct (update_pushes_sku env (mkSync (Some it) (Some p) api) p it
                (logged "264" (logged "255" w)) server rest p' w1 Hs He Hu)
      as [tail Ht].
    destruct Hext as [_ [_ [_ [s Hsent]]]].
    exists (tail ++ s). rewrite Hsent, Ht, <- app_assoc. reflexivity.
  - apply sync_both_keeps_db.
  - intros s. rewrite sync_both_unfold. unfold bind at 1.
    destruct (update_woocommerce_product _ _ _ _ _) as [[p'|e'] w1];
      [|discriminate].
    cbv zeta. unfold bind at 1, get_db.
    destruct (_ <? _)%Z.
    + unfold bind at 1, log_error. unfold bind at 1.
      destruct (update_woocommerce_product _ _ _ _ _) as [[p''|e''] w2];
        simpl; [|discriminate].
      intros H. now inversion H.
    + simpl. intros H. now inversion H.
  - reflexivity.
  - reflexivity.
  - reflexivity.
Qed.

End ReconciliationFacts.

(* ===================================================================== *)
(** * Fault isolation of the pushes *)
(* ===================================================================== *)

(** Two runs of the same code against two remote servers that differ in
    their answers to the pushes of [push_wc_product] only: the runs make
    the same remote calls and end with the same result. *)
Module FaultIsolation.

Import Frappe Sync Text Monad Effects.

Definition is_push (q : Request) : bool :=
  match q with PushProduct _ _ _ => true | _ => false end.

Definition same_but_push (r r' : Remote) : Prop :=
  forall h q, is_push q = false -> r h q = r' h q.

Definition with_remote (r : Remote) (env : Env) : Env :=
  mkEnv r (jsonpath_find env) (jsonpath_update env) (deserialize env)
        (serialize env) (set_iter env) (set_iter_json env) (rand_order env)
        (float_add env) (json_loads env).

(** Worlds that differ in the error log at most. *)
Definition related (w w' : World) : Prop :=
  db w = db w' /\ sent w = sent w' /\ queue w = queue w'.

Definition outcomes {A} (R : A -> A -> Prop) (r r' : result A) : Prop :=
  match r, r' with
  | Ok a, Ok a' => R a a'
  | Raise e, Raise e' => e = e'
  | _, _ => False
  end.

Definition agree {A} (R : A -> A -> Prop) (m m' : M A) : Prop :=
  forall w w', related w w' ->
    related (snd (m w)) (snd (m' w')) /\ outcomes R (fst (m w)) (fst (m' w')).

Definition anything {A} (a a' : A) : Prop := True.

Lemma agree_ret {A} (R : A -> A -> Prop) a a' :
  R a a' -> agree R (ret a) (ret a').
Proof. intros H w w' Hw. split; [exact Hw|exact H]. Qed.

Lemma agree_ret_eq {A} (a : A) : agree eq (ret a) (ret a).
Proof. now apply agree_ret. Qed.

Lemma agree_raise {A} (R : A -> A -> Prop) e : agree R (raise e) (raise e).
Proof. intros w w' Hw. split; [exact Hw|reflexivity]. Qed.

Lemma agree_lift {A} (r : result A) : agree eq (lift r) (lift r).
Proof. intros w w' Hw. split; [exact Hw|]. destruct r; reflexivity. Qed.

Lemma agree_get_db : agree eq get_db get_db.
Proof. intros w w' Hw. split; [exact Hw|]. simpl. apply Hw. Qed.

Lemma agree_log_error t t' :
  agree eq (log_error t) (log_error t').
Proof.
  intros w w' [Hd [Hs Hq]]. split; [|reflexivity]. now repeat split.
Qed.

Lemma agree_log_or_not t : agree eq (log_error t) (ret tt).
Proof.
  intros w w' [Hd [Hs Hq]]. split; [|reflexivity]. now repeat split.
Qed.

Lemma agree_not_or_log t : agree eq (ret tt) (log_error t).
Proof.
  intros w w' [Hd [Hs Hq]]. split; [|reflexivity]. now repeat split.
Qed.

Lemma agree_bind {A B} (R : A -> A -> Prop) (S : B -> B -> Prop)
  (m m' : M A) (k k' : A -> M B) :
  agree R m m' -> (forall a a', R a a' -> agree S (k a) (k' a')) ->
  agree S (bind m k) (bind m' k').
Proof.
  intros Hm Hk w w' Hw. unfold bind. specialize (Hm w w' Hw).
  destruct (m w) as [[a|e] w1], (m' w') as [[a'|e'] w1'];
    simpl in *; destruct Hm as [Hr Ho]; try contradiction.
  - now apply Hk.
  - split; [exact Hr|exact Ho].
Qed.

Lemma agree_bind_eq {A B} (S : B -> B -> Prop)
  (m m' : M A) (k k' : A -> M B) :
  agree eq m m' -> (forall a, agree S (k a) (k' a)) ->
  agree S (bind m k) (bind m' k').
Proof.
  intros Hm Hk. eapply agree_bind; [exact Hm|]. intros a a' <-. apply Hk.
Qed.

Lemma agree_try_except {A} (R : A -> A -> Prop) (m m' : M A)
  (h h' : exn -> M A) :
  agree R m m' -> (forall e, agree R (h e) (h' e)) ->
  agree R (try_except m h) (try_except m' h').
Proof.
  intros Hm Hh w w' Hw. unfold try_except. specialize (Hm w w' Hw).
  destruct (m w) as [[a|e] w1], (m' w') as [[a'|e'] w1'];
    simpl in *; destruct Hm as [Hr Ho]; try contradiction.
  - split; [exact Hr|exact Ho].
  - subst e'. now apply Hh.
Qed.

Lemma agree_map_m {A B} (f f' : A -> M B) l :
  (forall x, agree eq (f x) (f' x)) -> agree eq (map_m f l) (map_m f' l).
Proof.
  intros Hf. induction l as [|x l IH]; simpl.
  - apply agree_ret_eq.
  - apply agree_bind_eq; [apply Hf|]. intros y.
    apply agree_bind_eq; [exact IH|]. intros ys. apply agree_ret_eq.
Qed.

(** Weakening of the relation on results. *)
Lemma agree_anything {A} (R : A -> A -> Prop) (m m' : M A) :
  agree R m m' -> agree anything m m'.
Proof.
  intros H w w' Hw. destruct (H w w' Hw) as [Hr Ho]. split; [exact Hr|].
  destruct (fst (m w)), (fst (m' w')); simpl in *; auto. exact I.
Qed.

Section TwoRemotes.

Variable env : Env.
Variable r' : Remote.
Hypothesis Hsame : same_but_push (remote env) r'.

Let env' : Env := with_remote r' env.

(** A call that is no push has one answer. *)
Lemma agree_request q :
  is_push q = false -> agree eq (request env q) (request env' q).
Proof.
  intros Hq w w' [Hd [Hs Hk]]. split.
  - repeat split; simpl; congruence.
  - simpl. rewrite Hs. apply Hsame, Hq.
Qed.

(** A push may have two answers; it is sent to both servers, and raises
    in both runs or in none. *)
Lemma agree_push_wc_product product_id meta fields :
  agree anything (push_wc_product env product_id meta fields)
                 (push_wc_product env' product_id meta fields).
Proof.
  intros w w' [Hd [Hs Hq]]. rewrite !push_wc_product_eq. rewrite <- Hd.
  destruct (enabled_servers (db w)) as [|server l].
  - split; [now repeat split|reflexivity].
  - destruct (push_payload meta fields) as [|x xs].
    + split; [now repeat split|exact I].
    + cbv zeta.
      match goal with
      | |- context [push_outcome (remote env ?h ?q) ?v] =>
          destruct (push_outcome_ok (remote env h q) v)
            as [a [w1 [E [Ed [Es Eq]]]]]
      end.
      match goal with
      | |- context [push_outcome (remote env' ?h ?q) ?v] =>
          destruct (push_outcome_ok (remote env' h q) v)
            as [a' [w1' [E' [Ed' [Es' Eq']]]]]
      end.
      rewrite E, E'. simpl in *. split; [|exact I].
      repeat split; congruence.
Qed.

Create HintDb agree.

#[local] Hint Resolve agree_ret_eq agree_lift agree_get_db : agree.
#[local] Hint Extern 1 (agree _ (raise _) (raise _)) =>
  apply agree_raise : agree.
#[local] Hint Extern 1 (agree _ (log_error _) (log_error _)) =>
  apply agree_log_error : agree.
#[local] Hint Extern 1 (agree _ (request _ _) (request _ _)) =>
  apply agree_request; reflexivity : agree.

Ltac agree_step :=
  match goal with
  | |- agree _ (bind (push_wc_product _ _ _ _) _)
               (bind (push_wc_product _ _ _ _) _) =>
      eapply agree_bind; [apply agree_push_wc_product|intros]
  | |- agree _ (bind _ _) (bind _ _) => apply agree_bind_eq; [|intros]
  | |- agree _ (try_except _ _) (try_except _ _) =>
      apply agree_try_except; [|intros]
  | |- agree _ (map_m _ _) (map_m _ _) => apply agree_map_m; intros
  | |- agree _ (match ?x with _ => _ end) (match ?x with _ => _ end) =>
      destruct x
  | |- agree _ _ _ => solve [auto with agree]
  end.

(** The fields of [env'] that are those of [env]. *)
Ltac same_env :=
  unfold env';
  cbn [with_remote jsonpath_find jsonpath_update deserialize serialize
       set_iter set_iter_json rand_order float_add json_loads];
  fold env'.

Ltac agree_tac := same_env; repeat agree_step.

Lemma agree_translate_text s : agree eq (translate_text s) (translate_text s).
Proof. unfold translate_text. agree_tac. Qed.

Lemma agree_get_item code : agree eq (get_item code) (get_item code).
Proof. unfold get_item. agree_tac. Qed.

Lemma agree_get_server n : agree eq (get_server n) (get_server n).
Proof. unfold get_server. agree_tac. Qed.

#[local] Hint Resolve agree_translate_text agree_get_item agree_get_server
  : agree.

Lemma agree_compatibility_entries code :
  agree eq (compatibility_entries code) (compatibility_entries code).
Proof. unfold compatibility_entries. agree_tac. Qed.

Lemma agree_expanded_years_of row :
  agree eq (expanded_years_of env row) (expanded_years_of env' row).
Proof. unfold expanded_years_of. agree_tac. Qed.

#[local] Hint Resolve agree_compatibility_entries agree_expanded_years_of
  : agree.

Lemma agree_compat_rows rows : forall meta index,
  agree eq (compat_rows env meta index rows) (compat_rows env' meta index rows).
Proof.
  induction rows as [|row rows IH]; simpl; intros meta index.
  - apply agree_ret_eq.
  - apply agree_bind_eq; [|intros; apply IH].
    unfold compat_row. agree_tac.
Qed.

#[local] Hint Resolve agree_compat_rows : agree.

Lemma agree_build_compatibility_data code :
  agree eq (build_compatibility_data env code)
           (build_compatibility_data env' code).
Proof. unfold build_compatibility_data. agree_tac. Qed.

#[local] Hint Resolve agree_build_compatibility_data : agree.

Lemma agree_build_item_description code :
  agree eq (build_item_description env code)
           (build_item_description env' code).
Proof. unfold build_item_description. agree_tac. Qed.

Lemma agree_set_product_fields p it :
  agree eq (set_product_fields env p it) (set_product_fields env' p it).
Proof.
  unfold set_product_fields. same_env.
  assert (E : forall maps st,
            set_product_fields_loop env' p it st maps
            = set_product_fields_loop env p it st maps).
  { induction maps as [|m maps IH]; intros st; [reflexivity|].
    simpl.
    change (set_product_field env' p it st m)
      with (set_product_field env p it st m).
    destruct (set_product_field env p it st m); [apply IH|reflexivity]. }
  apply agree_bind_eq; [auto with agree|]. intros wc_server.
  destruct (item_field_map wc_server) as [|m maps]; [auto with agree|].
  rewrite E. repeat agree_step.
Qed.

Lemma agree_response_json resp :
  agree eq (response_json resp) (response_json resp).
Proof. unfold response_json. agree_tac. Qed.

#[local] Hint Resolve agree_build_item_description agree_set_product_fields
  agree_response_json : agree.

Lemma agree_get_or_create_wc_category self name parent_id :
  agree eq (get_or_create_wc_category env self name parent_id)
           (get_or_create_wc_category env' self name parent_id).
Proof. unfold get_or_create_wc_category. agree_tac. Qed.

Lemma agree_get_or_create_wc_offer_category self name :
  agree eq (get_or_create_wc_offer_category env self name)
           (get_or_create_wc_offer_category env' self name).
Proof. unfold get_or_create_wc_offer_category. agree_tac. Qed.

Lemma agree_save_product p :
  agree eq (save_product env p) (save_product env' p).
Proof. unfold save_product. agree_tac. Qed.

#[local] Hint Resolve agree_get_or_create_wc_category
  agree_get_or_create_wc_offer_category agree_save_product : agree.

Lemma agree_push_bought_together product_id code :
  agree eq (push_bought_together env product_id code)
           (push_bought_together env' product_id code).
Proof. unfold push_bought_together, random_items. agree_tac. Qed.

Lemma agree_update_name_and_fields p it :
  agree eq (update_name_and_fields env p it)
           (update_name_and_fields env' p it).
Proof. unfold update_name_and_fields. agree_tac. Qed.

Lemma agree_push_images product_id it :
  agree eq (push_images env product_id it) (push_images env' product_id it).
Proof. unfold push_images. agree_tac. Qed.

Lemma agree_push_description product_id it :
  agree eq (push_description env product_id it)
           (push_description env' product_id it).
Proof. unfold push_description. agree_tac. Qed.

Lemma agree_push_shipping_class product_id it :
  agree eq (push_shipping_class env product_id it)
           (push_shipping_class env' product_id it).
Proof. unfold push_shipping_class. agree_tac. Qed.

Lemma agree_push_attributes product_id it :
  agree eq (push_attributes env product_id it)
           (push_attributes env' product_id it).
Proof.
  unfold push_attributes, wc_attribute, attribute_options. agree_tac.
Qed.

Lemma agree_push_branch_stock product_id it :
  agree eq (push_branch_stock env product_id it)
           (push_branch_stock env' product_id it).
Proof. unfold push_branch_stock. agree_tac. Qed.

Lemma agree_push_stock product_id it :
  agree eq (push_stock env product_id it) (push_stock env' product_id it).
Proof. unfold push_stock, py_sum. agree_tac. Qed.

Lemma agree_push_price product_id it :
  agree eq (push_price env product_id it) (push_price env' product_id it).
Proof. unfold push_price. agree_tac. Qed.

Lemma agree_push_spare_part product_id it :
  agree eq (push_spare_part env product_id it)
           (push_spare_part env' product_id it).
Proof. unfold push_spare_part. agree_tac. Qed.

Lemma agree_push_compatibility product_id it :
  agree eq (push_compatibility env product_id it)
           (push_compatibility env' product_id it).
Proof. unfold push_compatibility. agree_tac. Qed.

Lemma agree_push_categories self product_id it :
  agree eq (push_categories env self product_id it)
           (push_categories env' self product_id it).
Proof. unfold push_categories. agree_tac. Qed.

(** The answer to the push of the offer categories decides one line of
    the error log, nothing else. *)
Lemma agree_push_offer_categories self product_id it :
  agree eq (push_offer_categories env self product_id it)
           (push_offer_categories env' self product_id it).
Proof.
  unfold push_offer_categories.
  apply agree_bind_eq; [apply agree_map_m; intros; auto with agree|].
  intros offer_categories.
  eapply agree_bind; [apply agree_push_wc_product|].
  intros a a' _.
  destruct (Json.truthy a), (Json.truthy a');
    auto using agree_log_or_not, agree_not_or_log with agree.
Qed.

#[local] Hint Resolve agree_push_bought_together
  agree_update_name_and_fields agree_push_images agree_push_description
  agree_push_shipping_class agree_push_attributes agree_push_branch_stock
  agree_push_stock agree_push_price agree_push_spare_part
  agree_push_compatibility agree_push_categories
  agree_push_offer_categories : agree.

Lemma agree_push_field_groups self product_id it :
  agree eq (push_field_groups env self product_id it)
           (push_field_groups env' self product_id it).
Proof. unfold push_field_groups. agree_tac. Qed.

#[local] Hint Resolve agree_push_field_groups : agree.

Lemma agree_update_woocommerce_product self p it :
  agree eq (update_woocommerce_product env self p it)
           (update_woocommerce_product env' self p it).
Proof. unfold update_woocommerce_product. agree_tac. Qed.

End TwoRemotes.

(** The answers [push_wc_product] takes for a failure: a status other
    than 200 and 201, a body that is no JSON, an exception. *)
Definition failed (resp : Response) : Prop :=
  match resp with
  | HttpJson c _ => status_ok c = false
  | _ => True
  end.

(** The remote server [r] with every push failing in the transport. *)
Definition failing_pushes (r : Remote) : Remote :=
  fun h q => if is_push q then Failure TransportError else r h q.

Lemma failing_pushes_same r : same_but_push r (failing_pushes r).
Proof. intros h q Hq. unfold failing_pushes. now rewrite Hq. Qed.

(** The field groups pushed: the first key of the body of each push. *)
Definition pushed_groups (l : list Request) : list string :=
  flat_map (fun q => match q with
                     | PushProduct _ _ ((k, _) :: _) => [k]
                     | _ => []
                     end) l.

(** C8.  A push that fails - a status other than 200 and 201, a body
    that cannot be decoded, an exception of the transport - is caught
    in [push_wc_product]: the call has made its one request, adds one
    line to the error log and returns the empty dict.  With a server
    that has sync enabled, [push_wc_product] raises nothing whatever
    the answer is; and the answers to the pushes change neither the
    remote calls [update_woocommerce_product] makes nor its result:
    every field group is pushed after a failed one as after a
    successful one. *)
Theorem push_failures_are_isolated env :
  (forall product_id meta fields w server rest,
     enabled_servers (db w) = server :: rest ->
     push_payload meta fields <> [] ->
     let q := PushProduct (products_url server) product_id
                (push_payload meta fields) in
     failed (remote env (sent w) q) ->
     exists title,
       push_wc_product env product_id meta fields w
       = (Ok (JDict []),
          mkWorld (db w) (log w ++ [title]) (sent w ++ [q]) (queue w)))
  /\ (forall product_id meta fields w,
        enabled_servers (db w) <> [] ->
        exists v w',
          push_wc_product env product_id meta fields w = (Ok v, w'))
  /\ (forall r' self p it w,
        same_but_push (remote env) r' ->
        let a := update_woocommerce_product env self p it w in
        let b := update_woocommerce_product (with_remote r' env) self p it w in
        fst a = fst b /\ sent (snd a) = sent (snd b)
        /\ db (snd a) = db (snd b)).
Proof.
  split; [|split].
  - intros product_id meta fields w server rest Hs Hp. cbv zeta.
    rewrite push_wc_product_eq, Hs.
    destruct (push_payload meta fields) as [|x xs]; [congruence|].
    cbv zeta. intros H. unfold push_outcome.
    destruct (remote env (sent w) _) as [c b|c t|ps|e]; simpl in H;
      try rewrite H; try destruct (status_ok c); eexists; reflexivity.
  - intros product_id meta fields w Hs. rewrite push_wc_product_eq.
    destruct (enabled_servers (db w)) as [|server l]; [congruence|].
    destruct (push_payload meta fields) as [|x xs];
      [eexists; eexists; reflexivity|].
    cbv zeta.
    match goal with
    | |- context [push_outcome ?a ?b] =>
        destruct (push_outcome_ok a b) as [v [w' [E _]]]
    end.
    rewrite E. now eexists; eexists.
  - intros r' self p it w Hsame. cbv zeta.
    destruct (agree_update_woocommerce_product env r' Hsame self p it w w)
      as [[Hd [Hs _]] Ho]; [now repeat split|].
    split; [|split; [exact Hs|exact Hd]].
    destruct (fst (update_woocommerce_product env self p it w)),
             (fst (update_woocommerce_product (with_remote r' env) self p it w));
      simpl in Ho; try contradiction; congruence.
Qed.

(** An item with a compatibility row, stock and a price, linked to the
    product "77". *)
Definition isolated_item : ERPNextItemToSync :=
  mkToSync
    (mkItem "BRK-1" "Brake Pad" 100 0 0 (Some "Brakes") None None None
       [] [mkCompatRow (Some "14-17") (Some "Toyota") (Some "Camry") None None]
       [] [mkIWS "L1" 1 "shop" (Some "77") 1 None 5] 0 [] 0 false [])
    1.

Definition isolated_product : WooCommerceProduct :=
  mkProduct (Some "shop~77") "shop" (Some "77") (Some "Brake Pad")
            (Some 50%Z) "simple" "publish" JNull (JStr "77") [].

Definition isolated_world : World :=
  Fixture.world_of
    (mkDB [item isolated_item] []
          [mkBin "BRK-1" "Main Warehouse - ame" (PyFloat.of_int 5)]
          [mkItemPrice "BRK-1" "Standard Selling" (Some 1250%Z) None]
          [] [] [Fixture.server] [] 1000).

Definition isolated_self : SynchroniseItem :=
  mkSync (Some isolated_item) (Some isolated_product) (Some Fixture.server).

(** A remote server that refuses every push with the status 500. *)
Definition refusing_pushes (r : Remote) : Remote :=
  fun h q => if is_push q then HttpText 500 "Internal Server Error"
             else r h q.

Lemma push_failures_are_isolated_witness :
  (exists title,
     push_wc_product
       (Fixture.env_of (refusing_pushes Fixture.accepting))
       (JStr "77") None [("sku", JStr "BRK-1")] isolated_world
     = (Ok (JDict []),
        mkWorld (db isolated_world) ([] ++ [title])
          ([] ++ [PushProduct (products_url Fixture.server) (JStr "77")
                    [("sku", JStr "BRK-1")]]) []))
  /\ pushed_groups
       (sent (snd (update_woocommerce_product
                     (with_remote (failing_pushes Fixture.accepting)
                        (Fixture.env_of Fixture.accepting))
                     isolated_self isolated_product isolated_item
                     isolated_world)))
     = ["sku"; "description"; "meta_data"; "manage_stock"; "regular_price";
        "meta_data"; "meta_data"; "categories"; "offer_category";
        "bundle_product_items"].
Proof.
  split.
  - destruct (push_failures_are_isolated
                (Fixture.env_of (refusing_pushes Fixture.accepting)))
      as [H _].
    apply (H (JStr "77") None [("sku", JStr "BRK-1")] isolated_world
             Fixture.server [] eq_refl ltac:(discriminate) I).
  - destruct (push_failures_are_isolated (Fixture.env_of Fixture.accepting))
      as [_ [_ H]].
    destruct (H (failing_pushes Fixture.accepting) isolated_self
                isolated_product isolated_item isolated_world
                (failing_pushes_same _)) as [_ [Hs _]].
    rewrite <- Hs. vm_compute. reflexivity.
Defined.

End FaultIsolation.

(* ===================================================================== *)
(** * The sync link after a synchronisation *)
(* ===================================================================== *)

Module SyncLinkFacts.

Import Frappe Sync Tasks Monad Effects.

(** Name, [enabled], last sync hash and [modified] of every link. *)
Definition link_states (d : DB)
  : list (string * Z * option datetime * datetime) :=
  map (fun pl => (iws_name (snd pl), enabled (snd pl),
                  woocommerce_last_sync_hash (snd pl), iws_modified (snd pl)))
      (all_links d).

(** Name, [enabled] and last sync hash of every link. *)
Definition link_flags (d : DB) : list (string * Z * option datetime) :=
  map (fun pl => (iws_name (snd pl), enabled (snd pl),
                  woocommerce_last_sync_hash (snd pl)))
      (all_links d).

(** A remote server that holds the product "77", last modified at 50,
    and gives a created product the id "78", last modified at 60. *)
Definition remote_product : WooCommerceProduct :=
  mkProduct (Some "shop~77") "shop" (Some "77") (Some "Brake Pad")
            (Some 50%Z) "simple" "publish" JNull (JStr "77") [].

Definition created (p : WooCommerceProduct) : WooCommerceProduct :=
  mkProduct (Some "shop~78") (woocommerce_server p) (Some "78")
            (woocommerce_name p) (Some 60%Z) (wc_type p) (wc_status p)
            (regular_price p) JNull (tree p).

Definition shop : Remote :=
  fun h q =>
    match q with
    | ListProducts _ (Some "77") _ => Products [remote_product]
    | InsertProduct p => Products [created p]
    | other => Fixture.accepting h other
    end.

(** An item with a price and one link, disabled, to the server "shop". *)
Definition linked_item (wc_id : option string) : Item :=
  mkItem "BRK-1" "Brake Pad" 100 0 0 None None None None [] [] []
         [mkIWS "L1" 1 "shop" wc_id 0 None 5] 0 [] 0 false [].

Definition linked_world (wc_id : option string) : World :=
  Fixture.world_of
    (mkDB [linked_item wc_id] [] []
          [mkItemPrice "BRK-1" "Standard Selling" (Some 1250%Z) None]
          [] [] [Fixture.server] [] 1000).

Definition sync_of (wc_id : option string) :=
  run_item_sync (Fixture.env_of shop) 3 (Some "BRK-1") None None None false
                (linked_world wc_id).

Definition on_link (name : string)
  (upd : ItemWooCommerceServer -> ItemWooCommerceServer)
  (pl : string * ItemWooCommerceServer) : string * ItemWooCommerceServer :=
  (fst pl, if String.eqb (iws_name (snd pl)) name then upd (snd pl)
           else snd pl).

Lemma all_links_set_link_value name upd w :
  fst (set_link_value name upd w) = Ok tt /\
  all_links (db (snd (set_link_value name upd w)))
  = map (on_link name upd) (all_links (db w)) /\
  map modified (items (db (snd (set_link_value name upd w))))
  = map modified (items (db w)).
Proof.
  unfold set_link_value, bind, get_db, put_db. simpl.
  split; [reflexivity|]. unfold all_links. simpl.
  induction (items (db w)) as [|i l [IH1 IH2]]; simpl; [now split|].
  split; [|now rewrite IH2].
  rewrite map_app, IH1. f_equal. rewrite !map_map. reflexivity.
Qed.

(** [set_sync_hash], for every world: the links called like the link of
    the item get the date of the product as hash and 1 as [enabled];
    no link changes its [modified], and no other link changes; the
    [modified] of every item stays. *)
Lemma set_sync_hash_links api it p l w :
  item_woocommerce_server it = Ok l ->
  let w' := snd (set_sync_hash (mkSync (Some it) (Some p) api) w) in
  all_links (db w')
  = map (on_link (iws_name l)
           (fun x => with_enabled 1
                       (with_last_sync_hash (woocommerce_date_modified p) x)))
        (all_links (db w))
  /\ map (fun pl => iws_modified (snd pl)) (all_links (db w'))
     = map (fun pl => iws_modified (snd pl)) (all_links (db w))
  /\ map modified (items (db w')) = map modified (items (db w)).
Proof.
  intros Hl. cbv zeta. unfold set_sync_hash. cbn [self_item self_woocommerce_product].
  unfold bind at 1, lift. rewrite Hl.
  set (u1 := with_last_sync_hash (woocommerce_date_modified p)).
  destruct (all_links_set_link_value (iws_name l) u1 w) as [E1 [L1 M1]].
  unfold bind.
  destruct (set_link_value (iws_name l) u1 w) as [r1 w1] eqn:S1.
  simpl in E1, L1, M1. subst r1.
  destruct (all_links_set_link_value (iws_name l) (with_enabled 1) w1)
    as [E2 [L2 M2]].
  assert (A : all_links
                (db (snd (set_link_value (iws_name l) (with_enabled 1) w1)))
              = map (on_link (iws_name l) (fun x => with_enabled 1 (u1 x)))
                    (all_links (db w))).
  { rewrite L2, L1, map_map. apply map_ext. intros [parent x].
    unfold on_link. simpl.
    destruct (String.eqb (iws_name x) (iws_name l)) eqn:E; simpl.
    - now rewrite E.
    - now rewrite E. }
  split; [exact A|]. split; [|congruence].
  rewrite A, map_map. apply map_ext. intros [parent x]. unfold on_link. simpl.
  now destruct (String.eqb (iws_name x) (iws_name l)).
Qed.

(** [set_sync_hash] writes the two fields of the link and nothing else. *)
Lemma set_sync_hash_enables_link :
  link_states
    (db (snd (set_sync_hash
                (mkSync (Some (mkToSync (linked_item (Some "77")) 1))
                        (Some remote_product) None)
                (linked_world (Some "77")))))
  = [("L1", 1%Z, Some 50%Z, 5%Z)].
Proof. reflexivity. Qed.

(** C10 fails on the update path.  The item is linked to the product
    "77" by a link that is disabled: the synchronisation completes and
    the link is as it was - [enabled] is 0 and no hash is recorded,
    because [update_woocommerce_product] does not call [set_sync_hash].
    On the create path, for the same item without a remote id, the link
    ends enabled with the hash of the created product. *)
Theorem update_path_leaves_link_disabled :
  (exists it p, fst (sync_of (Some "77")) = Ok (Some (Some it, Some p)))
  /\ link_states (db (snd (sync_of (Some "77")))) = [("L1", 0%Z, None, 5%Z)]
  /\ (exists it p, fst (sync_of None) = Ok (Some (Some it, Some p)))
  /\ link_flags (db (snd (sync_of None))) = [("L1", 1%Z, Some 60%Z)].
Proof.
  split; [|split; [|split]].
  - vm_compute. eexists; eexists; reflexivity.
  - vm_compute. reflexivity.
  - vm_compute. eexists; eexists; reflexivity.
  - vm_compute. reflexivity.
Qed.

End SyncLinkFacts.

(* ===================================================================== *)
(** * Properties of the "Bought Together" recommendation *)
(* ===================================================================== *)

Module RecommendationFacts.

Import Frappe Sync Monad Effects.

(** Number of occurrences of a code in a list of codes. *)
Definition occurrences (l : list string) (c : string) : nat :=
  count_occ string_dec l c.

(** Position of the first occurrence of a code; the length of the list
    for a code that does not occur. *)
Fixpoint first_index (c : string) (l : list string) : nat :=
  match l with
  | [] => 0
  | x :: l' => if String.eqb c x then 0 else S (first_index c l')
  end.

(** [c] is ranked before [c']: it occurs more often, or as often and
    earlier. *)
Definition ranks_before (l : list string) (c c' : string) : Prop :=
  (occurrences l c' < occurrences l c)%nat
  \/ (occurrences l c = occurrences l c' /\
      (first_index c l < first_index c' l)%nat).

(** ** The counter *)

Lemma Counter_snoc l x : Counter (l ++ [x]) = count_up x (Counter l).
Proof. unfold Counter. now rewrite fold_left_app. Qed.

Lemma count_up_keys x c :
  map fst (count_up x c)
  = if existsb (String.eqb x) (map fst c) then map fst c
    else map fst c ++ [x].
Proof.
  induction c as [|[y n] c IH]; simpl; [reflexivity|].
  destruct (String.eqb x y) eqn:E; simpl; [reflexivity|].
  rewrite IH. now destruct (existsb _ _).
Qed.

Lemma count_up_assoc x c k :
  Json.assoc k (count_up x c)
  = if String.eqb k x
    then Some (S (match Json.assoc x c with Some n => n | None => 0 end))
    else Json.assoc k c.
Proof.
  induction c as [|[y n] c IH]; simpl.
  - destruct (String.eqb k x); reflexivity.
  - destruct (String.eqb x y) eqn:E; simpl.
    + apply String.eqb_eq in E. subst y.
      destruct (String.eqb k x); reflexivity.
    + rewrite IH. destruct (String.eqb k y) eqn:Eky.
      * apply String.eqb_eq in Eky. subst y.
        destruct (String.eqb k x) eqn:Ekx; [|reflexivity].
        apply String.eqb_eq in Ekx. subst k.
        now rewrite String.eqb_refl in E.
      * destruct (String.eqb k x); reflexivity.
Qed.

Lemma existsb_eqb_in x l : existsb (String.eqb x) l = true <-> In x l.
Proof.
  rewrite existsb_exists. split.
  - intros [y [Hy E]]. apply String.eqb_eq in E. now subst.
  - intros H. exists x. split; [exact H|apply String.eqb_refl].
Qed.

Lemma occurrences_snoc l x c :
  occurrences (l ++ [x]) c
  = (occurrences l c + if String.eqb c x then 1 else 0)%nat.
Proof.
  unfold occurrences. rewrite count_occ_app. simpl.
  destruct (string_dec x c) as [->|N].
  - now rewrite String.eqb_refl.
  - destruct (String.eqb c x) eqn:E; [|reflexivity].
    apply String.eqb_eq in E. congruence.
Qed.

(** The counter holds each code of the list once, with its number of
    occurrences. *)
Lemma Counter_spec l :
  NoDup (map fst (Counter l)) /\
  (forall c, In c (map fst (Counter l)) <-> In c l) /\
  (forall c, Json.assoc c (Counter l)
             = if existsb (String.eqb c) l then Some (occurrences l c)
               else None).
Proof.
  induction l as [|x l [IH1 [IH2 IH3]]] using rev_ind.
  - split; [constructor|]. split; [intros c; simpl; tauto|reflexivity].
  - rewrite Counter_snoc. split; [|split].
    + rewrite count_up_keys.
      destruct (existsb _ _) eqn:E; [exact IH1|].
      apply NoDup_app; [exact IH1|repeat constructor; intros []|].
      intros y Hy [<-|[]]. apply existsb_eqb_in in Hy. congruence.
    + intros c. rewrite count_up_keys, in_app_iff. simpl.
      destruct (existsb _ _) eqn:E.
      * rewrite IH2. apply existsb_eqb_in in E. apply IH2 in E.
        split; [tauto|]. intros [H|[<-|[]]]; tauto.
      * rewrite in_app_iff, IH2. simpl. tauto.
    + intros c. rewrite count_up_assoc, occurrences_snoc, existsb_app. simpl.
      rewrite orb_false_r.
      destruct (String.eqb c x) eqn:E.
      * apply String.eqb_eq in E. subst c. rewrite orb_true_r, IH3.
        destruct (existsb _ l) eqn:Ex; f_equal; [lia|].
        assert (N : ~ In x l).
        { intros Hin. apply existsb_eqb_in in Hin. congruence. }
        unfold occurrences.
        apply (count_occ_not_In string_dec) in N. rewrite N. reflexivity.
      * rewrite orb_false_r, IH3. destruct (existsb _ l); [|reflexivity].
        f_equal. lia.
Qed.

Lemma assoc_in_nodup {A} (kv : list (string * A)) k v :
  NoDup (map fst kv) -> In (k, v) kv -> Json.assoc k kv = Some v.
Proof.
  induction kv as [|[k' v'] kv IH]; simpl; intros Hn Hin; [contradiction|].
  inversion Hn as [|? ? Hk Hn']; subst.
  destruct Hin as [E|Hin].
  - inversion E; subst. now rewrite String.eqb_refl.
  - destruct (String.eqb k k') eqn:E; [|now apply IH].
    apply String.eqb_eq in E. subst k'. exfalso. apply Hk.
    apply in_map_iff. now exists (k, v).
Qed.

(** The pairs of the counter. *)
Lemma Counter_pairs l c n :
  In (c, n) (Counter l) -> n = occurrences l c /\ In c l.
Proof.
  intros Hin. destruct (Counter_spec l) as [Hn [Hk Ha]].
  pose proof (assoc_in_nodup _ _ _ Hn Hin) as E. rewrite Ha in E.
  destruct (existsb _ l) eqn:Ex; [|discriminate].
  inversion E. split; [reflexivity|]. now apply existsb_eqb_in.
Qed.

Lemma first_index_lt c l : In c l -> (first_index c l < List.length l)%nat.
Proof.
  induction l as [|x l IH]; simpl; [tauto|].
  destruct (String.eqb c x) eqn:E; [lia|].
  intros [->|H]; [now rewrite String.eqb_refl in E|].
  specialize (IH H). lia.
Qed.

Lemma first_index_app_in c l l' :
  In c l -> first_index c (l ++ l') = first_index c l.
Proof.
  induction l as [|x l IH]; simpl; [tauto|].
  destruct (String.eqb c x) eqn:E; [reflexivity|].
  intros [->|H]; [now rewrite String.eqb_refl in E|].
  now rewrite IH.
Qed.

Lemma first_index_app_new c l l' :
  ~ In c l -> first_index c (l ++ l') = (List.length l + first_index c l')%nat.
Proof.
  induction l as [|x l IH]; simpl; [reflexivity|].
  intros N. destruct (String.eqb c x) eqn:E.
  - apply String.eqb_eq in E. subst. tauto.
  - rewrite IH; tauto.
Qed.

Lemma StronglySorted_impl_in {A} (R R' : A -> A -> Prop) l :
  (forall a b, In a l -> In b l -> R a b -> R' a b) ->
  StronglySorted R l -> StronglySorted R' l.
Proof.
  intros H Hs. induction Hs as [|x l Hs IH Hall]; constructor.
  - apply IH. intros a b Ha Hb. apply H; now right.
  - rewrite Forall_forall in *. intros y Hy.
    apply H; [now left|now right|now apply Hall].
Qed.

Lemma StronglySorted_snoc {A} (R : A -> A -> Prop) l x :
  StronglySorted R l -> Forall (fun a => R a x) l ->
  StronglySorted R (l ++ [x]).
Proof.
  induction 1 as [|y l Hs IH Hall]; simpl; intros Hf.
  - repeat constructor.
  - inversion Hf as [|? ? Hy Hf']; subst. constructor; [now apply IH|].
    apply Forall_app. split; [exact Hall|]. now constructor.
Qed.

(** The counter lists the codes in the order of their first
    occurrence. *)
Lemma Counter_keys_order l :
  StronglySorted (fun a b => (first_index a l < first_index b l)%nat)
                 (map fst (Counter l)).
Proof.
  induction l as [|x l IH] using rev_ind; [constructor|].
  destruct (Counter_spec l) as [_ [Hk _]].
  rewrite Counter_snoc, count_up_keys.
  assert (IH' : StronglySorted
                  (fun a b => (first_index a (l ++ [x])
                               < first_index b (l ++ [x]))%nat)
                  (map fst (Counter l))).
  { eapply StronglySorted_impl_in; [|exact IH].
    intros a b Ha Hb Hab. apply Hk in Ha, Hb.
    now rewrite !first_index_app_in. }
  destruct (existsb _ _) eqn:E; [exact IH'|].
  apply StronglySorted_snoc; [exact IH'|].
  rewrite Forall_forall. intros a Ha.
  assert (N : ~ In x l).
  { intros Hin. apply Hk, existsb_eqb_in in Hin. congruence. }
  apply Hk in Ha. rewrite (first_index_app_in _ _ _ Ha).
  rewrite (first_index_app_new _ _ _ N).
  pose proof (first_index_lt _ _ Ha). lia.
Qed.

(** ** The stable sort by count *)

(** The order of the codes after the sort: by count, the higher first,
    and among equal counts in the order [T] the sort found them in. *)
Definition count_then (T : string -> string -> Prop)
  (a b : string * nat) : Prop :=
  (snd b < snd a)%nat \/ (snd a = snd b /\ T (fst a) (fst b)).

Lemma insert_by_count_perm x l : Permutation (insert_by_count x l) (x :: l).
Proof.
  induction l as [|y l IH]; simpl; [reflexivity|].
  destruct (snd y <=? snd x)%nat; [reflexivity|].
  rewrite IH. apply perm_swap.
Qed.

Lemma sort_by_count_perm c : Permutation (sort_by_count c) c.
Proof.
  induction c as [|x c IH]; simpl; [reflexivity|].
  rewrite insert_by_count_perm. now constructor.
Qed.

Lemma insert_by_count_sorted T x l :
  StronglySorted (count_then T) l ->
  Forall (fun y => T (fst x) (fst y)) l ->
  StronglySorted (count_then T) (insert_by_count x l).
Proof.
  induction 1 as [|y l Hs IH Hall]; simpl; intros Hf.
  - repeat constructor.
  - inversion Hf as [|? ? Hy Hf']; subst.
    destruct (snd y <=? snd x)%nat eqn:E.
    + apply Nat.leb_le in E. constructor; [now constructor|].
      constructor.
      * unfold count_then. destruct (Nat.eq_dec (snd y) (snd x)); [right|left].
        -- split; [congruence|exact Hy].
        -- lia.
      * rewrite Forall_forall in *. intros z Hz.
        specialize (Hall _ Hz). specialize (Hf' _ Hz).
        unfold count_then in *.
        destruct (Nat.eq_dec (snd z) (snd x)); [right|left].
        -- split; [congruence|exact Hf'].
        -- destruct Hall as [H|[H _]]; lia.
    + apply Nat.leb_gt in E. constructor; [now apply IH|].
      eapply Permutation_Forall; [symmetry; apply insert_by_count_perm|].
      constructor; [left; exact E|exact Hall].
Qed.

Lemma sort_by_count_sorted T c :
  StronglySorted (fun a b => T (fst a) (fst b)) c ->
  StronglySorted (count_then T) (sort_by_count c).
Proof.
  induction 1 as [|x c Hs IH Hall]; simpl; [constructor|].
  apply insert_by_count_sorted; [exact IH|].
  eapply Permutation_Forall; [symmetry; apply sort_by_count_perm|exact Hall].
Qed.

Lemma StronglySorted_map {A B} (f : A -> B) (R : B -> B -> Prop) l :
  StronglySorted R (map f l) <-> StronglySorted (fun a b => R (f a) (f b)) l.
Proof.
  induction l as [|x l IH]; simpl; split; intros H; try constructor;
    inversion H as [|? ? Hs Hall]; subst.
  - now apply IH.
  - now rewrite Forall_map in Hall.
  - now apply IH.
  - now rewrite Forall_map.
Qed.

Lemma StronglySorted_app_inv {A} (R : A -> A -> Prop) l1 l2 :
  StronglySorted R (l1 ++ l2) ->
  StronglySorted R l1 /\ forall x y, In x l1 -> In y l2 -> R x y.
Proof.
  induction l1 as [|a l1 IH]; simpl; intros H.
  - split; [constructor|]. intros x y [].
  - inversion H as [|? ? Hs Hall]; subst. destruct (IH Hs) as [H1 H2].
    split.
    + constructor; [exact H1|]. apply Forall_app in Hall. tauto.
    + intros x y [<-|Hx] Hy; [|now apply H2].
      rewrite Forall_forall in Hall. apply Hall, in_or_app. now right.
Qed.

(** [most_common(n)]: the [n] first codes in the order of rank. *)
Lemma most_common_spec l n :
  let top := map fst (most_common n (Counter l)) in
  StronglySorted (ranks_before l) top
  /\ NoDup top
  /\ (forall c, In c top -> In c l)
  /\ (List.length top <= n)%nat
  /\ (forall c c', In c top -> In c' l -> ~ In c' top -> ranks_before l c c')
  /\ ((List.length top < n)%nat -> forall c', In c' l -> In c' top).
Proof.
  cbv zeta. unfold most_common. rewrite <- firstn_map.
  set (S := sort_by_count (Counter l)).
  set (K := map fst S).
  destruct (Counter_spec l) as [Hnd [Hkeys _]].
  assert (HP : Permutation K (map fst (Counter l))).
  { unfold K, S. apply Permutation_map, sort_by_count_perm. }
  assert (HK : StronglySorted (ranks_before l) K).
  { unfold K.
    apply (proj2 (StronglySorted_map fst (ranks_before l) S)).
    eapply StronglySorted_impl_in;
      [|apply (sort_by_count_sorted
                 (fun a b => (first_index a l < first_index b l)%nat));
        apply (proj1 (StronglySorted_map fst
                        (fun a b => (first_index a l < first_index b l)%nat)
                        (Counter l))), Counter_keys_order].
    intros [c m] [c' m'] Ha Hb Hab.
    assert (Ia : In (c, m) (Counter l))
      by (eapply Permutation_in; [apply sort_by_count_perm|exact Ha]).
    assert (Ib : In (c', m') (Counter l))
      by (eapply Permutation_in; [apply sort_by_count_perm|exact Hb]).
    destruct (Counter_pairs _ _ _ Ia) as [-> _].
    destruct (Counter_pairs _ _ _ Ib) as [-> _].
    exact Hab. }
  assert (HndK : NoDup K)
    by (eapply Permutation_NoDup; [symmetry; exact HP|exact Hnd]).
  assert (HinK : forall c, In c K <-> In c l).
  { intros c. rewrite <- Hkeys. split; intros H.
    - eapply Permutation_in; [exact HP|exact H].
    - eapply Permutation_in; [symmetry; exact HP|exact H]. }
  pose proof (firstn_skipn n K) as Hsplit.
  rewrite <- Hsplit in HK, HndK.
  destruct (StronglySorted_app_inv _ _ _ HK) as [Hs1 Hs2].
  split; [exact Hs1|].
  split; [eapply NoDup_app_remove_r; exact HndK|].
  split.
  { intros c Hc. apply HinK. rewrite <- Hsplit. apply in_or_app. now left. }
  split; [apply firstn_le_length|].
  split.
  - intros c c' Hc Hc' Hn. apply Hs2; [exact Hc|].
    apply HinK in Hc'. rewrite <- Hsplit in Hc'.
    apply in_app_or in Hc'. tauto.
  - intros Hlen c' Hc'. apply HinK in Hc'.
    rewrite firstn_all2; [exact Hc'|].
    rewrite length_firstn in Hlen. lia.
Qed.

(** ** What the block pushes *)

Definition push_of (server : WooCommerceServer) (product_id : JValue)
  (wc_ids : list string) : Request :=
  PushProduct (products_url server) product_id
    [("bundle_product_items", ids_json wc_ids)].

(** The remote ids of rows, as the fallback collects them. *)
Definition ids_of_rows (rows : list ItemWooCommerceServer) : list string :=
  flat_map (fun l => match iws_woocommerce_id l with
                     | Some i => if PyStr.truthy i then [i] else []
                     | None => []
                     end) rows.

Lemma push_ids_sent env product_id wc_ids w server rest :
  enabled_servers (db w) = server :: rest ->
  exists v w',
    push_wc_product env product_id None
      [("bundle_product_items", ids_json wc_ids)] w = (Ok v, w') /\
    sent w' = sent w ++ [push_of server product_id wc_ids] /\
    db w' = db w.
Proof.
  intros Hs.
  exact (push_wc_product_sent env product_id None
           [("bundle_product_items", ids_json wc_ids)] w server rest _ _
           Hs eq_refl).
Qed.

(** The calls the block makes, by cases on what the history gives. *)
Lemma push_bought_together_sent env product_id code w server rest :
  enabled_servers (db w) = server :: rest ->
  let d := db w in
  let invoices := invoices_of d code in
  let ids := resolve_wc_ids d (top_items_of d invoices code) in
  sent (snd (push_bought_together env product_id code w))
  = sent w ++
    match invoices, ids with
    | _ :: _, _ :: _ => [push_of server product_id ids]
    | _, _ =>
        match random_items env d with
        | [] => []
        | rows => [push_of server product_id (ids_of_rows rows)]
        end
    end.
Proof.
  intros Hs. cbv zeta.
  assert (Htry : forall (m : M unit) t w0,
            sent (snd (try_except m (fun _ => log_error t) w0))
            = sent (snd (m w0))).
  { intros m t w0. unfold try_except.
    destruct (m w0) as [[u|e] w1]; reflexivity. }
  unfold push_bought_together. rewrite Htry. clear Htry.
  unfold bind at 1, get_db.
  assert (Hfallback :
    sent (snd (match random_items env (db w) with
               | [] =>
                   log_error
                     "No random items available for Bought Together fallback"
               | r :: rows =>
                   push_wc_product env product_id None
                     [("bundle_product_items",
                       ids_json (ids_of_rows (r :: rows)))] ;;
                   log_error
                     "No invoices found - pushed random Bought Together items"
               end w))
    = sent w ++ match random_items env (db w) with
                | [] => []
                | rows => [push_of server product_id (ids_of_rows rows)]
                end).
  { destruct (random_items env (db w)) as [|r rows].
    - simpl. now rewrite app_nil_r.
    - destruct (push_ids_sent env product_id (ids_of_rows (r :: rows)) w
                  server rest Hs) as [v [w1 [E [Es _]]]].
      rewrite (bind_ok _ _ _ _ _ E). simpl. exact Es. }
  destruct (invoices_of (db w) code) as [|inv invs] eqn:Ei;
    [exact Hfallback|].
  destruct (top_items_of (db w) (inv :: invs) code) as [|t ts] eqn:Et;
    [exact Hfallback|].
  destruct (resolve_wc_ids (db w) (t :: ts)) as [|x xs] eqn:Er;
    [exact Hfallback|].
  destruct (push_ids_sent env product_id (x :: xs) w server rest Hs)
    as [v [w1 [E [Es _]]]].
  unfold bind at 1. unfold bind at 1. rewrite E. simpl. exact Es.
Qed.

Lemma in_firstn {A} n (l : list A) x : In x (firstn n l) -> In x l.
Proof.
  intros H. rewrite <- (firstn_skipn n l). apply in_or_app. now left.
Qed.

Lemma wc_id_of_set d c i : wc_id_of d c = Some i -> PyStr.truthy i = true.
Proof.
  unfold wc_id_of. destruct (find _ _) as [[parent l]|] eqn:E; [|discriminate].
  apply find_some in E. destruct E as [_ E]. simpl in *.
  apply andb_prop in E. destruct E as [_ E]. intros H. rewrite H in E.
  exact E.
Qed.

(** The ids resolved from the top codes: those of the codes that have
    a remote id. *)
Lemma resolve_wc_ids_spec d top i :
  In i (resolve_wc_ids d top) <-> exists c, In c top /\ wc_id_of d c = Some i.
Proof.
  unfold resolve_wc_ids. rewrite in_flat_map. split.
  - intros [c [Hc Hi]]. exists c. split; [exact Hc|].
    destruct (wc_id_of d c) as [j|]; [|contradiction].
    destruct (PyStr.truthy j); [|contradiction].
    destruct Hi as [->|[]]. reflexivity.
  - intros [c [Hc Hi]]. exists c. split; [exact Hc|].
    rewrite Hi, (wc_id_of_set _ _ _ Hi). now left.
Qed.

(** The rows of the fallback: three at most, each with a remote id and
    each a link of the catalogue, when the random order invents no
    row. *)
Lemma random_items_spec env d :
  (forall rows, incl (rand_order env rows) rows) ->
  (List.length (random_items env d) <= 3)%nat
  /\ List.length (ids_of_rows (random_items env d))
     = List.length (random_items env d)
  /\ forall r, In r (random_items env d) ->
       is_set (iws_woocommerce_id r) = true /\ In r (map snd (all_links d)).
Proof.
  intros Hr. unfold random_items.
  set (linked := filter _ _).
  assert (H : forall r, In r (firstn 3 (rand_order env linked)) ->
                is_set (iws_woocommerce_id r) = true
                /\ In r (map snd (all_links d))).
  { intros r Hin. apply in_firstn, Hr in Hin.
    unfold linked in Hin. apply filter_In in Hin. tauto. }
  split; [apply firstn_le_length|]. split; [|exact H].
  induction (firstn 3 (rand_order env linked)) as [|r rows IH];
    [reflexivity|].
  simpl. destruct (H r (or_introl eq_refl)) as [Hset _].
  unfold is_set in Hset.
  destruct (iws_woocommerce_id r) as [i|]; [|discriminate].
  rewrite Hset. simpl. f_equal. apply IH. intros r' Hr'. apply H. now right.
Qed.

(** ** The two queries *)

(** A line of a sales invoice that holds the item. *)
Definition invoice_line (d : DB) (code : string) (r : SalesInvoiceItem)
  : Prop :=
  In r (sales_invoice_items d) /\ sii_item_code r = code /\
  parenttype r = "Sales Invoice".

(** A line of one of the invoices that holds another item, [c]. *)
Definition companion_line (invoices : list string) (code c : string)
  (r : SalesInvoiceItem) : bool :=
  existsb (String.eqb (parent r)) invoices
  && negb (String.eqb (sii_item_code r) code)
  && String.eqb (sii_item_code r) c.

Definition newer_first (a b : SalesInvoiceItem) : Prop :=
  (sii_modified b <= sii_modified a)%Z.

Lemma insert_row_desc_perm x l : Permutation (insert_row_desc x l) (x :: l).
Proof.
  induction l as [|y l IH]; simpl; [reflexivity|].
  destruct (sii_modified y <=? sii_modified x)%Z; [reflexivity|].
  rewrite IH. apply perm_swap.
Qed.

Lemma order_by_modified_desc_perm l :
  Permutation (order_by_modified_desc l) l.
Proof.
  induction l as [|x l IH]; simpl; [reflexivity|].
  rewrite insert_row_desc_perm. now constructor.
Qed.

Lemma insert_row_desc_sorted x l :
  StronglySorted newer_first l ->
  StronglySorted newer_first (insert_row_desc x l).
Proof.
  induction 1 as [|y l Hs IH Hall]; simpl.
  - repeat constructor.
  - destruct (sii_modified y <=? sii_modified x)%Z eqn:E.
    + apply Z.leb_le in E. constructor; [now constructor|].
      constructor; [exact E|].
      eapply Forall_impl; [|exact Hall].
      intros z Hz. unfold newer_first in *. lia.
    + apply Z.leb_gt in E. constructor; [exact IH|].
      eapply Permutation_Forall; [symmetry; apply insert_row_desc_perm|].
      constructor; [unfold newer_first; lia|exact Hall].
Qed.

Lemma order_by_modified_desc_sorted l :
  StronglySorted newer_first (order_by_modified_desc l).
Proof.
  induction l as [|x l IH]; simpl; [constructor|].
  now apply insert_row_desc_sorted.
Qed.

Lemma StronglySorted_after {A} (R : A -> A -> Prop) l1 x l2 :
  StronglySorted R (l1 ++ x :: l2) -> forall y, In y l2 -> R x y.
Proof.
  induction l1 as [|a l1 IH]; simpl; intros H y Hy.
  - inversion H as [|? ? _ Hall]; subst.
    rewrite Forall_forall in Hall. now apply Hall.
  - inversion H; subst. now apply IH.
Qed.

(** The set in list order keeps the order of the first occurrences. *)
Lemma first_occurrences_order l : forall seen A B x y,
  ExpandYears.first_occurrences seen l = A ++ B -> In x A -> In y B ->
  exists l1 l2, l = l1 ++ x :: l2 /\ ~ In y l1.
Proof.
  induction l as [|a l IH]; intros seen A B x y H Hx Hy.
  - simpl in H. destruct A; [contradiction|discriminate].
  - assert (Hyin : In y (ExpandYears.first_occurrences seen (a :: l)))
      by (rewrite H; apply in_or_app; now right).
    cbn [ExpandYears.first_occurrences] in H, Hyin.
    destruct (existsb (String.eqb a) seen) eqn:E.
    + destruct (IH seen A B x y H Hx Hy) as [l1 [l2 [-> Hn]]].
      exists (a :: l1), l2. split; [reflexivity|].
      intros [<-|Hin]; [|now apply Hn].
      apply ExpandYearsFacts.first_occurrences_spec in Hyin.
      destruct Hyin as [_ Hs]. congruence.
    + destruct A as [|a' A]; [contradiction|].
      inversion H as [[Ha HA]]. subst a'.
      destruct Hx as [<-|Hx].
      * exists [], l. split; [reflexivity|]. intros [].
      * destruct (IH (a :: seen) A B x y HA Hx Hy) as [l1 [l2 [-> Hn]]].
        exists (a :: l1), l2. split; [reflexivity|].
        intros [E'|Hin]; [subst a|now apply Hn].
        assert (Hy' : In y (ExpandYears.first_occurrences (y :: seen)
                              (l1 ++ x :: l2)))
          by (rewrite HA; apply in_or_app; now right).
        apply ExpandYearsFacts.first_occurrences_spec in Hy'.
        destruct Hy' as [_ Hs]. simpl in Hs.
        now rewrite String.eqb_refl in Hs.
Qed.

(** The first query: invoices of the item, each once, a thousand at
    most, all of them when they are fewer; an invoice that is left out
    has no line of the item newer than the newest such line of an
    invoice that is taken. *)
Lemma invoices_of_spec d code :
  let invoices := invoices_of d code in
  NoDup invoices /\ (List.length invoices <= 1000)%nat
  /\ (forall inv, In inv invoices ->
        exists r, invoice_line d code r /\ parent r = inv)
  /\ ((List.length invoices < 1000)%nat ->
      forall r, invoice_line d code r -> In (parent r) invoices)
  /\ (forall inv r', In inv invoices -> invoice_line d code r' ->
        ~ In (parent r') invoices ->
        exists r, invoice_line d code r /\ parent r = inv /\
                  (sii_modified r' <= sii_modified r)%Z).
Proof.
  cbv zeta. unfold invoices_of.
  set (lines := filter _ (sales_invoice_items d)).
  set (sorted := order_by_modified_desc lines).
  set (names := ExpandYears.set_in_list_order (map parent sorted)).
  assert (Hline : forall r, In r sorted <-> invoice_line d code r).
  { intros r. unfold sorted, invoice_line. split.
    - intros H.
      apply (Permutation_in _ (order_by_modified_desc_perm lines)) in H.
      unfold lines in H. apply filter_In in H. destruct H as [Hin Hb].
      apply andb_true_iff in Hb. destruct Hb as [H1 H2].
      apply String.eqb_eq in H1. apply String.eqb_eq in H2. now repeat split.
    - intros [Hin [H1 H2]].
      apply (Permutation_in _
               (Permutation_sym (order_by_modified_desc_perm lines))).
      unfold lines. apply filter_In. split; [exact Hin|].
      rewrite H1, H2, !String.eqb_refl. reflexivity. }
  destruct (ExpandYearsFacts.set_in_list_order_ok (map parent sorted))
    as [Hnd Hin].
  fold names in Hnd, Hin.
  pose proof (firstn_skipn 1000 names) as Hsplit.
  split.
  { rewrite <- Hsplit in Hnd. eapply NoDup_app_remove_r; exact Hnd. }
  split; [apply firstn_le_length|].
  split.
  { intros inv Hi. apply in_firstn, Hin, in_map_iff in Hi.
    destruct Hi as [r [Hp Hr]]. exists r. split; [now apply Hline|exact Hp]. }
  split.
  { intros Hlen r Hr. rewrite firstn_all2.
    - apply Hin, in_map. now apply Hline.
    - rewrite length_firstn in Hlen. lia. }
  intros inv r' Hi Hr' Hout.
  assert (Hy : In (parent r') (skipn 1000 names)).
  { assert (H : In (parent r') names) by (apply Hin, in_map; now apply Hline).
    rewrite <- Hsplit in H. apply in_app_or in H. tauto. }
  destruct (first_occurrences_order (map parent sorted) [] _ _ inv (parent r')
              (eq_sym Hsplit) Hi Hy) as [l1 [l2 [Hl Hn]]].
  apply map_eq_app in Hl. destruct Hl as [S1 [S2' [Hs [H1 H2]]]].
  apply map_eq_cons in H2. destruct H2 as [r [S2 [-> [Hp _]]]].
  exists r.
  assert (Hr : In r sorted) by (rewrite Hs; apply in_or_app; right; now left).
  split; [now apply Hline|]. split; [exact Hp|].
  pose proof (order_by_modified_desc_sorted lines) as Hsorted.
  fold sorted in Hsorted. rewrite Hs in Hsorted.
  assert (Hin' : In r' sorted) by now apply Hline.
  rewrite Hs in Hin'. apply in_app_or in Hin'. destruct Hin' as [H|[H|H]].
  - exfalso. apply Hn. rewrite <- H1. now apply in_map.
  - subst r'. exfalso. apply Hout. now rewrite Hp.
  - exact (StronglySorted_after _ _ _ _ Hsorted r' H).
Qed.

(** The second query: a code occurs as often as the invoices have
    lines that hold it. *)
Lemma co_occurring_spec d invoices code c :
  occurrences (co_occurring d invoices code) c
  = List.length (filter (companion_line invoices code c)
                        (sales_invoice_items d)).
Proof.
  unfold co_occurring, occurrences.
  induction (sales_invoice_items d) as [|r l IH]; [reflexivity|].
  cbn [filter]. unfold companion_line at 1.
  destruct (existsb (String.eqb (parent r)) invoices
            && negb (String.eqb (sii_item_code r) code)); cbn [andb map].
  - cbn [count_occ]. destruct (string_dec (sii_item_code r) c) as [E|N].
    + rewrite E, String.eqb_refl. cbn [List.length]. now rewrite IH.
    + apply String.eqb_neq in N. rewrite N. exact IH.
  - exact IH.
Qed.

Lemma find_split {A} (f : A -> bool) l x :
  find f l = Some x ->
  exists pre post, l = pre ++ x :: post /\ f x = true /\
                   forall y, In y pre -> f y = false.
Proof.
  induction l as [|a l IH]; simpl; [discriminate|].
  destruct (f a) eqn:E.
  - intros H. inversion H; subst. exists [], l. repeat split; auto.
    intros y [].
  - intros H. destruct (IH H) as [pre [post [-> [Hx Hpre]]]].
    exists (a :: pre), post. repeat split; auto.
    intros y [<-|Hy]; auto.
Qed.

(** The id looked up for a code: that of the first link of the item,
    in the order of the table, that has a remote id. *)
Definition first_linked (d : DB) (c : string) (o : option string) : Prop :=
  match o with
  | Some i =>
      PyStr.truthy i = true /\
      exists pre l post,
        all_links d = pre ++ (c, l) :: post /\
        iws_woocommerce_id l = Some i /\
        forall l', In (c, l') pre -> is_set (iws_woocommerce_id l') = false
  | None =>
      forall l, In (c, l) (all_links d) -> is_set (iws_woocommerce_id l) = false
  end.

Lemma wc_id_of_spec d c : first_linked d c (wc_id_of d c).
Proof.
  unfold wc_id_of, first_linked.
  destruct (find _ (all_links d)) as [[parent l]|] eqn:E.
  - destruct (find_split _ _ _ E) as [pre [post [Hl [Hx Hpre]]]].
    cbn [fst snd] in Hx. apply andb_true_iff in Hx. destruct Hx as [H1 H2].
    apply String.eqb_eq in H1. subst parent. cbn [snd].
    unfold is_set in H2. destruct (iws_woocommerce_id l) as [i|] eqn:Ei;
      [|discriminate].
    split; [exact H2|]. exists pre, l, post. repeat split; auto.
    intros l' Hin. specialize (Hpre _ Hin). cbn [fst snd] in Hpre.
    now rewrite String.eqb_refl in Hpre.
  - intros l Hin. pose proof (find_none _ _ E _ Hin) as H.
    cbn [fst snd] in H. now rewrite String.eqb_refl in H.
Qed.

(** [ids] holds the remote ids of the codes of [top] that have one, in
    the order of [top]. *)
Inductive ids_in_order (d : DB) : list string -> list string -> Prop :=
| ids_done : ids_in_order d [] []
| ids_linked c i top ids :
    wc_id_of d c = Some i -> ids_in_order d top ids ->
    ids_in_order d (c :: top) (i :: ids)
| ids_unlinked c top ids :
    wc_id_of d c = None -> ids_in_order d top ids ->
    ids_in_order d (c :: top) ids.

Lemma resolve_wc_ids_in_order d top :
  ids_in_order d top (resolve_wc_ids d top).
Proof.
  induction top as [|c top IH]; [constructor|].
  unfold resolve_wc_ids. cbn [flat_map]. fold (resolve_wc_ids d top).
  destruct (wc_id_of d c) as [i|] eqn:E.
  - rewrite (wc_id_of_set _ _ _ E). now apply ids_linked.
  - now apply ids_unlinked.
Qed.

(** The ids of the fallback are the remote ids of its rows, row by
    row. *)
Lemma ids_of_linked_rows rows :
  (forall r, In r rows -> is_set (iws_woocommerce_id r) = true) ->
  map Some (ids_of_rows rows) = map iws_woocommerce_id rows.
Proof.
  induction rows as [|r rows IH]; intros H; [reflexivity|].
  unfold ids_of_rows. cbn [flat_map]. fold (ids_of_rows rows).
  pose proof (H r (or_introl eq_refl)) as Hr. unfold is_set in Hr.
  destruct (iws_woocommerce_id r) as [i|] eqn:E; [|discriminate].
  rewrite Hr. cbn [app map]. rewrite E. f_equal. apply IH.
  intros r' Hr'. apply H. now right.
Qed.

(** C2 (amended).  The history of an item is read by two queries.  The
    first gives the invoices that hold the item, each once and a
    thousand at most, the latest first: an invoice that is left out has
    no line of the item newer than the newest such line of an invoice
    that is taken.  The second gives the codes of the other lines of
    these invoices, each as often as it has lines there.  The three
    codes taken are the three first in the order of rank - more
    occurrences first, the earlier first occurrence among equals -
    whether they have a remote id or not; the ids resolved are the
    remote ids of the taken codes that have one, in the order of rank,
    each the id of the first link of the code that has one.  With a
    history and at least one id resolved, exactly these ids are pushed,
    in one call.  Without a history or without an id resolved, the
    fallback is pushed when it is not empty: the remote ids of three
    rows at most, each a link with a remote id, in the order the random
    query gives. *)
Theorem bought_together_recommendation env product_id code w server rest :
  enabled_servers (db w) = server :: rest ->
  (forall rows, incl (rand_order env rows) rows) ->
  let d := db w in
  let invoices := invoices_of d code in
  let co := co_occurring d invoices code in
  let top := top_items_of d invoices code in
  let ids := resolve_wc_ids d top in
  let sample := random_items env d in
  let after := snd (push_bought_together env product_id code w) in
  (NoDup invoices /\ (List.length invoices <= 1000)%nat
   /\ (forall inv, In inv invoices ->
         exists r, invoice_line d code r /\ parent r = inv)
   /\ ((List.length invoices < 1000)%nat ->
       forall r, invoice_line d code r -> In (parent r) invoices)
   /\ (forall inv r', In inv invoices -> invoice_line d code r' ->
         ~ In (parent r') invoices ->
         exists r, invoice_line d code r /\ parent r = inv /\
                   (sii_modified r' <= sii_modified r)%Z))
  /\ (forall c, occurrences co c
                = List.length (filter (companion_line invoices code c)
                                      (sales_invoice_items d)))
  /\ (StronglySorted (ranks_before co) top /\ NoDup top
      /\ (forall c, In c top -> In c co)
      /\ (List.length top <= 3)%nat
      /\ (forall c c', In c top -> In c' co -> ~ In c' top ->
            ranks_before co c c')
      /\ ((List.length top < 3)%nat -> forall c', In c' co -> In c' top))
  /\ (ids_in_order d top ids /\ forall c, first_linked d c (wc_id_of d c))
  /\ (invoices <> [] -> ids <> [] ->
      sent after = sent w ++ [push_of server product_id ids])
  /\ (invoices = [] \/ ids = [] ->
      sent after
      = sent w ++ match sample with
                  | [] => []
                  | _ => [push_of server product_id (ids_of_rows sample)]
                  end)
  /\ ((List.length sample <= 3)%nat
      /\ map Some (ids_of_rows sample) = map iws_woocommerce_id sample
      /\ forall r, In r sample ->
           is_set (iws_woocommerce_id r) = true
           /\ In r (map snd (all_links d))).
Proof.
  intros Hs Hrand. cbv zeta.
  pose proof (push_bought_together_sent env product_id code w server rest Hs)
    as Hsent. cbv zeta in Hsent.
  split; [exact (invoices_of_spec (db w) code)|].
  split; [intros c; apply co_occurring_spec|].
  split.
  { exact (most_common_spec
             (co_occurring (db w) (invoices_of (db w) code) code) 3). }
  split; [split; [apply resolve_wc_ids_in_order|intros c; apply wc_id_of_spec]|].
  split; [|split].
  - intros Hi Hids. rewrite Hsent.
    destruct (invoices_of (db w) code); [congruence|].
    destruct (resolve_wc_ids _ _); [congruence|reflexivity].
  - intros H. rewrite Hsent.
    destruct (invoices_of (db w) code) as [|inv invs].
    + destruct (random_items env (db w)); reflexivity.
    + destruct H as [H|H]; [discriminate|]. rewrite H.
      destruct (random_items env (db w)); reflexivity.
  - destruct (random_items_spec env (db w) Hrand) as [H1 [_ H3]].
    split; [exact H1|]. split; [|exact H3].
    apply ids_of_linked_rows. intros r Hr. now apply H3.
Qed.

(** A history of three invoices of "X": "A" and "B" are seen twice, "A"
    first, and "C" once; "A" has the remote id "1", "B" none and "C"
    the id "3". *)
Definition history_db : DB :=
  let line inv c t := mkSII inv "Sales Invoice" c t in
  let linked c i :=
    Fixture.plain_item c [mkIWS c 1 "shop" i 1 None 5] in
  mkDB [linked "A" (Some "1"); linked "B" None; linked "C" (Some "3")]
       [] [] []
       [line "INV1" "X" 10%Z; line "INV1" "C" 10%Z; line "INV1" "A" 10%Z;
        line "INV2" "X" 20%Z; line "INV2" "B" 20%Z; line "INV2" "A" 20%Z;
        line "INV3" "X" 30%Z; line "INV3" "B" 30%Z]
       [] [Fixture.server] [] 1000.

Definition history_world : World := Fixture.world_of history_db.

Definition companions_env : Env := Fixture.env_of Fixture.accepting.

(** The ids of "A" and "C" are pushed, in the order of rank: "A", seen
    twice, before "C", seen once. *)
Lemma bought_together_recommendation_witness :
  sent (snd (push_bought_together companions_env (JStr "77") "X"
               history_world))
  = [push_of Fixture.server (JStr "77") ["1"; "3"]].
Proof.
  destruct (bought_together_recommendation companions_env (JStr "77") "X"
              history_world Fixture.server [] eq_refl
              (fun rows => incl_refl rows))
    as [_ [_ [_ [_ [H _]]]]].
  apply H; vm_compute; discriminate.
Defined.

(** A history in which the three most frequent companions of "X" - "A",
    "B" and "C", twice each - have no remote id; "D", seen once, has the
    id "4", and "E", never seen with "X", has the id "9". *)
Definition companions_db : DB :=
  let line inv c := mkSII inv "Sales Invoice" c 1 in
  let linked c i :=
    Fixture.plain_item c [mkIWS c 1 "shop" (Some i) 1 None 5] in
  mkDB [linked "D" "4"; linked "E" "9"] [] [] []
       [line "INV1" "X"; line "INV1" "A"; line "INV1" "B"; line "INV1" "C";
        line "INV1" "D";
        line "INV2" "X"; line "INV2" "A"; line "INV2" "B"; line "INV2" "C"]
       [] [Fixture.server] [] 1000.

Definition companions_world : World := Fixture.world_of companions_db.

(** The two readings of the claim: the three most frequent companions
    restricted to those with a remote id, and the three most frequent
    among the companions with a remote id. *)
Definition top_three_then_linked (d : DB) (code : string) : list string :=
  resolve_wc_ids d (top_items_of d (invoices_of d code) code).

Definition linked_then_top_three (d : DB) (code : string) : list string :=
  resolve_wc_ids d
    (firstn 3
       (filter (fun c => match wc_id_of d c with
                         | Some _ => true
                         | None => false
                         end)
          (map fst (sort_by_count
                      (Counter (co_occurring d (invoices_of d code) code)))))).

(** C2 as stated fails: the item "X" has a history, and what is pushed
    is the random fallback ["4", "9"] - neither the linked codes among
    the three most frequent (there is none) nor the most frequent linked
    codes (["4"]). *)
Lemma history_without_linked_top_falls_back :
  ~ (forall env product_id code w server rest,
       enabled_servers (db w) = server :: rest ->
       invoices_of (db w) code <> [] ->
       let after := snd (push_bought_together env product_id code w) in
       sent after
       = sent w ++ [push_of server product_id
                      (top_three_then_linked (db w) code)]
       \/ sent after
          = sent w ++ [push_of server product_id
                         (linked_then_top_three (db w) code)]).
Proof.
  intros H.
  specialize (H companions_env (JStr "77") "X" companions_world
                Fixture.server [] eq_refl).
  cbv zeta in H.
  destruct H as [H|H]; [vm_compute; discriminate| |]; vm_compute in H;
    discriminate.
Qed.

End RecommendationFacts.

(* ===================================================================== *)
(** * Properties of the category resolver *)
(* ===================================================================== *)

Module CategoryFacts.

Import Frappe Sync Text Monad.

Definition is_create (q : Request) : bool :=
  match q with PostCategory _ _ => true | _ => false end.

(** Number of create calls among the remote calls [l]. *)
Definition creates (l : list Request) : nat :=
  List.length (filter is_create l).

(** Two calls of the resolver, one after the other: the two results and
    the remote calls they made. *)
Definition resolve_twice (env : Env) (self : SynchroniseItem)
  (name1 name2 : string) (parent1 parent2 : JValue) (w : World)
  : result JValue * result JValue * list Request :=
  let r1 := get_or_create_wc_category env self name1 parent1 w in
  let r2 := get_or_create_wc_category env self name2 parent2 (snd r1) in
  (fst r1, fst r2, skipn (List.length (sent w)) (sent (snd r2))).

(** ** A remote server that fails once *)

(** The first lookup fails in the transport; later lookups find the
    category "Brakes" with the id 7. *)
Definition fails_once : Remote :=
  fun h q =>
    match q, h with
    | GetCategories _, [] => Failure TransportError
    | GetCategories _, _ :: _ =>
        HttpJson 200 (JList [JDict [("id", JNum 7); ("name", JStr "Brakes")]])
    | _, _ => Fixture.accepting h q
    end.

Definition resolver : SynchroniseItem :=
  mkSync None None (Some Fixture.server).

(** C3 as stated fails: nothing is memoised, each call asks the remote
    server again, so two calls with the same name return [None] and 7
    when the first lookup fails and the second does not. *)
Lemma resolver_asks_the_remote_each_time :
  ~ (forall env self name1 name2 parent1 parent2 w,
       lower name1 = lower name2 ->
       let '(r1, r2, calls) :=
         resolve_twice env self name1 name2 parent1 parent2 w in
       r1 = r2 /\ (creates calls <= 1)%nat).
Proof.
  intros H.
  specialize (H (Fixture.env_of fails_once) resolver "Brakes" "Brakes"
                (JNum 0) (JNum 0) (Fixture.world_of Fixture.empty_db)
                eq_refl).
  vm_compute in H. destruct H as [H _]. discriminate.
Qed.

(** A remote server that answers every lookup with an empty list and
    every create with the id 5 is asked to create twice. *)
Lemma forgetful_remote_creates_twice :
  resolve_twice (Fixture.env_of
                   (fun h q => match q with
                               | PostCategory n _ =>
                                   HttpJson 201 (JDict [("id", JNum 5)])
                               | _ => Fixture.accepting h q
                               end))
    resolver "Brakes" "Brakes" (JNum 0) (JNum 0)
    (Fixture.world_of Fixture.empty_db)
  = (Ok (JNum 5), Ok (JNum 5),
     [GetCategories "Brakes"; PostCategory "Brakes" (JNum 0);
      GetCategories "Brakes"; PostCategory "Brakes" (JNum 0)]).
Proof. reflexivity. Qed.

(** ** A remote server that keeps its categories *)

(** [needle in hay] *)
Fixpoint contains_text (needle hay : string) : bool :=
  prefix_of needle hay
  || match hay with
     | String _ hay' => contains_text needle hay'
     | EmptyString => false
     end.

Definition category_json (c : Z * string) : JValue :=
  JDict [("id", JNum (fst c)); ("name", JStr (snd c))].

(** The categories created by the calls [h], numbered from [next]. *)
Fixpoint created_by (next : Z) (h : list Request) : list (Z * string) :=
  match h with
  | [] => []
  | PostCategory n _ :: h' => (next, n) :: created_by (next + 1) h'
  | _ :: h' => created_by next h'
  end.

Definition catalogue (next : Z) (init : list (Z * string))
  (h : list Request) : list (Z * string) :=
  init ++ created_by next h.

(** The search of the lookup: the categories whose name contains the
    text searched, without regard to case. *)
Definition found_by (search : string) (c : Z * string) : bool :=
  contains_text (lower search) (lower (snd c)).

(** A server that starts with the categories [init], lists at every
    lookup the categories it has then, and gives a created category the
    next id from [next] on. *)
Definition category_store (next : Z) (init : list (Z * string)) : Remote :=
  fun h q =>
    match q with
    | GetCategories search =>
        HttpJson 200
          (JList (map category_json
                    (filter (found_by search) (catalogue next init h))))
    | PostCategory n _ =>
        HttpJson 201
          (category_json
             (next + Z.of_nat (List.length (created_by next h)), n)%Z)
    | _ => Fixture.accepting h q
    end.

Lemma prefix_of_refl s : prefix_of s s = true.
Proof.
  induction s as [|c s IH]; simpl; [reflexivity|].
  now rewrite Ascii.eqb_refl, IH.
Qed.

Lemma contains_text_refl s : contains_text s s = true.
Proof. destruct s; simpl; [reflexivity|]. now rewrite Ascii.eqb_refl, prefix_of_refl. Qed.

Lemma created_by_app next h h' :
  created_by next (h ++ h')
  = created_by next h
    ++ created_by (next + Z.of_nat (List.length (created_by next h))) h'.
Proof.
  revert next. induction h as [|q h IH]; intros next; simpl.
  - now rewrite Z.add_0_r.
  - destruct q; simpl; rewrite IH; try reflexivity.
    do 3 f_equal. lia.
Qed.

(** The loop of the resolver over a list the store returned. *)
Definition named (name : string) (c : Z * string) : bool :=
  String.eqb (lower (snd c)) (lower name).

Lemma first_category_named_store name cs :
  first_category_named name (map category_json cs)
  = Ok (option_map (fun c => JNum (fst c)) (find (named name) cs)).
Proof.
  induction cs as [|c cs IH]; simpl; [reflexivity|].
  unfold named at 1. destruct (String.eqb _ _); [reflexivity|exact IH].
Qed.

Lemma find_app {A} (f : A -> bool) l l' :
  find f (l ++ l') = match find f l with
                     | Some x => Some x
                     | None => find f l'
                     end.
Proof.
  induction l as [|x l IH]; simpl; [reflexivity|].
  destruct (f x); [reflexivity|exact IH].
Qed.

Lemma find_ext {A} (f g : A -> bool) :
  (forall x, f x = g x) -> forall l, find f l = find g l.
Proof.
  intros H l. induction l as [|x l IH]; simpl; [reflexivity|].
  rewrite H, IH. reflexivity.
Qed.

Lemma skipn_length_app {A} (l l' : list A) :
  skipn (List.length l) (l ++ l') = l'.
Proof. induction l as [|x l IH]; simpl; [reflexivity|exact IH]. Qed.

Definition called (w : World) (calls : list Request) : World :=
  mkWorld (db w) (log w) (sent w ++ calls) (queue w).

(** One call of the resolver against the store: the category found, or
    the category created. *)
Lemma resolve_against_store env self api next init name parent w :
  remote env = category_store next init -> wcapi self = Some api ->
  get_or_create_wc_category env self name parent w
  = match find (named name)
            (filter (found_by name) (catalogue next init (sent w))) with
    | Some c => (Ok (JNum (fst c)), called w [GetCategories name])
    | None =>
        (Ok (JNum (next + Z.of_nat (List.length (created_by next (sent w))))),
         called w [GetCategories name; PostCategory name (or_zero parent)])
    end.
Proof.
  intros Hr Ha. unfold get_or_create_wc_category, try_except. rewrite Ha.
  unfold bind at 1, request at 1. rewrite Hr. cbn [category_store].
  unfold bind at 1, response_json at 1, ret.
  unfold bind at 1, lift at 1, py_iter.
  unfold bind at 1, lift at 1. rewrite first_category_named_store.
  destruct (find _ _) as [c|]; cbn [option_map]; [reflexivity|].
  unfold bind at 1, request at 1. cbn [sent]. rewrite Hr. cbn [category_store].
  unfold bind, response_json, ret, lift, called. cbn [py_get_id category_json Json.assoc String.eqb fst snd].
  rewrite created_by_app. cbn [created_by]. rewrite app_nil_r, <- app_assoc.
  reflexivity.
Qed.

(** C3 (amended).  The resolver keeps no memory of its own.  Against a
    remote server that answers every lookup with the categories it has
    at that time, those created before included, two calls with names
    that are equal up to case return the same id, and the two calls
    together create one category at most. *)
Theorem same_name_resolves_once env self api next init
  name1 name2 parent1 parent2 w :
  remote env = category_store next init -> wcapi self = Some api ->
  lower name1 = lower name2 ->
  let '(r1, r2, calls) :=
    resolve_twice env self name1 name2 parent1 parent2 w in
  (exists i, r1 = Ok (JNum i) /\ r2 = Ok (JNum i))
  /\ (creates calls <= 1)%nat.
Proof.
  intros Hr Ha Hn. unfold resolve_twice.
  assert (Hfound : forall c, found_by name2 c = found_by name1 c)
    by (intros c; unfold found_by; now rewrite Hn).
  assert (Hnamed : forall c, named name2 c = named name1 c)
    by (intros c; unfold named; now rewrite Hn).
  rewrite (resolve_against_store env self api next init name1 parent1 w Hr Ha).
  destruct (find (named name1) _) as [c|] eqn:F1; cbn [fst snd].
  - rewrite (resolve_against_store env self api next init name2 parent2 _ Hr Ha).
    cbn [sent called]. unfold catalogue in *.
    rewrite created_by_app. cbn [created_by]. rewrite app_nil_r.
    rewrite (filter_ext _ _ Hfound), (find_ext _ _ Hnamed _), F1.
    cbn [fst snd sent called]. rewrite <- app_assoc, skipn_length_app.
    split; [exists (fst c); split; reflexivity|]. unfold creates. simpl. lia.
  - rewrite (resolve_against_store env self api next init name2 parent2 _ Hr Ha).
    cbn [sent called]. unfold catalogue in *.
    set (new := ((next + Z.of_nat (List.length (created_by next (sent w))))%Z,
                 name1)).
    assert (E2 : find (named name2)
                   (filter (found_by name2)
                      (init ++ created_by next
                         (sent w ++ [GetCategories name1;
                                     PostCategory name1 (or_zero parent1)])))
                 = Some new).
    { rewrite created_by_app. cbn [created_by]. fold new. rewrite app_assoc.
      rewrite filter_app, find_app.
      rewrite (filter_ext _ _ Hfound), (find_ext _ _ Hnamed _), F1.
      cbn [filter]. unfold found_by. cbn [snd new].
      rewrite <- Hn, contains_text_refl. cbn [find].
      unfold named. cbn [snd new]. rewrite <- Hn. now rewrite String.eqb_refl. }
    rewrite E2. cbn [fst snd sent called new].
    rewrite <- app_assoc, skipn_length_app.
    split; [eexists; split; reflexivity|]. unfold creates. simpl. lia.
Qed.

Lemma same_name_resolves_once_witness :
  let '(r1, r2, calls) :=
    resolve_twice (Fixture.env_of (category_store 10 [(3, "Filters")%Z]))
      resolver "Brakes" "brakes" (JNum 0) (JNum 0)
      (Fixture.world_of Fixture.empty_db) in
  (exists i, r1 = Ok (JNum i) /\ r2 = Ok (JNum i))
  /\ (creates calls <= 1)%nat.
Proof.
  exact (same_name_resolves_once
           (Fixture.env_of (category_store 10 [(3, "Filters")%Z]))
           resolver Fixture.server 10 [(3, "Filters")%Z]
           "Brakes" "brakes" (JNum 0) (JNum 0)
           (Fixture.world_of Fixture.empty_db)
           eq_refl eq_refl eq_refl).
Defined.

(** The run of the witness: the category is created by the first call
    and found by the second. *)
Example same_name_resolves_once_run :
  resolve_twice (Fixture.env_of (category_store 10 [(3, "Filters")%Z]))
    resolver "Brakes" "brakes" (JNum 0) (JNum 0)
    (Fixture.world_of Fixture.empty_db)
  = (Ok (JNum 10), Ok (JNum 10),
     [GetCategories "Brakes"; PostCategory "Brakes" (JNum 0);
      GetCategories "brakes"]).
Proof. reflexivity. Qed.

End CategoryFacts.

(* ===================================================================== *)
(** * Numerals: [str] and [int] *)
(* ===================================================================== *)

(** [int(str(n))] is [n]: the texts [range] produces in [expand_years]
    and the indices of the meta keys are read back as they were
    written. *)
Module NumeralFacts.

Import PyStr.

(** Every character of [s] satisfies [P]. *)
Fixpoint every (P : ascii -> bool) (s : string) : bool :=
  match s with
  | EmptyString => true
  | String c s' => P c && every P s'
  end.

(** The number a run of digits denotes, after the digits of [acc]. *)
Fixpoint digits_value (acc : Z) (s : string) : Z :=
  match s with
  | EmptyString => acc
  | String c s' => digits_value (10 * acc + digit_val c)%Z s'
  end.

Lemma every_impl (P Q : ascii -> bool) s :
  (forall c, P c = true -> Q c = true) ->
  every P s = true -> every Q s = true.
Proof.
  intros H. induction s as [|c s IH]; simpl; [reflexivity|].
  intros E. apply andb_true_iff in E. destruct E as [E1 E2].
  now rewrite (H _ E1), IH.
Qed.

Lemma every_app P s t :
  every P (s ++ t) = every P s && every P t.
Proof.
  induction s as [|c s IH]; simpl; [reflexivity|].
  now rewrite IH, andb_assoc.
Qed.

Lemma digit_char_spec d :
  (0 <= d < 10)%Z ->
  is_digit (digit_char d) = true /\ digit_val (digit_char d) = d.
Proof.
  intros H.
  assert (C : (d = 0 \/ d = 1 \/ d = 2 \/ d = 3 \/ d = 4 \/ d = 5 \/ d = 6
               \/ d = 7 \/ d = 8 \/ d = 9)%Z) by lia.
  repeat (destruct C as [C|C]; [subst; split; reflexivity|]).
  subst; split; reflexivity.
Qed.

Lemma digit_not_space c : is_digit c = true -> is_space c = false.
Proof.
  unfold is_digit, is_space. intros H.
  apply andb_true_iff in H. destruct H as [H1 H2].
  apply Nat.leb_le in H1. apply Nat.leb_le in H2.
  apply orb_false_iff. split; apply andb_false_iff; right;
    apply Nat.leb_gt; lia.
Qed.

Lemma int_digits_every s : forall acc,
  every is_digit s = true -> int_digits acc true s = Some (digits_value acc s).
Proof.
  induction s as [|c s IH]; simpl; intros acc H; [reflexivity|].
  apply andb_true_iff in H. destruct H as [H1 H2].
  rewrite H1. now apply IH.
Qed.

Lemma int_digits_run s acc :
  every is_digit s = true -> s <> EmptyString ->
  int_digits acc false s = Some (digits_value acc s).
Proof.
  destruct s as [|c s]; [congruence|]. simpl. intros H _.
  apply andb_true_iff in H. destruct H as [H1 H2].
  rewrite H1. now apply int_digits_every.
Qed.

Lemma pos_digits_every fuel : forall n acc,
  (0 <= n)%Z -> every is_digit acc = true ->
  every is_digit (pos_digits fuel n acc) = true.
Proof.
  induction fuel as [|f IH]; cbn [pos_digits]; intros n acc Hn Ha;
    [exact Ha|].
  destruct (n <? 10)%Z eqn:E.
  - apply Z.ltb_lt in E. cbn [every].
    now rewrite (proj1 (digit_char_spec n (conj Hn E))).
  - apply IH; [apply Z.div_pos; lia|]. cbn [every].
    rewrite (proj1 (digit_char_spec (n mod 10)
                      (Z.mod_pos_bound n 10 ltac:(lia)))).
    exact Ha.
Qed.

Lemma pos_digits_value fuel : forall n acc,
  (0 <= n < 2 ^ Z.of_nat fuel)%Z ->
  digits_value 0 (pos_digits fuel n acc) = digits_value n acc.
Proof.
  induction fuel as [|f IH]; intros n acc Hn.
  - simpl in Hn. assert (n = 0%Z) by lia. subst. reflexivity.
  - rewrite Nat2Z.inj_succ, Z.pow_succ_r in Hn by lia.
    cbn [pos_digits]. destruct (n <? 10)%Z eqn:E.
    + apply Z.ltb_lt in E. cbn [digits_value].
      rewrite (proj2 (digit_char_spec n ltac:(lia))). f_equal.
    + apply Z.ltb_ge in E. rewrite IH.
      * cbn [digits_value].
        rewrite (proj2 (digit_char_spec (n mod 10)
                          (Z.mod_pos_bound n 10 ltac:(lia)))).
        f_equal. symmetry. apply Z.div_mod. lia.
      * split; [apply Z.div_pos; lia|].
        apply Z.div_lt_upper_bound; lia.
Qed.

Lemma pos_digits_cons fuel : forall n c acc,
  exists c' s', pos_digits fuel n (String c acc) = String c' s'.
Proof.
  induction fuel as [|f IH]; cbn [pos_digits]; intros n c acc.
  - now exists c, acc.
  - destruct (n <? 10)%Z; [eexists; eexists; reflexivity|]. apply IH.
Qed.

Lemma pos_digits_nonempty fuel n :
  pos_digits (S fuel) n EmptyString <> EmptyString.
Proof.
  cbn [pos_digits]. destruct (n <? 10)%Z; [discriminate|].
  destruct (pos_digits_cons fuel (n / 10)%Z (digit_char (n mod 10)) EmptyString)
    as [c [s E]].
  rewrite E. discriminate.
Qed.

Lemma size_nat_bound p : (Zpos p < 2 ^ Z.of_nat (Pos.size_nat p))%Z.
Proof.
  induction p as [p IH|p IH|]; cbn [Pos.size_nat];
    try rewrite Nat2Z.inj_succ, Z.pow_succ_r by lia.
  - rewrite Pos2Z.inj_xI. lia.
  - rewrite Pos2Z.inj_xO. lia.
  - reflexivity.
Qed.

Lemma size_nat_succ p : exists k, Pos.size_nat p = S k.
Proof. destruct p; simpl; eexists; reflexivity. Qed.

Lemma lstrip_id c s : is_space c = false -> lstrip (String c s) = String c s.
Proof. intros H. simpl. now rewrite H. Qed.

Lemma rstrip_id s :
  every (fun c => negb (is_space c)) s = true -> rstrip s = s.
Proof.
  induction s as [|c s IH]; simpl; [reflexivity|]. intros H.
  apply andb_true_iff in H. destruct H as [H1 H2].
  apply negb_true_iff in H1. rewrite H1, (IH H2). reflexivity.
Qed.

Lemma digits_no_space s :
  every is_digit s = true -> every (fun c => negb (is_space c)) s = true.
Proof.
  apply every_impl. intros c H. now rewrite (digit_not_space _ H).
Qed.

Lemma strip_digits s : every is_digit s = true -> strip s = s.
Proof.
  intros H. unfold strip. destruct s as [|c s]; [reflexivity|].
  pose proof (digits_no_space _ H) as Hs.
  simpl in H. apply andb_true_iff in H. destruct H as [H1 _].
  rewrite (lstrip_id _ _ (digit_not_space _ H1)). now apply rstrip_id.
Qed.

(** [int] of a run of digits. *)
Lemma py_int_digits s :
  every is_digit s = true -> s <> EmptyString ->
  py_int s = Some (digits_value 0 s).
Proof.
  intros H Hne. unfold py_int. rewrite (strip_digits _ H).
  rewrite <- (int_digits_run s 0 H Hne).
  destruct s as [|c s]; [congruence|].
  simpl in H. apply andb_true_iff in H. destruct H as [H1 _].
  destruct c as [b0 b1 b2 b3 b4 b5 b6 b7].
  destruct b0, b1, b2, b3, b4, b5, b6, b7; try discriminate H1; reflexivity.
Qed.

Lemma py_int_minus_digits s :
  every is_digit s = true ->
  py_int (String "-" s) = option_map Z.opp (int_digits 0 false s).
Proof.
  intros H. unfold py_int, strip.
  rewrite (lstrip_id "-" s eq_refl).
  rewrite rstrip_id; [reflexivity|].
  simpl. now apply digits_no_space.
Qed.

(** [int(str(n)) == n] *)
Lemma py_int_py_str n : py_int (py_str n) = Some n.
Proof.
  destruct n as [|p|p]; [reflexivity| |].
  - unfold py_str. destruct (size_nat_succ p) as [k Hk].
    assert (Hb := size_nat_bound p).
    assert (He : every is_digit (pos_digits (Pos.size_nat p) (Zpos p) "") = true)
      by (apply pos_digits_every; [lia|reflexivity]).
    rewrite py_int_digits; [|exact He|rewrite Hk; apply pos_digits_nonempty].
    rewrite pos_digits_value by lia. reflexivity.
  - unfold py_str. destruct (size_nat_succ p) as [k Hk].
    assert (Hb := size_nat_bound p).
    assert (He : every is_digit (pos_digits (Pos.size_nat p) (Zpos p) "") = true)
      by (apply pos_digits_every; [lia|reflexivity]).
    rewrite (py_int_minus_digits _ He).
    rewrite int_digits_run; [|exact He|rewrite Hk; apply pos_digits_nonempty].
    rewrite pos_digits_value by lia. reflexivity.
Qed.

Lemma py_str_inj n m : py_str n = py_str m -> n = m.
Proof.
  intros H. pose proof (py_int_py_str n) as E.
  rewrite H, py_int_py_str in E. congruence.
Qed.

(** The text of a number that is not negative is a run of digits. *)
Lemma py_str_digits n :
  (0 <= n)%Z ->
  every is_digit (py_str n) = true /\ py_str n <> EmptyString.
Proof.
  intros H. destruct n as [|p|p]; [split; [reflexivity|discriminate]| |lia].
  unfold py_str. split.
  - apply pos_digits_every; [lia|reflexivity].
  - destruct (size_nat_succ p) as [k Hk]. rewrite Hk.
    apply pos_digits_nonempty.
Qed.

End NumeralFacts.

(* ===================================================================== *)
(** * More on [expand_years]: whole calls *)
(* ===================================================================== *)

Module YearRangeFacts.

Import PyStr ExpandYears ExpandYearsFacts NumeralFacts.

(** ** Ranges *)

Lemma int_keys_of_numbers l :
  int_keys (map py_str l) = Ok (map (fun z => (z, py_str z)) l).
Proof.
  induction l as [|z l IH]; simpl; [reflexivity|].
  now rewrite py_int_py_str, IH.
Qed.

Lemma range_keys_increase a n : forall k,
  StronglySorted key_lt
    (map (fun z => (z, py_str z))
         (map (fun i => (a + Z.of_nat i)%Z) (seq k n))).
Proof.
  induction n as [|n IH]; intros k; simpl; constructor; [apply IH|].
  apply Forall_forall. intros x Hx.
  apply in_map_iff in Hx. destruct Hx as [z [<- Hz]].
  apply in_map_iff in Hz. destruct Hz as [i [<- Hi]].
  apply in_seq in Hi. unfold key_lt. simpl. lia.
Qed.

Lemma is_empty_app_sep s c e : is_empty (s ++ String c e) = false.
Proof. now destruct s. Qed.

(** X1.  A text that holds one range [s-e] expands to every year from
    the start to the end, both included, in increasing order - whatever
    the order of iteration of the set; when the end is below the start
    the result is the empty list. *)
Theorem range_text_expands_to_every_year set_iter text s e a b :
  set_order_ok set_iter ->
  re_split (strip text) = [(s ++ String "-" e)%string] ->
  contains "-"%char s = false -> contains "-"%char e = false ->
  py_int (normalize s None) = Some a ->
  py_int (normalize e (Some (normalize s None))) = Some b ->
  expand_years set_iter text = Ok (map py_str (py_range a (b + 1)))
  /\ ((b < a)%Z -> expand_years set_iter text = Ok []).
Proof.
  intros Hset Htok Hs He Ha Hb.
  assert (E : expand_years set_iter text
              = Ok (map py_str (py_range a (b + 1)))).
  { unfold expand_years. rewrite Htok. cbn [expand_parts].
    rewrite is_empty_app_sep, (expand_part_range _ _ Hs He), Ha, Hb.
    cbn [app]. eapply sorted_set_of_increasing; [exact Hset| |].
    - apply int_keys_of_numbers.
    - apply range_keys_increase. }
  split; [exact E|]. intros Hlt. rewrite E. unfold py_range.
  replace (Z.to_nat (b + 1 - a)) with O by lia. reflexivity.
Qed.

Lemma range_text_expands_to_every_year_witness :
  expand_years set_in_list_order " 2019-21 "
  = Ok ["2019"; "2020"; "2021"].
Proof.
  exact (proj1 (range_text_expands_to_every_year set_in_list_order
                  " 2019-21 " "2019" "21" 2019%Z 2021%Z set_in_list_order_ok
                  eq_refl eq_refl eq_refl eq_refl eq_refl)).
Defined.

(** ** What the result holds *)

Lemma expand_parts_from parts : forall acc r,
  expand_parts parts acc = Ok r ->
  forall y, In y r ->
    In y acc \/
    exists tok part, In tok parts /\ is_empty tok = false /\
                     expand_part tok = Ok part /\ In y part.
Proof.
  induction parts as [|p parts IH]; simpl; intros acc r H y Hy.
  - inversion H; subst. now left.
  - destruct (is_empty p) eqn:Ep.
    + destruct (IH _ _ H y Hy) as [Hl|[tok [part [H1 H2]]]]; [now left|].
      right. exists tok, part. split; [now right|exact H2].
    + destruct (expand_part p) as [ys|] eqn:E; [|discriminate].
      destruct (IH _ _ H y Hy) as [Hl|[tok [part [H1 H2]]]].
      * apply in_app_or in Hl. destruct Hl as [Hl|Hl]; [now left|].
        right. exists p, ys. repeat split; auto.
      * right. exists tok, part. split; [now right|exact H2].
Qed.

(** X2.  The list [expand_years] returns holds the years of every token
    of the text and nothing else. *)
Theorem expand_years_holds_the_years_of_the_tokens set_iter text ys :
  set_order_ok set_iter ->
  expand_years set_iter text = Ok ys ->
  forall y, In y ys <->
    exists tok part, In tok (re_split (strip text)) /\ is_empty tok = false /\
                     expand_part tok = Ok part /\ In y part.
Proof.
  intros Hset H y. unfold expand_years in H.
  destruct (expand_parts _ _) as [r|] eqn:Er; [|discriminate].
  destruct (sorted_set_by_int_spec _ _ _ Hset H) as [_ [_ Hin]].
  rewrite Hin. split.
  - intros Hy. destruct (expand_parts_from _ _ _ Er y Hy) as [[]|Hx].
    exact Hx.
  - intros [tok [part [H1 [H2 [H3 H4]]]]].
    destruct (expand_parts_ok _ _ _ Er) as [_ Ht].
    destruct (Ht _ H1 H2) as [ys' [E Hi]].
    rewrite H3 in E. inversion E; subst. now apply Hi.
Qed.

Lemma expand_years_holds_the_years_of_the_tokens_witness :
  In "2009" ["2005"; "2009"; "2010"; "2011"] <->
  exists tok part, In tok (re_split (strip "2005, 09 10-11")) /\
                   is_empty tok = false /\
                   expand_part tok = Ok part /\ In "2009" part.
Proof.
  apply (expand_years_holds_the_years_of_the_tokens set_in_list_order
           "2005, 09 10-11" ["2005"; "2009"; "2010"; "2011"]
           set_in_list_order_ok eq_refl).
Defined.

(** ** Texts without a token *)

Lemma every_lstrip P s : every P s = true -> every P (lstrip s) = true.
Proof.
  induction s as [|c s IH]; simpl; [reflexivity|]. intros H.
  destruct (is_space c); [|exact H].
  apply andb_true_iff in H. now apply IH.
Qed.

Lemma every_rstrip P s : every P s = true -> every P (rstrip s) = true.
Proof.
  induction s as [|c s IH]; simpl; [reflexivity|]. intros H.
  apply andb_true_iff in H. destruct H as [H1 H2].
  destruct (is_space c && is_empty (rstrip s)); [reflexivity|].
  simpl. now rewrite H1, IH.
Qed.

Lemma re_split_separators s : forall insep,
  every is_sep s = true ->
  Forall (fun tok => is_empty tok = true) (re_split_aux EmptyString insep s).
Proof.
  induction s as [|c s IH]; simpl; intros insep H.
  - now repeat constructor.
  - apply andb_true_iff in H. destruct H as [H1 H2]. rewrite H1.
    destruct insep; [now apply IH|].
    constructor; [reflexivity|now apply IH].
Qed.

Lemma expand_parts_empty parts : forall acc,
  Forall (fun tok => is_empty tok = true) parts ->
  expand_parts parts acc = Ok acc.
Proof.
  induction parts as [|p parts IH]; simpl; intros acc H; [reflexivity|].
  inversion H; subst. rewrite H2. now apply IH.
Qed.

Lemma set_of_nothing set_iter : set_order_ok set_iter -> set_iter [] = [].
Proof.
  intros H. destruct (H []) as [_ Hin].
  destruct (set_iter []) as [|x l]; [reflexivity|].
  destruct (proj1 (Hin x) (or_introl eq_refl)).
Qed.

(** X3.  A text of commas and white space only - the empty text
    included - has no years: [expand_years] returns the empty list and
    raises nothing. *)
Theorem text_of_separators_has_no_years set_iter text :
  set_order_ok set_iter ->
  every is_sep text = true ->
  expand_years set_iter text = Ok [].
Proof.
  intros Hset H. unfold expand_years, re_split.
  rewrite expand_parts_empty.
  - unfold sorted_set_by_int. now rewrite (set_of_nothing _ Hset).
  - apply re_split_separators. unfold strip.
    now apply every_rstrip, every_lstrip.
Qed.

Lemma text_of_separators_has_no_years_witness :
  expand_years set_in_list_order " , ,  " = Ok [].
Proof.
  apply (text_of_separators_has_no_years set_in_list_order " , ,  "
           set_in_list_order_ok eq_refl).
Defined.

(** ** Ranges that are not ranges *)

Lemma split_on_nonempty c s : split_on c s <> [].
Proof.
  induction s as [|d s IH]; simpl; [discriminate|].
  destruct (Ascii.eqb c d); [discriminate|].
  destruct (split_on c s); discriminate.
Qed.

Lemma split_on_app_sep c a r :
  split_on c (a ++ String c r) = split_on c a ++ split_on c r.
Proof.
  induction a as [|d a IH]; simpl.
  - now rewrite Ascii.eqb_refl.
  - destruct (Ascii.eqb c d); [now rewrite IH|].
    rewrite IH. pose proof (split_on_nonempty c a) as Hn.
    destruct (split_on c a); [congruence|reflexivity].
Qed.

Lemma split_on_length c s : (1 <= List.length (split_on c s))%nat.
Proof.
  pose proof (split_on_nonempty c s).
  destruct (split_on c s); [congruence|simpl; lia].
Qed.

Lemma py_int_blank : py_int EmptyString = None.
Proof. reflexivity. Qed.

Lemma normalize_blank base : normalize EmptyString base = EmptyString.
Proof. reflexivity. Qed.

(** A piece that has a hyphen, and is cut in other than two pieces with
    a number on both sides, raises. *)
Lemma expand_part_malformed tok :
  (exists a b c, tok = (a ++ String "-" (b ++ String "-" c))%string)
  \/ (exists e, tok = String "-" e)
  \/ (exists s, tok = (s ++ String "-" EmptyString)%string) ->
  expand_part tok = Raise ValueError.
Proof.
  intros H.
  assert (Hc : contains "-"%char tok = true).
  { destruct H as [[a [b [c ->]]]|[[e ->]|[s ->]]]; try reflexivity;
      apply contains_app_sep. }
  unfold expand_part. rewrite Hc.
  destruct H as [[a [b [c ->]]]|[[e ->]|[s ->]]].
  - rewrite !split_on_app_sep.
    pose proof (split_on_length "-" a). pose proof (split_on_length "-" b).
    pose proof (split_on_length "-" c).
    destruct (split_on "-" a ++ split_on "-" b ++ split_on "-" c)
      as [|x [|y [|z l]]] eqn:E; try reflexivity;
      apply (f_equal (@List.length string)) in E;
      rewrite !List.length_app in E; simpl in E; lia.
  - change (String "-" e) with (EmptyString ++ String "-" e)%string.
    rewrite split_on_app_sep. cbn [split_on app].
    destruct (split_on "-" e) as [|y [|z l]]; reflexivity.
  - rewrite split_on_app_sep. cbn [split_on].
    pose proof (split_on_nonempty "-" s) as Hn.
    destruct (split_on "-" s) as [|x [|y l]]; [congruence| |].
    + cbn [app]. rewrite normalize_blank, py_int_blank.
      now destruct (py_int (normalize x None)).
    + cbn [app]. destruct l; reflexivity.
Qed.

(** X4.  A text with a token that starts or ends with a hyphen, or
    that has two hyphens, is refused: [expand_years] raises
    [ValueError], whatever the other tokens are. *)
Theorem malformed_range_raises set_iter text tok :
  In tok (re_split (strip text)) ->
  (exists a b c, tok = (a ++ String "-" (b ++ String "-" c))%string)
  \/ (exists e, tok = String "-" e)
  \/ (exists s, tok = (s ++ String "-" EmptyString)%string) ->
  expand_years set_iter text = Raise ValueError.
Proof.
  intros Hin Hbad.
  pose proof (expand_part_malformed _ Hbad) as Hr.
  assert (Hne : is_empty tok = false).
  { destruct Hbad as [[a [b [c ->]]]|[[e ->]|[s ->]]];
      [apply is_empty_app_sep|reflexivity|apply is_empty_app_sep]. }
  unfold expand_years.
  destruct (expand_parts _ _) as [r|e] eqn:E.
  - destruct (expand_parts_ok _ _ _ E) as [_ Ht].
    destruct (Ht _ Hin Hne) as [ys [Ey _]]. congruence.
  - now rewrite (expand_parts_exn _ _ _ E).
Qed.

Lemma malformed_range_raises_witness :
  expand_years set_in_list_order "2005, 2010-" = Raise ValueError.
Proof.
  apply (malformed_range_raises set_in_list_order "2005, 2010-" "2010-").
  - right. now left.
  - right. right. now exists "2010".
Defined.

End YearRangeFacts.

(* ===================================================================== *)
(** * The century of a year of two digits *)
(* ===================================================================== *)

Module CenturyFacts.

Import PyStr ExpandYears ExpandYearsFacts NumeralFacts YearRangeFacts.

(** A year written with [n] digits. *)
Definition year_text (n : nat) (s : string) : Prop :=
  String.length s = n /\ every is_digit s = true.

(** The number a run of digits denotes. *)
Definition number (s : string) : Z := digits_value 0 s.

Lemma digit_no_sep c : is_digit c = true -> is_sep c = false.
Proof.
  intros H. unfold is_sep. rewrite (digit_not_space _ H).
  destruct c as [b0 b1 b2 b3 b4 b5 b6 b7].
  destruct b0, b1, b2, b3, b4, b5, b6, b7; try discriminate H; reflexivity.
Qed.

Lemma digit_no_hyphen c : is_digit c = true -> Ascii.eqb "-" c = false.
Proof.
  intros H. destruct c as [b0 b1 b2 b3 b4 b5 b6 b7].
  destruct b0, b1, b2, b3, b4, b5, b6, b7; try discriminate H; reflexivity.
Qed.

Lemma digits_no_hyphen s :
  every is_digit s = true -> contains "-"%char s = false.
Proof.
  induction s as [|c s IH]; cbn [contains every]; [reflexivity|]. intros H.
  apply andb_true_iff in H. destruct H as [H1 H2].
  now rewrite (digit_no_hyphen _ H1), IH.
Qed.

(** A character of a token: not a comma and not white space. *)
Definition token_char (c : ascii) : bool := negb (is_sep c).

Lemma digits_token s : every is_digit s = true -> every token_char s = true.
Proof.
  apply every_impl. intros c H. unfold token_char.
  now rewrite (digit_no_sep _ H).
Qed.

Lemma token_no_space s :
  every token_char s = true -> every (fun c => negb (is_space c)) s = true.
Proof.
  apply every_impl. intros c H. unfold token_char, is_sep in H.
  apply negb_true_iff, orb_false_iff in H. destruct H as [_ H].
  now rewrite H.
Qed.

Lemma strip_token s : every token_char s = true -> strip s = s.
Proof.
  intros H. pose proof (token_no_space _ H) as Hs. unfold strip.
  destruct s as [|c s]; [reflexivity|].
  simpl in Hs. apply andb_true_iff in Hs. destruct Hs as [H1 H2].
  apply negb_true_iff in H1. rewrite (lstrip_id _ _ H1).
  apply rstrip_id. simpl. now rewrite H1, H2.
Qed.

Lemma re_split_aux_token s : forall cur,
  every token_char s = true ->
  re_split_aux cur false s = [(cur ++ s)%string].
Proof.
  induction s as [|c s IH]; intros cur H; simpl.
  - f_equal. clear. induction cur as [|x cur IH]; simpl; congruence.
  - apply andb_true_iff in H. destruct H as [H1 H2].
    unfold token_char in H1. apply negb_true_iff in H1. rewrite H1.
    rewrite (IH _ H2). f_equal.
    clear. induction cur as [|x cur IH]; simpl; congruence.
Qed.

(** A text that is one token. *)
Lemma one_token s :
  every token_char s = true -> re_split (strip s) = [s].
Proof.
  intros H. rewrite (strip_token _ H). unfold re_split.
  now rewrite (re_split_aux_token _ EmptyString H).
Qed.

Lemma range_token s e :
  every is_digit s = true -> every is_digit e = true ->
  every token_char (s ++ String "-" e) = true.
Proof.
  intros Hs He. rewrite every_app. cbn [every].
  now rewrite (digits_token _ Hs), (digits_token _ He).
Qed.

Lemma every_take P n : forall s,
  every P s = true -> every P (take n s) = true.
Proof.
  induction n as [|n IH]; intros [|c s]; simpl; try reflexivity.
  intros H. apply andb_true_iff in H. destruct H as [H1 H2].
  now rewrite H1, IH.
Qed.

Lemma normalize_two s base :
  year_text 2 s ->
  normalize s base
  = ((match base with
      | Some b => if PyStr.truthy b && (String.length b =? 4)%nat
                  then take 2 b else "20"
      | None => "20"
      end) ++ s)%string.
Proof.
  intros [Hl Hd]. unfold normalize. rewrite (strip_digits _ Hd), Hl.
  reflexivity.
Qed.

Lemma normalize_four s base : year_text 4 s -> normalize s base = s.
Proof.
  intros [Hl Hd]. unfold normalize. rewrite (strip_digits _ Hd), Hl.
  reflexivity.
Qed.

Lemma py_int_year n s :
  year_text (S n) s -> py_int s = Some (number s).
Proof.
  intros [Hl Hd]. apply py_int_digits; [exact Hd|].
  destruct s; [discriminate|discriminate].
Qed.

Lemma year_text_20 s : year_text 2 s -> year_text 4 ("20" ++ s).
Proof. intros [Hl Hd]. split; simpl; [now rewrite Hl|exact Hd]. Qed.

Lemma year_text_century s e :
  year_text 4 s -> year_text 2 e -> year_text 4 (take 2 s ++ e).
Proof.
  intros [Hl Hd] [Hl' Hd']. split.
  - rewrite ExpandYearsFacts.length_app, Hl'.
    destruct s as [|a [|b s]]; try discriminate. reflexivity.
  - rewrite every_app, Hd'. now rewrite (every_take _ _ _ Hd).
Qed.

(** A text that is one range of two years, after the years are
    completed to [a] and [b]. *)
Lemma one_range set_iter s e a b :
  set_order_ok set_iter ->
  every is_digit s = true -> every is_digit e = true ->
  py_int (normalize s None) = Some a ->
  py_int (normalize e (Some (normalize s None))) = Some b ->
  expand_years set_iter (s ++ String "-" e)
  = Ok (map py_str (py_range a (b + 1))).
Proof.
  intros Hset Hs He Ha Hb. unfold expand_years.
  rewrite (one_token _ (range_token _ _ Hs He)). cbn [expand_parts].
  rewrite is_empty_app_sep.
  rewrite (expand_part_range _ _ (digits_no_hyphen _ Hs)
             (digits_no_hyphen _ He)), Ha, Hb.
  cbn [app]. eapply sorted_set_of_increasing; [exact Hset| |].
  - apply int_keys_of_numbers.
  - apply range_keys_increase.
Qed.

(** C5 (amended).  [expand_years("14-17")] is ["2014", "2015", "2016",
    "2017"], [expand_years("2005, 09")] is ["2005", "2009"], and every
    list [expand_years] returns has no repeated element and is sorted
    by the integer values of its elements, in every iteration order of
    the set.  A year of two digits that stands alone is completed with
    "20".  In a range, the end of two digits takes the century of a
    start of four digits; the start of two digits is completed with
    "20" whatever the end is - two digits, which then get "20" too, or
    four digits, which do not give their century to the start: "98-1999"
    runs from 2098 to 1999 and is empty. *)
Theorem expand_years_examples_order_and_century set_iter :
  set_order_ok set_iter ->
  expand_years set_iter "14-17" = Ok ["2014"; "2015"; "2016"; "2017"]
  /\ expand_years set_iter "2005, 09" = Ok ["2005"; "2009"]
  /\ (forall text ys, expand_years set_iter text = Ok ys ->
        NoDup ys /\ numerically_sorted ys)
  /\ (forall t, year_text 2 t ->
        expand_years set_iter t = Ok [("20" ++ t)%string])
  /\ (forall s e, year_text 4 s -> year_text 2 e ->
        expand_years set_iter (s ++ String "-" e)
        = Ok (map py_str (py_range (number s)
                            (number (take 2 s ++ e) + 1))))
  /\ (forall s e, year_text 2 s -> year_text 2 e ->
        expand_years set_iter (s ++ String "-" e)
        = Ok (map py_str (py_range (number ("20" ++ s))
                            (number ("20" ++ e) + 1))))
  /\ (forall s e, year_text 2 s -> year_text 4 e ->
        expand_years set_iter (s ++ String "-" e)
        = Ok (map py_str (py_range (number ("20" ++ s)) (number e + 1))))
  /\ expand_years set_iter "98-1999" = Ok [].
Proof.
  intros Hset.
  assert (Hshort : forall s e, year_text 2 s -> year_text 4 e ->
            expand_years set_iter (s ++ String "-" e)
            = Ok (map py_str (py_range (number ("20" ++ s)) (number e + 1)))).
  { intros s e Hs He.
    apply one_range; [exact Hset|apply Hs|apply He| |].
    - rewrite (normalize_two _ None Hs).
      apply (py_int_year 3), year_text_20, Hs.
    - rewrite (normalize_four _ _ He). apply (py_int_year 3), He. }
  split; [|split; [|split; [|split; [|split; [|split; [|split]]]]]].
  - unfold expand_years. simpl expand_parts.
    eapply sorted_set_of_increasing; [exact Hset|reflexivity|].
    repeat constructor.
  - unfold expand_years. simpl expand_parts.
    eapply sorted_set_of_increasing; [exact Hset|reflexivity|].
    repeat constructor.
  - intros text ys H. unfold expand_years in H.
    destruct (expand_parts _ _) as [r|]; [|discriminate].
    destruct (sorted_set_by_int_spec _ _ _ Hset H) as [H1 [H2 _]].
    now split.
  - intros t Ht. unfold expand_years.
    rewrite (one_token _ (digits_token _ (proj2 Ht))). cbn [expand_parts].
    assert (Hne : is_empty t = false)
      by (destruct Ht as [Hl _]; destruct t; [discriminate|reflexivity]).
    rewrite Hne, (expand_part_single _ (digits_no_hyphen _ (proj2 Ht))).
    rewrite (normalize_two _ None Ht). cbn [app].
    eapply sorted_set_of_increasing; [exact Hset| |].
    + cbn [int_keys]. rewrite (py_int_year 3 _ (year_text_20 _ Ht)).
      reflexivity.
    + repeat constructor.
  - intros s e Hs He.
    apply one_range; [exact Hset|apply Hs|apply He| |].
    + rewrite (normalize_four _ None Hs). apply (py_int_year 3), Hs.
    + rewrite (normalize_four _ None Hs), (normalize_two _ _ He).
      destruct Hs as [Hl Hd]. rewrite Hl.
      assert (Ht : PyStr.truthy s = true)
        by (destruct s; [discriminate|reflexivity]).
      rewrite Ht. cbn [andb Nat.eqb].
      apply (py_int_year 3), year_text_century; [now split|exact He].
  - intros s e Hs He.
    apply one_range; [exact Hset|apply Hs|apply He| |].
    + rewrite (normalize_two _ None Hs).
      apply (py_int_year 3), year_text_20, Hs.
    + rewrite (normalize_two _ None Hs), (normalize_two _ _ He).
      destruct Hs as [Hl Hd]. cbn [append PyStr.truthy is_empty negb
        String.length]. rewrite Hl. cbn [andb Nat.eqb take].
      apply (py_int_year 3), year_text_20, He.
  - exact Hshort.
  - apply (Hshort "98" "1999"); now split.
Qed.

(** The end takes the century of a start of four digits. *)
Lemma expand_years_examples_order_and_century_witness :
  expand_years set_in_list_order "14-17"
  = Ok ["2014"; "2015"; "2016"; "2017"]
  /\ expand_years set_in_list_order "1998-99" = Ok ["1998"; "1999"].
Proof.
  pose proof (expand_years_examples_order_and_century set_in_list_order
                set_in_list_order_ok) as [H1 [_ [_ [_ [H5 _]]]]].
  split; [exact H1|].
  apply (H5 "1998" "99"); now split.
Defined.

(** C5 as stated fails: in "98-1999" the end has four digits, but the
    start of two digits does not take its century; the years 1998 and
    1999 are not returned. *)
Lemma short_start_ignores_the_century_of_the_end :
  expand_years set_in_list_order "98-1999" = Ok []
  /\ expand_years set_in_list_order "98-1999" <> Ok ["1998"; "1999"].
Proof. split; [reflexivity|discriminate]. Qed.

End CenturyFacts.

(* ===================================================================== *)
(** * The calls of [push_wc_product] and of the guarded blocks *)
(* ===================================================================== *)

Module PushFacts.

Import Frappe Sync Text Monad Effects.

Lemma filter_nothing {A} (f : A -> bool) l :
  Forall (fun x => f x = false) l -> filter f l = [].
Proof.
  induction 1 as [|x l Hx _ IH]; simpl; [reflexivity|]. now rewrite Hx.
Qed.

Lemma filter_something {A} (f : A -> bool) l :
  Exists (fun x => f x = true) l -> filter f l <> [].
Proof.
  induction 1 as [x l Hx|x l _ IH]; simpl.
  - rewrite Hx. discriminate.
  - destruct (f x); [discriminate|exact IH].
Qed.

Lemma set_key_nonempty {A} k (v : A) kv : Json.set_key k v kv <> [].
Proof.
  destruct kv as [|[k' v'] kv]; simpl; [discriminate|].
  destruct (String.eqb k k'); discriminate.
Qed.

(** X5.  [push_wc_product] makes one call at most.  Without a server
    that has [enable_sync] at 1 it raises [UnboundLocalError] before
    anything is sent; with no meta and no field other than [None] it
    sends nothing, logs a line and returns the empty dict; in every
    other case it sends one PUT with the fields that are not [None] and
    raises nothing, whatever the answer is. *)
Theorem push_makes_one_call_at_most env product_id meta fields w :
  let r := push_wc_product env product_id meta fields w in
  (enabled_servers (db w) = [] -> r = (Raise UnboundLocalError, w))
  /\ (forall server l,
        enabled_servers (db w) = server :: l ->
        meta = None ->
        Forall (fun kv => is_none (snd kv) = true) fields ->
        r = (Ok (JDict []),
             logged "push_wc_product called with no fields or meta" w))
  /\ (forall server l,
        enabled_servers (db w) = server :: l ->
        meta <> None \/ Exists (fun kv => is_none (snd kv) = false) fields ->
        exists v w',
          r = (Ok v, w') /\
          sent w' = sent w ++ [PushProduct (products_url server) product_id
                                 (push_payload meta fields)] /\
          db w' = db w /\ queue w' = queue w).
Proof.
  cbv zeta. split; [|split].
  - intros H. rewrite push_wc_product_eq, H. reflexivity.
  - intros server l Hs -> Hf. rewrite push_wc_product_eq, Hs.
    unfold push_payload. rewrite filter_nothing; [reflexivity|].
    eapply Forall_impl; [|exact Hf]. intros kv H. simpl in H.
    now rewrite H.
  - intros server l Hs Hsome.
    assert (Hp : push_payload meta fields <> []).
    { unfold push_payload. destruct meta as [m|].
      - apply set_key_nonempty.
      - destruct Hsome as [H|H]; [congruence|].
        apply filter_something.
        eapply Exists_impl; [|exact H]. intros kv E. simpl in E.
        now rewrite E. }
    destruct (push_payload meta fields) as [|x xs] eqn:E; [congruence|].
    destruct (push_wc_product_sent env product_id meta fields w server l
                x xs Hs E) as [v [w' [Hr [Hsent Hdb]]]].
    exists v, w'. repeat split; auto.
    pose proof (read_only_push_wc_product env product_id meta fields w)
      as [_ [Hq _]].
    now rewrite Hr in Hq.
Qed.

(** ** Blocks inside [try ... except Exception] *)

Lemma try_except_logs {A} (m : M A) (t : string) (a : A) w :
  is_ok (fst (try_except m (fun _ => log_error t ;; ret a)%sync w)) = true.
Proof.
  unfold try_except. destruct (m w) as [[x|e] w1]; reflexivity.
Qed.

Lemma try_except_logs_unit (m : M unit) (t : string) w :
  is_ok (fst (try_except m (fun _ => log_error t) w)) = true.
Proof.
  unfold try_except. destruct (m w) as [[x|e] w1]; reflexivity.
Qed.

End PushFacts.

(* ===================================================================== *)
(** * The page loop of [get_list_of_wc_products] *)
(* ===================================================================== *)

Module PaginationFacts.

Import Frappe Sync Monad.

(** The calls of a loop that reads [n] pages from [start] on. *)
Definition page_calls (server : string) (wc_id : option string)
  (start n : nat) : list Request :=
  map (fun k => ListProducts server wc_id (start + 100 * k)) (seq 0 n).

Lemma page_calls_succ server wc_id start n :
  page_calls server wc_id start (S n)
  = ListProducts server wc_id start
    :: page_calls server wc_id (start + 100) n.
Proof.
  unfold page_calls. cbn [seq map]. f_equal.
  - f_equal. lia.
  - rewrite <- seq_shift, map_map. apply map_ext. intros k. f_equal. lia.
Qed.

(** A remote server that holds the products [pages ++ [last]], a
    hundred or more on every page but the last, and serves page [k] at
    the offset [start + 100 * k]. *)
Definition serves (env : Env) (server : string) (wc_id : option string)
  (start : nat) (pages : list (list WooCommerceProduct))
  (last : list WooCommerceProduct) : Prop :=
  forall h k, (k <= List.length pages)%nat ->
    remote env h (ListProducts server wc_id (start + 100 * k))
    = Products (nth k (pages ++ [last]) []).

(** X7.  The page loop asks for the offsets 0, 100, 200, ... and stops
    at the first page with fewer than a hundred products: it returns the
    products of all the pages read, in order, after one call per
    page. *)
Theorem pages_are_read_up_to_the_first_short_one env server wc_id
  pages last :
  Forall (fun p => (100 <= List.length p)%nat) pages ->
  (List.length last < 100)%nat ->
  forall start fuel w,
    serves env server wc_id start pages last ->
    (List.length pages < fuel)%nat ->
    get_list_pages env fuel server wc_id start w
    = (Ok (Some (concat pages ++ last)),
       mkWorld (db w) (log w)
         (sent w ++ page_calls server wc_id start (S (List.length pages)))
         (queue w)).
Proof.
  intros Hfull Hlast.
  induction Hfull as [|p pages Hp _ IH]; intros start fuel w Hserve Hfuel.
  - destruct fuel as [|fuel]; [simpl in Hfuel; lia|].
    cbn [get_list_pages]. unfold bind at 1, request.
    pose proof (Hserve (sent w) 0%nat (Nat.le_0_l _)) as H0.
    replace (start + 100 * 0)%nat with start in H0 by lia.
    rewrite H0. cbn [nth app].
    apply Nat.ltb_lt in Hlast. rewrite Hlast, page_calls_succ. reflexivity.
  - destruct fuel as [|fuel]; [simpl in Hfuel; lia|].
    cbn [get_list_pages]. unfold bind at 1, request.
    pose proof (Hserve (sent w) 0%nat (Nat.le_0_l _)) as H0.
    replace (start + 100 * 0)%nat with start in H0 by lia.
    rewrite H0. cbn [nth app].
    assert (Hge : (List.length p <? 100)%nat = false)
      by (apply Nat.ltb_ge; exact Hp).
    rewrite Hge.
    erewrite bind_ok.
    2:{ apply IH.
        - intros h k Hk.
          replace (start + 100 + 100 * k)%nat
            with (start + 100 * S k)%nat by lia.
          rewrite (Hserve h (S k)); [reflexivity|simpl; lia].
        - simpl in Hfuel. lia. }
    unfold ret. cbn [option_map concat List.length db log sent queue].
    rewrite page_calls_succ with (n := S (List.length pages)).
    rewrite <- !app_assoc. reflexivity.
Qed.

Definition two_pages_product (n : nat) : WooCommerceProduct :=
  mkProduct (Some "shop~1") "shop" (Some "1") None None "simple" "publish"
            JNull JNull [].

Definition two_pages : Remote :=
  fun _ q =>
    match q with
    | ListProducts _ _ 0 => Products (map two_pages_product (seq 0 100))
    | ListProducts _ _ 100 => Products [two_pages_product 100]
    | _ => Products []
    end.

Lemma pages_are_read_up_to_the_first_short_one_witness :
  get_list_pages (Fixture.env_of two_pages) 5 "shop" None 0
    (Fixture.world_of Fixture.empty_db)
  = (Ok (Some (concat [map two_pages_product (seq 0 100)]
               ++ [two_pages_product 100])),
     mkWorld Fixture.empty_db []
       ([] ++ page_calls "shop" None 0 2) []).
Proof.
  apply (pages_are_read_up_to_the_first_short_one (Fixture.env_of two_pages)
           "shop" None [map two_pages_product (seq 0 100)]
           [two_pages_product 100]).
  - repeat constructor.
  - simpl. lia.
  - intros h k Hk. simpl in Hk.
    destruct k as [|[|k]]; [reflexivity|reflexivity|lia].
  - simpl. lia.
Defined.

(** X8.  The loop has no bound of its own: against a remote server
    that answers every offset with a hundred products or more, no
    number of pages ends it. *)
Theorem full_pages_never_end env server wc_id :
  (forall h start, exists p,
      remote env h (ListProducts server wc_id start) = Products p /\
      (100 <= List.length p)%nat) ->
  forall fuel start w,
    fst (get_list_pages env fuel server wc_id start w) = Ok None.
Proof.
  intros Hfull fuel.
  induction fuel as [|fuel IH]; intros start w; [reflexivity|].
  cbn [get_list_pages]. unfold bind at 1, request.
  destruct (Hfull (sent w) start) as [p [Hp Hlen]]. rewrite Hp.
  apply Nat.ltb_ge in Hlen. rewrite Hlen.
  unfold bind.
  match goal with
  | |- context [get_list_pages env fuel server wc_id ?s ?w1] =>
      specialize (IH s w1);
      destruct (get_list_pages env fuel server wc_id s w1) as [[r|e] w2]
  end; simpl in IH; [|discriminate].
  inversion IH; subst. reflexivity.
Qed.

(** A remote server that does not look at the offset. *)
Definition same_page : Remote :=
  fun _ _ => Products (map two_pages_product (seq 0 100)).

Lemma full_pages_never_end_witness :
  fst (get_list_pages (Fixture.env_of same_page) 7 "shop" (Some "1") 0
         (Fixture.world_of Fixture.empty_db)) = Ok None.
Proof.
  apply (full_pages_never_end (Fixture.env_of same_page) "shop" (Some "1")).
  intros h start. eexists. split; [reflexivity|].
  rewrite length_map, length_seq. lia.
Defined.

End PaginationFacts.

(* ===================================================================== *)
(** * More on the entry point: queued runs, disabled servers, products
      without an item *)
(* ===================================================================== *)

Module RunFacts.

Import Frappe Sync Tasks Monad.

(** The item has passed the checks of [run_item_sync]: no flag that
    disables the sync and a "Standard Selling" price above zero. *)
Definition passes_the_gate (d : DB) (i : Item) : Prop :=
  custom_disable_sync i <> 1%Z /\
  custom_disable_sync_if_not_in_stock i <> 1%Z /\
  no_price (price_of (standard_selling_price d (item_code i))) = false.

Definition jobs_of (i : Item) (links : list ItemWooCommerceServer)
  : list Job :=
  map (fun l => RunFromItem i (idx l)) links.

Definition queued (w : World) (jobs : list Job) : World :=
  mkWorld (db w) (log w) (sent w) (queue w ++ jobs).

(** The [sync] object of the last turn of the loop over the links. *)
Definition last_sync (d : DB) (i : Item) (links : list ItemWooCommerceServer)
  (last : option SynchroniseItem) : option SynchroniseItem :=
  fold_left
    (fun _ l => Some (mkSync (Some (mkToSync i (idx l))) None
                             (nth_error (enabled_servers d) 0)))
    links last.

Lemma sync_servers_enqueue env fuel i links : forall last w,
  sync_servers env fuel true i links last w
  = (Ok (Some (last_sync (db w) i links last)), queued w (jobs_of i links)).
Proof.
  induction links as [|l links IH]; intros last w.
  - unfold queued. simpl. rewrite app_nil_r. now destruct w.
  - cbn [sync_servers]. unfold bind at 1, init, bind at 1, get_db, ret.
    unfold bind at 1, enqueue_job. rewrite IH.
    unfold queued. cbn [db log sent queue jobs_of map last_sync fold_left].
    now rewrite <- app_assoc.
Qed.

Lemma last_sync_result d i links last :
  links <> [] ->
  exists s, last_sync d i links last = Some s /\
            sync_result s = (Some i, None).
Proof.
  intros Hne. destruct links as [|l links]; [congruence|]. clear Hne.
  unfold last_sync. cbn [fold_left].
  assert (G : forall s, sync_result s = (Some i, None) ->
            exists s', fold_left
              (fun _ l0 => Some (mkSync (Some (mkToSync i (idx l0))) None
                                   (nth_error (enabled_servers d) 0)))
              links (Some s) = Some s' /\ sync_result s' = (Some i, None)).
  { induction links as [|l' links IH]; intros s Hs; simpl.
    - now exists s.
    - apply IH. reflexivity. }
  apply G. reflexivity.
Qed.

(** [run_item_sync] for an item that passes the gate: the loop over
    its links. *)
Lemma run_item_sync_from_item env fuel i enqueue w :
  passes_the_gate (db w) i ->
  run_item_sync env fuel None (Some i) None None enqueue w
  = match woocommerce_servers i with
    | [] =>
        (Raise ValidationError, logged "92" (logged "run_item_sync Debug" w))
    | links =>
        bind (sync_servers env fuel enqueue i links None)
          (fun done =>
             match done with
             | None => ret None
             | Some (Some sync) => ret (Some (sync_result sync))
             | Some None => ret (Some (None, None))
             end)
          (logged "92" (logged "run_item_sync Debug" w))
    end.
Proof.
  intros [H1 [H2 H3]]. unfold run_item_sync.
  unfold bind at 1, log_error at 1. cbn [is_set is_some orb negb].
  unfold bind at 1, log_error at 1. unfold bind at 1, ret at 1.
  unfold bind at 1, get_db. cbn [db log sent queue].
  unfold code_of. rewrite H3.
  apply Z.eqb_neq in H1. apply Z.eqb_neq in H2. rewrite H1, H2.
  cbn [orb]. destruct (woocommerce_servers i); reflexivity.
Qed.

(** X9.  With [enqueue], [run_item_sync] runs nothing itself: for an
    item that passes the gate it queues one job per server link, in the
    order of the links, and for a product one job; no call reaches the
    remote server and the database stays as it is. *)
Theorem enqueue_defers_every_run env fuel i w :
  passes_the_gate (db w) i -> woocommerce_servers i <> [] ->
  run_item_sync env fuel None (Some i) None None true w
  = (Ok (Some (Some i, None)),
     queued (logged "92" (logged "run_item_sync Debug" w))
            (jobs_of i (woocommerce_servers i)))
  /\ (forall p,
        run_item_sync env fuel None None None (Some p) true w
        = (Ok (Some (None, Some p)),
           queued (logged "73" (logged "64" (logged "run_item_sync Debug" w)))
                  [RunFromProduct p])).
Proof.
  intros Hgate Hne. split.
  - rewrite (run_item_sync_from_item _ _ _ _ _ Hgate).
    destruct (woocommerce_servers i) as [|l links] eqn:El; [congruence|].
    unfold bind. rewrite sync_servers_enqueue.
    destruct (last_sync_result (db w) i (l :: links) None ltac:(discriminate))
      as [s [Hs Hr]].
    cbn [db logged]. rewrite Hs. unfold ret. now rewrite Hr.
  - intros p. reflexivity.
Qed.

Definition priced_db (i : Item) : DB :=
  mkDB [i] [] []
       [mkItemPrice (item_code i) "Standard Selling" (Some 1250%Z) None]
       [] [] [Fixture.server] [] 1000.

Definition two_links_item : Item :=
  Fixture.plain_item "BRK-1"
    [mkIWS "L1" 1 "shop" None 1 None 5; mkIWS "L2" 2 "shop" None 1 None 5].

Lemma enqueue_defers_every_run_witness :
  queue (snd (run_item_sync (Fixture.env_of Fixture.accepting) 3 None
                (Some two_links_item) None None true
                (Fixture.world_of (priced_db two_links_item))))
  = [RunFromItem two_links_item 1; RunFromItem two_links_item 2].
Proof.
  rewrite (proj1 (enqueue_defers_every_run (Fixture.env_of Fixture.accepting)
                    3 two_links_item
                    (Fixture.world_of (priced_db two_links_item))
                    ltac:(repeat split; discriminate)
                    ltac:(discriminate))).
  reflexivity.
Defined.

(** X10.  A link that names a remote product on a server whose
    [enable_sync] is 0 stops [run_item_sync] with [SyncDisabledError]
    before any call to the remote server: the database is untouched and
    the links after it are not visited. *)
Theorem disabled_server_stops_the_run env fuel i l rest l' wc_server w :
  passes_the_gate (db w) i ->
  woocommerce_servers i = l :: rest ->
  item_woocommerce_server (mkToSync i (idx l)) = Ok l' ->
  is_set (iws_woocommerce_id l') = true ->
  find (fun s => String.eqb (server_name s) (iws_woocommerce_server l'))
       (servers (db w)) = Some wc_server ->
  enable_sync wc_server = 0%Z ->
  run_item_sync env fuel None (Some i) None None false w
  = (Raise SyncDisabledError, logged "92" (logged "run_item_sync Debug" w)).
Proof.
  intros Hgate Hl Hidx Hset Hfind Hoff.
  rewrite (run_item_sync_from_item _ _ _ _ _ Hgate), Hl.
  cbn [sync_servers]. unfold bind at 1. unfold bind at 1.
  unfold bind at 1, init, bind at 1, get_db, ret. cbn [db logged].
  unfold run, bind at 1, get_corresponding_item_or_product, bind at 1.
  cbn [self_item self_woocommerce_product].
  unfold bind at 1, lift. rewrite Hidx, Hset.
  unfold bind at 1, get_server, bind at 1, get_db. cbn [db logged].
  rewrite Hfind. unfold ret. rewrite Hoff. reflexivity.
Qed.

Definition disabled_shop : WooCommerceServer :=
  mkServer "shop" "https://shop.example/" "ck" "cs" 0 0 0
           "Standard Selling" [].

Definition linked_once : Item :=
  Fixture.plain_item "BRK-1" [mkIWS "L1" 1 "shop" (Some "77") 1 None 5].

Definition disabled_world : World :=
  Fixture.world_of
    (mkDB [linked_once] [] []
          [mkItemPrice "BRK-1" "Standard Selling" (Some 1250%Z) None]
          [] [] [disabled_shop] [] 1000).

Lemma disabled_server_stops_the_run_witness :
  run_item_sync (Fixture.env_of Fixture.accepting) 3 None (Some linked_once)
    None None false disabled_world
  = (Raise SyncDisabledError,
     logged "92" (logged "run_item_sync Debug" disabled_world)).
Proof.
  apply (disabled_server_stops_the_run (Fixture.env_of Fixture.accepting) 3
           linked_once (mkIWS "L1" 1 "shop" (Some "77") 1 None 5) []
           (mkIWS "L1" 1 "shop" (Some "77") 1 None 5) disabled_shop
           disabled_world);
    try reflexivity.
  repeat split; discriminate.
Defined.

(** X11.  A run that starts from a Remote product looks for the link
    that names the product.  A product without a server or without an
    id is refused with [ValueError]; a product that no link names is
    left alone: no item is created, nothing is sent, and the call
    returns the product with no item. *)
Theorem product_without_item_changes_nothing env fuel p w :
  let started := logged "73" (logged "64" (logged "run_item_sync Debug" w)) in
  (PyStr.truthy (woocommerce_server p) && is_set (woocommerce_id p) = false ->
   run_item_sync env fuel None None None (Some p) false w
   = (Raise ValueError, started))
  /\ (PyStr.truthy (woocommerce_server p) && is_set (woocommerce_id p) = true ->
      find (fun pl =>
              String.eqb (iws_woocommerce_server (snd pl))
                         (woocommerce_server p)
              && Json.py_eq (Json.of_opt_str (iws_woocommerce_id (snd pl)))
                            (Json.of_opt_str (woocommerce_id p)))
           (all_links (db w)) = None ->
      run_item_sync env fuel None None None (Some p) false w
      = (Ok (Some (None, Some p)), logged "255" started)).
Proof.
  cbv zeta. split.
  - intros H. unfold run_item_sync.
    unfold bind at 1, log_error at 1. cbn [is_set is_some orb negb].
    unfold bind at 1, log_error at 1. unfold bind at 1, ret at 1.
    unfold bind at 1, log_error at 1.
    unfold bind at 1, init, bind at 1, get_db, ret. cbn [db log sent queue].
    unfold bind at 1, run, bind at 1, get_corresponding_item_or_product.
    cbn [self_item self_woocommerce_product].
    unfold bind at 1, ret at 1. cbn [self_item self_woocommerce_product].
    unfold bind at 1, get_erpnext_item. rewrite H. reflexivity.
  - intros H Hnone. unfold run_item_sync.
    unfold bind at 1, log_error at 1. cbn [is_set is_some orb negb].
    unfold bind at 1, log_error at 1. unfold bind at 1, ret at 1.
    unfold bind at 1, log_error at 1.
    unfold bind at 1, init, bind at 1, get_db, ret. cbn [db log sent queue].
    unfold bind at 1, run, bind at 1, get_corresponding_item_or_product.
    cbn [self_item self_woocommerce_product].
    unfold bind at 1, ret at 1. cbn [self_item self_woocommerce_product].
    unfold bind at 1, get_erpnext_item. rewrite H. cbn [negb].
    unfold bind at 1, get_db. cbn [db]. rewrite Hnone. reflexivity.
Qed.

End RunFacts.

(* ===================================================================== *)
(** * Properties of the batch entry points *)
(* ===================================================================== *)

Module BatchFacts.

Import Frappe Sync Tasks Batch Monad SyncLinkFacts RunFacts.

(** ** Runs that end *)

(** A computation whose page loops end within the fuel it is given: its
    result is never the [None] of a loop that was cut. *)
Definition ends {A} (m : M (option A)) : Prop :=
  forall w, fst (m w) <> Ok None.

(** A remote server that never fills a page: every list of products it
    answers a list call with has fewer than a hundred products. *)
Definition short_pages (env : Env) : Prop :=
  forall h server wc_id start l,
    remote env h (ListProducts server wc_id start) = Products l ->
    (List.length l < 100)%nat.

Lemma ends_ret {A} (a : A) : ends (ret (Some a)).
Proof. intros w. discriminate. Qed.

Lemma ends_raise {A} e : ends (@raise (option A) e).
Proof. intros w. discriminate. Qed.

Lemma ends_bind {A B} (m : M A) (k : A -> M (option B)) :
  (forall a, ends (k a)) -> ends (bind m k).
Proof.
  intros Hk w. unfold bind. destruct (m w) as [[a|e] w1]; [apply Hk|].
  discriminate.
Qed.

Lemma ends_bind_opt {A B} (m : M (option A)) (k : option A -> M (option B)) :
  ends m -> (forall a, ends (k (Some a))) -> ends (bind m k).
Proof.
  intros Hm Hk w. unfold bind. specialize (Hm w).
  destruct (m w) as [[[a|]|e] w1]; simpl in Hm;
    [apply Hk|congruence|discriminate].
Qed.

Lemma ends_try_except {A} (m : M (option A)) h :
  ends m -> (forall e, ends (h e)) -> ends (try_except m h).
Proof.
  intros Hm Hh w. unfold try_except. specialize (Hm w).
  destruct (m w) as [[a|e] w1]; [exact Hm|apply Hh].
Qed.

Section ShortPages.

Variable env : Env.
Hypothesis Hshort : short_pages env.

Lemma ends_get_list_pages fuel server wc_id start :
  ends (get_list_pages env (S fuel) server wc_id start).
Proof.
  intros w. cbn [get_list_pages]. unfold bind, request.
  destruct (remote env (sent w) (ListProducts server wc_id start))
    as [c b|c t|l|e] eqn:E; try discriminate.
  apply Hshort in E. apply Nat.ltb_lt in E. rewrite E. discriminate.
Qed.

Lemma ends_get_list_of_wc_products fuel it :
  ends (get_list_of_wc_products env (S fuel) it).
Proof.
  unfold get_list_of_wc_products. apply ends_bind. intros l.
  apply ends_get_list_pages.
Qed.

Ltac ends_step :=
  match goal with
  | |- ends (ret (Some _)) => apply ends_ret
  | |- ends (raise _) => apply ends_raise
  | |- ends (bind (get_list_of_wc_products _ _ _) _) =>
      apply ends_bind_opt; [apply ends_get_list_of_wc_products|intros]
  | |- ends (bind _ _) => apply ends_bind; intros
  | |- ends (match ?x with _ => _ end) => destruct x
  end.

Lemma ends_get_corresponding_item_or_product fuel self :
  ends (get_corresponding_item_or_product env (S fuel) self).
Proof.
  unfold get_corresponding_item_or_product. apply ends_bind_opt.
  - repeat ends_step.
  - intros s. repeat ends_step.
Qed.

Lemma ends_run fuel self : ends (run env (S fuel) self).
Proof.
  unfold run. apply ends_bind_opt.
  - apply ends_get_corresponding_item_or_product.
  - intros s. repeat ends_step.
Qed.

Lemma ends_sync_servers fuel enqueue links : forall it last,
  ends (sync_servers env (S fuel) enqueue it links last).
Proof.
  induction links as [|wc_server rest IH]; intros it last;
    cbn [sync_servers].
  - apply ends_ret.
  - apply ends_bind. intros sync. destruct enqueue.
    + apply ends_bind. intros _. apply IH.
    + apply ends_bind_opt; [apply ends_run|]. intros sync'. apply IH.
Qed.

Lemma ends_run_item_sync fuel item_code it name p enqueue :
  ends (run_item_sync env (S fuel) item_code it name p enqueue).
Proof.
  unfold run_item_sync. apply ends_bind. intros _.
  destruct (negb _); [apply ends_raise|].
  destruct (_ || _).
  - apply ends_bind. intros _. apply ends_bind. intros wc_product.
    apply ends_bind. intros _. apply ends_bind. intros sync.
    destruct enqueue.
    + repeat ends_step.
    + apply ends_bind_opt; [apply ends_run|]. intros done. apply ends_ret.
  - apply ends_bind. intros _. apply ends_bind. intros i.
    apply ends_bind. intros d.
    destruct (_ || _); [repeat ends_step|].
    destruct (no_price _); [repeat ends_step|].
    destruct (woocommerce_servers i) as [|l links]; [apply ends_raise|].
    apply ends_bind_opt; [apply ends_sync_servers|].
    intros [sync|]; apply ends_ret.
Qed.

Lemma ends_bulk_turn fuel idx total code :
  ends (bulk_turn env (S fuel) idx total code).
Proof.
  unfold bulk_turn. apply ends_try_except.
  - apply ends_bind. intros _.
    apply ends_bind_opt; [apply ends_run_item_sync|].
    intros done. apply ends_ret.
  - intros e. apply ends_bind. intros _. apply ends_ret.
Qed.

Lemma ends_bulk_loop fuel total items : forall idx report,
  ends (bulk_loop env (S fuel) idx total items report).
Proof.
  induction items as [|code items IH]; intros idx report; cbn [bulk_loop].
  - apply ends_ret.
  - apply ends_bind_opt; [apply ends_bulk_turn|].
    intros [e|]; apply IH.
Qed.

End ShortPages.

(** ** [bulk_run_item_sync] *)

(** The verdict on one item: no exception, or the exception raised. *)
Definition succeeded (verdicts : list (string * option exn)) : list string :=
  flat_map (fun v => match snd v with
                     | None => [fst v]
                     | Some _ => []
                     end) verdicts.

Definition failures (verdicts : list (string * option exn))
  : list (string * exn) :=
  flat_map (fun v => match snd v with
                     | Some e => [(fst v, e)]
                     | None => []
                     end) verdicts.

Lemma bulk_turn_total env fuel idx total code w :
  exists t w', bulk_turn env fuel idx total code w = (Ok t, w').
Proof.
  unfold bulk_turn, try_except.
  match goal with
  | |- context [let (r, w') := ?m w in _] => destruct (m w) as [[t|e] w1]
  end; eexists; eexists; reflexivity.
Qed.

Lemma bulk_loop_spec env fuel total items : forall idx report w,
  exists r w',
    bulk_loop env fuel idx total items report w = (Ok r, w') /\
    forall final, r = Some final ->
      exists verdicts,
        map fst verdicts = items /\
        success final = success report ++ succeeded verdicts /\
        failed final = failed report ++ failures verdicts.
Proof.
  induction items as [|code items IH]; intros idx report w.
  - exists (Some report), w. split; [reflexivity|].
    intros final H. inversion H; subst. exists [].
    simpl. now rewrite !app_nil_r.
  - cbn [bulk_loop].
    destruct (bulk_turn_total env fuel idx total code w) as [t [w1 Et]].
    rewrite (bind_ok _ _ _ _ _ Et).
    destruct t as [[e|]|].
    + destruct (IH (S idx) (mkReport (success report)
                              (failed report ++ [(code, e)])) w1)
        as [r [w' [E H]]].
      exists r, w'. split; [exact E|]. intros final Hf.
      destruct (H final Hf) as [vs [H1 [H2 H3]]].
      exists ((code, Some e) :: vs). simpl in *.
      rewrite H1, H2, H3, <- app_assoc. auto.
    + destruct (IH (S idx) (mkReport (success report ++ [code])
                              (failed report)) w1)
        as [r [w' [E H]]].
      exists r, w'. split; [exact E|]. intros final Hf.
      destruct (H final Hf) as [vs [H1 [H2 H3]]].
      exists ((code, None) :: vs). simpl in *.
      rewrite H1, H2, H3, <- app_assoc. auto.
    + exists None, w1. split; [reflexivity|]. discriminate.
Qed.

(** The loop of the batch ends with a report that accounts for every
    item, when no page of the remote server is full. *)
Lemma bulk_loop_report env fuel total items idx report w :
  short_pages env ->
  exists final w',
    bulk_loop env (S fuel) idx total items report w = (Ok (Some final), w') /\
    exists verdicts,
      map fst verdicts = items /\
      success final = success report ++ succeeded verdicts /\
      failed final = failed report ++ failures verdicts.
Proof.
  intros Hshort.
  destruct (bulk_loop_spec env (S fuel) total items idx report w)
    as [r [w' [E H]]].
  pose proof (ends_bulk_loop env Hshort fuel total items idx report w) as He.
  rewrite E in He. destruct r as [final|]; [|now elim He].
  exists final, w'. split; [exact E|]. now apply H.
Qed.

(** The items the call works on: the list it is given, or the list the
    text decodes to. *)
Definition decoded (env : Env) (items : BulkItems) : result (list string) :=
  match items with
  | Codes l => Ok l
  | Encoded text => json_loads env text
  end.

(** X12.  [bulk_run_item_sync] on a list of item codes raises nothing,
    whatever happens to an item of the batch, and returns a report that
    accounts for every item once: the codes that were synchronised and
    the codes that failed are the codes of the batch, each list in the
    order of the batch.  On a text, the same holds of the list the text
    decodes to; a text that cannot be decoded makes the call raise the
    error of the decoder, before anything is logged.  (The remote
    server is one that never answers with a full page of a hundred
    products, so that the page loop of every run ends.) *)
Theorem bulk_sync_reports_every_item_once env fuel items w :
  short_pages env ->
  match decoded env items with
  | Ok codes =>
      exists report w',
        bulk_run_item_sync env (S fuel) items w = (Ok (Some report), w') /\
        exists verdicts,
          map fst verdicts = codes /\
          success report = succeeded verdicts /\
          failed report = failures verdicts
  | Raise e => bulk_run_item_sync env (S fuel) items w = (Raise e, w)
  end.
Proof.
  intros Hshort.
  assert (R : forall codes,
            decoded env items = Ok codes ->
            bulk_run_item_sync env (S fuel) items w
            = bulk_loop env (S fuel) 1 (List.length codes) codes
                (mkReport [] []) (logged "trotal no of items in sync" w)).
  { intros codes Hd. unfold bulk_run_item_sync. destruct items as [l|text].
    - simpl in Hd. inversion Hd; subst. reflexivity.
    - simpl in Hd. unfold bind at 1, lift. rewrite Hd. reflexivity. }
  destruct (decoded env items) as [codes|e] eqn:Hd.
  - rewrite (R codes eq_refl).
    destruct (bulk_loop_report env fuel (List.length codes) codes 1%nat
                (mkReport [] []) (logged "trotal no of items in sync" w)
                Hshort) as [final [w' [E H]]].
    exists final, w'. split; [exact E|exact H].
  - destruct items as [l|text]; [discriminate|]. simpl in Hd.
    unfold bulk_run_item_sync, bind at 1, lift. rewrite Hd. reflexivity.
Qed.

Definition two_codes_text : string :=
  String "[" (String Fixture.dquote ("BRK-1" ++ String Fixture.dquote
    (", " ++ String Fixture.dquote ("BRK-2" ++ String Fixture.dquote "]")))).

Lemma accepting_short_pages : short_pages (Fixture.env_of Fixture.accepting).
Proof. intros h server wc_id start l H. inversion H. simpl. lia. Qed.

Lemma bulk_sync_reports_every_item_once_witness :
  exists report w',
    bulk_run_item_sync (Fixture.env_of Fixture.accepting) 1
      (Encoded two_codes_text) (Fixture.world_of Fixture.empty_db)
    = (Ok (Some report), w') /\
    exists verdicts,
      map fst verdicts = ["BRK-1"; "BRK-2"] /\
      success report = succeeded verdicts /\
      failed report = failures verdicts.
Proof.
  exact (bulk_sync_reports_every_item_once
           (Fixture.env_of Fixture.accepting) 0 (Encoded two_codes_text)
           (Fixture.world_of Fixture.empty_db) accepting_short_pages).
Defined.

(** ** Items that the gate skips *)

Lemma run_item_sync_disabled env fuel code i w :
  PyStr.truthy code = true ->
  find_item (db w) code = Some i ->
  custom_disable_sync i = 1%Z ->
  exists w', run_item_sync env fuel (Some code) None None None false w
             = (Ok (Some (None, None)), w').
Proof.
  intros Hc Hf Hd. unfold run_item_sync.
  unfold bind at 1, log_error at 1. cbn [is_set is_some]. rewrite Hc.
  cbn [orb negb]. unfold bind at 1, log_error at 1.
  unfold bind at 1, get_item, bind at 1, get_db. cbn [db or_empty].
  rewrite Hf. unfold ret at 1. unfold bind at 1, get_db.
  rewrite Hd. cbn [Z.eqb Pos.eqb orb]. eexists. reflexivity.
Qed.

Lemma bulk_turn_disabled env fuel idx total code i w :
  PyStr.truthy code = true ->
  find_item (db w) code = Some i ->
  custom_disable_sync i = 1%Z ->
  exists w', bulk_turn env fuel idx total code w = (Ok (Some None), w').
Proof.
  intros Hc Hf Hd. unfold bulk_turn, try_except.
  unfold bind at 1, log_error at 1.
  set (w0 := mkWorld _ _ _ _).
  destruct (run_item_sync_disabled env fuel code i w0 Hc Hf Hd) as [w1 E].
  rewrite (bind_ok _ _ _ _ _ E). eexists. reflexivity.
Qed.

(** X13.  An item that [run_item_sync] skips because its
    [custom_disable_sync] flag is set counts as a success of the batch:
    the batch ends with a report, and the code of the item opens the
    list of the synchronised codes.  (The remote server never answers
    with a full page, so that the runs of the other items end.) *)
Theorem skipped_item_is_reported_as_synchronised env fuel code rest i w :
  short_pages env ->
  PyStr.truthy code = true ->
  find_item (db w) code = Some i ->
  custom_disable_sync i = 1%Z ->
  exists report w',
    bulk_run_item_sync env (S fuel) (Codes (code :: rest)) w
    = (Ok (Some report), w') /\
    exists tail, success report = code :: tail.
Proof.
  intros Hshort Hc Hf Hd. unfold bulk_run_item_sync, bind at 1, ret at 1.
  unfold bind at 1, log_error. cbn [bulk_loop].
  match goal with
  | |- context [bulk_turn env ?f ?n ?t code] =>
      destruct (bulk_turn_disabled env f n t code i
                  (logged "trotal no of items in sync" w) Hc Hf Hd)
        as [w1 E]
  end.
  unfold logged in E. rewrite (bind_ok _ _ _ _ _ E).
  match goal with
  | |- context [bulk_loop env _ ?n ?t rest ?rep w1] =>
      destruct (bulk_loop_report env fuel t rest n rep w1 Hshort)
        as [final [w' [El [vs [_ [Hs _]]]]]]
  end.
  exists final, w'. split; [exact El|].
  exists (succeeded vs). exact Hs.
Qed.

Definition disabled_item : Item :=
  mkItem "BRK-1" "Brake Pad" 100 1 0 None None None None [] [] []
         [mkIWS "L1" 1 "shop" None 1 None 5] 0 [] 0 false [].

Definition disabled_item_world : World :=
  Fixture.world_of (priced_db disabled_item).

Lemma skipped_item_is_reported_as_synchronised_witness :
  exists report w',
    bulk_run_item_sync (Fixture.env_of Fixture.accepting) 1
      (Codes ["BRK-1"; "BRK-2"]) disabled_item_world
    = (Ok (Some report), w') /\
    exists tail, success report = "BRK-1" :: tail.
Proof.
  apply (skipped_item_is_reported_as_synchronised
           (Fixture.env_of Fixture.accepting) 0 "BRK-1" ["BRK-2"]
           disabled_item disabled_item_world).
  - exact accepting_short_pages.
  - reflexivity.
  - reflexivity.
  - reflexivity.
Defined.

(** ** [clear_sync_hash_and_run_item_sync] *)

(** A computation that neither writes to the database nor calls the
    remote server. *)
Definition defers {A} (m : M A) : Prop :=
  forall w, db (snd (m w)) = db w /\ sent (snd (m w)) = sent w.

Lemma defers_bind {A B} (m : M A) (k : A -> M B) :
  defers m -> (forall a, defers (k a)) -> defers (bind m k).
Proof.
  intros Hm Hk w. unfold bind. specialize (Hm w).
  destruct (m w) as [[a|e] w1]; simpl in *; [|exact Hm].
  destruct (Hk a w1) as [H1 H2]. destruct Hm as [H3 H4].
  split; congruence.
Qed.

Lemma defers_simple {A} (m : M A) :
  (forall w, db (snd (m w)) = db w /\ sent (snd (m w)) = sent w) ->
  defers m.
Proof. intros H. exact H. Qed.

Lemma defers_get_item code : defers (get_item code).
Proof.
  intros w. unfold get_item, bind, get_db.
  destruct (find_item _ _); now split.
Qed.

Lemma defers_sync_servers env fuel i links last :
  defers (sync_servers env fuel true i links last).
Proof. intros w. rewrite sync_servers_enqueue. now split. Qed.

Ltac defers_step :=
  match goal with
  | |- defers (bind _ _) => apply defers_bind; [|intros]
  | |- defers (get_item _) => apply defers_get_item
  | |- defers (sync_servers _ _ true _ _ _) => apply defers_sync_servers
  | |- defers (match ?x with _ => _ end) => destruct x
  | |- defers (if ?x then _ else _) => destruct x
  | |- defers _ => solve [intros ?; now split]
  end.

Lemma defers_run_item_sync env fuel code :
  defers (run_item_sync env fuel (Some code) None None None true).
Proof.
  unfold run_item_sync. cbn [is_some is_set orb]. rewrite !orb_false_r.
  repeat defers_step.
Qed.

(** What the loop over the enabled links does to a link. *)
Definition cleared (names : list string)
  (pl : string * ItemWooCommerceServer) : string * ItemWooCommerceServer :=
  (fst pl,
   if existsb (String.eqb (iws_name (snd pl))) names
   then with_last_sync_hash None (snd pl) else snd pl).

Lemma clear_loop names : forall w,
  let r := for_each names
             (fun name => set_link_value name (with_last_sync_hash None)) w in
  fst r = Ok tt /\
  all_links (db (snd r)) = map (cleared names) (all_links (db w)) /\
  sent (snd r) = sent w.
Proof.
  induction names as [|n names IH]; intros w; cbv zeta.
  - simpl. repeat split. rewrite <- (map_id (all_links (db w))) at 1.
    apply map_ext. now intros [parent l].
  - cbn [for_each].
    destruct (all_links_set_link_value n (with_last_sync_hash None) w)
      as [E1 [L1 _]].
    unfold bind.
    destruct (set_link_value n (with_last_sync_hash None) w) as [r1 w1] eqn:S1.
    simpl in E1, L1. subst r1.
    assert (Hs : sent w1 = sent w).
    { apply (f_equal (fun x => sent (snd x))) in S1. exact (eq_sym S1). }
    destruct (IH w1) as [E2 [L2 S2]].
    split; [exact E2|]. split; [|congruence].
    rewrite L2, L1, map_map. apply map_ext. intros [parent l].
    unfold cleared, on_link. cbn [fst snd existsb].
    destruct (String.eqb (iws_name l) n); cbn [orb];
      [|reflexivity].
    cbn [with_last_sync_hash iws_name].
    now destruct (existsb _ names).
Qed.

(** X14.  [clear_sync_hash_and_run_item_sync] clears the last sync
    hash of the links that are called like an enabled link of the item
    and of no other link; [enabled], the remote id and [modified] of
    every link stay.  It makes no call to the remote server - the runs
    are queued - and for an item without an enabled link it does
    nothing at all: no run is queued. *)
Theorem clear_sync_hash_touches_enabled_links_only env fuel code w :
  let names := enabled_link_names (db w) code in
  let r := clear_sync_hash_and_run_item_sync env fuel code w in
  all_links (db (snd r)) = map (cleared names) (all_links (db w))
  /\ sent (snd r) = sent w
  /\ (names = [] -> r = (Ok (Some tt), w)).
Proof.
  cbv zeta.
  destruct (clear_loop (enabled_link_names (db w) code) w) as [E [L S]].
  cbv zeta in E, L, S.
  assert (R : clear_sync_hash_and_run_item_sync env fuel code w
              = match enabled_link_names (db w) code with
                | [] => (Ok (Some tt), w)
                | _ =>
                    bind (run_item_sync env fuel (Some code) None None None
                            true)
                      (fun done => ret (option_map (fun _ => tt) done))
                      (snd (for_each (enabled_link_names (db w) code)
                              (fun name =>
                                 set_link_value name
                                   (with_last_sync_hash None)) w))
                end).
  { unfold clear_sync_hash_and_run_item_sync, bind at 1, get_db.
    unfold bind at 1.
    destruct (for_each _ _ w) as [r1 w1] eqn:F. simpl in E. subst r1.
    destruct (enabled_link_names (db w) code); [|reflexivity].
    simpl in F. now inversion F. }
  rewrite R.
  destruct (enabled_link_names (db w) code) as [|n names] eqn:En.
  - simpl. repeat split. rewrite <- (map_id (all_links (db w))) at 1.
    apply map_ext. now intros [parent l].
  - match goal with
    | |- context [bind ?m ?k ?w1] =>
        pose proof (defers_bind m k (defers_run_item_sync env fuel code)
                      ltac:(intros a w2; now split) w1) as [Hd Hs]
    end.
    rewrite Hd, Hs. repeat split; [exact L|exact S|discriminate].
Qed.

End BatchFacts.

(* ===================================================================== *)
(** * The writes of [set_sync_hash] and the strictness of the field map *)
(* ===================================================================== *)

Module LinkWriteFacts.

Import Frappe Sync Monad SyncLinkFacts FieldMapperFacts.

(** The link after [set_sync_hash]: the hash and [enabled] are written,
    every other column is the one it had. *)
Definition stamped (h : option datetime) (x : ItemWooCommerceServer)
  : ItemWooCommerceServer :=
  mkIWS (iws_name x) (idx x) (iws_woocommerce_server x)
        (iws_woocommerce_id x) 1 h (iws_modified x).

Lemma set_link_value_frame name upd w :
  let w' := snd (set_link_value name upd w) in
  sent w' = sent w /\ log w' = log w /\ queue w' = queue w.
Proof. now repeat split. Qed.

(** X15.  [set_sync_hash] writes two columns of the links called like
    the link of the item - the date of the product as last sync hash and
    1 as [enabled] - and nothing else: the remote id, the server, the
    index and [modified] of a link stay, as do the other links and the
    [modified] of every item; no call is made.  It writes nothing when
    it raises: [AttributeError] without an item, [IndexError] for an
    item whose index names no link, with a product or without, and
    [AttributeError] for a link without a product. *)
Theorem set_sync_hash_writes_two_columns self w :
  let r := set_sync_hash self w in
  match self_item self with
  | None => r = (Raise AttributeError, w)
  | Some it =>
      match item_woocommerce_server it with
      | Raise _ => r = (Raise IndexError, w)
      | Ok l =>
          match self_woocommerce_product self with
          | None => r = (Raise AttributeError, w)
          | Some p =>
              fst r = Ok tt /\
              all_links (db (snd r))
              = map (on_link (iws_name l)
                       (stamped (woocommerce_date_modified p)))
                    (all_links (db w)) /\
              map modified (items (db (snd r)))
              = map modified (items (db w)) /\
              sent (snd r) = sent w /\ log (snd r) = log w /\
              queue (snd r) = queue w
          end
      end
  end.
Proof.
  cbv zeta. destruct self as [[it|] p api]; cbn [self_item
    self_woocommerce_product]; [|reflexivity].
  destruct (item_woocommerce_server it) as [l|e] eqn:El.
  - destruct p as [p|].
    + destruct (set_sync_hash_links api it p l w El) as [H1 [_ H3]].
      split; [|split; [exact H1|split; [exact H3|]]].
      * unfold set_sync_hash. cbn [self_item self_woocommerce_product].
        unfold bind at 1, lift. rewrite El. reflexivity.
      * unfold set_sync_hash. cbn [self_item self_woocommerce_product].
        unfold bind at 1, lift. rewrite El. now repeat split.
    + unfold set_sync_hash. cbn [self_item self_woocommerce_product].
      unfold bind at 1, lift. rewrite El. reflexivity.
  - unfold set_sync_hash. cbn [self_item self_woocommerce_product].
    unfold bind at 1, lift. rewrite El.
    unfold item_woocommerce_server in El.
    destruct (match item_woocommerce_server_idx it with
              | O => _ | S n => _ end); [discriminate|].
    now inversion El.
Qed.

(** ** A mapped path that matches nothing *)

Lemma set_product_fields_loop_app env p it pre : forall post state,
  set_product_fields_loop env p it state (pre ++ post)
  = match set_product_fields_loop env p it state pre with
    | Ok state' => set_product_fields_loop env p it state' post
    | Raise e => Raise e
    end.
Proof.
  induction pre as [|m pre IH]; intros post state; simpl; [reflexivity|].
  destruct (set_product_field env p it state m); [apply IH|reflexivity].
Qed.

(** X16.  A pair of the field map whose path matches nothing in the
    product is an error for a product that is stored - the loop raises
    [ValueError] - and is passed over for a product that has no name
    yet: the loop goes on with the pairs after it. *)
Theorem unmatched_path_is_an_error_for_a_stored_product env p it pre m
  post v :
  (forall x, In x pre -> field_in_sync env p it x) ->
  getattr_item (item it) (Text.before " | " (erpnext_field_name m)) = Ok v ->
  jsonpath_find env (woocommerce_field_name m) (deserialize env p) = Ok [] ->
  let start := (deserialize env p, false) in
  (is_set (wc_name p) = true ->
   set_product_fields_loop env p it start (pre ++ m :: post)
   = Raise ValueError)
  /\ (is_set (wc_name p) = false ->
      set_product_fields_loop env p it start (pre ++ m :: post)
      = set_product_fields_loop env p it start post).
Proof.
  intros Hpre Hv Hf. cbv zeta.
  assert (E : forall rest,
            set_product_fields_loop env p it (deserialize env p, false)
              (pre ++ m :: rest)
            = match wc_name p with
              | Some n => if PyStr.truthy n then Raise ValueError
                          else set_product_fields_loop env p it
                                 (deserialize env p, false) rest
              | None => set_product_fields_loop env p it
                          (deserialize env p, false) rest
              end).
  { intros rest. rewrite set_product_fields_loop_app.
    rewrite (set_product_fields_loop_in_sync env p it pre Hpre).
    cbn [set_product_fields_loop]. unfold set_product_field.
    rewrite Hv, Hf. destruct (wc_name p) as [n|]; [|reflexivity].
    now destruct (PyStr.truthy n). }
  split; intros Hn; rewrite E; unfold is_set in Hn;
    destruct (wc_name p) as [n|]; try congruence; now rewrite Hn.
Qed.

Definition unmatched_map : FieldMap := mkFieldMap "item_name" "sku".

Definition named_product (n : option string) : WooCommerceProduct :=
  mkProduct n "shop" (Some "77") (Some "Brake Pad") (Some 50%Z) "simple"
            "publish" JNull (JStr "77") [("name", JStr "Brake Pad")].

Definition mapped_to_sync : ERPNextItemToSync :=
  mkToSync (Fixture.plain_item "BRK-1" []) 1.

Lemma unmatched_path_is_an_error_for_a_stored_product_witness :
  set_product_fields_loop (Fixture.env_of Fixture.accepting)
    (named_product (Some "shop~77")) mapped_to_sync
    (JDict [("name", JStr "Brake Pad")], false) [unmatched_map]
  = Raise ValueError
  /\ set_product_fields_loop (Fixture.env_of Fixture.accepting)
       (named_product None) mapped_to_sync
       (JDict [("name", JStr "Brake Pad")], false) [unmatched_map]
     = Ok (JDict [("name", JStr "Brake Pad")], false).
Proof.
  split.
  - apply (proj1 (unmatched_path_is_an_error_for_a_stored_product
                    (Fixture.env_of Fixture.accepting)
                    (named_product (Some "shop~77")) mapped_to_sync []
                    unmatched_map [] (JStr "BRK-1")
                    ltac:(intros x [])
                    eq_refl eq_refl)).
    reflexivity.
  - apply (proj2 (unmatched_path_is_an_error_for_a_stored_product
                    (Fixture.env_of Fixture.accepting)
                    (named_product None) mapped_to_sync []
                    unmatched_map [] (JStr "BRK-1")
                    ltac:(intros x [])
                    eq_refl eq_refl)).
    reflexivity.
Defined.

End LinkWriteFacts.

(* ===================================================================== *)
(** * The kinds of calls a computation makes *)
(* ===================================================================== *)

Module Traffic.

Import Frappe Sync Text Monad.

(** Every call [m] makes satisfies [P]. *)
Definition sends (P : Request -> bool) {A} (m : M A) : Prop :=
  forall w, exists s, sent (snd (m w)) = sent w ++ s /\ forallb P s = true.

Section Calls.

Variable P : Request -> bool.

Lemma sends_nothing {A} (m : M A) :
  (forall w, sent (snd (m w)) = sent w) -> sends P m.
Proof. intros H w. exists []. now rewrite app_nil_r, H. Qed.

Lemma sends_ret {A} (a : A) : sends P (ret a).
Proof. now apply sends_nothing. Qed.

Lemma sends_raise {A} e : sends P (@raise A e).
Proof. now apply sends_nothing. Qed.

Lemma sends_lift {A} (r : result A) : sends P (lift r).
Proof. now apply sends_nothing. Qed.

Lemma sends_get_db : sends P get_db.
Proof. now apply sends_nothing. Qed.

Lemma sends_put_db d : sends P (put_db d).
Proof. now apply sends_nothing. Qed.

Lemma sends_log_error t : sends P (log_error t).
Proof. now apply sends_nothing. Qed.

Lemma sends_request env q : P q = true -> sends P (request env q).
Proof. intros H w. exists [q]. simpl. now rewrite H. Qed.

Lemma sends_bind {A B} (m : M A) (k : A -> M B) :
  sends P m -> (forall a, sends P (k a)) -> sends P (bind m k).
Proof.
  intros Hm Hk w. unfold bind. destruct (Hm w) as [s [H1 H2]].
  destruct (m w) as [[a|e] w1]; simpl in *; [|now exists s].
  destruct (Hk a w1) as [s' [H3 H4]].
  exists (s ++ s'). rewrite H3, H1, app_assoc, forallb_app, H2, H4.
  now split.
Qed.

Lemma sends_try_except {A} (m : M A) (h : exn -> M A) :
  sends P m -> (forall e, sends P (h e)) -> sends P (try_except m h).
Proof.
  intros Hm Hh w. unfold try_except. destruct (Hm w) as [s [H1 H2]].
  destruct (m w) as [[a|e] w1]; simpl in *; [now exists s|].
  destruct (Hh e w1) as [s' [H3 H4]].
  exists (s ++ s'). rewrite H3, H1, app_assoc, forallb_app, H2, H4.
  now split.
Qed.

Lemma sends_map_m {A B} (f : A -> M B) l :
  (forall x, sends P (f x)) -> sends P (map_m f l).
Proof.
  intros Hf. induction l as [|x l IH]; simpl.
  - apply sends_ret.
  - apply sends_bind; [apply Hf|]. intros y.
    apply sends_bind; [exact IH|]. intros ys. apply sends_ret.
Qed.

End Calls.

(** A computation that makes no call leaves the list of calls. *)
Lemma quiet_sent {A} (m : M A) w :
  sends (fun _ => false) m -> sent (snd (m w)) = sent w.
Proof.
  intros H. destruct (H w) as [s [E F]].
  destruct s; [now rewrite app_nil_r in E|discriminate].
Qed.

Create HintDb sends.

#[local] Hint Resolve sends_ret sends_raise sends_lift sends_get_db
  sends_put_db sends_log_error : sends.
#[local] Hint Extern 1 (sends _ (request _ _)) =>
  apply sends_request; reflexivity : sends.

Ltac sends_step :=
  match goal with
  | |- sends _ (bind _ _) => apply sends_bind; [|intros]
  | |- sends _ (try_except _ _) => apply sends_try_except; [|intros]
  | |- sends _ (map_m _ _) => apply sends_map_m; intros
  | |- sends _ (match ?x with _ => _ end) => destruct x
  | |- sends _ _ => solve [auto with sends]
  end.

Ltac sends_tac := repeat sends_step.

(** ** Computations that make no call *)

Section Quiet.

Variable P : Request -> bool.

Lemma sends_translate_text s : sends P (translate_text s).
Proof. unfold translate_text. sends_tac. Qed.

Lemma sends_get_item code : sends P (get_item code).
Proof. unfold get_item. sends_tac. Qed.

Lemma sends_get_server n : sends P (get_server n).
Proof. unfold get_server. sends_tac. Qed.

Hint Resolve sends_translate_text sends_get_item sends_get_server : sends.

Lemma sends_compatibility_entries code : sends P (compatibility_entries code).
Proof. unfold compatibility_entries. sends_tac. Qed.

Lemma sends_expanded_years_of env row : sends P (expanded_years_of env row).
Proof. unfold expanded_years_of. sends_tac. Qed.

Hint Resolve sends_compatibility_entries sends_expanded_years_of : sends.

Lemma sends_compat_rows env rows : forall meta index,
  sends P (compat_rows env meta index rows).
Proof.
  induction rows as [|row rows IH]; simpl; intros meta index.
  - apply sends_ret.
  - apply sends_bind; [|intros; apply IH].
    unfold compat_row. sends_tac.
Qed.

Hint Resolve sends_compat_rows : sends.

Lemma sends_build_compatibility_data env code :
  sends P (build_compatibility_data env code).
Proof. unfold build_compatibility_data. sends_tac. Qed.

Hint Resolve sends_build_compatibility_data : sends.

Lemma sends_build_item_description env code :
  sends P (build_item_description env code).
Proof. unfold build_item_description. sends_tac. Qed.

Lemma sends_push_outcome resp : sends P (push_outcome resp).
Proof. unfold push_outcome. sends_tac. Qed.

Lemma sends_set_product_fields env p it :
  sends P (set_product_fields env p it).
Proof. unfold set_product_fields. sends_tac. Qed.

Lemma sends_response_json resp : sends P (response_json resp).
Proof. unfold response_json. sends_tac. Qed.

Lemma sends_save_item i : sends P (save_item i).
Proof. unfold save_item. sends_tac. Qed.

Lemma sends_set_link_value name upd : sends P (set_link_value name upd).
Proof. unfold set_link_value. sends_tac. Qed.

Lemma sends_get_item_price_rate it : sends P (get_item_price_rate it).
Proof. unfold get_item_price_rate. sends_tac. Qed.

Lemma sends_fresh_product it : sends P (fresh_product it).
Proof. unfold fresh_product, variant_attribute. sends_tac. Qed.

End Quiet.

#[local] Hint Resolve sends_translate_text sends_get_item sends_get_server
  sends_compatibility_entries sends_expanded_years_of sends_compat_rows
  sends_build_compatibility_data sends_build_item_description
  sends_push_outcome sends_set_product_fields sends_response_json
  sends_save_item sends_set_link_value sends_get_item_price_rate
  sends_fresh_product : sends.

(** ** The calls of the update *)

(** The calls that change or read one product or the categories: a
    push to the product, the save of its document, the lookup and the
    creation of a category, the lookup of an offer category. *)
Definition update_call (q : Request) : bool :=
  match q with
  | PushProduct _ _ _ | SaveProduct _ | GetCategories _ | PostCategory _ _
  | GetOfferCategories _ => true
  | _ => false
  end.

Lemma updates_push_wc_product env product_id meta fields :
  sends update_call (push_wc_product env product_id meta fields).
Proof. unfold push_wc_product. sends_tac. Qed.

Lemma updates_save_product env p : sends update_call (save_product env p).
Proof. unfold save_product. sends_tac. Qed.

#[local] Hint Resolve updates_push_wc_product updates_save_product : sends.

Lemma updates_get_or_create_wc_category env self name parent_id :
  sends update_call (get_or_create_wc_category env self name parent_id).
Proof. unfold get_or_create_wc_category. sends_tac. Qed.

Lemma updates_get_or_create_wc_offer_category env self name :
  sends update_call (get_or_create_wc_offer_category env self name).
Proof. unfold get_or_create_wc_offer_category. sends_tac. Qed.

#[local] Hint Resolve updates_get_or_create_wc_category
  updates_get_or_create_wc_offer_category : sends.

Lemma updates_push_bought_together env product_id code :
  sends update_call (push_bought_together env product_id code).
Proof. unfold push_bought_together. sends_tac. Qed.

Lemma updates_update_name_and_fields env p it :
  sends update_call (update_name_and_fields env p it).
Proof. unfold update_name_and_fields. sends_tac. Qed.

Lemma updates_push_images env product_id it :
  sends update_call (push_images env product_id it).
Proof. unfold push_images. sends_tac. Qed.

Lemma updates_push_description env product_id it :
  sends update_call (push_description env product_id it).
Proof. unfold push_description. sends_tac. Qed.

Lemma updates_push_shipping_class env product_id it :
  sends update_call (push_shipping_class env product_id it).
Proof. unfold push_shipping_class. sends_tac. Qed.

Lemma updates_push_attributes env product_id it :
  sends update_call (push_attributes env product_id it).
Proof. unfold push_attributes, wc_attribute, attribute_options. sends_tac. Qed.

Lemma updates_push_branch_stock env product_id it :
  sends update_call (push_branch_stock env product_id it).
Proof. unfold push_branch_stock. sends_tac. Qed.

Lemma updates_push_stock env product_id it :
  sends update_call (push_stock env product_id it).
Proof. unfold push_stock. sends_tac. Qed.

Lemma updates_push_price env product_id it :
  sends update_call (push_price env product_id it).
Proof. unfold push_price. sends_tac. Qed.

Lemma updates_push_spare_part env product_id it :
  sends update_call (push_spare_part env product_id it).
Proof. unfold push_spare_part. sends_tac. Qed.

Lemma updates_push_compatibility env product_id it :
  sends update_call (push_compatibility env product_id it).
Proof. unfold push_compatibility. sends_tac. Qed.

Lemma updates_push_categories env self product_id it :
  sends update_call (push_categories env self product_id it).
Proof. unfold push_categories. sends_tac. Qed.

Lemma updates_push_offer_categories env self product_id it :
  sends update_call (push_offer_categories env self product_id it).
Proof. unfold push_offer_categories. sends_tac. Qed.

#[local] Hint Resolve updates_push_bought_together
  updates_update_name_and_fields updates_push_images
  updates_push_description updates_push_shipping_class
  updates_push_attributes updates_push_branch_stock updates_push_stock
  updates_push_price updates_push_spare_part updates_push_compatibility
  updates_push_categories updates_push_offer_categories : sends.

Lemma updates_push_field_groups env self product_id it :
  sends update_call (push_field_groups env self product_id it).
Proof. unfold push_field_groups. sends_tac. Qed.

#[local] Hint Resolve updates_push_field_groups : sends.

Lemma updates_update_woocommerce_product env self p it :
  sends update_call (update_woocommerce_product env self p it).
Proof. unfold update_woocommerce_product. sends_tac. Qed.

Lemma updates_try_update env self p it : sends update_call (try_update env self p it).
Proof.
  unfold try_update. apply sends_try_except.
  - apply updates_update_woocommerce_product.
  - intros e. sends_tac.
Qed.

(** X17.  [update_woocommerce_product] never creates, fetches or lists
    a product: each of its calls is a push to the product, the save of
    its document or a call about categories - and it neither writes to
    the database nor queues a job. *)
Theorem update_only_pushes_saves_and_resolves_categories env self p it w :
  let w' := snd (update_woocommerce_product env self p it w) in
  (exists calls,
     sent w' = sent w ++ calls /\ forallb update_call calls = true)
  /\ db w' = db w /\ queue w' = queue w.
Proof.
  cbv zeta. split; [apply updates_update_woocommerce_product|].
  destruct (Effects.read_only_update_woocommerce_product env self p it w)
    as [Hd [Hq _]].
  now split.
Qed.

End Traffic.

(* ===================================================================== *)
(** * The create path *)
(* ===================================================================== *)

Module CreateFacts.

Import Frappe Sync Text Monad Effects Traffic LinkWriteFacts SyncLinkFacts
  PushFacts.

#[local] Hint Resolve read_only_ret read_only_raise read_only_lift
  read_only_get_db read_only_log_error read_only_request
  read_only_get_server read_only_set_product_fields : read_only.

#[local] Hint Resolve sends_ret sends_raise sends_lift sends_get_db
  sends_put_db sends_log_error sends_get_server sends_set_product_fields
  : sends.

Lemma log_error_eq t w : log_error t w = (Ok tt, logged t w).
Proof. reflexivity. Qed.

Lemma get_db_eq w : get_db w = (Ok (db w), w).
Proof. reflexivity. Qed.

Lemma map_m_total {A B} (f : A -> M B) l :
  (forall x w, exists y w', f x w = (Ok y, w')) ->
  forall w, exists ys w', map_m f l w = (Ok ys, w').
Proof.
  intros Hf. induction l as [|x l IH]; intros w; simpl.
  - now eexists; eexists.
  - destruct (Hf x w) as [y [w1 E1]]. rewrite (bind_ok _ _ _ _ _ E1).
    destruct (IH w1) as [ys [w2 E2]]. rewrite (bind_ok _ _ _ _ _ E2).
    now eexists; eexists.
Qed.

Lemma existing_product_unset env l w :
  is_set (iws_woocommerce_id l) = false ->
  existing_product env l w = (Ok None, w).
Proof.
  unfold existing_product, is_set.
  destruct (iws_woocommerce_id l) as [i|]; [|reflexivity].
  now intros ->.
Qed.

Lemma read_only_fresh_product it : read_only (fresh_product it).
Proof. unfold fresh_product, variant_attribute. read_only_tac. Qed.

(** The document of a product that does not exist yet has no name. *)
Lemma fresh_product_new it w :
  exists p0 w1,
    fresh_product it w = (Ok p0, w1) /\
    wc_name p0 = None /\ woocommerce_name p0 = None /\
    db w1 = db w /\ sent w1 = sent w.
Proof.
  pose proof (read_only_fresh_product it w) as [Hd _].
  pose proof (quiet_sent (fresh_product it) w
                (sends_fresh_product _ it)) as Hs.
  unfold fresh_product in *.
  destruct (has_variants (item it) =? 0)%Z.
  - eexists; eexists. repeat split.
  - destruct (map_m_total variant_attribute (attributes (item it))
                ltac:(intros x w0; unfold variant_attribute, bind, get_db;
                      destruct (Json.assoc _ _); now eexists; eexists) w)
      as [rows [w1 E]].
    rewrite (bind_ok _ _ _ _ _ E) in *. simpl in Hd, Hs.
    eexists; eexists. repeat split; assumption.
Qed.

(** The price rows of the item can be read: the price list is not
    synchronised, or the first row of the query has no [valid_upto],
    so that no date is compared with the text of [now()]. *)
Definition prices_readable (d : DB) (it : ERPNextItemToSync)
  (wc_server : WooCommerceServer) : bool :=
  (enable_price_list_sync wc_server =? 0)%Z
  || match item_prices_of d it wc_server with
     | [] => true
     | price :: _ =>
         match valid_upto price with None => true | Some _ => false end
     end.

Lemma get_item_price_rate_total it l wc_server w :
  item_woocommerce_server it = Ok l ->
  find (fun s => String.eqb (server_name s) (iws_woocommerce_server l))
       (servers (db w)) = Some wc_server ->
  prices_readable (db w) it wc_server = true ->
  exists price, get_item_price_rate it w = (Ok price, w).
Proof.
  intros Hl Hs Hp. unfold get_item_price_rate, bind at 1, lift. rewrite Hl.
  unfold bind at 1, get_server, bind at 1, get_db. rewrite Hs.
  unfold ret at 1. unfold prices_readable in Hp.
  destruct (enable_price_list_sync wc_server =? 0)%Z.
  - now eexists.
  - unfold bind, get_db. cbn [orb] in Hp. unfold first_rate.
    destruct (item_prices_of (db w) it wc_server) as [|price rows];
      [now eexists|].
    destruct (valid_upto price); [discriminate|now eexists].
Qed.

(** The mapped fields, inside [try ... except]: nothing is raised,
    written or sent. *)
Lemma guarded_set_product_fields env p it w :
  exists w1,
    try_except (set_product_fields env p it ;; ret tt)%sync
      (fun _ => log_error "Failed to set product fields") w = (Ok tt, w1) /\
    db w1 = db w /\ sent w1 = sent w.
Proof.
  set (m := try_except _ _).
  assert (Hr : read_only m) by (unfold m; read_only_tac).
  assert (Hq : sends (fun _ => false) m) by (unfold m; sends_tac).
  pose proof (Hr w) as [Hd _]. pose proof (quiet_sent m w Hq) as Hs.
  assert (Hok : exists w1, m w = (Ok tt, w1)).
  { unfold m, try_except, bind.
    destruct (set_product_fields env p it w) as [[x|e] w0];
      eexists; reflexivity. }
  destruct Hok as [w1 E]. rewrite E in Hd, Hs. now exists w1.
Qed.

Lemma find_map_keeps {A} (key : A -> string) (f : A -> A) c l :
  (forall x, key (f x) = key x) ->
  find (fun x => String.eqb (key x) c) (map f l)
  = option_map f (find (fun x => String.eqb (key x) c) l).
Proof.
  intros H. induction l as [|x l IH]; simpl; [reflexivity|].
  rewrite H. now destruct (String.eqb (key x) c).
Qed.

(** [item.save()] stores the document under its code, with the time of
    the save as [modified]. *)
Lemma save_item_stored i stored w :
  find_item (db w) (item_code i) = Some stored ->
  find_item (db (snd (save_item i w))) (item_code i)
  = Some (saved_at (now (db w)) i).
Proof.
  intros H. unfold save_item, bind, get_db, put_db, ret, find_item.
  cbn [snd db items saved_at item_code].
  unfold find_item in H.
  induction (items (db w)) as [|j l IH]; simpl in *; [discriminate|].
  destruct (String.eqb (item_code j) (item_code i)) eqn:E.
  - cbn [item_code]. now rewrite String.eqb_refl.
  - rewrite E. now apply IH.
Qed.

Lemma save_item_eq i w :
  save_item i w = (Ok (saved_at (now (db w)) i), snd (save_item i w))
  /\ sent (snd (save_item i w)) = sent w
  /\ now (db (snd (save_item i w))) = now (db w).
Proof. now repeat split. Qed.

(** The links of an item after [set_link_value]. *)
Definition relinked (name : string)
  (upd : ItemWooCommerceServer -> ItemWooCommerceServer) (i : Item) : Item :=
  mkItem (item_code i) (item_name i) (modified i)
    (custom_disable_sync i) (custom_disable_sync_if_not_in_stock i)
    (category i) (sub_category i) (custom_woo_image_url i)
    (custom_shipping_class i) (custom_woo_attribuetes i)
    (custom_compatibility i) (custom_offer_categories i)
    (map (fun l => if String.eqb (iws_name l) name then upd l else l)
         (woocommerce_servers i))
    (has_variants i) (attributes i) (standard_rate i) (created_by_sync i)
    (fields i).

Lemma set_link_value_stored name upd code i w :
  find_item (db w) code = Some i ->
  find_item (db (snd (set_link_value name upd w))) code
  = Some (relinked name upd i).
Proof.
  intros H. unfold set_link_value, bind, get_db, put_db, find_item.
  cbn [snd db items].
  unfold find_item in H.
  induction (items (db w)) as [|j l IH]; simpl in *; [discriminate|].
  destruct (String.eqb (item_code j) code).
  - now inversion H.
  - now apply IH.
Qed.

Definition with_link_id (name : string) (i : option string)
  (x : ItemWooCommerceServer) : ItemWooCommerceServer :=
  if String.eqb (iws_name x) name then with_woocommerce_id i x else x.

Lemma nth_error_link rows (f : ItemWooCommerceServer -> ItemWooCommerceServer)
  n :
  match n with
  | O => nth_error (rev (map f rows)) 0
  | S k => nth_error (map f rows) k
  end
  = option_map f match n with
                 | O => nth_error (rev rows) 0
                 | S k => nth_error rows k
                 end.
Proof.
  destruct n as [|k].
  - rewrite <- map_rev. apply nth_error_map.
  - apply nth_error_map.
Qed.

(** The document of the item with the remote id on its link. *)
Lemma set_item_link_id_ok it l i flag :
  item_woocommerce_server it = Ok l ->
  exists it',
    set_item_link_id it i flag = Ok it' /\
    item_woocommerce_server it' = Ok (with_woocommerce_id i l) /\
    item_code (item it') = item_code (item it) /\
    woocommerce_servers (item it')
    = map (with_link_id (iws_name l) i) (woocommerce_servers (item it)) /\
    item_woocommerce_server_idx it' = item_woocommerce_server_idx it.
Proof.
  intros Hl. unfold set_item_link_id. rewrite Hl.
  eexists. split; [reflexivity|]. split; [|repeat split; reflexivity].
  unfold item_woocommerce_server in *.
  cbn [item item_woocommerce_server_idx woocommerce_servers].
  rewrite (nth_error_link (woocommerce_servers (item it))
             (fun l' => if String.eqb (iws_name l') (iws_name l)
                        then with_woocommerce_id i l' else l')).
  destruct (match item_woocommerce_server_idx it with
            | O => _ | S n => _ end) as [x|]; [|discriminate].
  inversion Hl; subst. cbn [option_map]. now rewrite String.eqb_refl.
Qed.

Lemma try_update_total env self p it w :
  exists p' w',
    try_update env self p it w = (Ok p', w') /\
    db w' = db w /\
    exists calls, sent w' = sent w ++ calls /\
                  forallb update_call calls = true.
Proof.
  assert (Hr : read_only (try_update env self p it)).
  { unfold try_update. apply read_only_try_except.
    - apply read_only_update_woocommerce_product.
    - intros e. read_only_tac. }
  pose proof (Hr w) as [Hd _].
  pose proof (updates_try_update env self p it w) as Hs.
  assert (Hok : exists p' w', try_update env self p it w = (Ok p', w')).
  { unfold try_update, try_except.
    destruct (update_woocommerce_product env self p it w) as [[x|e] w0];
      eexists; eexists; reflexivity. }
  destruct Hok as [p' [w' E]]. rewrite E in Hd, Hs.
  exists p', w'. repeat split; assumption.
Qed.

(** The block that reloads the item, writes the remote id on its link
    and saves it. *)
Lemma reload_and_link it stored l0 i w :
  find_item (db w) (item_code (item it)) = Some stored ->
  item_woocommerce_server (mkToSync stored (item_woocommerce_server_idx it))
  = Ok l0 ->
  exists it',
    set_item_link_id (mkToSync stored (item_woocommerce_server_idx it)) i true
    = Ok it' /\
    try_except
      (reloaded <- get_item (item_code (item it)) ;;
       let it0 := mkToSync reloaded (item_woocommerce_server_idx it) in
       try_except
         (it' <- lift (set_item_link_id it0 i true) ;;
          saved <- save_item (item it') ;;
          ret (mkToSync saved (item_woocommerce_server_idx it0)))
         (fun _ =>
            log_error "Failed to update ERPNext item with WC ID" ;;
            ret it0))%sync
      (fun _ =>
         log_error "Failed to update ERPNext item with WC ID" ;;
         ret it)%sync w
    = (Ok (mkToSync (saved_at (now (db w)) (item it'))
             (item_woocommerce_server_idx it)),
       snd (save_item (item it') w)).
Proof.
  intros Hf Hl0.
  destruct (set_item_link_id_ok _ l0 i true Hl0) as [it' [E _]].
  exists it'. split; [exact E|].
  unfold try_except at 1, bind at 1, get_item, bind at 1, get_db.
  rewrite Hf. unfold ret at 1. cbv zeta.
  unfold try_except, bind at 1, lift. rewrite E.
  unfold bind, save_item, bind, get_db, put_db, ret. reflexivity.
Qed.

(** The link of a document that was saved at [t]. *)
Lemma item_woocommerce_server_saved t it l :
  item_woocommerce_server it = Ok l ->
  item_woocommerce_server
    (mkToSync (saved_at t (item it)) (item_woocommerce_server_idx it))
  = Ok (with_modified t l).
Proof.
  unfold item_woocommerce_server.
  cbn [item item_woocommerce_server_idx woocommerce_servers saved_at].
  rewrite (nth_error_link (woocommerce_servers (item it)) (with_modified t)).
  destruct (match item_woocommerce_server_idx it with
            | O => _ | S n => _ end) as [x|]; [|discriminate].
  intros H. now inversion H.
Qed.

Lemma set_sync_hash_eq api it p l w :
  item_woocommerce_server it = Ok l ->
  set_sync_hash (mkSync (Some it) (Some p) api) w
  = (Ok tt,
     snd (set_link_value (iws_name l) (with_enabled 1)
            (snd (set_link_value (iws_name l)
                    (with_last_sync_hash (woocommerce_date_modified p)) w)))).
Proof.
  intros Hl. unfold set_sync_hash. cbn [self_item self_woocommerce_product].
  unfold bind at 1, lift. rewrite Hl. reflexivity.
Qed.

Lemma item_code_found d code i : find_item d code = Some i -> item_code i = code.
Proof.
  unfold find_item. intros H. apply find_some in H.
  now apply String.eqb_eq.
Qed.

(** The link of the created product as the create path leaves it: the
    remote id, the date of the product as last sync hash, [enabled] at
    1, and the time of the save as [modified]. *)
Definition linked_at (t : datetime) (i : option string)
  (h : option datetime) (x : ItemWooCommerceServer) : ItemWooCommerceServer :=
  mkIWS (iws_name x) (idx x) (iws_woocommerce_server x) i 1 h t.

(** X18.  The create path, for an item that is no bundle, whose link
    names no remote product yet and whose price rows can be read: one
    product is inserted on the server of the link, under the cleaned
    name of the item; every other call is a call of the update; and
    afterwards the stored item has, on the link, the id of the created
    product, [enabled] at 1 and the date of the product as last sync
    hash.  The save of the item sets [modified] of the item and of all
    its links to the current time; the other columns of the other
    links are as they were. *)
Theorem created_product_is_linked env api it l wc_server stored l0 answer w :
  find_bundle (db w) (item_code (item it)) = None ->
  item_woocommerce_server it = Ok l ->
  is_set (iws_woocommerce_id l) = false ->
  find (fun s => String.eqb (server_name s) (iws_woocommerce_server l))
       (servers (db w)) = Some wc_server ->
  prices_readable (db w) it wc_server = true ->
  find_item (db w) (item_code (item it)) = Some stored ->
  item_woocommerce_server (mkToSync stored (item_woocommerce_server_idx it))
  = Ok l0 ->
  (forall h doc, remote env h (InsertProduct doc) = Products [answer doc]) ->
  let r := create_woocommerce_product env (mkSync (Some it) None api) it w in
  exists doc p' s final calls,
    fst r = Ok s /\ self_woocommerce_product s = Some p' /\
    wc_name doc = None /\
    woocommerce_server doc = iws_woocommerce_server l /\
    woocommerce_name doc = Some (clean_product_name (item_name (item it))) /\
    sent (snd r) = sent w ++ InsertProduct doc :: calls /\
    forallb update_call calls = true /\
    find_item (db (snd r)) (item_code (item it)) = Some final /\
    modified final = now (db w) /\
    woocommerce_servers final
    = map (fun x => if String.eqb (iws_name x) (iws_name l0)
                    then linked_at (now (db w)) (woocommerce_id (answer doc))
                           (woocommerce_date_modified p') x
                    else with_modified (now (db w)) x)
          (woocommerce_servers stored).
Proof.
  intros Hb Hl Hunset Hserver Hprices Hstored Hl0 Hremote. cbv zeta.
  remember (create_woocommerce_product env (mkSync (Some it) None api) it w)
    as r eqn:R.
  unfold create_woocommerce_product in R.
  rewrite (bind_ok _ _ _ _ _ (log_error_eq _ _)) in R.
  rewrite (bind_ok _ _ _ _ _ (get_db_eq _)) in R. cbn [db logged] in R.
  rewrite Hb, Hl in R.
  rewrite (bind_ok _ _ _ _ _ (existing_product_unset env l _ Hunset)) in R.
  destruct (fresh_product_new it (logged "creating " w))
    as [p0 [w1 [E1 [Hn0 [Hwn0 [Hd1 Hs1]]]]]].
  rewrite (bind_ok _ _ _ _ _ E1) in R.
  rewrite (bind_ok _ _ _ _ _ (log_error_eq _ _)) in R.
  unfold bind at 1, lift at 1 in R.
  destruct (get_item_price_rate_total it l wc_server (logged "clean_name" w1)
              Hl ltac:(cbn [db logged]; rewrite Hd1; exact Hserver)
              ltac:(cbn [db logged]; rewrite Hd1; exact Hprices))
    as [price E2].
  rewrite (bind_ok _ _ _ _ _ E2) in R.
  set (doc := with_core_fields _ _ price p0) in R.
  destruct (guarded_set_product_fields env doc it (logged "clean_name" w1))
    as [w2 [E3 [Hd2 Hs2]]].
  rewrite (bind_ok _ _ _ _ _ E3) in R.
  assert (Hdoc : wc_name doc = None) by exact Hn0.
  rewrite Hdoc in R.
  unfold bind at 1, insert_product, bind at 1, request in R.
  rewrite Hremote in R. unfold ret at 1 in R.
  set (w3 := mkWorld (db w2) (log w2) (sent w2 ++ [InsertProduct doc])
               (queue w2)) in R.
  assert (Hd3 : db w3 = db w).
  { unfold w3. cbn [db]. rewrite Hd2. cbn [db logged]. exact Hd1. }
  assert (Hs3 : sent w3 = sent w ++ [InsertProduct doc]).
  { unfold w3. cbn [sent]. rewrite Hs2. cbn [sent logged]. now rewrite Hs1. }
  clearbody w3.
  destruct (reload_and_link it stored l0
              (woocommerce_id (with_id (answer doc))) w3
              ltac:(rewrite Hd3; exact Hstored) Hl0) as [it' [Eset E4]].
  cbn [item_woocommerce_server_idx] in E4, R.
  rewrite (bind_ok _ _ _ _ _ E4) in R.
  destruct (set_item_link_id_ok _ l0 (woocommerce_id (with_id (answer doc)))
              true Hl0) as [it'' [Eset' [Hl' [Hc' [Hlinks' Hidx']]]]].
  rewrite Eset in Eset'. inversion Eset'; subst it''. clear Eset'.
  cbn [item item_woocommerce_server_idx] in Hc', Hlinks', Hidx'.
  rewrite Hd3 in R.
  pose proof (item_woocommerce_server_saved (now (db w)) it' _ Hl') as Hsaved.
  rewrite Hidx' in Hsaved.
  set (w4 := snd (save_item (item it') w3)) in R.
  assert (Hf4 : find_item (db w4) (item_code (item it))
                = Some (saved_at (now (db w)) (item it'))).
  { pose proof (item_code_found _ _ _ Hstored) as Hcs.
    rewrite <- Hd3. rewrite <- Hcs, <- Hc'. apply (save_item_stored _ stored).
    rewrite Hc', Hcs, Hd3. exact Hstored. }
  assert (Hs4 : sent w4 = sent w3) by reflexivity.
  clearbody w4.
  match type of R with
  | context [try_update env ?self ?p ?i] =>
      destruct (try_update_total env self p i w4)
        as [p' [w5 [E5 [Hd5 [calls [Hs5 Hcalls]]]]]]
  end.
  rewrite (bind_ok _ _ _ _ _ E5) in R.
  cbn [wcapi] in R.
  rewrite (bind_ok _ _ _ _ _ (set_sync_hash_eq _ _ _ _ _ Hsaved)) in R.
  unfold ret in R. subst r. cbn [fst snd].
  exists doc, p'. eexists. eexists. exists calls.
  split; [reflexivity|]. split; [reflexivity|].
  split; [exact Hdoc|]. split; [reflexivity|].
  split.
  { unfold doc, with_core_fields. cbn [woocommerce_name]. rewrite Hwn0.
    reflexivity. }
  split.
  { change (sent w5 = sent w ++ InsertProduct doc :: calls).
    rewrite Hs5, Hs4, Hs3, <- app_assoc. reflexivity. }
  split; [exact Hcalls|].
  split.
  { apply set_link_value_stored, set_link_value_stored.
    rewrite Hd5. exact Hf4. }
  split; [reflexivity|].
  cbn [relinked woocommerce_servers iws_name with_woocommerce_id
       with_last_sync_hash saved_at with_modified].
  rewrite Hlinks', !map_map. apply map_ext. intros x.
  unfold with_link_id, linked_at. cbn [woocommerce_id with_id].
  destruct (String.eqb (iws_name x) (iws_name l0)) eqn:Ex.
  - repeat (cbn [iws_name with_woocommerce_id with_last_sync_hash
                 with_modified with_enabled];
            try rewrite Ex).
    reflexivity.
  - repeat (cbn [iws_name with_woocommerce_id with_last_sync_hash
                 with_modified with_enabled];
            try rewrite Ex).
    reflexivity.
Qed.

Lemma created_product_is_linked_witness :
  exists doc p' s final calls,
    fst (create_woocommerce_product (Fixture.env_of shop)
           (mkSync (Some (mkToSync (linked_item None) 1)) None None)
           (mkToSync (linked_item None) 1) (linked_world None)) = Ok s /\
    self_woocommerce_product s = Some p' /\
    wc_name doc = None /\
    woocommerce_server doc = "shop" /\
    woocommerce_name doc = Some (clean_product_name "Brake Pad") /\
    sent (snd (create_woocommerce_product (Fixture.env_of shop)
                 (mkSync (Some (mkToSync (linked_item None) 1)) None None)
                 (mkToSync (linked_item None) 1) (linked_world None)))
    = [] ++ InsertProduct doc :: calls /\
    forallb update_call calls = true /\
    find_item
      (db (snd (create_woocommerce_product (Fixture.env_of shop)
                  (mkSync (Some (mkToSync (linked_item None) 1)) None None)
                  (mkToSync (linked_item None) 1) (linked_world None))))
      "BRK-1" = Some final /\
    modified final = 1000%Z /\
    woocommerce_servers final
    = map (fun x => if String.eqb (iws_name x) "L1"
                    then linked_at 1000 (woocommerce_id (created doc))
                           (woocommerce_date_modified p') x
                    else with_modified 1000 x)
          [mkIWS "L1" 1 "shop" None 0 None 5].
Proof.
  apply (created_product_is_linked (Fixture.env_of shop) None
           (mkToSync (linked_item None) 1)
           (mkIWS "L1" 1 "shop" None 0 None 5) Fixture.server
           (linked_item None) (mkIWS "L1" 1 "shop" None 0 None 5)
           created (linked_world None));
    try reflexivity.
Defined.

(** ** Bundles *)

Lemma woosb_ids_none d rows : forall index,
  (forall bi, In bi rows ->
     is_set (first_link_id d (pbi_item_code bi)) = false) ->
  woosb_ids d index rows = [].
Proof.
  induction rows as [|bi rows IH]; intros index H; simpl; [reflexivity|].
  pose proof (H bi (or_introl eq_refl)) as Hb. unfold is_set in Hb.
  destruct (first_link_id d (pbi_item_code bi)) as [i|].
  - rewrite Hb. apply IH. intros x Hx. apply H. now right.
  - apply IH. intros x Hx. apply H. now right.
Qed.

(** X19.  [create_bundle_product] raises nothing.  For a bundle none of
    whose items is linked to a remote product it creates nothing: no
    call is made, the database stays as it is, and [self] comes back
    without a product. *)
Theorem bundle_without_linked_items_is_not_created env self it w :
  is_ok (fst (create_bundle_product env self it w)) = true
  /\ (forall bundle,
        find_bundle (db w) (item_code (item it)) = Some bundle ->
        (forall bi, In bi (pb_items bundle) ->
           is_set (first_link_id (db w) (pbi_item_code bi)) = false) ->
        exists w',
          create_bundle_product env self it w = (Ok self, w') /\
          sent w' = sent w /\ db w' = db w).
Proof.
  split.
  - unfold create_bundle_product, bind at 1, get_db.
    destruct (find_bundle _ _) as [bundle|]; [|reflexivity].
    destruct (negb (PyStr.truthy (pb_name bundle))); [reflexivity|].
    destruct (pb_items bundle) as [|bi rows]; [reflexivity|].
    destruct (woosb_ids _ _ _); [reflexivity|].
    unfold bind at 1, log_error at 1.
    destruct (item_woocommerce_server it); [|reflexivity].
    apply try_except_logs.
  - intros bundle Hb Hnone.
    unfold create_bundle_product, bind at 1, get_db. rewrite Hb.
    destruct (negb (PyStr.truthy (pb_name bundle)));
      [eexists; repeat split|].
    destruct (pb_items bundle) as [|bi rows] eqn:Ei;
      [eexists; repeat split|].
    rewrite (woosb_ids_none (db w) (bi :: rows) 0 Hnone).
    eexists; repeat split.
Qed.

(** ** A link that names a stored product *)

Lemma existing_product_found env l i p rest w :
  iws_woocommerce_id l = Some i -> PyStr.truthy i = true ->
  remote env (sent w) (GetProductById i) = Products (p :: rest) ->
  existing_product env l w
  = (Ok (Some p),
     mkWorld (db w) (log w) (sent w ++ [GetProductById i]) (queue w)).
Proof.
  intros Hi Ht Hr. unfold existing_product. rewrite Hi, Ht.
  unfold bind, request. now rewrite Hr.
Qed.

#[local] Hint Resolve sends_get_item sends_save_item sends_set_link_value
  sends_get_item_price_rate updates_try_update : sends.

Lemma updates_set_sync_hash self : sends update_call (set_sync_hash self).
Proof. unfold set_sync_hash. sends_tac. Qed.

#[local] Hint Resolve updates_set_sync_hash : sends.

(** X28.  The create path inserts nothing when the id on the link
    leads to a product that is stored on the remote server: after the
    lookup by id, every call is a call of the update of that product.
    No second product is created for the item. *)
Theorem stored_product_is_not_inserted_again env api it l i p rest w :
  find_bundle (db w) (item_code (item it)) = None ->
  item_woocommerce_server it = Ok l ->
  iws_woocommerce_id l = Some i -> PyStr.truthy i = true ->
  remote env (sent w) (GetProductById i) = Products (p :: rest) ->
  is_set (wc_name p) = true ->
  exists calls,
    sent (snd (create_woocommerce_product env (mkSync (Some it) None api)
                 it w))
    = sent w ++ GetProductById i :: calls /\
    forallb update_call calls = true.
Proof.
  intros Hb Hl Hi Ht Hr Hn.
  remember (create_woocommerce_product env (mkSync (Some it) None api) it w)
    as r eqn:R.
  unfold create_woocommerce_product in R.
  rewrite (bind_ok _ _ _ _ _ (log_error_eq _ _)) in R.
  rewrite (bind_ok _ _ _ _ _ (get_db_eq _)) in R. cbn [db logged] in R.
  rewrite Hb, Hl in R.
  rewrite (bind_ok _ _ _ _ _
             (existing_product_found env l i p rest (logged "creating " w)
                Hi Ht Hr)) in R.
  unfold bind at 1, ret at 1 in R.
  match type of R with
  | r = ?m ?w1 =>
      assert (Hs : sends update_call m);
      [|destruct (Hs w1) as [calls [Hsent Hcalls]]]
  end.
  { apply sends_bind; [sends_tac|]. intros _.
    apply sends_bind; [sends_tac|]. intros l1.
    apply sends_bind; [sends_tac|]. intros price.
    apply sends_bind; [sends_tac|]. intros _.
    cbn [wc_name with_core_fields].
    unfold is_set in Hn. destruct (wc_name p) as [n|]; [|discriminate].
    rewrite Hn. sends_tac. }
  exists calls. rewrite R, Hsent. cbn [sent logged].
  now rewrite <- app_assoc.
Qed.

Definition holds_77 : Remote :=
  fun h q =>
    match q with
    | GetProductById "77" => Products [remote_product]
    | other => Fixture.accepting h other
    end.

Lemma stored_product_is_not_inserted_again_witness :
  exists calls,
    sent (snd (create_woocommerce_product (Fixture.env_of holds_77)
                 (mkSync (Some (mkToSync (linked_item (Some "77")) 1)) None
                         None)
                 (mkToSync (linked_item (Some "77")) 1)
                 (linked_world (Some "77"))))
    = [] ++ GetProductById "77" :: calls /\
    forallb update_call calls = true.
Proof.
  apply (stored_product_is_not_inserted_again (Fixture.env_of holds_77) None
           (mkToSync (linked_item (Some "77")) 1)
           (mkIWS "L1" 1 "shop" (Some "77") 0 None 5) "77" remote_product []
           (linked_world (Some "77")));
    reflexivity.
Defined.

(** ** A price with an end of validity *)

Lemma get_item_price_rate_dated it l wc_server price rows t w :
  item_woocommerce_server it = Ok l ->
  find (fun s => String.eqb (server_name s) (iws_woocommerce_server l))
       (servers (db w)) = Some wc_server ->
  enable_price_list_sync wc_server <> 0%Z ->
  item_prices_of (db w) it wc_server = price :: rows ->
  valid_upto price = Some t ->
  get_item_price_rate it w = (Raise TypeError, w).
Proof.
  intros Hl Hs He Hrows Hv. unfold get_item_price_rate, bind at 1, lift.
  rewrite Hl. unfold bind at 1, get_server, bind at 1, get_db. rewrite Hs.
  unfold ret at 1. apply Z.eqb_neq in He. rewrite He.
  unfold bind, get_db, first_rate. now rewrite Hrows, Hv.
Qed.

(** The lookup of the product the link names: one call for a link with
    a remote id, none for a link without; nothing is raised. *)
Definition lookup_calls (l : ItemWooCommerceServer) : list Request :=
  match iws_woocommerce_id l with
  | Some i => if PyStr.truthy i then [GetProductById i] else []
  | None => []
  end.

Lemma existing_product_total env l w :
  exists found w1,
    existing_product env l w = (Ok found, w1) /\
    db w1 = db w /\ sent w1 = sent w ++ lookup_calls l.
Proof.
  unfold existing_product, lookup_calls.
  destruct (iws_woocommerce_id l) as [i|];
    [|eexists; eexists; repeat split; now rewrite app_nil_r].
  destruct (PyStr.truthy i);
    [|eexists; eexists; repeat split; now rewrite app_nil_r].
  unfold bind, request.
  destruct (remote env (sent w) (GetProductById i)) as [c b|c t|[|p ps]|e];
    eexists; eexists; repeat split.
Qed.

(** X31.  A price with an end of validity stops the creation.  For an
    item that is no bundle, on a server with price list sync enabled,
    whose first Item Price row on the price list of the server has a
    [valid_upto]: [create_woocommerce_product] raises [TypeError] when
    it reads the price, outside every [try].  No product is inserted -
    the only call made is the lookup of the product the link names, for
    a link with a remote id - and the database stays as it is: the item
    gets no remote id and no sync hash. *)
Theorem dated_price_row_stops_the_creation env api it l wc_server price rows
  t w :
  find_bundle (db w) (item_code (item it)) = None ->
  item_woocommerce_server it = Ok l ->
  find (fun s => String.eqb (server_name s) (iws_woocommerce_server l))
       (servers (db w)) = Some wc_server ->
  enable_price_list_sync wc_server <> 0%Z ->
  item_prices_of (db w) it wc_server = price :: rows ->
  valid_upto price = Some t ->
  let r := create_woocommerce_product env (mkSync (Some it) None api) it w in
  fst r = Raise TypeError
  /\ sent (snd r) = sent w ++ lookup_calls l
  /\ db (snd r) = db w.
Proof.
  intros Hb Hl Hs He Hrows Hv. cbv zeta.
  remember (create_woocommerce_product env (mkSync (Some it) None api) it w)
    as r eqn:R.
  unfold create_woocommerce_product in R.
  rewrite (bind_ok _ _ _ _ _ (log_error_eq _ _)) in R.
  rewrite (bind_ok _ _ _ _ _ (get_db_eq _)) in R. cbn [db logged] in R.
  rewrite Hb, Hl in R.
  destruct (existing_product_total env l (logged "creating " w))
    as [found [w1 [E1 [Hd1 Hs1]]]].
  cbn [db sent logged] in Hd1, Hs1.
  rewrite (bind_ok _ _ _ _ _ E1) in R.
  assert (Hdoc : exists p0 w2,
            match found with
            | Some p => ret p
            | None => fresh_product it
            end w1 = (Ok p0, w2) /\ db w2 = db w /\
            sent w2 = sent w ++ lookup_calls l).
  { destruct found as [p|].
    - exists p, w1. repeat split; assumption.
    - destruct (fresh_product_new it w1) as [p0 [w2 [E [_ [_ [Hd Hs2]]]]]].
      exists p0, w2. split; [exact E|]. split; congruence. }
  destruct Hdoc as [p0 [w2 [E2 [Hd2 Hs2]]]].
  rewrite (bind_ok _ _ _ _ _ E2) in R.
  rewrite (bind_ok _ _ _ _ _ (log_error_eq _ _)) in R.
  unfold bind at 1, lift at 1 in R.
  rewrite (bind_raise _ _ _ _ _
             (get_item_price_rate_dated it l wc_server price rows t
                (logged "clean_name" w2) Hl
                ltac:(cbn [db logged]; rewrite Hd2; exact Hs) He
                ltac:(cbn [db logged]; rewrite Hd2; exact Hrows) Hv)) in R.
  subst r. cbn [fst snd db sent logged]. repeat split; assumption.
Qed.

Definition dated_server : WooCommerceServer :=
  mkServer "shop" "https://shop.example/" "ck" "cs" 1 0 1 "Retail" [].

Definition dated_item : ERPNextItemToSync :=
  mkToSync (Fixture.plain_item "Brake Pad"
              [mkIWS "L1" 1 "shop" None 1 None 5]) 1.

(** The only price of the item on the price list "Retail" ends at
    2000, after the current time. *)
Definition dated_world : World :=
  Fixture.world_of
    (mkDB [item dated_item] [] []
          [mkItemPrice "Brake Pad" "Retail" (Some 900%Z) (Some 2000%Z)]
          [] [] [dated_server] [] 1000).

Lemma dated_price_row_stops_the_creation_witness :
  fst (create_woocommerce_product (Fixture.env_of Fixture.accepting)
         (mkSync (Some dated_item) None None) dated_item dated_world)
  = Raise TypeError
  /\ sent (snd (create_woocommerce_product (Fixture.env_of Fixture.accepting)
                  (mkSync (Some dated_item) None None) dated_item
                  dated_world))
     = [] ++ []
  /\ db (snd (create_woocommerce_product (Fixture.env_of Fixture.accepting)
                (mkSync (Some dated_item) None None) dated_item dated_world))
     = db dated_world.
Proof.
  apply (dated_price_row_stops_the_creation
           (Fixture.env_of Fixture.accepting) None dated_item
           (mkIWS "L1" 1 "shop" None 1 None 5) dated_server
           (mkItemPrice "Brake Pad" "Retail" (Some 900%Z) (Some 2000%Z)) []
           2000%Z dated_world);
    try reflexivity.
  discriminate.
Defined.

End CreateFacts.

(* ===================================================================== *)
(** * Translations, prices and stock *)
(* ===================================================================== *)

Module ValueFacts.

Import Frappe Sync Text Monad Effects.

(** ** [translate_text] *)

(** X20.  [translate_text] never raises and changes nothing.  A text
    that is not empty is never translated to the empty text: without a
    Translation row for it, or with a row whose translation is empty,
    the text itself comes back; with a row that has a translation, the
    translation of the first such row does. *)
Theorem translation_falls_back_to_the_source s w :
  exists t,
    translate_text s w = (Ok t, w)
    /\ (PyStr.truthy s = true -> PyStr.truthy t = true)
    /\ (find (fun r => String.eqb (source_text r) s) (translations (db w))
        = None -> t = s)
    /\ (forall row,
          PyStr.truthy s = true ->
          find (fun r => String.eqb (source_text r) s) (translations (db w))
          = Some row ->
          t = if PyStr.truthy (translated_text row) then translated_text row
              else s).
Proof.
  unfold translate_text. destruct (PyStr.truthy s) eqn:Es; cbn [negb].
  - unfold bind, get_db.
    destruct (find _ (translations (db w))) as [row|] eqn:Ef.
    + eexists. split; [reflexivity|]. split; [|split].
      * intros _. destruct (PyStr.truthy (translated_text row)) eqn:Et;
          assumption.
      * discriminate.
      * intros row' _ H. now inversion H.
    + eexists. split; [reflexivity|]. split; [|split]; try tauto.
      discriminate.
  - exists EmptyString. split; [reflexivity|]. split; [discriminate|].
    split; [|discriminate].
    intros _. destruct s; [reflexivity|discriminate].
Qed.

(** ** [get_item_price_rate] *)

(** The price rows [get_item_price_rate] asks for: the rows of the
    price list of the server whose [item_code] is the name of the
    item. *)
Definition offered (it : ERPNextItemToSync) (wc_server : WooCommerceServer)
  (p : ItemPrice) : Prop :=
  ip_item_code p = item_name (item it) /\
  price_list p = server_price_list wc_server.

Lemma item_prices_of_offered d it wc_server p :
  In p (item_prices_of d it wc_server)
  <-> In p (item_prices d) /\ offered it wc_server p.
Proof.
  unfold item_prices_of, offered. rewrite filter_In, andb_true_iff.
  now rewrite !String.eqb_eq.
Qed.

(** X21.  [get_item_price_rate] reads the first of the price rows it
    asks for - the rows of the price list of the server of the link,
    looked up under the name of the item - and no other row.  It
    returns a rate exactly when price list sync is enabled on the
    server and that first row has no end of validity: the rate of that
    row.  When the first row has an end of validity - in the past or in
    the future - the call raises [TypeError], as the date is compared
    with the text of [now()]; it raises nothing else.  Nothing is
    written. *)
Theorem price_rate_is_the_rate_of_an_open_first_row it l wc_server w :
  item_woocommerce_server it = Ok l ->
  find (fun s => String.eqb (server_name s) (iws_woocommerce_server l))
       (servers (db w)) = Some wc_server ->
  let rows := item_prices_of (db w) it wc_server in
  let enabled := enable_price_list_sync wc_server <> 0%Z in
  (forall p, In p rows <-> In p (item_prices (db w)) /\ offered it wc_server p)
  /\ exists res,
       get_item_price_rate it w = (res, w)
       /\ (forall r, res = Ok (Some r) <->
             enabled /\ exists p rest,
               rows = p :: rest /\ valid_upto p = None /\
               price_list_rate p = Some r)
       /\ (forall e, res = Raise e <->
             e = TypeError /\ enabled /\ exists p rest t,
               rows = p :: rest /\ valid_upto p = Some t).
Proof.
  intros Hl Hs. cbv zeta. split; [apply item_prices_of_offered|].
  unfold get_item_price_rate, bind at 1, lift. rewrite Hl.
  unfold bind at 1, get_server, bind at 1, get_db. rewrite Hs.
  unfold ret at 1.
  destruct (enable_price_list_sync wc_server =? 0)%Z eqn:Ee.
  - apply Z.eqb_eq in Ee. exists (Ok None). split; [reflexivity|].
    split; intros x; split; try discriminate; intros [H1 H2]; tauto.
  - apply Z.eqb_neq in Ee. unfold bind, get_db, lift, first_rate.
    destruct (item_prices_of (db w) it wc_server) as [|p rest] eqn:Er.
    + exists (Ok None). split; [reflexivity|].
      split; intros x; split; try discriminate.
      * intros [_ [p [rest [H _]]]]. discriminate.
      * intros [_ [_ [p [rest [t [H _]]]]]]. discriminate.
    + destruct (valid_upto p) as [t|] eqn:Ev.
      * exists (Raise TypeError). split; [reflexivity|].
        split; intros x; split.
        -- discriminate.
        -- intros [_ [p' [rest' [H [Hv _]]]]]. inversion H; subst.
           congruence.
        -- intros H. inversion H; subst. split; [reflexivity|].
           split; [exact Ee|]. now exists p, rest, t.
        -- intros [-> _]. reflexivity.
      * exists (Ok (price_list_rate p)). split; [reflexivity|].
        split; intros x; split.
        -- intros H. inversion H as [Hr]. split; [exact Ee|].
           now exists p, rest.
        -- intros [_ [p' [rest' [H [_ Hr]]]]]. inversion H; subst.
           now rewrite Hr.
        -- discriminate.
        -- intros [_ [_ [p' [rest' [t [H Hv]]]]]]. inversion H; subst.
           congruence.
Qed.

Definition priced_item : ERPNextItemToSync :=
  mkToSync (Fixture.plain_item "Brake Pad"
              [mkIWS "L1" 1 "shop" None 1 None 5]) 1.

Definition price_server : WooCommerceServer :=
  mkServer "shop" "https://shop.example/" "ck" "cs" 1 0 1 "Retail" [].

(** Two prices of the item on the price list of the server: an open
    one, and one that ends at 2000. *)
Definition price_world : World :=
  Fixture.world_of
    (mkDB [item priced_item] [] []
          [mkItemPrice "Brake Pad" "Wholesale" (Some 700%Z) (Some 500%Z);
           mkItemPrice "Brake Pad" "Retail" (Some 1250%Z) None;
           mkItemPrice "Brake Pad" "Retail" (Some 900%Z) (Some 2000%Z)]
          [] [] [price_server] [] 1000).

Lemma price_rate_is_the_rate_of_an_open_first_row_witness :
  get_item_price_rate priced_item price_world
  = (Ok (Some 1250%Z), price_world).
Proof.
  destruct (price_rate_is_the_rate_of_an_open_first_row priced_item
              (mkIWS "L1" 1 "shop" None 1 None 5) price_server price_world
              eq_refl eq_refl) as [_ [res [E [Hok _]]]].
  rewrite E. f_equal. apply Hok. split; [discriminate|].
  eexists; eexists. repeat split.
Defined.

(** ** The stock of an item *)

(** The sum of the quantities of the bins of an item, as the
    interpreter adds them: from 0, bin after bin. *)
Definition total_stock (env : Env) (d : DB) (code : string) : PyFloat.float :=
  fold_left (float_add env) (map actual_qty (bins_of d code))
            (PyFloat.of_int 0).

(** [int(x)] drops the digits after the point: it is the integer next
    to [x] on the side of zero. *)
Lemma to_int_truncates n d :
  let k := PyFloat.to_int (PyFloat.ratio n d) in
  ((0 <= n -> k * Zpos d <= n < (k + 1) * Zpos d) /\
   (n <= 0 -> (k - 1) * Zpos d < n <= k * Zpos d))%Z.
Proof.
  cbv zeta. unfold PyFloat.to_int, PyFloat.ratio. cbn [QArith_base.Qnum
    QArith_base.Qden].
  pose proof (Z.quot_rem' n (Zpos d)) as E.
  split; intros H.
  - pose proof (Z.rem_bound_pos n (Zpos d) H ltac:(lia)). nia.
  - destruct (Z.eq_dec n 0) as [->|Hn].
    + rewrite Z.quot_0_l by lia. lia.
    + assert (B : (- Zpos d < Z.rem n (Zpos d) <= 0)%Z).
      { rewrite <- (Z.opp_involutive n), Z.rem_opp_l by lia.
        pose proof (Z.rem_bound_pos (- n) (Zpos d) ltac:(lia) ltac:(lia)).
        lia. }
      nia.
Qed.

(** X22.  The stock block adds the quantities of all the bins of the
    item - a negative bin lowers the sum - and sends the sum cut to an
    integer, towards zero, as [stock_quantity].  The status comes from
    the sum before the cut: "instock" when the sum is above zero, also
    when the quantity sent is 0, and "onbackorder" with notified back
    orders otherwise.  The block raises nothing and writes nothing,
    whatever the remote server answers. *)
Theorem stock_push_reports_the_total env product_id it w server rest :
  servers (db w) = server :: rest -> enable_sync server = 1%Z ->
  let total := total_stock env (db w) (item_code (item it)) in
  let in_stock := PyFloat.is_positive total in
  exists w',
    push_stock env product_id it w = (Ok tt, w') /\
    sent w'
    = sent w
      ++ [PushProduct (products_url server) product_id
            [("manage_stock", JBool true);
             ("stock_quantity", JNum (PyFloat.to_int total));
             ("stock_status",
              JStr (if in_stock then "instock" else "onbackorder"));
             ("backorders", JStr (if in_stock then "no" else "notify"))]] /\
    db w' = db w.
Proof.
  intros Hs He. cbv zeta.
  unfold push_stock, py_sum, try_except, bind at 1, get_db.
  fold (total_stock env (db w) (item_code (item it))).
  pose proof (enabled_servers_first _ _ _ Hs He) as Hen.
  destruct (PyFloat.is_positive (total_stock env (db w) (item_code (item it)))).
  - destruct (push_wc_product_sent env product_id None
                [("manage_stock", JBool true);
                 ("stock_quantity",
                  JNum (PyFloat.to_int
                          (total_stock env (db w) (item_code (item it)))));
                 ("stock_status", JStr "instock");
                 ("backorders", JStr "no")] w server [] _ _ Hen eq_refl)
      as [v [w1 [E [Hsent Hdb]]]].
    rewrite (bind_ok _ _ _ _ _ E). eexists. repeat split; assumption.
  - destruct (push_wc_product_sent env product_id None
                [("manage_stock", JBool true);
                 ("stock_quantity",
                  JNum (PyFloat.to_int
                          (total_stock env (db w) (item_code (item it)))));
                 ("stock_status", JStr "onbackorder");
                 ("backorders", JStr "notify")] w server [] _ _ Hen eq_refl)
      as [v [w1 [E [Hsent Hdb]]]].
    rewrite (bind_ok _ _ _ _ _ E). eexists. repeat split; assumption.
Qed.

(** Three bins of the item "BRK-1": 2.5, -2 and 0.25. *)
Definition stock_world : World :=
  Fixture.world_of
    (mkDB [Fixture.plain_item "BRK-1" []] []
          [mkBin "BRK-1" "Main Warehouse - ame" (PyFloat.ratio 5 2);
           mkBin "BRK-1" "Branch B - ame" (PyFloat.of_int (-2));
           mkBin "BRK-2" "Main Warehouse - ame" (PyFloat.of_int 9);
           mkBin "BRK-1" "Depot - ame" (PyFloat.ratio 1 4)]
          [] [] [] [Fixture.server] [] 1000).

(** The sum is 0.75: the quantity sent is 0 and the status "instock". *)
Lemma stock_push_reports_the_total_witness :
  exists w',
    push_stock (Fixture.env_of Fixture.accepting) (JStr "77")
      (mkToSync (Fixture.plain_item "BRK-1" []) 1) stock_world = (Ok tt, w') /\
    sent w'
    = [] ++ [PushProduct (products_url Fixture.server) (JStr "77")
               [("manage_stock", JBool true);
                ("stock_quantity", JNum 0);
                ("stock_status", JStr "instock");
                ("backorders", JStr "no")]] /\
    db w' = db stock_world.
Proof.
  apply (stock_push_reports_the_total (Fixture.env_of Fixture.accepting)
           (JStr "77") (mkToSync (Fixture.plain_item "BRK-1" []) 1)
           stock_world Fixture.server [] eq_refl eq_refl).
Defined.

End ValueFacts.

(* ===================================================================== *)
(** * Meta keys that carry an index *)
(* ===================================================================== *)

(** The builders write one group of meta keys per row, the index of the
    row in the key.  The keys of different rows differ, so what is
    written for a row is what is read back for it. *)
Module IndexedKeyFacts.

Import PyStr NumeralFacts Frappe Sync Text Monad Effects.

Lemma append_assoc (a b c : string) :
  ((a ++ b) ++ c = a ++ (b ++ c))%string.
Proof. induction a as [|x a IH]; simpl; [reflexivity|]. now rewrite IH. Qed.

Lemma append_inv_head (p a b : string) :
  (p ++ a = p ++ b)%string -> a = b.
Proof.
  induction p as [|x p IH]; simpl; intros H; [exact H|].
  inversion H. now apply IH.
Qed.

Lemma digits_then_mark d1 : forall d2 r1 r2,
  every is_digit d1 = true -> every is_digit d2 = true ->
  (d1 ++ String "_" r1 = d2 ++ String "_" r2)%string ->
  d1 = d2 /\ r1 = r2.
Proof.
  induction d1 as [|c d1 IH]; intros [|c' d2] r1 r2 H1 H2 E; simpl in *.
  - inversion E. now split.
  - inversion E; subst. discriminate.
  - inversion E; subst. discriminate.
  - inversion E; subst.
    apply andb_true_iff in H1. apply andb_true_iff in H2.
    destruct (IH d2 r1 r2 (proj2 H1) (proj2 H2) H3) as [-> ->].
    now split.
Qed.

(** Keys with different indices, or different fields, differ. *)
Lemma indexed_key_inj prefix i j f g :
  (prefix ++ py_str (Z.of_nat i) ++ String "_" f
   = prefix ++ py_str (Z.of_nat j) ++ String "_" g)%string ->
  i = j /\ f = g.
Proof.
  intros H. apply append_inv_head in H.
  destruct (py_str_digits (Z.of_nat i) (Nat2Z.is_nonneg i)) as [Hi _].
  destruct (py_str_digits (Z.of_nat j) (Nat2Z.is_nonneg j)) as [Hj _].
  destruct (digits_then_mark _ _ _ _ Hi Hj H) as [E ->].
  split; [|reflexivity]. apply py_str_inj in E. lia.
Qed.

Lemma assoc_set_key_same {A} k (v : A) m :
  Json.assoc k (Json.set_key k v m) = Some v.
Proof.
  induction m as [|[k' v'] m IH]; simpl.
  - now rewrite String.eqb_refl.
  - destruct (String.eqb k k') eqn:E; simpl.
    + now rewrite String.eqb_refl.
    + now rewrite E.
Qed.

Lemma assoc_set_key_other {A} k k' (v : A) m :
  k <> k' -> Json.assoc k (Json.set_key k' v m) = Json.assoc k m.
Proof.
  intros Hne. apply String.eqb_neq in Hne.
  induction m as [|[k2 v2] m IH]; simpl.
  - now rewrite Hne.
  - destruct (String.eqb k' k2) eqn:E; simpl.
    + apply String.eqb_eq in E. subst. now rewrite Hne.
    + now rewrite IH.
Qed.

(** ** The branch stock *)

Definition branch_key (index : nat) (field : string) : string :=
  ("branch_stock_" ++ py_str (Z.of_nat index) ++ String "_" field)%string.

Lemma branch_key_inj i j f g : branch_key i f = branch_key j g -> i = j /\ f = g.
Proof. apply indexed_key_inj. Qed.

Lemma branch_meta_step meta index b rest :
  branch_meta meta index (b :: rest)
  = branch_meta
      (Json.set_key (branch_key index "stock_qty")
         (MInt (PyFloat.to_int (actual_qty b)))
         (Json.set_key (branch_key index "branch")
            (MStr (branch_name (warehouse b))) meta))
      (S index) rest.
Proof.
  cbn [branch_meta]. unfold branch_key. now rewrite !append_assoc.
Qed.

Lemma branch_meta_lookup entries : forall meta index,
  (forall j f, (j < index)%nat ->
     Json.assoc (branch_key j f) (branch_meta meta index entries)
     = Json.assoc (branch_key j f) meta)
  /\ (forall k b, nth_error entries k = Some b ->
        Json.assoc (branch_key (index + k) "branch")
          (branch_meta meta index entries)
        = Some (MStr (branch_name (warehouse b)))
        /\ Json.assoc (branch_key (index + k) "stock_qty")
             (branch_meta meta index entries)
           = Some (MInt (PyFloat.to_int (actual_qty b)))).
Proof.
  induction entries as [|b rest IH]; intros meta index.
  - split; [reflexivity|]. intros [|k] b H; discriminate.
  - rewrite branch_meta_step.
    match goal with
    | |- context [branch_meta ?m (S index) rest] =>
        destruct (IH m (S index)) as [Hkeep Hget]
    end.
    split.
    + intros j f Hj. rewrite Hkeep by lia.
      rewrite !assoc_set_key_other; [reflexivity| |];
        intros E; apply branch_key_inj in E; lia.
    + intros [|k] b' Hb.
      * inversion Hb; subst. rewrite Nat.add_0_r, !Hkeep by lia.
        split.
        -- rewrite assoc_set_key_other; [apply assoc_set_key_same|].
           intros E. apply branch_key_inj in E. destruct E. discriminate.
        -- apply assoc_set_key_same.
      * replace (index + S k)%nat with (S index + k)%nat by lia.
        now apply Hget.
Qed.

(** X23.  The branch stock block writes one pair of meta keys per bin
    of the item with a quantity above zero, numbered from 0 in the order
    of the bins - the branch name made from the warehouse, and the
    quantity cut to an integer, so that a bin with less than one unit is
    listed with the quantity 0 - and the number of these bins under
    "branch_stock"; a bin without stock gets no entry.  What is written
    for a bin is what the meta holds for it: no entry overwrites
    another. *)
Theorem branch_stock_lists_the_bins_in_stock env product_id it w server rest :
  servers (db w) = server :: rest -> enable_sync server = 1%Z ->
  let stocked :=
    filter (fun b => PyFloat.is_positive (actual_qty b))
           (bins_of (db w) (item_code (item it))) in
  exists meta w',
    push_branch_stock env product_id it w = (Ok tt, w') /\
    sent w'
    = sent w ++ [PushProduct (products_url server) product_id
                   [("meta_data", JList (map meta_entry meta))]] /\
    Json.assoc "branch_stock" meta
    = Some (MInt (Z.of_nat (List.length stocked))) /\
    forall k b, nth_error stocked k = Some b ->
      Json.assoc (branch_key k "branch") meta
      = Some (MStr (branch_name (warehouse b))) /\
      Json.assoc (branch_key k "stock_qty") meta
      = Some (MInt (PyFloat.to_int (actual_qty b))).
Proof.
  intros Hs He. cbv zeta.
  set (stocked := filter _ (bins_of (db w) (item_code (item it)))).
  set (meta := Json.set_key "branch_stock"
                 (MInt (Z.of_nat (List.length stocked)))
                 (branch_meta [] 0 stocked)).
  pose proof (enabled_servers_first _ _ _ Hs He) as Hen.
  destruct (push_wc_product_sent env product_id (Some meta) [] w server []
              ("meta_data", JList (map meta_entry meta)) [] Hen eq_refl)
    as [v [w1 [E [Hsent _]]]].
  exists meta. eexists. split; [|split; [|split]].
  - unfold push_branch_stock, try_except, bind at 1, get_db.
    fold stocked. fold meta. rewrite (bind_ok _ _ _ _ _ E). reflexivity.
  - exact Hsent.
  - apply assoc_set_key_same.
  - intros k b Hb.
    destruct (branch_meta_lookup stocked [] 0) as [_ Hget].
    destruct (Hget k b Hb) as [H1 H2]. simpl in H1, H2.
    unfold meta. rewrite !assoc_set_key_other; [now split| |]; discriminate.
Qed.

(** The bins 2.5 and 0.25 are listed, with the quantities 2 and 0. *)
Lemma branch_stock_lists_the_bins_in_stock_witness :
  exists meta w',
    push_branch_stock (Fixture.env_of Fixture.accepting) (JStr "77")
      (mkToSync (Fixture.plain_item "BRK-1" []) 1) ValueFacts.stock_world
    = (Ok tt, w') /\
    sent w'
    = [] ++ [PushProduct (products_url Fixture.server) (JStr "77")
               [("meta_data", JList (map meta_entry meta))]] /\
    Json.assoc "branch_stock" meta = Some (MInt (Z.of_nat 2)) /\
    forall k b,
      nth_error [mkBin "BRK-1" "Main Warehouse - ame" (PyFloat.ratio 5 2);
                 mkBin "BRK-1" "Depot - ame" (PyFloat.ratio 1 4)] k = Some b ->
      Json.assoc (branch_key k "branch") meta
      = Some (MStr (branch_name (warehouse b))) /\
      Json.assoc (branch_key k "stock_qty") meta
      = Some (MInt (PyFloat.to_int (actual_qty b))).
Proof.
  apply (branch_stock_lists_the_bins_in_stock
           (Fixture.env_of Fixture.accepting) (JStr "77")
           (mkToSync (Fixture.plain_item "BRK-1" []) 1) ValueFacts.stock_world
           Fixture.server [] eq_refl eq_refl).
Defined.

End IndexedKeyFacts.

(* ===================================================================== *)
(** * The compatibility meta and the description built from it *)
(* ===================================================================== *)

Module DescriptionFacts.

Import PyStr NumeralFacts Frappe Sync Text Monad Effects IndexedKeyFacts
  CompatibilityFacts.

(** [translate_text] as a function of the database. *)
Definition translated (d : DB) (s : string) : string :=
  if negb (PyStr.truthy s) then EmptyString
  else match find (fun t => String.eqb (source_text t) s) (translations d) with
       | Some t => if PyStr.truthy (translated_text t) then translated_text t
                   else s
       | None => s
       end.

Lemma translate_text_eq s w : translate_text s w = (Ok (translated (db w) s), w).
Proof.
  unfold translate_text, translated. destruct (negb (PyStr.truthy s));
    [reflexivity|].
  unfold bind, get_db. now destruct (find _ _).
Qed.

(** The years of a row as [build_compatibility_data] writes them. *)
Definition years_text (env : Env) (row : CompatRow) : string :=
  match years row with
  | Some y =>
      if PyStr.truthy y then
        match ExpandYears.expand_years (set_iter env) y with
        | Ok ys => join "," ys
        | Raise _ => EmptyString
        end
      else EmptyString
  | None => EmptyString
  end.

Lemma expanded_years_of_eq env row w :
  exists w', expanded_years_of env row w = (Ok (years_text env row), w') /\
             db w' = db w.
Proof.
  unfold expanded_years_of, years_text.
  destruct (years row) as [y|]; [|now eexists].
  destruct (PyStr.truthy y); [|now eexists].
  unfold try_except, bind, lift.
  destruct (ExpandYears.expand_years _ _); now eexists.
Qed.

(** The five keys of one row. *)
Definition row_meta (env : Env) (d : DB) (meta : list (string * MetaValue))
  (index : nat) (row : CompatRow) : list (string * MetaValue) :=
  Json.set_key (compat_key index "engine_size")
    (MStr (or_empty (engine_size row)))
    (Json.set_key (compat_key index "variant") (MStr (or_empty (fuel row)))
       (Json.set_key (compat_key index "years") (MStr (years_text env row))
          (Json.set_key (compat_key index "model")
             (MStr (translated d (or_empty (model row))))
             (Json.set_key (compat_key index "brand")
                (MStr (translated d (or_empty (brand row)))) meta)))).

Fixpoint rows_meta (env : Env) (d : DB) (meta : list (string * MetaValue))
  (index : nat) (rows : list CompatRow) : list (string * MetaValue) :=
  match rows with
  | [] => meta
  | row :: rest => rows_meta env d (row_meta env d meta index row) (S index) rest
  end.

Lemma compat_row_eq env meta index row w :
  exists w', compat_row env meta index row w
             = (Ok (row_meta env (db w) meta index row), w') /\
             db w' = db w.
Proof.
  unfold compat_row.
  destruct (expanded_years_of_eq env row w) as [w1 [E Hd]].
  rewrite (bind_ok _ _ _ _ _ E).
  rewrite (bind_ok _ _ _ _ _ (translate_text_eq _ _)).
  rewrite (bind_ok _ _ _ _ _ (translate_text_eq _ _)).
  exists w1. rewrite Hd. now split.
Qed.

Lemma compat_rows_eq env rows : forall meta index w,
  exists w', compat_rows env meta index rows w
             = (Ok (rows_meta env (db w) meta index rows), w') /\
             db w' = db w.
Proof.
  induction rows as [|row rows IH]; intros meta index w; cbn [compat_rows].
  - now exists w.
  - destruct (compat_row_eq env meta index row w) as [w1 [E Hd]].
    rewrite (bind_ok _ _ _ _ _ E).
    destruct (IH (row_meta env (db w) meta index row) (S index) w1)
      as [w2 [E2 Hd2]].
    exists w2. rewrite E2, Hd. split; [reflexivity|congruence].
Qed.

Lemma compat_key_inj i j f g : compat_key i f = compat_key j g -> i = j /\ f = g.
Proof. apply indexed_key_inj. Qed.

(** What the meta holds for the row at [index]. *)
Definition holds_row (env : Env) (d : DB) (meta : list (string * MetaValue))
  (index : nat) (row : CompatRow) : Prop :=
  Json.assoc (compat_key index "brand") meta
  = Some (MStr (translated d (or_empty (brand row)))) /\
  Json.assoc (compat_key index "model") meta
  = Some (MStr (translated d (or_empty (model row)))) /\
  Json.assoc (compat_key index "years") meta
  = Some (MStr (years_text env row)) /\
  Json.assoc (compat_key index "variant") meta
  = Some (MStr (or_empty (fuel row))) /\
  Json.assoc (compat_key index "engine_size") meta
  = Some (MStr (or_empty (engine_size row))).

Ltac other_key :=
  let E := fresh in
  intros E; apply compat_key_inj in E; destruct E; (lia || discriminate).

Lemma row_meta_holds env d meta index row :
  holds_row env d (row_meta env d meta index row) index row.
Proof.
  unfold holds_row, row_meta. repeat split;
    repeat (first [apply assoc_set_key_same
                  |rewrite assoc_set_key_other by other_key]).
Qed.

Lemma row_meta_keeps env d meta index row j f :
  j <> index ->
  Json.assoc (compat_key j f) (row_meta env d meta index row)
  = Json.assoc (compat_key j f) meta.
Proof.
  intros Hj. unfold row_meta.
  now rewrite !assoc_set_key_other by other_key.
Qed.

Lemma rows_meta_lookup env d rows : forall meta index,
  (forall j f, (j < index)%nat ->
     Json.assoc (compat_key j f) (rows_meta env d meta index rows)
     = Json.assoc (compat_key j f) meta)
  /\ (forall k row, nth_error rows k = Some row ->
        holds_row env d (rows_meta env d meta index rows) (index + k) row).
Proof.
  induction rows as [|r rest IH]; intros meta index; cbn [rows_meta].
  - split; [reflexivity|]. intros [|k] row H; discriminate.
  - destruct (IH (row_meta env d meta index r) (S index)) as [Hkeep Hget].
    split.
    + intros j f Hj. rewrite Hkeep by lia. apply row_meta_keeps. lia.
    + intros [|k] row Hrow.
      * inversion Hrow; subst. rewrite Nat.add_0_r.
        unfold holds_row. rewrite !Hkeep by lia. apply row_meta_holds.
      * replace (index + S k)%nat with (S index + k)%nat by lia.
        now apply Hget.
Qed.

(** The rows are the item's own when it has rows. *)
Lemma compatibility_entries_own code i r rs w :
  find_item (db w) code = Some i ->
  custom_compatibility i = r :: rs ->
  compatibility_entries code w = (Ok (r :: rs), w).
Proof.
  intros Hf Hc. unfold compatibility_entries, bind at 1, get_item, bind at 1,
    get_db.
  rewrite Hf. unfold ret at 1. unfold bind, get_db. rewrite Hc.
  now destruct (find_bundle _ _).
Qed.

Lemma build_compatibility_data_own env code i r rs w :
  find_item (db w) code = Some i ->
  custom_compatibility i = r :: rs ->
  exists w',
    build_compatibility_data env code w
    = (Ok (rows_meta env (db w) [] 0 (r :: rs), List.length (r :: rs)), w')
    /\ db w' = db w.
Proof.
  intros Hf Hc. unfold build_compatibility_data.
  rewrite (bind_ok _ _ _ _ _ (compatibility_entries_own _ _ _ _ _ Hf Hc)).
  destruct (compat_rows_eq env (r :: rs) [] 0%nat w) as [w1 [E Hd]].
  rewrite (bind_ok _ _ _ _ _ E). now exists w1.
Qed.

(** X24.  For an item with compatibility rows, [build_compatibility_data]
    returns the number of rows and a meta that holds, under the keys of
    index [k], the values of row [k]: the translated brand and model,
    the expanded years (empty when they cannot be expanded), the fuel
    as variant and the engine size.  No row overwrites the keys of
    another. *)
Theorem compatibility_meta_holds_every_row env code i r rs w :
  find_item (db w) code = Some i ->
  custom_compatibility i = r :: rs ->
  exists meta w',
    build_compatibility_data env code w
    = (Ok (meta, List.length (r :: rs)), w') /\
    db w' = db w /\
    forall k row, nth_error (r :: rs) k = Some row ->
                  holds_row env (db w) meta k row.
Proof.
  intros Hf Hc.
  destruct (build_compatibility_data_own env code i r rs w Hf Hc)
    as [w1 [E Hd]].
  eexists. exists w1. split; [exact E|]. split; [exact Hd|].
  intros k row Hrow.
  destruct (rows_meta_lookup env (db w) (r :: rs) [] 0%nat) as [_ Hget].
  exact (Hget k row Hrow).
Qed.

Definition two_rows_item : Item :=
  mkItem "BRK-1" "Brake Pad" 100 0 0 None None None None []
         [mkCompatRow (Some "2019-21") (Some "Toyota") (Some "Corolla")
                      (Some "Petrol") (Some "1.6");
          mkCompatRow (Some "x") (Some "Honda") (Some "Civic") None None]
         [] [] 0 [] 0 false [].

Definition two_rows_world : World :=
  Fixture.world_of (mkDB [two_rows_item] [] [] [] [] [] [Fixture.server] []
                         1000).

Lemma compatibility_meta_holds_every_row_witness :
  exists meta w',
    build_compatibility_data (Fixture.env_of Fixture.accepting) "BRK-1"
      two_rows_world
    = (Ok (meta, 2%nat), w') /\
    db w' = db two_rows_world /\
    forall k row,
      nth_error (custom_compatibility two_rows_item) k = Some row ->
      holds_row (Fixture.env_of Fixture.accepting) (db two_rows_world)
        meta k row.
Proof.
  apply (compatibility_meta_holds_every_row
           (Fixture.env_of Fixture.accepting) "BRK-1" two_rows_item
           _ _ two_rows_world eq_refl eq_refl).
Defined.

(** ** The description *)

(** The line of the description for one row. *)
Definition row_line (env : Env) (d : DB) (row : CompatRow) : string :=
  ("Brand - " ++ translated d (or_empty (brand row)) ++ nbsp 6
   ++ "Model - " ++ translated d (or_empty (model row)) ++ nbsp 3
   ++ "- " ++ years_text env row)%string.

Lemma map_by_index {A B} (f : nat -> B) (g : A -> B) (l : list A) :
  forall start,
  (forall k x, nth_error l k = Some x -> f (start + k)%nat = g x) ->
  map f (seq start (List.length l)) = map g l.
Proof.
  induction l as [|x l IH]; intros start H; simpl; [reflexivity|].
  f_equal.
  - rewrite <- (H 0%nat x eq_refl). f_equal. lia.
  - apply IH. intros k y Hy.
    replace (S start + k)%nat with (start + S k)%nat by lia.
    now apply H.
Qed.

(** X25.  The description of an item with compatibility rows is its
    name (its code when it has no name) followed by one line per row, in
    the order of the rows, each with the translated brand, the
    translated model and the expanded years of that row; nothing is
    raised or written. *)
Theorem description_has_one_line_per_row env code i r rs w :
  find_item (db w) code = Some i ->
  custom_compatibility i = r :: rs ->
  exists w',
    build_item_description env code w
    = (Ok (join newline
             ((if PyStr.truthy (item_name i) then item_name i
               else item_code i)
              :: map (row_line env (db w)) (r :: rs))), w') /\
    db w' = db w.
Proof.
  intros Hf Hc. unfold build_item_description, bind at 1, get_item, bind at 1,
    get_db.
  rewrite Hf. unfold ret at 1.
  destruct (build_compatibility_data_own env code i r rs w Hf Hc)
    as [w1 [E Hd]].
  rewrite (bind_ok _ _ _ _ _ E). unfold ret.
  exists w1. split; [|exact Hd]. unfold code_of. do 4 f_equal.
  apply (map_by_index _ _ (r :: rs) 0%nat). intros k row Hrow.
  destruct (rows_meta_lookup env (db w) (r :: rs) [] 0%nat) as [_ Hget].
  destruct (Hget k row Hrow) as [Hb [Hm [Hy _]]].
  unfold part_line, row_line, meta_get.
  rewrite Hb, Hm, Hy. reflexivity.
Qed.

Lemma description_has_one_line_per_row_witness :
  exists w',
    build_item_description (Fixture.env_of Fixture.accepting) "BRK-1"
      two_rows_world
    = (Ok (join newline
             ("Brake Pad"
              :: map (row_line (Fixture.env_of Fixture.accepting)
                        (db two_rows_world))
                   (custom_compatibility two_rows_item))), w') /\
    db w' = db two_rows_world.
Proof.
  apply (description_has_one_line_per_row
           (Fixture.env_of Fixture.accepting) "BRK-1" two_rows_item
           _ _ two_rows_world eq_refl eq_refl).
Defined.

End DescriptionFacts.

(* ===================================================================== *)
(** * Years that cannot be expanded *)
(* ===================================================================== *)

Module SoftFailureFacts.

Import PyStr ExpandYears ExpandYearsFacts Frappe Sync Text Monad
  IndexedKeyFacts CompatibilityFacts DescriptionFacts.

(** What the claim of a token-wise soft failure describes: the tokens
    that cannot be taken are skipped and the others expanded. *)
Definition lenient_years (set_iter : list string -> list string)
  (text : string) : list string :=
  match expand_parts (filter token_ok (re_split (strip text))) [] with
  | Ok results =>
      match sorted_set_by_int set_iter results with
      | Ok ys => ys
      | Raise _ => []
      end
  | Raise _ => []
  end.

(** A row whose years [expand_years] refuses. *)
Definition refused (env : Env) (row : CompatRow) : bool :=
  match years row with
  | Some y => PyStr.truthy y && negb (is_ok (expand_years (set_iter env) y))
  | None => false
  end.

(** The world after the rows: one line in the error log for every row
    that is refused. *)
Definition after_row (env : Env) (w : World) (row : CompatRow) : World :=
  if refused env row then logged "Error expanding years" w else w.

Lemma expanded_years_of_full env row w :
  expanded_years_of env row w = (Ok (years_text env row), after_row env w row).
Proof.
  unfold expanded_years_of, years_text, after_row, refused.
  destruct (years row) as [y|]; [|reflexivity].
  destruct (PyStr.truthy y); [|reflexivity].
  unfold try_except, bind, lift.
  now destruct (expand_years _ _).
Qed.

Lemma after_row_db env w row : db (after_row env w row) = db w.
Proof. unfold after_row. now destruct (refused env row). Qed.

Lemma compat_row_full env meta index row w :
  compat_row env meta index row w
  = (Ok (row_meta env (db w) meta index row), after_row env w row).
Proof.
  unfold compat_row.
  rewrite (bind_ok _ _ _ _ _ (expanded_years_of_full env row w)).
  rewrite (bind_ok _ _ _ _ _ (translate_text_eq _ _)).
  rewrite (bind_ok _ _ _ _ _ (translate_text_eq _ _)).
  now rewrite after_row_db.
Qed.

Lemma after_rows_frame env rows : forall w,
  let w' := fold_left (after_row env) rows w in
  db w' = db w /\ sent w' = sent w /\ queue w' = queue w /\
  log w' = log w ++ repeat "Error expanding years"
                      (List.length (filter (refused env) rows)).
Proof.
  induction rows as [|row rows IH]; intros w; cbn [fold_left filter].
  - cbn [List.length repeat]. now rewrite app_nil_r.
  - destruct (IH (after_row env w row)) as [Hd [Hs [Hq Hl]]].
    cbv zeta. rewrite Hd, Hs, Hq, Hl. unfold after_row.
    destruct (refused env row); cbn [db sent queue log logged List.length
      repeat]; repeat split.
    now rewrite <- app_assoc.
Qed.

Lemma compat_rows_full env rows : forall meta index w,
  compat_rows env meta index rows w
  = (Ok (rows_meta env (db w) meta index rows),
     fold_left (after_row env) rows w).
Proof.
  induction rows as [|row rows IH]; intros meta index w; cbn [compat_rows].
  - reflexivity.
  - rewrite (bind_ok _ _ _ _ _ (compat_row_full env meta index row w)).
    rewrite IH, after_row_db. reflexivity.
Qed.

(** A text with a token that cannot be parsed is refused as a whole. *)
Lemma unparsable_token_refused env row text tok :
  set_order_ok (set_iter env) ->
  years row = Some text ->
  In tok (re_split (strip text)) -> is_empty tok = false ->
  token_ok tok = false ->
  refused env row = true /\ years_text env row = EmptyString.
Proof.
  intros Hset Hy Hin Hne Hbad.
  assert (Hr : expand_years (set_iter env) text = Raise ValueError)
    by (eapply unparsable_token_raises; eauto).
  assert (Ht : PyStr.truthy text = true).
  { destruct text; [|reflexivity].
    simpl in Hin. destruct Hin as [<-|[]]. discriminate. }
  unfold refused, years_text. now rewrite Hy, Ht, Hr.
Qed.

(** C4 (amended).  For an item with compatibility rows,
    [build_compatibility_data] raises nothing and writes one line,
    "Error expanding years", to the error log for every row whose year
    text [expand_years] refuses.  A row whose text has a token that
    cannot be parsed is refused as a whole: the meta holds empty years
    for it - no token of that text is expanded, parsable or not - while
    a row whose text parses has its expansion in the meta.  The only
    exception that leaves [build_compatibility_data], for any item, is
    that of a missing Item document. *)
Theorem unparsable_years_empty_the_row env code i r rs w :
  set_order_ok (set_iter env) ->
  find_item (db w) code = Some i ->
  custom_compatibility i = r :: rs ->
  (exists meta w',
     build_compatibility_data env code w
     = (Ok (meta, List.length (r :: rs)), w')
     /\ db w' = db w /\ sent w' = sent w
     /\ log w' = log w ++ repeat "Error expanding years"
                          (List.length (filter (refused env) (r :: rs)))
     /\ (forall k row text tok,
           nth_error (r :: rs) k = Some row ->
           years row = Some text ->
           In tok (re_split (strip text)) -> is_empty tok = false ->
           token_ok tok = false ->
           refused env row = true /\
           Json.assoc (compat_key k "years") meta = Some (MStr EmptyString))
     /\ (forall k row text ys,
           nth_error (r :: rs) k = Some row ->
           years row = Some text -> PyStr.truthy text = true ->
           expand_years (set_iter env) text = Ok ys ->
           refused env row = false /\
           Json.assoc (compat_key k "years") meta
           = Some (MStr (join "," ys))))
  /\ (forall code' w' e,
        fst (build_compatibility_data env code' w') = Raise e ->
        e = DoesNotExistError).
Proof.
  intros Hset Hf Hc. split.
  - exists (rows_meta env (db w) [] 0 (r :: rs)),
           (fold_left (after_row env) (r :: rs) w).
    destruct (after_rows_frame env (r :: rs) w) as [Hd [Hs [_ Hl]]].
    destruct (rows_meta_lookup env (db w) (r :: rs) [] 0%nat) as [_ Hget].
    split; [|split; [exact Hd|split; [exact Hs|split; [exact Hl|split]]]].
    + unfold build_compatibility_data.
      rewrite (bind_ok _ _ _ _ _ (compatibility_entries_own _ _ _ _ _ Hf Hc)).
      rewrite (bind_ok _ _ _ _ _ (compat_rows_full env (r :: rs) [] 0%nat w)).
      reflexivity.
    + intros k row text tok Hrow Hy Hin Hne Hbad.
      destruct (unparsable_token_refused env row text tok Hset Hy Hin Hne Hbad)
        as [Hr Hy0].
      split; [exact Hr|].
      destruct (Hget k row Hrow) as [_ [_ [Hyears _]]].
      cbn [Nat.add] in Hyears. now rewrite Hyears, Hy0.
    + intros k row text ys Hrow Hy Ht He.
      split; [unfold refused; now rewrite Hy, Ht, He|].
      destruct (Hget k row Hrow) as [_ [_ [Hyears _]]].
      cbn [Nat.add] in Hyears. rewrite Hyears. unfold years_text.
      now rewrite Hy, Ht, He.
  - intros code' w' e H. unfold build_compatibility_data in H.
    apply bind_raise_inv in H. destruct H as [H|[entries [w1 [_ H]]]].
    + now apply compatibility_entries_exn in H.
    + destruct entries as [|r0 rs0]; [discriminate|].
      apply bind_raise_inv in H. destruct H as [H|[? [? [_ H]]]]; [|discriminate].
      destruct (compat_rows_total env (r0 :: rs0) [] 0%nat w1) as [m [w2 E]].
      rewrite E in H. discriminate.
Qed.

(** An item with two rows: the years of the first have a token that is
    no year, the years of the second parse. *)
Definition soft_item : Item :=
  mkItem "BRK-1" "Brake Pad" 100 0 0 None None None None []
         [mkCompatRow (Some "2014, abc") (Some "Toyota") (Some "Corolla")
                      None None;
          mkCompatRow (Some "14-17") (Some "Honda") (Some "Civic") None None]
         [] [] 0 [] 0 false [].

Definition soft_world : World :=
  Fixture.world_of (mkDB [soft_item] [] [] [] [] [] [Fixture.server] [] 1000).

Definition soft_env : Env := Fixture.env_of Fixture.accepting.

Lemma unparsable_years_empty_the_row_witness :
  exists meta w',
    build_compatibility_data soft_env "BRK-1" soft_world
    = (Ok (meta, 2%nat), w')
    /\ log w' = ["Error expanding years"]
    /\ Json.assoc (compat_key 0 "years") meta = Some (MStr EmptyString)
    /\ Json.assoc (compat_key 1 "years") meta
       = Some (MStr "2014,2015,2016,2017").
Proof.
  destruct (unparsable_years_empty_the_row soft_env "BRK-1" soft_item
              _ _ soft_world set_in_list_order_ok eq_refl eq_refl)
    as [[meta [w' [E [_ [_ [Hl [Hbad Hgood]]]]]]] _].
  exists meta, w'. split; [exact E|]. split; [exact Hl|]. split.
  - apply (Hbad 0%nat _ "2014, abc" "abc" eq_refl eq_refl).
    + vm_compute. right. now left.
    + reflexivity.
    + reflexivity.
  - apply (Hgood 1%nat _ "14-17" ["2014"; "2015"; "2016"; "2017"]
             eq_refl eq_refl eq_refl eq_refl).
Defined.

(** C4 as stated fails: in "2014, abc" the token "2014" can be parsed -
    dropping the token "abc" would leave the year 2014 - but the years
    the builder emits for the row are empty. *)
Lemma unparsable_token_voids_parsable_ones :
  lenient_years set_in_list_order "2014, abc" = ["2014"]
  /\ exists meta w',
       build_compatibility_data soft_env "BRK-1" soft_world
       = (Ok (meta, 2%nat), w')
       /\ Json.assoc (compat_key 0 "years") meta = Some (MStr EmptyString)
       /\ Json.assoc (compat_key 0 "years") meta
          <> Some (MStr (join "," (lenient_years set_in_list_order
                                     "2014, abc"))).
Proof.
  split; [reflexivity|].
  eexists; eexists. split; [vm_compute; reflexivity|].
  split; [reflexivity|]. vm_compute. discriminate.
Qed.

End SoftFailureFacts.

(* ===================================================================== *)
(** * Slugs and cleaned names *)
(* ===================================================================== *)

Module TextFacts.

Import PyStr NumeralFacts Frappe Sync Text Monad Effects Traffic.

(** ** [slugify] *)

(** The characters of a slug: lower case letters, digits and the
    hyphen. *)
Definition slug_char (c : ascii) : bool :=
  let n := nat_of_ascii c in
  (((48 <=? n) && (n <=? 57)) || ((97 <=? n) && (n <=? 122)))%nat
  || Ascii.eqb c "-".

Definition alnum_or_dash (c : ascii) : bool := is_alnum c || Ascii.eqb c "-".

Lemma lower_char_slug c :
  alnum_or_dash c = true -> slug_char (lower_char c) = true.
Proof.
  destruct c as [b0 b1 b2 b3 b4 b5 b6 b7].
  destruct b0, b1, b2, b3, b4, b5, b6, b7; intros H;
    solve [reflexivity | discriminate H].
Qed.

Lemma lower_char_dash c :
  Ascii.eqb (lower_char c) "-" = Ascii.eqb c "-".
Proof.
  destruct c as [b0 b1 b2 b3 b4 b5 b6 b7].
  destruct b0, b1, b2, b3, b4, b5, b6, b7; reflexivity.
Qed.

Lemma sub_non_alnum_chars s : forall insep,
  every alnum_or_dash (sub_non_alnum insep s) = true.
Proof.
  induction s as [|c s IH]; intros insep; simpl; [reflexivity|].
  destruct (is_alnum c) eqn:E.
  - simpl. unfold alnum_or_dash at 1. now rewrite E, IH.
  - destruct insep; [apply IH|]. simpl. now rewrite IH.
Qed.

Lemma every_lstrip_char P c s :
  every P s = true -> every P (lstrip_char c s) = true.
Proof.
  induction s as [|d s IH]; simpl; [reflexivity|]. intros H.
  destruct (Ascii.eqb c d); [|exact H].
  apply andb_true_iff in H. now apply IH.
Qed.

Lemma every_rstrip_char P c s :
  every P s = true -> every P (rstrip_char c s) = true.
Proof.
  induction s as [|d s IH]; simpl; [reflexivity|]. intros H.
  apply andb_true_iff in H. destruct H as [H1 H2].
  destruct (Ascii.eqb c d && is_empty (rstrip_char c s)); [reflexivity|].
  simpl. now rewrite H1, IH.
Qed.

Lemma every_lower (P Q : ascii -> bool) s :
  (forall c, P c = true -> Q (lower_char c) = true) ->
  every P s = true -> every Q (lower s) = true.
Proof.
  intros H. induction s as [|c s IH]; simpl; [reflexivity|]. intros E.
  apply andb_true_iff in E. destruct E as [E1 E2].
  now rewrite (H _ E1), IH.
Qed.

(** The first and the last character of a text. *)
Definition starts_with (c : ascii) (s : string) : bool :=
  match s with
  | String d _ => Ascii.eqb c d
  | EmptyString => false
  end.

Fixpoint ends_with (c : ascii) (s : string) : bool :=
  match s with
  | EmptyString => false
  | String d EmptyString => Ascii.eqb c d
  | String _ s' => ends_with c s'
  end.

Lemma lstrip_char_start c s : starts_with c (lstrip_char c s) = false.
Proof.
  induction s as [|d s IH]; simpl; [reflexivity|].
  destruct (Ascii.eqb c d) eqn:E; [exact IH|]. simpl. exact E.
Qed.

Lemma rstrip_char_start c s :
  starts_with c s = false -> starts_with c (rstrip_char c s) = false.
Proof.
  destruct s as [|d s]; simpl; [reflexivity|]. intros H. rewrite H.
  simpl. exact H.
Qed.

Lemma rstrip_char_end c s : ends_with c (rstrip_char c s) = false.
Proof.
  induction s as [|d s IH]; simpl; [reflexivity|].
  destruct (Ascii.eqb c d) eqn:E; simpl.
  - destruct (rstrip_char c s) as [|x r] eqn:Er; simpl; [reflexivity|].
    exact IH.
  - destruct (rstrip_char c s) as [|x r] eqn:Er; simpl; [exact E|].
    exact IH.
Qed.

Lemma lower_start s : starts_with "-" (lower s) = starts_with "-" s.
Proof.
  destruct s as [|c s]; cbn [lower starts_with]; [reflexivity|].
  rewrite Ascii.eqb_sym, lower_char_dash. apply Ascii.eqb_sym.
Qed.

Lemma lower_end s : ends_with "-" (lower s) = ends_with "-" s.
Proof.
  induction s as [|c s IH]; [reflexivity|].
  destruct s as [|d s].
  - cbn [lower ends_with].
    rewrite Ascii.eqb_sym, lower_char_dash. apply Ascii.eqb_sym.
  - exact IH.
Qed.

Lemma slugify_chars name : every slug_char (slugify name) = true.
Proof.
  unfold slugify, strip_char.
  apply (every_lower alnum_or_dash); [apply lower_char_slug|].
  apply every_rstrip_char, every_lstrip_char, sub_non_alnum_chars.
Qed.

#[local] Hint Resolve sends_ret sends_raise sends_lift sends_log_error
  : sends.

(** What follows the call of the lookup makes no call. *)
Lemma offer_lookup_rest_quiet name slug resp :
  sends (fun _ => false)
    (existing <- response_json resp ;;
     cats <- lift (py_iter existing) ;;
     found <- lift (first_offer_named name slug cats) ;;
     match found with
     | Some i => ret i
     | None =>
         log_error "Offer category not found. Manual creation needed." ;;
         ret JNull
     end)%sync.
Proof. unfold response_json. sends_tac. Qed.

(** X26.  The slug of an offer category has lower case letters, digits
    and hyphens only, and neither starts nor ends with a hyphen.  The
    lookup of the category is one GET at most, with the slug as search
    text: in spite of its name, [get_or_create_wc_offer_category]
    creates nothing and writes nothing. *)
Theorem offer_category_is_looked_up_never_created env self name w :
  let w' := snd (get_or_create_wc_offer_category env self name w) in
  every slug_char (slugify name) = true
  /\ starts_with "-" (slugify name) = false
  /\ ends_with "-" (slugify name) = false
  /\ (sent w' = sent w \/
      exists base,
        sent w' = sent w ++ [GetOfferCategories
                               (base ++ "/wp-json/wp/v2/offer_category?search="
                                ++ slugify name)])
  /\ db w' = db w.
Proof.
  cbv zeta. split; [apply slugify_chars|]. split; [|split; [|split]].
  - unfold slugify, strip_char. rewrite lower_start.
    apply rstrip_char_start, lstrip_char_start.
  - unfold slugify, strip_char. rewrite lower_end. apply rstrip_char_end.
  - remember (get_or_create_wc_offer_category env self name w) as r eqn:R.
    unfold get_or_create_wc_offer_category, try_except, bind at 1, get_db
      in R.
    cbv beta iota in R.
    destruct (enabled_servers (db w)) as [|server l]; [subst r; now left|].
    destruct (wcapi self) as [api|]; [|subst r; now left].
    right. exists (rstrip_char "/" (woocommerce_server_url server)).
    unfold bind at 1, request in R.
    match type of R with
    | context [let (r, w') := ?m ?w1 in _] =>
        pose proof (quiet_sent m w1
                      (offer_lookup_rest_quiet name (slugify name) _)) as Hq;
        destruct (m w1) as [[v|e] w2]
    end; subst r; simpl in Hq |- *; exact Hq.
  - now destruct (read_only_get_or_create_wc_offer_category env self name w).
Qed.

(** ** [clean_product_name] *)

Lemma rstrip_rstrip s : rstrip (rstrip s) = rstrip s.
Proof.
  induction s as [|c s IH]; simpl; [reflexivity|].
  destruct (is_space c && is_empty (rstrip s)) eqn:E; [reflexivity|].
  simpl. now rewrite IH, E.
Qed.

Lemma lstrip_head s :
  lstrip s = EmptyString \/
  exists c s', lstrip s = String c s' /\ is_space c = false.
Proof.
  induction s as [|c s IH]; simpl; [now left|].
  destruct (is_space c) eqn:E; [exact IH|]. right. now exists c, s.
Qed.

Lemma strip_strip s : strip (strip s) = strip s.
Proof.
  unfold strip. destruct (lstrip_head s) as [->|[c [s' [-> Hc]]]];
    [reflexivity|].
  simpl. rewrite Hc. simpl. rewrite Hc. simpl. rewrite Hc. simpl.
  now rewrite rstrip_rstrip.
Qed.

Lemma every_join P sep l :
  every P sep = true -> Forall (fun s => every P s = true) l ->
  every P (join sep l) = true.
Proof.
  intros Hsep H. induction H as [|s l Hs Hl IH]; [reflexivity|].
  destruct l as [|t l]; [exact Hs|].
  change (join sep (s :: t :: l)) with (s ++ sep ++ join sep (t :: l))%string.
  now rewrite !every_app, Hs, Hsep, IH.
Qed.

Lemma runs_aux_every cls s : forall cur,
  every cls cur = true ->
  Forall (fun r => every cls r = true) (runs_aux cls cur s).
Proof.
  induction s as [|c s IH]; intros cur Hcur; simpl.
  - destruct (is_empty cur); now repeat constructor.
  - destruct (cls c) eqn:E.
    + apply IH. rewrite every_app, Hcur. simpl. now rewrite E.
    + destruct (is_empty cur); [now apply IH|].
      constructor; [exact Hcur|now apply IH].
Qed.

Lemma runs_aux_whole cls s : forall cur,
  every cls s = true ->
  runs_aux cls cur s
  = if is_empty (cur ++ s) then [] else [(cur ++ s)%string].
Proof.
  induction s as [|c s IH]; intros cur H; simpl.
  - assert (E : (cur ++ "")%string = cur)
      by (clear; induction cur as [|x cur IH]; simpl; congruence).
    now rewrite E.
  - apply andb_true_iff in H. destruct H as [H1 H2]. rewrite H1.
    rewrite (IH _ H2), IndexedKeyFacts.append_assoc. reflexivity.
Qed.

Lemma space_is_english c : is_space c = true -> is_english c = true.
Proof.
  intros H. unfold is_english. rewrite H. now rewrite orb_true_r.
Qed.

Lemma extract_english_chars text :
  every is_english (extract_english text) = true.
Proof.
  unfold extract_english, strip.
  apply YearRangeFacts.every_rstrip, YearRangeFacts.every_lstrip, every_join.
  - reflexivity.
  - apply runs_aux_every. reflexivity.
Qed.

(** A text of the class without white space at its ends is its own
    English part. *)
Lemma extract_english_fixed t :
  every is_english t = true -> strip t = t ->
  extract_english t = t.
Proof.
  intros H Hs. unfold extract_english, findall.
  rewrite (runs_aux_whole _ _ _ H). cbn [append].
  destruct t as [|c t]; [reflexivity|]. cbn [is_empty join]. exact Hs.
Qed.

(** The characters of [s] that satisfy [P], in their order. *)
Fixpoint keep_chars (P : ascii -> bool) (s : string) : string :=
  match s with
  | EmptyString => EmptyString
  | String c s' => if P c then String c (keep_chars P s') else keep_chars P s'
  end.

(** The characters of a name that its English part is made of, the
    white space left out. *)
Definition solid_char (c : ascii) : bool := is_english c && negb (is_space c).

Definition solid (s : string) : string := keep_chars solid_char s.

Lemma append_nil_r s : (s ++ "")%string = s.
Proof. induction s as [|c s IH]; simpl; congruence. Qed.

Lemma keep_chars_app P s t :
  keep_chars P (s ++ t) = (keep_chars P s ++ keep_chars P t)%string.
Proof.
  induction s as [|c s IH]; simpl; [reflexivity|].
  destruct (P c); simpl; now rewrite IH.
Qed.

Lemma keep_chars_lstrip P s :
  (forall c, P c = true -> is_space c = false) ->
  keep_chars P (lstrip s) = keep_chars P s.
Proof.
  intros H. induction s as [|c s IH]; simpl; [reflexivity|].
  destruct (is_space c) eqn:E; [|reflexivity].
  destruct (P c) eqn:Ep; [|exact IH].
  rewrite (H _ Ep) in E. discriminate.
Qed.

Lemma keep_chars_rstrip P s :
  (forall c, P c = true -> is_space c = false) ->
  keep_chars P (rstrip s) = keep_chars P s.
Proof.
  intros H. induction s as [|c s IH]; simpl; [reflexivity|].
  destruct (is_space c && is_empty (rstrip s)) eqn:E.
  - apply andb_true_iff in E. destruct E as [E1 E2].
    destruct (P c) eqn:Ep; [rewrite (H _ Ep) in E1; discriminate|].
    rewrite <- IH. destruct (rstrip s); [reflexivity|discriminate].
  - simpl. now rewrite IH.
Qed.

Lemma keep_chars_strip P s :
  (forall c, P c = true -> is_space c = false) ->
  keep_chars P (strip s) = keep_chars P s.
Proof.
  intros H. unfold strip.
  now rewrite keep_chars_rstrip, keep_chars_lstrip.
Qed.

Lemma solid_char_no_space c : solid_char c = true -> is_space c = false.
Proof.
  unfold solid_char. intros H. apply andb_true_iff in H.
  now apply negb_true_iff.
Qed.

Lemma keep_chars_join_space P x l :
  P " "%char = false ->
  keep_chars P (join " " (x :: l))
  = (keep_chars P x ++ keep_chars P (join " " l))%string.
Proof.
  intros Hp. destruct l as [|y l].
  - cbn [join keep_chars]. now rewrite append_nil_r.
  - change (join " " (x :: y :: l))
      with (x ++ " " ++ join " " (y :: l))%string.
    rewrite !keep_chars_app. cbn [keep_chars]. now rewrite Hp.
Qed.

(** The runs of the class hold every character that [P] keeps, when
    [P] keeps characters of the class only. *)
Lemma keep_chars_runs P cls s : forall cur,
  (forall c, P c = true -> cls c = true) -> P " "%char = false ->
  keep_chars P (join " " (runs_aux cls cur s))
  = (keep_chars P cur ++ keep_chars P s)%string.
Proof.
  induction s as [|c s IH]; intros cur Hcls Hp; cbn [runs_aux].
  - destruct cur as [|x cur]; [reflexivity|].
    cbn [is_empty join]. cbn [keep_chars]. now rewrite append_nil_r.
  - destruct (cls c) eqn:E.
    + rewrite (IH _ Hcls Hp), keep_chars_app, IndexedKeyFacts.append_assoc.
      cbn [keep_chars]. now destruct (P c).
    + assert (Hc : P c = false).
      { destruct (P c) eqn:Ep; [|reflexivity].
        rewrite (Hcls _ Ep) in E. discriminate. }
      cbn [keep_chars]. rewrite Hc.
      destruct cur as [|x cur]; cbn [is_empty].
      * apply (IH EmptyString Hcls Hp).
      * rewrite (keep_chars_join_space _ _ _ Hp).
        now rewrite (IH EmptyString Hcls Hp).
Qed.

(** The English part of a text holds its solid characters, in their
    order. *)
Lemma solid_extract_english t : solid (extract_english t) = solid t.
Proof.
  unfold solid, extract_english, findall.
  rewrite keep_chars_strip by apply solid_char_no_space.
  rewrite keep_chars_runs; [reflexivity| |reflexivity].
  intros c H. unfold solid_char in H. now apply andb_true_iff in H.
Qed.

Lemma lstrip_spaces s : every is_space s = true -> lstrip s = EmptyString.
Proof.
  induction s as [|c s IH]; simpl; [reflexivity|]. intros H.
  apply andb_true_iff in H. destruct H as [H1 H2]. now rewrite H1, IH.
Qed.

Lemma english_without_solid s :
  every is_english s = true -> solid s = EmptyString ->
  every is_space s = true.
Proof.
  unfold solid. induction s as [|c s IH]; simpl; [reflexivity|].
  intros H. apply andb_true_iff in H. destruct H as [H1 H2].
  unfold solid_char at 1. rewrite H1. cbn [andb].
  destruct (is_space c); cbn [negb]; [exact (IH H2)|discriminate].
Qed.

(** The English part is empty exactly for a text without a solid
    character. *)
Lemma extract_english_empty t :
  extract_english t = EmptyString <-> solid t = EmptyString.
Proof.
  split; intros H.
  - rewrite <- solid_extract_english, H. reflexivity.
  - assert (Hs : strip (extract_english t) = extract_english t)
      by (unfold extract_english; apply strip_strip).
    rewrite <- Hs. unfold strip. rewrite lstrip_spaces; [reflexivity|].
    apply english_without_solid; [apply extract_english_chars|].
    now rewrite solid_extract_english.
Qed.

Lemma solid_strip s : solid (strip s) = solid s.
Proof. apply keep_chars_strip, solid_char_no_space. Qed.

Lemma every_strip P s : every P s = true -> every P (strip s) = true.
Proof.
  intros H. unfold strip.
  now apply YearRangeFacts.every_rstrip, YearRangeFacts.every_lstrip.
Qed.

(** X27.  The cleaned name of a product keeps the English of the name.
    For a name with a solid character - a letter, a digit or one of the
    marks of the class, white space apart - the cleaned name is made of
    characters of the class only, and its solid characters are those of
    the name, all of them and in their order: what is not English is
    dropped and nothing else.  A name without a solid character is
    stripped and otherwise left as it is, and so is a name that is
    English throughout.  The cleaned name has no white space at its
    ends, is not empty for a name that is not blank, and cleaning it
    again changes nothing. *)
Theorem cleaned_name_is_english_and_stable name :
  let cleaned := clean_product_name name in
  (solid name <> EmptyString ->
   every is_english cleaned = true /\ solid cleaned = solid name)
  /\ (solid name = EmptyString -> cleaned = strip name)
  /\ (every is_english name = true -> cleaned = strip name)
  /\ strip cleaned = cleaned
  /\ (PyStr.truthy (strip name) = true -> PyStr.truthy cleaned = true)
  /\ clean_product_name cleaned = cleaned.
Proof.
  cbv zeta. unfold clean_product_name.
  assert (Hs : strip (extract_english (strip name))
               = extract_english (strip name))
    by (unfold extract_english; apply strip_strip).
  destruct (PyStr.truthy (extract_english (strip name))) eqn:E.
  - split; [intros _; split;
            [apply extract_english_chars
            |now rewrite solid_extract_english, solid_strip]|].
    split.
    { intros H. rewrite <- solid_strip in H.
      apply extract_english_empty in H. rewrite H in E. discriminate. }
    split.
    { intros H. apply extract_english_fixed;
        [now apply every_strip|apply strip_strip]. }
    split; [exact Hs|]. split; [intros _; exact E|].
    rewrite Hs.
    rewrite (extract_english_fixed _ (extract_english_chars _) Hs).
    now rewrite E.
  - assert (He : extract_english (strip name) = EmptyString).
    { destruct (extract_english (strip name)); [reflexivity|discriminate]. }
    split.
    { intros H. apply extract_english_empty in He.
      rewrite solid_strip in He. contradiction. }
    split; [reflexivity|]. split; [reflexivity|].
    split; [apply strip_strip|]. split; [tauto|].
    rewrite strip_strip, He. reflexivity.
Qed.

End TextFacts.

(* ===================================================================== *)
(** * Items without links, and the item of a product *)
(* ===================================================================== *)

Module LookupFacts.

Import Frappe Sync Tasks Monad RunFacts.

(** X29.  An item that passes the gate and has no server link is
    refused: [run_item_sync] raises [ValidationError], with or without
    [enqueue], after two lines in the error log and nothing else - no
    call, no job, no write. *)
Theorem item_without_links_is_refused env fuel i enqueue w :
  passes_the_gate (db w) i ->
  woocommerce_servers i = [] ->
  run_item_sync env fuel None (Some i) None None enqueue w
  = (Raise ValidationError, logged "92" (logged "run_item_sync Debug" w)).
Proof.
  intros Hgate Hnone.
  rewrite (run_item_sync_from_item _ _ _ _ _ Hgate). now rewrite Hnone.
Qed.

Definition unlinked_item : Item := Fixture.plain_item "BRK-1" [].

Lemma item_without_links_is_refused_witness :
  run_item_sync (Fixture.env_of Fixture.accepting) 3 None (Some unlinked_item)
    None None false (Fixture.world_of (priced_db unlinked_item))
  = (Raise ValidationError,
     logged "92" (logged "run_item_sync Debug"
                    (Fixture.world_of (priced_db unlinked_item)))).
Proof.
  apply (item_without_links_is_refused (Fixture.env_of Fixture.accepting) 3
           unlinked_item false (Fixture.world_of (priced_db unlinked_item))).
  - repeat split; discriminate.
  - reflexivity.
Defined.

(** ** [get_erpnext_item] *)

(** The rows of the child table of an item as Frappe keeps them: the
    names differ and [idx] counts the rows from 1. *)
Definition rows_in_order (rows : list ItemWooCommerceServer) : Prop :=
  NoDup (map iws_name rows) /\
  forall k l, nth_error rows k = Some l -> idx l = S k.

Lemma find_by_name rows row :
  NoDup (map iws_name rows) -> In row rows ->
  find (fun s => String.eqb (iws_name s) (iws_name row)) rows = Some row.
Proof.
  induction rows as [|x rows IH]; simpl; intros Hnd Hin; [destruct Hin|].
  inversion Hnd as [|? ? Hx Hnd']; subst.
  destruct (String.eqb (iws_name x) (iws_name row)) eqn:E.
  - destruct Hin as [->|Hin]; [reflexivity|].
    apply String.eqb_eq in E. exfalso. apply Hx. rewrite E.
    now apply in_map.
  - destruct Hin as [->|Hin]; [now rewrite String.eqb_refl in E|].
    now apply IH.
Qed.

(** X30.  The lookup of the item of a remote product: when a link names
    the server and the id of the product, [get_erpnext_item] loads the
    item of that link and gives the run the index of the link, so that
    the link the run works on is the link that was found; nothing is
    written or sent. *)
Theorem linked_product_finds_its_item self p parent row i w :
  PyStr.truthy (woocommerce_server p) && is_set (woocommerce_id p) = true ->
  find (fun pl =>
          String.eqb (iws_woocommerce_server (snd pl)) (woocommerce_server p)
          && Json.py_eq (Json.of_opt_str (iws_woocommerce_id (snd pl)))
                        (Json.of_opt_str (woocommerce_id p)))
       (all_links (db w)) = Some (parent, row) ->
  find_item (db w) parent = Some i ->
  In row (woocommerce_servers i) ->
  rows_in_order (woocommerce_servers i) ->
  exists it,
    get_erpnext_item self p w
    = (Ok (mkSync (Some it) (self_woocommerce_product self) (wcapi self)), w)
    /\ item it = i
    /\ item_woocommerce_server it = Ok row.
Proof.
  intros Hp Hlink Hitem Hin [Hnd Hidx].
  exists (mkToSync i (idx row)). split; [|split; [reflexivity|]].
  - unfold get_erpnext_item. rewrite Hp. cbn [negb].
    unfold bind at 1, get_db. rewrite Hlink.
    unfold bind at 1, get_item, bind at 1, get_db. rewrite Hitem.
    unfold ret at 1. now rewrite (find_by_name _ _ Hnd Hin).
  - destruct (In_nth_error _ _ Hin) as [k Hk].
    unfold item_woocommerce_server.
    cbn [item item_woocommerce_server_idx].
    now rewrite (Hidx k row Hk), Hk.
Qed.

Definition product_77 : WooCommerceProduct :=
  mkProduct (Some "shop~77") "shop" (Some "77") (Some "Brake Pad")
            (Some 50%Z) "simple" "publish" JNull (JStr "77") [].

Definition link_77 : ItemWooCommerceServer :=
  mkIWS "L2" 2 "shop" (Some "77") 1 None 5.

Definition item_77 : Item :=
  Fixture.plain_item "BRK-1" [mkIWS "L1" 1 "other" (Some "77") 1 None 5;
                              link_77].

Lemma linked_product_finds_its_item_witness :
  exists it,
    get_erpnext_item (mkSync None (Some product_77) None) product_77
      (Fixture.world_of (priced_db item_77))
    = (Ok (mkSync (Some it) (Some product_77) None),
       Fixture.world_of (priced_db item_77))
    /\ item it = item_77
    /\ item_woocommerce_server it = Ok link_77.
Proof.
  apply (linked_product_finds_its_item (mkSync None (Some product_77) None)
           product_77 "BRK-1" link_77 item_77
           (Fixture.world_of (priced_db item_77)) eq_refl eq_refl eq_refl).
  - right. now left.
  - split.
    + repeat constructor; simpl; intuition discriminate.
    + intros [|[|k]] l H; simpl in H.
      * inversion H. reflexivity.
      * inversion H. reflexivity.
      * destruct k; discriminate.
Defined.

End LookupFacts.
